(** * Session feature-extraction pipeline: a shallow embedding

    The event table of [DataPreprocessor] ([self.merged_df]) and the stage
    methods that rewrite it, together with the taxonomy lookup and the
    block feature aggregator of [FunnelFeaturesExtractor], are embedded as
    functions on lists of rows.  A pandas table is a list of column names
    plus a list of rows; a method that raises returns [Raise]. *)

From stdpp Require Import base list strings gmap sorting pretty.
From Stdlib Require Import ZArith Lia.

Local Open Scope Z_scope.
#[local] Set Warnings "-clear-no-such-hyp".

(** ** Exceptions *)

Inductive Exn :=
  | ValueError (msg : string)
  | KeyError (missing : list string)
  | ZeroDivisionError.

Inductive result (A : Type) :=
  | Ok (a : A)
  | Raise (e : Exn).
Arguments Ok {A} a.
Arguments Raise {A} e.

Definition is_ok {A} (r : result A) : bool :=
  match r with Ok _ => true | Raise _ => false end.

(** ** Column names and constants of the source *)

Definition COL_DEVICE : string := "Идентификатор устройства".
Definition COL_SESSION_NO : string := "Номер сессии в рамках устройства".
Definition COL_TIME : string := "Дата и время события".
Definition COL_SCREEN : string := "Экран".
Definition COL_FUNCTIONAL : string := "Функционал".
Definition COL_ACTION : string := "Действие".
Definition COL_GSID : string := "global_session_id".
Definition COL_DURATION : string := "duration_seconds".
Definition COL_CLICK : string := "click_count".
Definition COL_DBL_DURATION : string := "dbl_duration_seconds".
Definition COL_DBL_COUNT : string := "dbl_count".

(** The sentinel action. *)
Definition not_specified : string := "Не указано".

(** ** Rows and tables *)

(** One row of [merged_df].  [event_time] is the instant in nanoseconds
    since the epoch ([None] is [NaT]); [global_session_id] is [None] where
    pandas would hold [NaN].  A field whose column is not listed in the
    table's [df_columns] is not read by any stage. *)
Record Event := mkEvent {
  device_id : Z;
  session_no : Z;
  event_time : option Z;
  screen : string;
  functional : string;
  action : string;
  global_session_id : option Z;
  duration_seconds : Z;
  click_count : Z;
  dbl_duration_seconds : Z;
  dbl_count : Z
}.

Global Instance Event_eq_dec : EqDecision Event.
Proof. solve_decision. Defined.

Record DataFrame := mkDF {
  df_columns : list string;
  df_rows : list Event
}.

Definition has_col (c : string) (df : DataFrame) : bool :=
  bool_decide (c ∈ df_columns df).

(** [str] of a list of column names, as an f-string prints it (the names
    hold no quote and no backslash). *)
Definition python_list_repr (l : list string) : string :=
  "[" +:+ String.concat ", " ((λ c, "'" +:+ c +:+ "'") <$> l) +:+ "]".

(** [df[cols]] raises [KeyError] naming the absent columns. *)
Definition missing_cols (cols : list string) (df : DataFrame) : list string :=
  filter (λ c, c ∉ df_columns df) cols.

(** Adding a column that exists already overwrites it in place. *)
Definition add_col (c : string) (cols : list string) : list string :=
  if bool_decide (c ∈ cols) then cols else cols ++ [c].

Definition set_gsid (g : option Z) (e : Event) : Event :=
  mkEvent (device_id e) (session_no e) (event_time e) (screen e)
    (functional e) (action e) g (duration_seconds e) (click_count e)
    (dbl_duration_seconds e) (dbl_count e).

Definition set_duration (d : Z) (e : Event) : Event :=
  mkEvent (device_id e) (session_no e) (event_time e) (screen e)
    (functional e) (action e) (global_session_id e) d (click_count e)
    (dbl_duration_seconds e) (dbl_count e).

Definition set_click_count (c : Z) (e : Event) : Event :=
  mkEvent (device_id e) (session_no e) (event_time e) (screen e)
    (functional e) (action e) (global_session_id e) (duration_seconds e) c
    (dbl_duration_seconds e) (dbl_count e).

Definition set_dbl_duration (d : Z) (e : Event) : Event :=
  mkEvent (device_id e) (session_no e) (event_time e) (screen e)
    (functional e) (action e) (global_session_id e) (duration_seconds e)
    (click_count e) d (dbl_count e).

Definition set_dbl_count (c : Z) (e : Event) : Event :=
  mkEvent (device_id e) (session_no e) (event_time e) (screen e)
    (functional e) (action e) (global_session_id e) (duration_seconds e)
    (click_count e) (dbl_duration_seconds e) c.

(** [astype('int32')]: two's-complement wrap-around to 32 bits. *)
Definition astype_int32 (z : Z) : Z :=
  (z + 2147483648) `mod` 4294967296 - 2147483648.

Definition int32_range (z : Z) : Prop := -2147483648 ≤ z < 2147483648.

(** ** Sorting

    [sort_values] on several keys is a stable lexicographic sort; missing
    values go last.  It is embedded as a stable insertion sort. *)

Section stable_sort.
Context {A : Type} (le : A → A → bool).

Fixpoint insert_by (x : A) (l : list A) : list A :=
  match l with
  | [] => [x]
  | y :: r => if le x y then x :: y :: r else y :: insert_by x r
  end.

Definition stable_sort (l : list A) : list A := foldr insert_by [] l.
End stable_sort.

(** Order on a nullable integer column, missing values last. *)
Definition opt_le (a b : option Z) : bool :=
  match a, b with
  | Some x, Some y => bool_decide (x ≤ y)
  | _, None => true
  | None, Some _ => false
  end.

Definition opt_lt (a b : option Z) : bool := negb (opt_le b a).

(** The order of [sort_values(by=['global_session_id', time_col])]. *)
Definition session_time_le (a b : Event) : bool :=
  opt_lt (global_session_id a) (global_session_id b)
  || (opt_le (global_session_id a) (global_session_id b)
      && opt_le (event_time a) (event_time b)).

Definition sort_values (l : list Event) : list Event :=
  stable_sort session_time_le l.

(** ** Session Identity Resolver: [DataPreprocessor.add_global_session_id] *)

Definition session_pair (e : Event) : Z * Z := (device_id e, session_no e).

(** [drop_duplicates]: the first occurrence of every row is kept. *)
Fixpoint drop_duplicates_from {A} `{EqDecision A} (seen l : list A) : list A :=
  match l with
  | [] => []
  | x :: r =>
      if bool_decide (x ∈ seen) then drop_duplicates_from seen r
      else x :: drop_duplicates_from (x :: seen) r
  end.

Definition drop_duplicates {A} `{EqDecision A} (l : list A) : list A :=
  drop_duplicates_from [] l.

(** The order of
    [sort_values(['Идентификатор устройства', 'Номер сессии в рамках устройства'])]. *)
Definition pair_le (p q : Z * Z) : bool :=
  bool_decide (p.1 < q.1) || (bool_decide (p.1 = q.1) && bool_decide (p.2 ≤ q.2)).

(** The distinct pairs, sorted, numbered [range(1, len + 1)]. *)
Definition sorted_pairs (rows : list Event) : list (Z * Z) :=
  stable_sort pair_le (drop_duplicates (session_pair <$> rows)).

Definition unique_sessions (rows : list Event) : list (Z * Z * Z) :=
  let pairs := sorted_pairs rows in
  zip pairs (seqZ 1 (Z.of_nat (length pairs))).

(** [merge(unique_sessions, on=[...], how='left')]: every left row is paired
    with each right row of equal key, in right order; a left row without a
    match is kept with a missing id. *)
Definition merge_left (rows : list Event) (right : list (Z * Z * Z)) : list Event :=
  rows ≫= (λ e,
    match filter (λ u, u.1 = session_pair e) right with
    | [] => [set_gsid None e]
    | ms => (λ u, set_gsid (Some u.2) e) <$> ms
    end).

Definition add_global_session_id (merged_df : option DataFrame) : result DataFrame :=
  match merged_df with
  | None => Raise (ValueError "merged_df не загружен")
  | Some df =>
      if bool_decide (df_rows df = []) then
        Raise (ValueError "merged_df не загружен")
      else
        match missing_cols [COL_DEVICE; COL_SESSION_NO] df with
        | (_ :: _) as miss => Raise (KeyError miss)
        | [] =>
            (* an id column present before the merge is renamed with a
               suffix, and the read of 'global_session_id' fails *)
            if has_col COL_GSID df then Raise (KeyError [COL_GSID])
            else if negb (has_col COL_TIME df) then Raise (KeyError [COL_TIME])
            else
              let merged := merge_left (df_rows df) (unique_sessions (df_rows df)) in
              Ok (mkDF (df_columns df ++ [COL_GSID]) (sort_values merged))
        end
  end.

(** Strict lexicographic order on (device id, session number) pairs. *)
Definition pair_lt (p q : Z * Z) : Prop := p.1 < q.1 ∨ (p.1 = q.1 ∧ p.2 < q.2).

(** The table the resolver accepts: rows present, the two key columns and
    the time column present, no id column yet. *)
Definition resolver_ready (df : DataFrame) : Prop :=
  df_rows df ≠ [] ∧ COL_DEVICE ∈ df_columns df ∧ COL_SESSION_NO ∈ df_columns df ∧
  COL_TIME ∈ df_columns df ∧ COL_GSID ∉ df_columns df.

(** ** Temporal Normalizer: [DataPreprocessor.calculate_event_duration] *)

(** Two rows lie in the same [groupby('global_session_id')] group; a row
    with a missing id is in no group. *)
Definition same_session (a b : Event) : Prop :=
  is_Some (global_session_id a) ∧ global_session_id a = global_session_id b.

Global Instance same_session_dec : RelDecision same_session.
Proof. intros a b. unfold same_session. apply _. Defined.

(** [groupby('global_session_id')[col].shift(-1)]: the next row of the
    same session, if any. *)
Definition next_in_session (e : Event) (later : list Event) : option Event :=
  head (filter (same_session e) later).

Definition NS_PER_SECOND : Z := 1000000000.

(** [(next_time - time).dt.total_seconds().fillna(0).astype('int32')]:
    the gap in seconds, truncated toward zero; 0 where either instant is
    missing. *)
Definition seconds_between (t next : option Z) : Z :=
  match t, next with
  | Some a, Some b => astype_int32 ((b - a) `quot` NS_PER_SECOND)
  | _, _ => astype_int32 0
  end.

Fixpoint with_durations (l : list Event) : list Event :=
  match l with
  | [] => []
  | e :: r =>
      let next_time := next_in_session e r ≫= event_time in
      set_duration (seconds_between (event_time e) next_time) e :: with_durations r
  end.

Definition calculate_event_duration (merged_df : option DataFrame) : result DataFrame :=
  match merged_df with
  | None => Raise (ValueError "merged_df не загружен")
  | Some df =>
      if bool_decide (df_rows df = []) then
        Raise (ValueError "merged_df не загружен")
      else if negb (has_col COL_GSID df) then
        Raise (ValueError "Требуется global_session_id (выполните add_global_session_id)")
      else if negb (has_col COL_TIME df) then
        Raise (ValueError "Колонка 'Дата и время события' не найдена")
      else
        Ok (mkDF (add_col COL_DURATION (df_columns df))
              (with_durations (sort_values (df_rows df))))
  end.

(** The rows of one session, in table order. *)
Definition session_rows (s : Z) (l : list Event) : list Event :=
  filter (λ e, global_session_id e = Some s) l.

Definition sum_Z (l : list Z) : Z := foldr Z.add 0 l.

(** The whole-second gap from each instant to the next, 0 for the last. *)
Fixpoint second_gaps (ts : list Z) : list Z :=
  match ts with
  | [] => []
  | t :: r =>
      match r with
      | [] => 0
      | t' :: _ => (t' - t) `quot` NS_PER_SECOND
      end :: second_gaps r
  end.

(** Every gap between consecutive instants is a whole number of seconds. *)
Fixpoint whole_second_gaps (ts : list Z) : Prop :=
  match ts with
  | [] => True
  | t :: r =>
      match r with
      | [] => True
      | t' :: _ => (t' - t) `mod` NS_PER_SECOND = 0
      end ∧ whole_second_gaps r
  end.

(** The durations of the rows of one session, from their instants in
    table order. *)
Fixpoint time_gaps (ts : list (option Z)) : list Z :=
  match ts with
  | [] => []
  | t :: r => seconds_between t (mjoin (head r)) :: time_gaps r
  end.

Definition duration_ready (df : DataFrame) : Prop :=
  df_rows df ≠ [] ∧ COL_GSID ∈ df_columns df ∧ COL_TIME ∈ df_columns df.

(** Sample tables. *)
Definition base_columns : list string :=
  [COL_TIME; COL_DEVICE; COL_SESSION_NO; COL_SCREEN; COL_FUNCTIONAL; COL_ACTION].

Definition session_columns : list string := base_columns ++ [COL_GSID].

Definition raw_event (dev sess : Z) (t : Z) (scr fn act : string) : Event :=
  mkEvent dev sess (Some t) scr fn act None 0 0 0 0.

Definition session_event (s : Z) (t : Z) (scr fn act : string) (d : Z) : Event :=
  mkEvent s 1 (Some t) scr fn act (Some s) d 0 0 0.

Definition sample_raw_table : DataFrame :=
  mkDF base_columns
    [raw_event 2 1 5 "Еще" "Открытие экрана" "Не указано";
     raw_event 1 7 3 "Заявки" "Просмотр списка" "Тап на заявку";
     raw_event 2 1 1 "Заявки" "Просмотр списка" "Тап на заявку";
     raw_event 1 2 9 "Еще" "Открытие экрана" "Не указано"].

(** A non-empty table without the session-number column. *)
Definition table_without_session_no : DataFrame :=
  mkDF [COL_TIME; COL_DEVICE; COL_SCREEN; COL_FUNCTIONAL; COL_ACTION]
    [raw_event 2 1 5 "Еще" "Открытие экрана" "Не указано"].

(** Scenario C: one session with events at 10:00:00, 10:00:05, 10:00:12. *)
Definition scenario_C_table : DataFrame :=
  mkDF session_columns
    [session_event 1 (36012 * NS_PER_SECOND) "Заявки" "Просмотр списка" "Тап на заявку" 0;
     session_event 1 (36000 * NS_PER_SECOND) "Еще" "Открытие экрана" "Не указано" 0;
     session_event 1 (36005 * NS_PER_SECOND) "Заявки" "Открытие экрана" "Не указано" 0].

(** One session with events half a second apart. *)
Definition subsecond_table : DataFrame :=
  mkDF session_columns
    [session_event 1 0 "Еще" "Открытие экрана" "Не указано" 0;
     session_event 1 500000000 "Заявки" "Открытие экрана" "Не указано" 0;
     session_event 1 1000000000 "Заявки" "Просмотр списка" "Тап на заявку" 0].

(** ** Taxonomy Lookup: [FunnelFeaturesExtractor._build_action_lookup] *)

(** The taxonomy document ([data['blocks']]).  A typed action list that is
    absent from a group is the empty list ([group.get(action_type, [])]). *)
Record ActionObj := mkAction {
  ao_action : string;
  ao_step : option Z
}.

Record Group := mkGroup {
  g_screen : string;
  g_functional : string;
  regular_actions : list ActionObj;
  cancel_actions : list ActionObj;
  exit_actions : list ActionObj;
  success_review : list ActionObj;
  success_actions : list ActionObj
}.

Record Block := mkBlock {
  block_name : string;
  block_groups : list Group
}.

Abbreviation Triple := (string * string * string)%type.

Definition event_key (e : Event) : Triple := (screen e, functional e, action e).

Definition group_key (g : Group) (ao : ActionObj) : Triple :=
  (g_screen g, g_functional g, ao_action ao).

Record ActionLookup := mkLookup {
  action_to_block : gmap Triple (string * Z);
  success_lookup : gmap Triple string;
  review_lookup : gmap Triple string
}.

(** The action lists the first inner loop of [_build_action_lookup] walks:
    ['regular_actions', 'cancel_actions', 'exit_actions', 'success_actions']. *)
Definition block_action_lists (g : Group) : list ActionObj :=
  regular_actions g ++ cancel_actions g ++ exit_actions g ++ success_actions g.

(** The five typed action lists of a group. *)
Definition all_action_lists (g : Group) : list ActionObj :=
  regular_actions g ++ cancel_actions g ++ exit_actions g
  ++ success_review g ++ success_actions g.

Definition lookup_add_group (bname : string) (acc : ActionLookup) (g : Group)
  : ActionLookup :=
  let a2b :=
    foldl (λ m ao, <[group_key g ao := (bname, default 0 (ao_step ao))]> m)
      (action_to_block acc) (block_action_lists g) in
  let succ :=
    foldl (λ m ao, <[group_key g ao := bname]> m)
      (success_lookup acc) (success_actions g) in
  let rev :=
    foldl (λ m ao, <[group_key g ao := bname]> m)
      (review_lookup acc) (success_review g) in
  mkLookup a2b succ rev.

Definition lookup_add_block (acc : ActionLookup) (b : Block) : ActionLookup :=
  foldl (lookup_add_group (block_name b)) acc (block_groups b).

Definition build_action_lookup (blocks_data : list Block) : ActionLookup :=
  foldl lookup_add_block (mkLookup ∅ ∅ ∅) blocks_data.

(** A triple appears in one of the five typed lists of a block. *)
Definition in_block_lists (k : Triple) (b : Block) : Prop :=
  ∃ g ao, g ∈ block_groups b ∧ ao ∈ all_action_lists g ∧ group_key g ao = k.

(** A taxonomy whose only action is a review action. *)
Definition review_only_taxonomy : list Block :=
  [mkBlock "Профиль"
     [mkGroup "Профиль" "Просмотр профиля" [] [] []
        [mkAction "Открытие экрана" (Some 1)] []]].

(** ** Trailing menu events: [DataPreprocessor.remove_trailing_empty_screens] *)

Definition target_screen : string := "Еще".
Definition target_function : string := "Открытие экрана".
Definition target_action : string := "Не указано".

Definition is_trailing_target (e : Event) : Prop :=
  screen e = target_screen ∧ functional e = target_function ∧ action e = target_action.

Global Instance is_trailing_target_dec e : Decision (is_trailing_target e).
Proof. unfold is_trailing_target. apply _. Defined.

(** [groupby('global_session_id').tail(1)]: the row is the last one of its
    group. *)
Definition is_last_in_session (e : Event) (later : list Event) : Prop :=
  is_Some (global_session_id e) ∧ next_in_session e later = None.

Global Instance is_last_in_session_dec e later : Decision (is_last_in_session e later).
Proof. unfold is_last_in_session. apply _. Defined.

(** The [to_remove] column. *)
Fixpoint to_remove_flags (l : list Event) : list bool :=
  match l with
  | [] => []
  | e :: r =>
      bool_decide (is_last_in_session e r ∧ is_trailing_target e) :: to_remove_flags r
  end.

(** [df[~df['to_remove']]] *)
Definition drop_flagged (l : list Event) (flags : list bool) : list Event :=
  (filter (λ p : Event * bool, p.2 = false) (zip l flags)).*1.

Definition remove_trailing_empty_screens (merged_df : option DataFrame)
  : result DataFrame :=
  match merged_df with
  | None => Raise (ValueError "merged_df не загружен")
  | Some df =>
      if bool_decide (df_rows df = []) then
        Raise (ValueError "merged_df не загружен")
      else if negb (has_col COL_GSID df) then
        Raise (ValueError "Требуется global_session_id (выполните add_global_session_id)")
      else
        match missing_cols [COL_SCREEN; COL_FUNCTIONAL; COL_ACTION] df with
        | c :: _ => Raise (ValueError ("Колонка '" +:+ c +:+ "' не найдена в данных"))
        | [] =>
            if negb (has_col COL_TIME df) then Raise (KeyError [COL_TIME])
            else
              let sorted := sort_values (df_rows df) in
              let to_remove := to_remove_flags sorted in
              let rows_to_remove_count := length (filter (λ b, b = true) to_remove) in
              if bool_decide (rows_to_remove_count = 0%nat) then
                Ok (mkDF (df_columns df) sorted)
              else
                Ok (mkDF (df_columns df) (drop_flagged sorted to_remove))
        end
  end.

Definition trailing_ready (df : DataFrame) : Prop :=
  df_rows df ≠ [] ∧ COL_GSID ∈ df_columns df ∧ COL_SCREEN ∈ df_columns df ∧
  COL_FUNCTIONAL ∈ df_columns df ∧ COL_ACTION ∈ df_columns df ∧
  COL_TIME ∈ df_columns df.

(** The events of one session without the final event when that one is the
    target triple. *)
Definition drop_trailing_target (evs : list Event) : list Event :=
  match last evs with
  | Some e => if decide (is_trailing_target e) then removelast evs else evs
  | None => evs
  end.

(** One session listed latest event first; it does not end on the menu
    screen. *)
Definition unsorted_table : DataFrame :=
  mkDF session_columns
    [session_event 1 20 "Заявки" "Просмотр списка" "Тап на заявку" 0;
     session_event 1 10 "Еще" "Открытие экрана" "Не указано" 0].

(** Two sessions; the first ends on the menu screen, and has the same
    triple once before the end. *)
Definition trailing_table : DataFrame :=
  mkDF session_columns
    [session_event 1 10 "Еще" "Открытие экрана" "Не указано" 0;
     session_event 1 20 "Заявки" "Просмотр списка" "Тап на заявку" 0;
     session_event 1 30 "Еще" "Открытие экрана" "Не указано" 0;
     session_event 2 5 "Еще" "Открытие экрана" "Не указано" 0;
     session_event 2 6 "Заявки" "Просмотр списка" "Тап на заявку" 0].

(** ** Cohort Labeler: [DataPreprocessor.add_user_cohort_status] *)

Definition NS_PER_DAY : Z := 86400 * NS_PER_SECOND.

(** [.dt.month] of a UTC instant: the month of the proleptic Gregorian
    date of the day the instant falls on. *)
Definition month_of_days (days : Z) : Z :=
  let z := days + 719468 in
  let era := z `div` 146097 in
  let doe := z - era * 146097 in
  let yoe := (doe - doe `div` 1460 + doe `div` 36524 - doe `div` 146096) `div` 365 in
  let doy := doe - (365 * yoe + yoe `div` 4 - yoe `div` 100) in
  let mp := (5 * doy + 2) `div` 153 in
  if bool_decide (mp < 10) then mp + 3 else mp - 9.

Definition event_month (e : Event) : option Z :=
  (λ t, month_of_days (t `div` NS_PER_DAY)) <$> event_time e.

Record CohortFlags := mkFlags {
  is_lost : bool;
  is_stay : bool;
  is_new : bool
}.

(** [groupby(device)['_temp_month'].apply(lambda x: set(x.dropna().unique())).to_dict()] *)
Definition user_months (rows : list Event) : gmap Z (gset Z) :=
  foldr (λ e m,
           let months := default ∅ (m !! device_id e) in
           <[device_id e :=
               match event_month e with
               | Some mo => {[mo]} ∪ months
               | None => months
               end]> m)
        ∅ rows.

(** The body of the classification loop. *)
Definition classify_months (months : gset Z) : CohortFlags :=
  let has_september := bool_decide (9 ∈ months) in
  let has_october := bool_decide (10 ∈ months) in
  if has_september && negb has_october then mkFlags true false false
  else if has_september && has_october then mkFlags false true false
  else if negb has_september && has_october then mkFlags false false true
  else mkFlags false false false.

Definition user_status (rows : list Event) : gmap Z CohortFlags :=
  classify_months <$> user_months rows.

(** [user_status.get(x, {}).get(flag, False)] *)
Definition status_flag (status : gmap Z CohortFlags) (flag : CohortFlags → bool)
    (dev : Z) : bool :=
  match status !! dev with
  | Some fl => flag fl
  | None => false
  end.

Definition add_user_cohort_status (df : option DataFrame)
  : result (list string * list (Event * CohortFlags)) :=
  match df with
  | None => Raise (ValueError "DataFrame пустой или None")
  | Some df =>
      if bool_decide (df_rows df = []) then
        Raise (ValueError "DataFrame пустой или None")
      else
        match missing_cols [COL_TIME; COL_DEVICE] df with
        | (_ :: _) as miss =>
            Raise (ValueError ("Отсутствуют необходимые колонки: "
                               +:+ python_list_repr miss))
        | [] =>
            let status := user_status (df_rows df) in
            Ok (df_columns df ++ ["is_lost"; "is_stay"; "is_new"],
                (λ e, (e, mkFlags (status_flag status is_lost (device_id e))
                                  (status_flag status is_stay (device_id e))
                                  (status_flag status is_new (device_id e))))
                  <$> df_rows df)
        end
  end.

(** The device has an event in the given calendar month. *)
Definition active_in (month : Z) (dev : Z) (rows : list Event) : Prop :=
  ∃ e, e ∈ rows ∧ device_id e = dev ∧ event_month e = Some month.

Definition cohort_ready (df : DataFrame) : Prop :=
  df_rows df ≠ [] ∧ COL_TIME ∈ df_columns df ∧ COL_DEVICE ∈ df_columns df.

(** 2025-08-15, 2025-09-29, 2025-10-02 and 2025-10-20 at 10:20:27 UTC. *)
Definition t_aug15 : Z := 1755253227 * NS_PER_SECOND.
Definition t_sep29 : Z := 1759141227 * NS_PER_SECOND.
Definition t_oct02 : Z := 1759400427 * NS_PER_SECOND.
Definition t_oct20 : Z := 1760955627 * NS_PER_SECOND.

(** Device 1 is seen in September only, device 2 in both months, device 3
    in October only, device 4 in August only. *)
Definition cohort_table : DataFrame :=
  mkDF base_columns
    [raw_event 1 1 t_sep29 "Заявки" "Просмотр списка" "Тап на заявку";
     raw_event 2 1 t_sep29 "Заявки" "Просмотр списка" "Тап на заявку";
     raw_event 2 2 t_oct02 "Еще" "Открытие экрана" "Не указано";
     raw_event 3 1 t_oct20 "Еще" "Открытие экрана" "Не указано";
     raw_event 4 1 t_aug15 "Еще" "Открытие экрана" "Не указано";
     raw_event 1 2 t_sep29 "Еще" "Открытие экрана" "Не указано"].

(** ** Maximal runs of adjacent rows *)

Section adjacent_runs.
Context {A : Type} (R : A → A → Prop) `{!RelDecision R}.

(** Consecutive elements are related. *)
Fixpoint chain (l : list A) : Prop :=
  match l with
  | x :: r => match r with y :: _ => R x y | [] => True end ∧ chain r
  | [] => True
  end.

(** [Gs] cuts a list into its maximal runs, given the element that
    precedes the list. *)
Fixpoint is_runs (prev : option A) (Gs : list (list A)) : Prop :=
  match Gs with
  | [] => True
  | G :: Gs' =>
      G ≠ [] ∧ chain G ∧
      (∀ p x, prev = Some p → head G = Some x → ¬ R p x) ∧
      is_runs (last G) Gs'
  end.

(** The maximal runs of a list. *)
Fixpoint group_adjacent (l : list A) : list (list A) :=
  match l with
  | [] => []
  | e :: r =>
      match group_adjacent r with
      | (x :: G) :: Gs =>
          if decide (R e x) then (e :: x :: G) :: Gs else [e] :: (x :: G) :: Gs
      | _ => [[e]]
      end
  end.

(** The group-id column: a row opens a new group unless it is related
    to the row before it; ids are the running count of opened groups. *)
Fixpoint label_adjacent (prev : option A) (c : nat) (l : list A) : list (nat * A) :=
  match l with
  | [] => []
  | e :: r =>
      let new_group :=
        match prev with
        | Some p => bool_decide (¬ R p e)
        | None => true
        end in
      let g := if new_group then S c else c in
      (g, e) :: label_adjacent (Some e) g r
  end.

(** The runs numbered [c + 1], [c + 2], ... *)
Fixpoint label_runs (c : nat) (Gs : list (list A)) : list (nat * A) :=
  match Gs with
  | [] => []
  | G :: Gs' => ((S c,.) <$> G) ++ label_runs (S c) Gs'
  end.
End adjacent_runs.

(** [series.cumsum()] of a boolean column. *)
Fixpoint cumsum (acc : nat) (flags : list bool) : list nat :=
  match flags with
  | [] => []
  | b :: r => let acc' := if b then S acc else acc in acc' :: cumsum acc' r
  end.

(** [groupby('global_session_id')[col].shift(1)]: the nearest earlier row
    of the same session ([before] holds the earlier rows, nearest first). *)
Definition prev_in_session (e : Event) (before : list Event) : option Event :=
  head (filter (same_session e) before).

(** [df['global_session_id'] != df['global_session_id'].shift(1)]; a
    missing id differs from everything. *)
Definition session_changed (e : Event) (before : list Event) : bool :=
  match head before with
  | Some p => bool_decide (¬ same_session p e)
  | None => true
  end.

(** The rows of one group of an id-labelled table. *)
Definition group_members {A} (g : nat) (all : list (nat * A)) : list A :=
  (filter (λ p : nat * A, p.1 = g) all).*2.

(** ** Duplicate Collapser, run collapse:
       [DataPreprocessor.remove_consecutive_duplicates_with_clicks] *)

Definition comparison_key (e : Event) : string :=
  screen e +:+ "|" +:+ functional e +:+ "|" +:+ action e.

(** [(comparison_key == prev_key).fillna(False)] *)
Definition is_duplicate (e : Event) (before : list Event) : bool :=
  bool_decide (comparison_key <$> prev_in_session e before = Some (comparison_key e)).

(** The [new_group] column. *)
Fixpoint new_group_flags (before l : list Event) : list bool :=
  match l with
  | [] => []
  | e :: r =>
      (negb (is_duplicate e before) || session_changed e before)
        :: new_group_flags (e :: before) r
  end.

(** The [group_id] column. *)
Definition group_ids (l : list Event) : list nat := cumsum 0 (new_group_flags [] l).

Definition is_meaningful_action (e : Event) : Prop := action e ≠ not_specified.

Global Instance is_meaningful_action_dec e : Decision (is_meaningful_action e).
Proof. unfold is_meaningful_action. apply _. Defined.

(** [cumcount(ascending=False) == 0]: no later row carries the group id. *)
Definition is_last_in_group {A} (g : nat) (later : list (nat * A)) : Prop :=
  filter (λ p : nat * A, p.1 = g) later = [].

Global Instance is_last_in_group_dec {A} g (later : list (nat * A)) :
  Decision (is_last_in_group g later).
Proof.
  unfold is_last_in_group. destruct (filter _ later); [left|right]; done.
Defined.

(** The [is_removed] rows of one group: its members that are not the last
    row of the group. *)
Fixpoint removed_members {A} (g : nat) (all : list (nat * A)) : list A :=
  match all with
  | [] => []
  | (g', e) :: r =>
      if decide (g' = g ∧ ¬ is_last_in_group g' r) then e :: removed_members g r
      else removed_members g r
  end.

(** The four fields written into the last row of a group. *)
Definition finalize_last (members removed : list Event) (e : Event) : Event :=
  let meaningful_actions_count :=
    Z.of_nat (length (filter is_meaningful_action members)) in
  let total_duration := sum_Z (duration_seconds <$> members) in
  let removed_duration := sum_Z (duration_seconds <$> removed) in
  (* 'global_session_id': 'count' counts the ids that are not missing *)
  let group_size :=
    Z.of_nat (length (filter (λ m, is_Some (global_session_id m)) members)) in
  set_dbl_count (group_size - 1)
    (set_dbl_duration (astype_int32 removed_duration)
       (set_duration total_duration
          (set_click_count (Z.max 1 meaningful_actions_count) e))).

(** [df[df['is_last_in_group']]], each kept row with the statistics of its
    group mapped back onto it. *)
Fixpoint keep_last_rows (all rest : list (nat * Event)) : list Event :=
  match rest with
  | [] => []
  | (g, e) :: r =>
      if decide (is_last_in_group g r) then
        finalize_last (group_members g all) (removed_members g all) e
          :: keep_last_rows all r
      else keep_last_rows all r
  end.

Definition run_collapse_rows (l : list Event) : list Event :=
  let all := zip (group_ids l) l in
  keep_last_rows all all.

Definition reset_counters (e : Event) : Event :=
  set_dbl_count 0 (set_dbl_duration 0 (set_click_count 0 e)).

Definition remove_consecutive_duplicates_with_clicks (merged_df : option DataFrame)
  : result DataFrame :=
  match merged_df with
  | None => Raise (ValueError "merged_df не загружен")
  | Some df =>
      if bool_decide (df_rows df = []) then
        Raise (ValueError "merged_df не загружен")
      else if negb (has_col COL_GSID df) then
        Raise (ValueError "Сначала выполните add_global_session_id()")
      else
        let rows1 := reset_counters <$> df_rows df in
        let cols1 :=
          add_col COL_DBL_COUNT (add_col COL_DBL_DURATION
            (add_col COL_CLICK (df_columns df))) in
        let rows2 :=
          if has_col COL_DURATION df then rows1 else set_duration 0 <$> rows1 in
        let cols2 := add_col COL_DURATION cols1 in
        match missing_cols [COL_SCREEN; COL_FUNCTIONAL; COL_ACTION] df with
        | c :: _ => Raise (ValueError ("Колонка '" +:+ c +:+ "' не найдена в данных"))
        | [] =>
            if negb (has_col COL_TIME df) then Raise (KeyError [COL_TIME])
            else Ok (mkDF cols2 (run_collapse_rows (sort_values rows2)))
        end
  end.

(** Two rows belong to one run: same session, same composite key. *)
Definition same_run (p e : Event) : Prop :=
  same_session p e ∧ comparison_key p = comparison_key e.

Global Instance same_run_dec : RelDecision same_run.
Proof. intros p e. unfold same_run. apply _. Defined.

(** The row a run collapses to. *)
Definition merge_run (G : list Event) : option Event :=
  finalize_last G (removelast G) <$> last G.

Definition collapse_ready (df : DataFrame) : Prop :=
  df_rows df ≠ [] ∧ COL_GSID ∈ df_columns df ∧ COL_DURATION ∈ df_columns df ∧
  COL_SCREEN ∈ df_columns df ∧ COL_FUNCTIONAL ∈ df_columns df ∧
  COL_ACTION ∈ df_columns df ∧ COL_TIME ∈ df_columns df.

Definition duration_columns : list string := session_columns ++ [COL_DURATION].

(** One session on the screen with durations 3, 2, 5, 5:
    two unlabelled rows followed by two taps (two runs). *)
Definition two_runs_table : DataFrame :=
  mkDF duration_columns
    [session_event 1 0 "Еще" "Открытие экрана" "Не указано" 3;
     session_event 1 3 "Еще" "Открытие экрана" "Не указано" 2;
     session_event 1 5 "Еще" "Открытие экрана" "Тап на кнопку" 5;
     session_event 1 10 "Еще" "Открытие экрана" "Тап на кнопку" 5].

(** Session 1 holds one event; session 2 holds three consecutive taps on
    one key with durations 5, 3, 10 and then an event on another screen. *)
Definition run_table : DataFrame :=
  mkDF duration_columns
    [session_event 2 30 "Заявки" "Просмотр списка" "Тап на заявку" 10;
     session_event 1 7 "Еще" "Открытие экрана" "Не указано" 0;
     session_event 2 10 "Заявки" "Просмотр списка" "Тап на заявку" 5;
     session_event 2 40 "Еще" "Открытие экрана" "Не указано" 0;
     session_event 2 20 "Заявки" "Просмотр списка" "Тап на заявку" 3].

Definition run_table_pre : list Event :=
  [session_event 1 7 "Еще" "Открытие экрана" "Не указано" 0].

Definition run_table_run : list Event :=
  [session_event 2 10 "Заявки" "Просмотр списка" "Тап на заявку" 5;
   session_event 2 20 "Заявки" "Просмотр списка" "Тап на заявку" 3;
   session_event 2 30 "Заявки" "Просмотр списка" "Тап на заявку" 10].

Definition run_table_post : list Event :=
  [session_event 2 40 "Еще" "Открытие экрана" "Не указано" 0].

(** The part of a row that decides run membership. *)
Definition run_key (e : Event) : option Z * string :=
  (global_session_id e, comparison_key e).


(** The part of a row [sort_values] looks at. *)
Definition sort_key (e : Event) : option Z * option Z :=
  (global_session_id e, event_time e).

(** ** Duplicate Collapser, screen collapse:
       [DataPreprocessor.collapse_intermediate_screens] *)

(** The [screen_changed] column: the screen differs from the screen of the
    previous row of the session, or the session changes. *)
Definition screen_changed (e : Event) (before : list Event) : bool :=
  bool_decide (screen <$> prev_in_session e before ≠ Some (screen e))
  || session_changed e before.

Fixpoint screen_changed_flags (before l : list Event) : list bool :=
  match l with
  | [] => []
  | e :: r => screen_changed e before :: screen_changed_flags (e :: before) r
  end.

(** The [screen_group_id] column. *)
Definition screen_group_ids (l : list Event) : list nat :=
  cumsum 0 (screen_changed_flags [] l).

(** A row of the working table: the event and its [to_remove] mark. *)
Definition is_unspecified (r : Event * bool) : Prop := action r.1 = not_specified.

Global Instance is_unspecified_dec r : Decision (is_unspecified r).
Proof. unfold is_unspecified. apply _. Defined.

(** [df.loc[meaningful_indices[0], 'duration_seconds'] += d]: the first
    row of the group whose action is not the sentinel. *)
Fixpoint add_to_first_meaningful (g : nat) (d : Z) (st : list (nat * (Event * bool)))
  : list (nat * (Event * bool)) :=
  match st with
  | [] => []
  | (g', r) :: rest =>
      if decide (g' = g ∧ ¬ is_unspecified r) then
        (g', (set_duration (duration_seconds r.1 + d) r.1, r.2)) :: rest
      else (g', r) :: add_to_first_meaningful g d rest
  end.

(** [df.loc[not_specified_indices, 'to_remove'] = True] *)
Definition mark_unspecified (g : nat) (st : list (nat * (Event * bool)))
  : list (nat * (Event * bool)) :=
  (λ p : nat * (Event * bool),
     if decide (p.1 = g ∧ is_unspecified p.2) then (p.1, (p.2.1, true)) else p) <$> st.

(** One iteration of the loop over the screen groups. *)
Definition screen_group_step (st : list (nat * (Event * bool))) (g : nat)
  : list (nat * (Event * bool)) :=
  let group_df := group_members g st in
  if bool_decide (length group_df < 2)%nat then st
  else
    let not_specified_rows := filter is_unspecified group_df in
    let meaningful_rows := filter (λ r, ¬ is_unspecified r) group_df in
    if bool_decide (not_specified_rows = []) then st
    else if bool_decide (meaningful_rows = []) then st
    else
      let sum_not_specified_duration :=
        sum_Z ((λ r : Event * bool, duration_seconds r.1) <$> not_specified_rows) in
      mark_unspecified g (add_to_first_meaningful g sum_not_specified_duration st).

(** The working table before the loop: group id, event, [to_remove = False]. *)
Definition screen_groups (l : list Event) : list (nat * (Event * bool)) :=
  zip (screen_group_ids l) ((λ e, (e, false)) <$> l).

Definition screen_collapse_rows (l : list Event) : list Event :=
  let st0 := screen_groups l in
  let st := foldl screen_group_step st0 (drop_duplicates st0.*1) in
  (filter (λ p : nat * (Event * bool), p.2.2 = false) st).*2.*1.

Definition collapse_intermediate_screens (merged_df : option DataFrame)
  : result DataFrame :=
  match merged_df with
  | None => Raise (ValueError "merged_df не загружен")
  | Some df =>
      if bool_decide (df_rows df = []) then
        Raise (ValueError "merged_df не загружен")
      else if negb (has_col COL_GSID df) then
        Raise (ValueError "Требуется global_session_id")
      else
        let rows1 :=
          if has_col COL_DURATION df then df_rows df
          else set_duration 0 <$> df_rows df in
        let cols1 := add_col COL_DURATION (df_columns df) in
        if negb (has_col COL_TIME df) then Raise (KeyError [COL_TIME])
        else if negb (has_col COL_SCREEN df) then Raise (KeyError [COL_SCREEN])
        (* the action column is read inside the loop, for a group of two
           rows or more, and by the closing statistics in any case *)
        else if negb (has_col COL_ACTION df) then Raise (KeyError [COL_ACTION])
        else Ok (mkDF cols1 (screen_collapse_rows (sort_values rows1)))
  end.

(** Two rows belong to one screen run: same session, same screen. *)
Definition same_screen_run (p e : Event) : Prop :=
  same_session p e ∧ screen p = screen e.

Global Instance same_screen_run_dec : RelDecision same_screen_run.
Proof. intros p e. unfold same_screen_run. apply _. Defined.

Definition is_sentinel (e : Event) : Prop := action e = not_specified.

Global Instance is_sentinel_dec e : Decision (is_sentinel e).
Proof. unfold is_sentinel. apply _. Defined.

(** What a screen run collapses to: without a non-sentinel member, or
    without a sentinel member, the run itself; otherwise its non-sentinel
    members, the first of them with the sentinel members' durations added. *)
Definition collapse_screen_run (G : list Event) : list Event :=
  match filter (λ e, ¬ is_sentinel e) G, filter is_sentinel G with
  | m :: rest, (_ :: _) as removed =>
      set_duration (duration_seconds m + sum_Z (duration_seconds <$> removed)) m :: rest
  | _, _ => G
  end.

Definition screens_ready (df : DataFrame) : Prop :=
  df_rows df ≠ [] ∧ COL_GSID ∈ df_columns df ∧ COL_DURATION ∈ df_columns df ∧
  COL_SCREEN ∈ df_columns df ∧ COL_ACTION ∈ df_columns df ∧
  COL_TIME ∈ df_columns df.

(** The example of the method's docstring. *)
Definition docstring_screen_table : DataFrame :=
  mkDF duration_columns
    [session_event 1 0 "Новая заявка" "Открытие экрана" "Не указано" 5;
     session_event 1 5 "Новая заявка" "Ввод текста" "Не указано" 3;
     session_event 1 8 "Новая заявка" "Отправка" "Тап на кнопку" 10;
     session_event 1 18 "Новая заявка" "Выбор категории" "Выбор категории" 5;
     session_event 1 23 "Заявки" "Открытие экрана" "Не указано" 0].

(** The loop iteration seen from inside one screen group. *)
Fixpoint add_first_block (d : Z) (B : list (Event * bool)) : list (Event * bool) :=
  match B with
  | [] => []
  | r :: rest =>
      if decide (¬ is_unspecified r) then
        (set_duration (duration_seconds r.1 + d) r.1, r.2) :: rest
      else r :: add_first_block d rest
  end.

Definition mark_block (B : list (Event * bool)) : list (Event * bool) :=
  (λ r : Event * bool, if decide (is_unspecified r) then (r.1, true) else r) <$> B.

Definition block_step (B : list (Event * bool)) : list (Event * bool) :=
  if bool_decide (length B < 2)%nat then B
  else if bool_decide (filter is_unspecified B = []) then B
  else if bool_decide (filter (λ r, ¬ is_unspecified r) B = []) then B
  else
    mark_block
      (add_first_block
         (sum_Z ((λ r : Event * bool, duration_seconds r.1) <$> filter is_unspecified B))
         B).

Definition docstring_screen_run : list Event :=
  [session_event 1 0 "Новая заявка" "Открытие экрана" "Не указано" 5;
   session_event 1 5 "Новая заявка" "Ввод текста" "Не указано" 3;
   session_event 1 8 "Новая заявка" "Отправка" "Тап на кнопку" 10;
   session_event 1 18 "Новая заявка" "Выбор категории" "Выбор категории" 5].

Definition docstring_screen_post : list Event :=
  [session_event 1 23 "Заявки" "Открытие экрана" "Не указано" 0].

(** ** Block Feature Aggregator: [FunnelFeaturesExtractor.transform] *)

(** [prefixes_map] of [_generate_prefixes]. *)
Definition prefixes_map : gmap string string :=
  list_to_map
    [("Создание заявки", "request");
     ("Просмотр и управление заявками", "req_manage");
     ("Профиль", "profile");
     ("Навигация", "nav");
     ("Уведомления", "notif");
     ("Опросы и собрания собственников", "poll_oss");
     ("Баллы и поощрения", "rewards");
     ("Мой дом", "my_home");
     ("Услуги партнеров", "partners");
     ("Управление транспортом", "transport");
     ("Просмотр объявлений", "ann_view");
     ("Умные решения", "smart");
     ("Техподдержка", "support");
     ("Гостевой доступ", "guest");
     ("Городские сервисы", "city_serv");
     ("Создание адреса", "address");
     ("Создание объявления", "ann_create")].

(** [_generate_prefixes]: block name to column prefix. *)
Definition prefix_step (result : gmap string string) (b : Block)
  : gmap string string :=
  match prefixes_map !! block_name b with
  | Some prefix => <[block_name b := prefix]> result
  | None => <[block_name b := "block_" +:+ pretty (size result)]> result
  end.

Definition generate_prefixes (blocks_data : list Block) : gmap string string :=
  foldl prefix_step ∅ blocks_data.

(** [self.block_prefixes.values()] *)
Definition prefix_values (blocks_data : list Block) : list string :=
  (map_to_list (generate_prefixes blocks_data)).*2.

(** [self.block_prefixes.get(col, col)] *)
Definition prefix_of (blocks_data : list Block) (b : string) : string :=
  default b (generate_prefixes blocks_data !! b).

Inductive Metric :=
  | M_count | M_max_step | M_success_count | M_review_count
  | M_dur_sec | M_click_count | M_dbl_dur_sec | M_dbl_count.

Global Instance Metric_eq_dec : EqDecision Metric.
Proof. solve_decision. Defined.

Definition metric_name (m : Metric) : string :=
  match m with
  | M_count => "count"
  | M_max_step => "max_step"
  | M_success_count => "success_count"
  | M_review_count => "review_count"
  | M_dur_sec => "dur_sec"
  | M_click_count => "click_count"
  | M_dbl_dur_sec => "dbl_dur_sec"
  | M_dbl_count => "dbl_count"
  end.

(** The metrics in the order of the pivot loop. *)
Definition PIVOT_METRICS : list Metric :=
  [M_count; M_max_step; M_success_count; M_review_count;
   M_dur_sec; M_click_count; M_dbl_dur_sec; M_dbl_count].

(** The metrics in the order of the final fill loop. *)
Definition FILL_METRICS : list Metric :=
  [M_count; M_success_count; M_review_count; M_dur_sec; M_click_count;
   M_dbl_dur_sec; M_dbl_count; M_max_step].

(** [f'{prefix}_{metric}'] *)
Definition column_name (prefix : string) (m : Metric) : string :=
  prefix +:+ "_" +:+ metric_name m.

(** The value a missing cell is filled with. *)
Definition fill_value (m : Metric) : Z :=
  match m with M_max_step => -1 | _ => 0 end.

(** An event with its [_block_name], [_step], [_is_success], [_is_review]. *)
Record Tagged := mkTagged {
  tg_event : Event;
  tg_block : option string;
  tg_step : Z;
  tg_success : bool;
  tg_review : bool
}.

Definition tag_event (lk : ActionLookup) (e : Event) : Tagged :=
  let key := event_key e in
  mkTagged e
    (fst <$> action_to_block lk !! key)
    (default 0 (snd <$> action_to_block lk !! key))
    (bool_decide (is_Some (success_lookup lk !! key)))
    (bool_decide (is_Some (review_lookup lk !! key))).

(** The rows of one [(global_session_id, _block_name)] group. *)
Definition block_group (s : Z) (b : string) (rows : list Tagged) : list Tagged :=
  filter (λ t, global_session_id (tg_event t) = Some s ∧ tg_block t = Some b) rows.

Definition max_step_of (grp : list Tagged) : Z :=
  match grp with
  | [] => 0
  | t :: r => foldr Z.max (tg_step t) (tg_step <$> r)
  end.

(** The aggregation of one group. *)
Definition aggregate (m : Metric) (grp : list Tagged) : Z :=
  match m with
  | M_count => Z.of_nat (length grp)
  | M_max_step => max_step_of grp
  | M_success_count => Z.of_nat (length (filter (λ t, tg_success t = true) grp))
  | M_review_count => Z.of_nat (length (filter (λ t, tg_review t = true) grp))
  | M_dur_sec => sum_Z ((λ t, duration_seconds (tg_event t)) <$> grp)
  | M_click_count => sum_Z ((λ t, click_count (tg_event t)) <$> grp)
  | M_dbl_dur_sec => sum_Z ((λ t, dbl_duration_seconds (tg_event t)) <$> grp)
  | M_dbl_count => sum_Z ((λ t, dbl_count (tg_event t)) <$> grp)
  end.

(** A cell of [block_features] after the pivot: missing where the session
    has no row in the block. *)
Definition block_feature (rows : list Tagged) (s : Z) (b : string) (m : Metric)
  : option Z :=
  match block_group s b rows with
  | [] => None
  | grp => Some (aggregate m grp)
  end.

(** [.astype('int32')] on a value of a column.  An int64 column wraps.  A
    float64 column (one that held a missing cell) is cast as C casts a
    double: exactly inside the int32 range, and outside of it to a value
    that the language leaves to the platform, [float_to_int32]. *)
Definition astype_int32_column (float_to_int32 : Z → Z) (float64 : bool) (z : Z) : Z :=
  if float64 then
    if bool_decide (int32_range z) then z else astype_int32 (float_to_int32 z)
  else astype_int32 z.

(** [.fillna(v).astype('int32')] on a cell of a pivot column (the first
    fill loop). *)
Definition pivot_fillna_int32 (float_to_int32 : Z → Z) (float64 : bool) (v : Z)
    (cell : option Z) : option Z :=
  Some (astype_int32_column float_to_int32 float64 (default v cell)).

(** [.fillna(v).astype('int32')] on a cell of the joined table (the second
    fill loop): the cell is missing or holds an int32 value already, so
    that the cast leaves it as it is whether or not the join made the
    column float64. *)
Definition fillna_int32 (v : Z) (cell : option Z) : option Z :=
  Some (astype_int32 (default v cell)).

(** The rows that enter [block_features]: a block and a session id. *)
Definition rows_with_blocks (rows : list Tagged) : list Tagged :=
  filter (λ t, is_Some (tg_block t) ∧ is_Some (global_session_id (tg_event t))) rows.

(** The blocks that are pivot columns, and the sessions that are pivot rows. *)
Definition present_blocks (rows : list Tagged) : list string :=
  drop_duplicates (omap tg_block (rows_with_blocks rows)).

Definition sessions_with_blocks (rows : list Tagged) : list Z :=
  drop_duplicates (omap (λ t, global_session_id (tg_event t)) (rows_with_blocks rows)).

(** A pivot has a missing cell when some session of [block_features] has
    no event in some block that is a column; the whole pivot is float64
    then, and int64 otherwise. *)
Definition pivot_has_nan (rows : list Tagged) : bool :=
  bool_decide (Exists (λ s, Exists (λ b, block_feature rows s b M_count = None)
                              (present_blocks rows))
                 (sessions_with_blocks rows)).

(** The row of [features_df] for a session, after the first fill. *)
Definition features_row (float_to_int32 : Z → Z) (blocks_data : list Block)
    (rows : list Tagged) (s : Z) : gmap string (option Z) :=
  list_to_map
    (m ← PIVOT_METRICS;
     (λ b, (column_name (prefix_of blocks_data b) m,
            pivot_fillna_int32 float_to_int32 (pivot_has_nan rows) (fill_value m)
              (block_feature rows s b m)))
       <$> present_blocks rows).

(** [session_agg.join(features_df, how='left')]: the feature cells of a
    session, all missing for a session that is not in [features_df]. *)
Definition joined_row (float_to_int32 : Z → Z) (blocks_data : list Block)
    (rows : list Tagged) (s : Z) : gmap string (option Z) :=
  if bool_decide (s ∈ sessions_with_blocks rows)
  then features_row float_to_int32 blocks_data rows s
  else (λ _, None) <$> features_row float_to_int32 blocks_data rows s.

(** One step of the final fill loop: a column that is absent is created
    with the fill value, a column that is present is filled and cast. *)
Definition fill_cell (row : gmap string (option Z)) (cv : string * Z)
  : gmap string (option Z) :=
  <[cv.1 := match row !! cv.1 with
            | Some cell => fillna_int32 cv.2 cell
            | None => Some cv.2
            end]> row.

Definition fill_list (blocks_data : list Block) : list (string * Z) :=
  prefix ← prefix_values blocks_data;
  (λ m, (column_name prefix m, fill_value m)) <$> FILL_METRICS.

(** The block metric columns of the feature table. *)
Definition feature_columns (blocks_data : list Block) : list string :=
  (fill_list blocks_data).*1.

(** One row of the session feature table. *)
Record SessionRow := mkSessionRow {
  sr_session : Z;
  sr_time : option Z;
  sr_device : option Z;
  sr_session_no : option Z;
  sr_sess_dur_sec : Z;
  sr_features : gmap string (option Z)
}.

(** [groupby('global_session_id')]: the keys, sorted, missing ids dropped. *)
Definition session_ids (rows : list Event) : list Z :=
  stable_sort (λ a b, bool_decide (a ≤ b))
    (drop_duplicates (omap global_session_id rows)).

Definition transform_required : list string :=
  [COL_GSID; COL_SCREEN; COL_FUNCTIONAL; COL_ACTION; COL_TIME; COL_DURATION;
   COL_CLICK; COL_DBL_DURATION; COL_DBL_COUNT].

Definition transform (float_to_int32 : Z → Z) (blocks_data : list Block)
    (df : DataFrame) : result (list SessionRow) :=
  (* the session count is logged before the column check *)
  if negb (has_col COL_GSID df) then Raise (KeyError [COL_GSID])
  else
    match missing_cols transform_required df with
    | (_ :: _) as miss =>
        Raise (ValueError ("Отсутствуют необходимые колонки: " +:+ python_list_repr miss))
    | [] =>
        let lk := build_action_lookup blocks_data in
        let tagged := tag_event lk <$> df_rows df in
        let df_sorted := sort_values (df_rows df) in
        let result_df :=
          (λ s,
             let grp := session_rows s df_sorted in
             mkSessionRow s
               (head (omap event_time grp))
               (if has_col COL_DEVICE df then device_id <$> head grp else None)
               (if has_col COL_SESSION_NO df then session_no <$> head grp else None)
               (astype_int32 (sum_Z (duration_seconds <$> grp)))
               (foldl fill_cell (joined_row float_to_int32 blocks_data tagged s)
                  (fill_list blocks_data)))
            <$> session_ids df_sorted in
        (* the closing log line divides by len(df) *)
        if bool_decide (df_rows df = []) then Raise ZeroDivisionError
        else Ok result_df
    end.

Definition transform_ready (df : DataFrame) : Prop :=
  df_rows df ≠ [] ∧ Forall (λ c, c ∈ df_columns df) transform_required.

(** The session has an event that the taxonomy maps to the block. *)
Definition touches (blocks_data : list Block) (rows : list Event) (s : Z) (b : string)
  : Prop :=
  ∃ e step, e ∈ rows ∧ global_session_id e = Some s ∧
            action_to_block (build_action_lookup blocks_data) !! event_key e
            = Some (b, step).

(** A taxonomy with the seventeen blocks of [prefixes_map]; each block has
    one group, on the screen named like the block, with one regular
    action at step 2. *)
Definition standard_block (name : string) : Block :=
  mkBlock name
    [mkGroup name "Открытие экрана" [mkAction "Тап на кнопку" (Some 2)] [] [] [] []].

Definition standard_taxonomy : list Block :=
  standard_block <$>
    ["Создание заявки"; "Просмотр и управление заявками"; "Профиль"; "Навигация";
     "Уведомления"; "Опросы и собрания собственников"; "Баллы и поощрения";
     "Мой дом"; "Услуги партнеров"; "Управление транспортом";
     "Просмотр объявлений"; "Умные решения"; "Техподдержка"; "Гостевой доступ";
     "Городские сервисы"; "Создание адреса"; "Создание объявления"].

Definition collapsed_columns : list string :=
  duration_columns ++ [COL_CLICK; COL_DBL_DURATION; COL_DBL_COUNT].

(** Session 1 taps twice in the block 'Профиль'; session 2 has one event
    that the taxonomy does not know. *)
Definition feature_table : DataFrame :=
  mkDF collapsed_columns
    [mkEvent 7 1 (Some 10) "Профиль" "Открытие экрана" "Тап на кнопку" (Some 1) 4 1 0 0;
     mkEvent 7 1 (Some 14) "Профиль" "Открытие экрана" "Тап на кнопку" (Some 1) 0 2 3 1;
     mkEvent 8 1 (Some 20) "Неизвестный" "Открытие экрана" "Не указано" (Some 2) 9 1 0 0].

(** ** Typo repair: [DataPreprocessor.fix_action_functional_typos] *)

Definition set_action (a : string) (e : Event) : Event :=
  mkEvent (device_id e) (session_no e) (event_time e) (screen e)
    (functional e) a (global_session_id e) (duration_seconds e) (click_count e)
    (dbl_duration_seconds e) (dbl_count e).

Definition set_functional (f : string) (e : Event) : Event :=
  mkEvent (device_id e) (session_no e) (event_time e) (screen e)
    f (action e) (global_session_id e) (duration_seconds e) (click_count e)
    (dbl_duration_seconds e) (dbl_count e).

(** The two columns the method names: [action_col] and [function_col]. *)
Inductive TextCol := action_col | function_col.

Definition text_col_name (c : TextCol) : string :=
  match c with action_col => COL_ACTION | function_col => COL_FUNCTIONAL end.

Definition get_text (c : TextCol) (e : Event) : string :=
  match c with action_col => action e | function_col => functional e end.

Definition set_text (c : TextCol) (v : string) (e : Event) : Event :=
  match c with action_col => set_action v e | function_col => set_functional v e end.

(** An entry of [corrections]: a tuple of three fields, or of six. *)
Inductive Correction :=
  | Correction3 (col : TextCol) (old_value new_value : string)
  | Correction6 (col : TextCol) (target_function : string)
      (action_col_cond : TextCol) (old_action new_action : string).

Definition corrections : list Correction :=
  [Correction3 action_col "выбор тега 1" "Выбор тега 1";
   Correction3 action_col "Тап на услугу партнёров" "Тап на услугу партнеров";
   Correction3 action_col "'Тап на кнопку 'Мои'" "Тап на кнопку 'Мои'";
   Correction3 function_col "Выбор услуги партнёров" "Выбор услуги партнеров";
   Correction6 function_col "Переход к предоставлению доступа через +"
     action_col "Тап на кнопку" "Тап на кнопку '+'";
   Correction6 function_col "Отмена отзыва доступа"
     action_col "Тап на кнопку 'Отмена'" "Тап на кнопку 'Отменить'"].

(** [self.merged_df.loc[mask, col] = value] *)
Definition assign_where (mask : Event → bool) (col : TextCol) (value : string)
    (rows : list Event) : list Event :=
  (λ e, if mask e then set_text col value e else e) <$> rows.

(** The dtype of a text column: [object], or [category] with its
    categories (every loader of the repository makes the three text
    columns categorical). *)
Inductive Dtype :=
  | object_dtype
  | category (categories : list string).

(** [df.loc[mask, col] = value] on a categorical column raises [TypeError]
    when the value is not one of the categories. *)
Definition accepts (dtype : Dtype) (value : string) : bool :=
  match dtype with
  | object_dtype => true
  | category categories => bool_decide (value ∈ categories)
  end.

(** The outcome of the method: the table, a [ValueError], the read of a
    local variable that no iteration has bound yet, or the [TypeError] of
    an assignment of a new category. *)
Inductive TyposResult :=
  | TyposOk (df : DataFrame)
  | TyposValueError (msg : string)
  | TyposUnboundLocalError (name : string)
  | TyposTypeError (new_category : string).

(** The state of the loop over [corrections]: the rows and the local
    variable [new_value], or the exception that ended the loop. *)
Inductive LoopState :=
  | Running (rows : list Event) (new_value : option string)
  | UnboundLocal
  | NewCategory (value : string).

(** One iteration of the loop over [corrections].  Only the unpacking of
    a three-field tuple binds [new_value]; the assignment of either branch
    reads it.  A comparison with a value that is not a category is false
    on every row. *)
Definition correction_step (dtype : TextCol → Dtype) (st : LoopState) (c : Correction)
  : LoopState :=
  match st with
  | Running rows new_value =>
      let '(col, mask, new_value) :=
        match c with
        | Correction3 col old_value new_value' =>
            (col, λ e, bool_decide (get_text col e = old_value), Some new_value')
        | Correction6 col target_function action_col_cond old_action new_action =>
            (col,
             λ e, bool_decide (get_text col e = target_function)
                  && bool_decide (get_text action_col_cond e = old_action),
             new_value)
        end in
      let count_corrections := length (filter (λ e, mask e = true) rows) in
      if bool_decide (0 < count_corrections)%nat then
        match new_value with
        | Some v =>
            if accepts (dtype col) v then Running (assign_where mask col v rows) new_value
            else NewCategory v
        | None => UnboundLocal
        end
      else Running rows new_value
  | _ => st
  end.

(** [dtype] gives the dtypes of the two text columns of [merged_df]; an
    assignment of a category leaves the categories as they are. *)
Definition fix_action_functional_typos (dtype : TextCol → Dtype)
    (merged_df : option DataFrame) : TyposResult :=
  match merged_df with
  | None => TyposValueError "merged_df не загружен"
  | Some df =>
      if bool_decide (df_rows df = []) then TyposValueError "merged_df не загружен"
      else
        match missing_cols [COL_ACTION; COL_FUNCTIONAL] df with
        | c :: _ => TyposValueError ("Колонка '" +:+ c +:+ "' не найдена в данных")
        | [] =>
            match foldl (correction_step dtype) (Running (df_rows df) None) corrections with
            | Running rows _ => TyposOk (mkDF (df_columns df) rows)
            | UnboundLocal => TyposUnboundLocalError "new_value"
            | NewCategory v => TyposTypeError v
            end
        end
  end.

(** The assignments that the loop carries out on a table, in the order of
    [corrections], each as the column and the value written: a correction
    assigns when some row meets its condition. *)
Definition executed_writes (rows : list Event) : list (TextCol * string) :=
  let found (cond : Event → bool) (w : TextCol * string) :=
    if existsb cond rows then [w] else [] in
  found (λ e, bool_decide (action e = "выбор тега 1")) (action_col, "Выбор тега 1")
  ++ found (λ e, bool_decide (action e = "Тап на услугу партнёров"))
       (action_col, "Тап на услугу партнеров")
  ++ found (λ e, bool_decide (action e = "'Тап на кнопку 'Мои'"))
       (action_col, "Тап на кнопку 'Мои'")
  ++ found (λ e, bool_decide (functional e = "Выбор услуги партнёров"))
       (function_col, "Выбор услуги партнеров")
  ++ found (λ e, bool_decide (functional e = "Переход к предоставлению доступа через +")
                 && bool_decide (action e = "Тап на кнопку"))
       (function_col, "Выбор услуги партнеров")
  ++ found (λ e, bool_decide (functional e = "Отмена отзыва доступа")
                 && bool_decide (action e = "Тап на кнопку 'Отмена'"))
       (function_col, "Выбор услуги партнеров").

(** The text columns take every value the loop writes into them. *)
Definition writes_accepted (dtype : TextCol → Dtype) (rows : list Event) : Prop :=
  Forall (λ w : TextCol * string, accepts (dtype w.1) w.2 = true) (executed_writes rows).

Definition object_columns : TextCol → Dtype := λ _, object_dtype.

(** Both text columns categorical, with the values of the table for
    categories. *)
Definition categorical_columns (df : DataFrame) : TextCol → Dtype :=
  λ col, category (drop_duplicates (get_text col <$> df_rows df)).

(** What the loop does to one row. *)
Definition fix_action (a : string) : string :=
  if bool_decide (a = "выбор тега 1") then "Выбор тега 1"
  else if bool_decide (a = "Тап на услугу партнёров") then "Тап на услугу партнеров"
  else if bool_decide (a = "'Тап на кнопку 'Мои'") then "Тап на кнопку 'Мои'"
  else a.

Definition fix_functional (f a : string) : string :=
  if bool_decide (f = "Выбор услуги партнёров") then "Выбор услуги партнеров"
  else if bool_decide (f = "Переход к предоставлению доступа через +")
          && bool_decide (a = "Тап на кнопку") then "Выбор услуги партнеров"
  else if bool_decide (f = "Отмена отзыва доступа")
          && bool_decide (a = "Тап на кнопку 'Отмена'") then "Выбор услуги партнеров"
  else f.

Definition fix_row (e : Event) : Event :=
  set_functional (fix_functional (functional e) (action e))
    (set_action (fix_action (action e)) e).

Definition typos_ready (df : DataFrame) : Prop :=
  df_rows df ≠ [] ∧ COL_ACTION ∈ df_columns df ∧ COL_FUNCTIONAL ∈ df_columns df.

(** One session with the three misspelt actions, the misspelt functional
    and the two conditional cases. *)
Definition typos_table : DataFrame :=
  mkDF session_columns
    [session_event 1 1 "Заявки" "Теги" "выбор тега 1" 0;
     session_event 1 2 "Услуги" "Выбор услуги партнёров" "Тап на услугу партнёров" 0;
     session_event 1 3 "Заявки" "Мои заявки" "'Тап на кнопку 'Мои'" 0;
     session_event 1 4 "Доступ" "Переход к предоставлению доступа через +" "Тап на кнопку" 0;
     session_event 1 5 "Доступ" "Отмена отзыва доступа" "Тап на кнопку 'Отмена'" 0;
     session_event 1 6 "Заявки" "Просмотр списка" "Тап на заявку" 0].

(** Both text columns categorical, with the values of [typos_table] and
    their corrections for categories. *)
Definition corrected_categories : TextCol → Dtype :=
  λ col, category (drop_duplicates
                     (get_text col <$> (df_rows typos_table
                                        ++ (fix_row <$> df_rows typos_table)))).

(** A raw table whose only event opens the menu screen. *)
Definition menu_only_table : DataFrame :=
  mkDF base_columns [raw_event 1 1 5 "Еще" "Открытие экрана" "Не указано"].

(** ** The taxonomy lookup as a list of writes *)

(** The writes of [_build_action_lookup] into its three dictionaries, in
    the order of the loops: blocks, then groups, then the typed lists. *)
Definition membership_entries (blocks_data : list Block)
  : list (Triple * (string * Z)) :=
  b ← blocks_data; g ← block_groups b;
  (λ ao, (group_key g ao, (block_name b, default 0 (ao_step ao))))
    <$> block_action_lists g.

Definition success_entries (blocks_data : list Block) : list (Triple * string) :=
  b ← blocks_data; g ← block_groups b;
  (λ ao, (group_key g ao, block_name b)) <$> success_actions g.

Definition review_entries (blocks_data : list Block) : list (Triple * string) :=
  b ← blocks_data; g ← block_groups b;
  (λ ao, (group_key g ao, block_name b)) <$> success_review g.

(** The value written last under a key. *)
Definition last_entry {V} (k : Triple) (entries : list (Triple * V)) : option V :=
  snd <$> last (filter (λ kv : Triple * V, kv.1 = k) entries).

(** The triple is listed in one of the four lists that give block
    membership. *)
Definition listed_in_block (k : Triple) (b : Block) : Prop :=
  ∃ g ao, g ∈ block_groups b ∧ ao ∈ block_action_lists g ∧ group_key g ao = k.

(** Two blocks list the same tap; the second one lists it as a success
    action. *)
Definition overlapping_taxonomy : list Block :=
  [mkBlock "Профиль"
     [mkGroup "Профиль" "Открытие экрана" [mkAction "Тап на кнопку" (Some 1)] [] [] [] []];
   mkBlock "Навигация"
     [mkGroup "Профиль" "Открытие экрана" [] [] [] [] [mkAction "Тап на кнопку" None]]].

(** ** Column prefixes: [FunnelFeaturesExtractor._generate_prefixes] *)

(** The prefix of the block at position [i] of a document whose block
    names are pairwise distinct. *)
Definition block_prefix (i : nat) (name : string) : string :=
  match prefixes_map !! name with
  | Some prefix => prefix
  | None => "block_" +:+ pretty i
  end.

(** A taxonomy with two blocks that [prefixes_map] does not know. *)
Definition custom_taxonomy : list Block :=
  [standard_block "Профиль"; standard_block "Оплата"; standard_block "Чат"].

(** The cast of an out-of-range double to int32 on x86-64: the 'integer
    indefinite' value. *)
Definition x86_float_to_int32 : Z → Z := λ _, -2147483648.

(** ** The caller: [main] of main.py *)

(** The columns of the table [transform] returns: the index, the context
    columns the event table has, sess_dur_sec and the block metrics. *)
Definition feature_table_columns (blocks_data : list Block) (df : DataFrame)
  : list string :=
  [COL_GSID] ++ filter (λ c, c ∈ df_columns df) [COL_TIME; COL_DEVICE; COL_SESSION_NO]
  ++ ["sess_dur_sec"] ++ feature_columns blocks_data.

(** A feature row as [add_user_cohort_status] reads it: the labeler reads
    the time and the device column and nothing else. *)
Definition session_row_event (r : SessionRow) : Event :=
  mkEvent (default 0 (sr_device r)) (default 0 (sr_session_no r)) (sr_time r)
    "" "" "" (Some (sr_session r)) (sr_sess_dur_sec r) 0 0 0.

(** The three statements of [main] between loading and saving:
    [extractor.transform(merged_df)], [add_user_cohort_status] on its
    result, and [df[df['is_new'] == False]].  What they raise reaches the
    handler of [main], which logs it and returns 1. *)
Definition main_steps (float_to_int32 : Z → Z) (blocks_data : list Block)
    (merged_df : DataFrame)
  : result (list (SessionRow * CohortFlags)) :=
  match transform float_to_int32 blocks_data merged_df with
  | Raise e => Raise e
  | Ok df_transformed =>
      match add_user_cohort_status
              (Some (mkDF (feature_table_columns blocks_data merged_df)
                       (session_row_event <$> df_transformed))) with
      | Raise e => Raise e
      | Ok (_, df) =>
          Ok (filter (λ p : SessionRow * CohortFlags, is_new p.2 = false)
                (zip df_transformed df.*2))
      end
  end.

(** The device has a session whose row carries an instant of the month. *)
Definition session_in_month (month : Z) (dev : Z) (rows : list SessionRow) : Prop :=
  ∃ r, r ∈ rows ∧ sr_device r = Some dev ∧
       (λ t, month_of_days (t `div` NS_PER_DAY)) <$> sr_time r = Some month.

(** Three devices with one session each: device 1 begins on 29 September
    and goes on into October, device 2 is seen in October only, device 3
    in August only. *)
Definition cohort_feature_table : DataFrame :=
  mkDF collapsed_columns
    [mkEvent 1 1 (Some t_sep29) "Профиль" "Открытие экрана" "Тап на кнопку" (Some 1) 4 1 0 0;
     mkEvent 1 1 (Some t_oct02) "Профиль" "Открытие экрана" "Тап на кнопку" (Some 1) 0 1 0 0;
     mkEvent 2 1 (Some t_oct20) "Профиль" "Открытие экрана" "Тап на кнопку" (Some 2) 0 1 0 0;
     mkEvent 3 1 (Some t_aug15) "Профиль" "Открытие экрана" "Тап на кнопку" (Some 3) 0 1 0 0].

(** ** The caller: [process_dataset] of apply_funnel_features.py

    The input file is taken as read: [df] is the table of the CSV file,
    and the taxonomy document carries the two count fields that
    [get_block_info] reads. *)

(** The pieces of [chunksize] rows of a table that has rows, the last one
    shorter. *)
Fixpoint read_chunks (fuel chunksize : nat) (rows : list Event) : list (list Event) :=
  match fuel, rows with
  | S fuel', _ :: _ =>
      take chunksize rows :: read_chunks fuel' chunksize (drop chunksize rows)
  | _, _ => []
  end.

(** [pd.read_csv(input_path, chunksize=chunksize)]: the first read of a
    file without data rows gives one empty table. *)
Definition read_csv_chunks (chunksize : nat) (rows : list Event) : list (list Event) :=
  match rows with
  | [] => [[]]
  | _ => read_chunks (length rows) chunksize rows
  end.

(** [col.endswith('_count')] *)
Definition endswith (suffix s : string) : bool :=
  bool_decide (String.list_ascii_of_string suffix
                 `suffix_of` String.list_ascii_of_string s).

(** [df_transformed.groupby('global_session_id')[col].first()] at one
    session: the first value that is not missing. *)
Definition first_cell (col : string) (s : Z) (rows : list SessionRow) : option Z :=
  head (omap (λ r, mjoin (sr_features r !! col))
          (filter (λ r, sr_session r = s) rows)).

(** [(sessions_data > 0).sum()] *)
Definition sessions_with_block (col : string) (rows : list SessionRow) : nat :=
  length (filter (λ s, match first_cell col s rows with
                       | Some v => bool_decide (0 < v)
                       | None => false
                       end = true)
            (drop_duplicates (sr_session <$> rows))).

(** The columns of the feature table that the statistics loop walks. *)
Definition all_count_cols (blocks_data : list Block) : list string :=
  filter (λ col, endswith "_count" col = true) (feature_columns blocks_data).

(** [for chunk in ...: df_chunks.append(extractor.transform(chunk))] *)
Fixpoint transform_chunks (float_to_int32 : Z → Z) (blocks_data : list Block)
    (columns : list string)
    (chunks : list (list Event)) : result (list (list SessionRow)) :=
  match chunks with
  | [] => Ok []
  | chunk :: rest =>
      match transform float_to_int32 blocks_data (mkDF columns chunk) with
      | Raise e => Raise e
      | Ok chunk_transformed =>
          match transform_chunks float_to_int32 blocks_data columns rest with
          | Raise e => Raise e
          | Ok df_chunks => Ok (chunk_transformed :: df_chunks)
          end
      end
  end.

Definition process_dataset (float_to_int32 : Z → Z) (blocks_data : list Block)
    (chunksize : option nat)
    (df : DataFrame) : result (list SessionRow) :=
  let transformed :=
    match chunksize with
    | Some (S n) =>
        match transform_chunks float_to_int32 blocks_data (df_columns df)
                (read_csv_chunks (S n) (df_rows df)) with
        | Raise e => Raise e
        (* pd.concat of an empty list *)
        | Ok [] => Raise (ValueError "No objects to concatenate")
        | Ok df_chunks => Ok (concat df_chunks)
        end
    | _ =>
        (* the session count is printed before the transformation *)
        if negb (has_col COL_GSID df) then Raise (KeyError [COL_GSID])
        else transform float_to_int32 blocks_data df
    end in
  match transformed with
  | Raise e => Raise e
  | Ok df_transformed =>
      let block_stats :=
        filter (λ col, (0 < sessions_with_block col df_transformed)%nat)
          (all_count_cols blocks_data) in
      (* pd.DataFrame(block_stats).sort_values('Сессий') *)
      if bool_decide (block_stats = []) then Raise (KeyError ["Сессий"])
      else Ok df_transformed
  end.

(** One session whose two taps fall into different chunks of size one. *)
Definition split_session_table : DataFrame :=
  mkDF collapsed_columns
    [mkEvent 7 1 (Some 10) "Профиль" "Открытие экрана" "Тап на кнопку" (Some 1) 4 1 0 0;
     mkEvent 7 1 (Some 14) "Профиль" "Открытие экрана" "Тап на кнопку" (Some 1) 0 2 3 1].

(** A table whose only event the taxonomy does not know. *)
Definition unknown_event_table : DataFrame :=
  mkDF collapsed_columns
    [mkEvent 8 1 (Some 20) "Неизвестный" "Открытие экрана" "Не указано" (Some 2) 9 1 0 0].

(** ** Cleaning and joining: [clean_data] and [create_features]

    [self.events_df] and [self.users_df] as [load_data] leaves them: the
    time column is parsed to UTC instants (NaT where the text did not
    parse), [number] is an int32 column, and users.csv has the columns
    number, gender and age_back, none of which names a column of
    events.csv.  A missing cell is [None], and so is every cell of a
    column that the table does not have. *)

Record RawEvent := mkRawEvent {
  raw_device : option Z;
  raw_session_no : option Z;
  raw_time : option Z;
  raw_screen : option string;
  raw_functional : option string;
  raw_action : option string;
  (* manufacturer, model, type and OS of the device *)
  raw_device_info : list (option string)
}.

#[global] Instance RawEvent_eq_dec : EqDecision RawEvent.
Proof. solve_decision. Defined.

Record RawTable := mkRawTable {
  raw_columns : list string;
  raw_rows : list RawEvent
}.

Record User := mkUser {
  number : Z;
  gender : option string;
  age_back : option Z
}.

#[global] Instance User_eq_dec : EqDecision User.
Proof. solve_decision. Defined.

(** [events_df['Действие'].fillna('Не указано')] on one row. *)
Definition fill_action (r : RawEvent) : RawEvent :=
  mkRawEvent (raw_device r) (raw_session_no r) (raw_time r) (raw_screen r)
    (raw_functional r) (Some (default not_specified (raw_action r)))
    (raw_device_info r).

(** [dropna(subset=critical_columns)] keeps the rows with both cells. *)
Definition has_critical (r : RawEvent) : Prop :=
  is_Some (raw_time r) ∧ is_Some (raw_device r).

#[global] Instance has_critical_dec r : Decision (has_critical r).
Proof. unfold has_critical. apply _. Defined.

Definition clean_data (events_df : option RawTable) (users_df : option (list User))
  : result (RawTable * list User) :=
  match events_df, users_df with
  | Some ev, Some us =>
      let events := drop_duplicates (raw_rows ev) in
      let users := drop_duplicates us in
      let events :=
        if bool_decide (COL_ACTION ∈ raw_columns ev) then fill_action <$> events
        else events in
      match filter (λ c, c ∉ raw_columns ev) [COL_TIME; COL_DEVICE] with
      | [] => Ok (mkRawTable (raw_columns ev) (filter has_critical events), users)
      | miss => Raise (KeyError miss)
      end
  | _, _ => Raise (ValueError "Данные не загружены. Вызовите load_data() сначала.")
  end.

(** The time features of one event; all of them but [is_weekend] and
    [time_of_day] are missing for NaT. *)
Record TimeFeatures := mkTimeFeatures {
  date : option Z;          (* the day, counted from 1970-01-01 *)
  hour : option Z;
  day_of_week : option Z;   (* Monday is 0 *)
  is_weekend : bool;
  month : option Z;
  day : option Z;
  time_of_day : string
}.

Definition NS_PER_HOUR : Z := 3600 * NS_PER_SECOND.

(** [.dt.day]: the day of the month of the proleptic Gregorian date. *)
Definition day_of_days (days : Z) : Z :=
  let z := days + 719468 in
  let era := z `div` 146097 in
  let doe := z - era * 146097 in
  let yoe := (doe - doe `div` 1460 + doe `div` 36524 - doe `div` 146096) `div` 365 in
  let doy := doe - (365 * yoe + yoe `div` 4 - yoe `div` 100) in
  let mp := (5 * doy + 2) `div` 153 in
  doy - (153 * mp + 2) `div` 5 + 1.

Definition get_time_of_day (hour : option Z) : string :=
  match hour with
  | None => "Неизвестно"
  | Some hour =>
      if bool_decide (6 ≤ hour < 12) then "Утро"
      else if bool_decide (12 ≤ hour < 18) then "День"
      else if bool_decide (18 ≤ hour < 24) then "Вечер"
      else "Ночь"
  end.

Definition get_age_group (age : option Z) : string :=
  match age with
  | None => "Неизвестно"
  | Some age =>
      if bool_decide (age < 25) then "18-24"
      else if bool_decide (age < 35) then "25-34"
      else if bool_decide (age < 45) then "35-44"
      else if bool_decide (age < 55) then "45-54"
      else if bool_decide (age < 65) then "55-64"
      else "65+"
  end.

Definition time_features (t : option Z) : TimeFeatures :=
  let days := (λ t, t `div` NS_PER_DAY) <$> t in
  let hour := (λ t, (t `div` NS_PER_HOUR) `mod` 24) <$> t in
  let day_of_week := (λ d, (d + 3) `mod` 7) <$> days in
  mkTimeFeatures days hour day_of_week
    (* .isin([5, 6]) *)
    (bool_decide (day_of_week = Some 5 ∨ day_of_week = Some 6))
    (month_of_days <$> days) (day_of_days <$> days)
    (get_time_of_day hour).

(** A row of [merged_df]: the event, its time features, the user row that
    the merge found for it (none: the three user cells are missing) and
    the age group. *)
Record MergedRow := mkMergedRow {
  mr_event : RawEvent;
  mr_features : TimeFeatures;
  mr_user : option User;
  age_group : string
}.

(** [events_df.merge(users_df, left_on='Идентификатор устройства',
    right_on='number', how='left')]: the events in their order, each once
    for every user row with its number, or once without a user. *)
Definition merge_users (events : list RawEvent) (users : list User)
  : list (RawEvent * option User) :=
  e ← events;
  match filter (λ u, raw_device e = Some (number u)) users with
  | [] => [(e, None)]
  | matches => (λ u, (e, Some u)) <$> matches
  end.

Inductive FeaturesResult :=
  | FeaturesOk (merged_df : list MergedRow)
  | FeaturesRaise (e : Exn)
  (* merge with [None] for a table *)
  | FeaturesTypeError.

Definition create_features (events_df : option RawTable) (users_df : option (list User))
  : FeaturesResult :=
  match events_df with
  | None => FeaturesRaise (ValueError "Events данные не загружены")
  | Some ev =>
      if bool_decide (raw_rows ev = []) then
        FeaturesRaise (ValueError "DataFrame пустой, невозможно создать признаки")
      else if bool_decide (COL_TIME ∉ raw_columns ev) then
        FeaturesRaise (KeyError [COL_TIME])
      else
        match users_df with
        | None => FeaturesTypeError
        | Some us =>
            if bool_decide (COL_DEVICE ∉ raw_columns ev) then
              FeaturesRaise (KeyError [COL_DEVICE])
            else
              FeaturesOk
                ((λ p : RawEvent * option User,
                    mkMergedRow p.1 (time_features (raw_time p.1)) p.2
                      (get_age_group (p.2 ≫= age_back)))
                   <$> merge_users (raw_rows ev) us)
        end
  end.

(** [clean_data()] followed by [create_features()]. *)
Definition clean_and_create (events_df : option RawTable) (users_df : option (list User))
  : FeaturesResult :=
  match clean_data events_df users_df with
  | Raise e => FeaturesRaise e
  | Ok (ev, us) => create_features (Some ev) (Some us)
  end.

Definition events_columns : list string :=
  [COL_TIME; COL_DEVICE; COL_SESSION_NO; COL_SCREEN; COL_FUNCTIONAL; COL_ACTION].

(** 2025-09-29 10:20:27 UTC, a Monday. *)
Definition raw_tap (dev : Z) (act : option string) : RawEvent :=
  mkRawEvent (Some dev) (Some 1) (Some t_sep29) (Some "Заявки") (Some "Просмотр списка")
    act [].

(** The same tap twice, once without an action and once with the fill
    value for one, and a row without an instant. *)
Definition unclean_table : RawTable :=
  mkRawTable events_columns
    [raw_tap 1 None; raw_tap 1 (Some "Не указано"); raw_tap 1 None;
     mkRawEvent (Some 2) (Some 1) None (Some "Заявки") None (Some "Тап") []].

(** Device 1 is listed twice, with two ages. *)
Definition users_table : list User :=
  [mkUser 1 (Some "М") (Some 17); mkUser 1 (Some "М") (Some 40); mkUser 3 None None].

(** The fill of the action column, for a table that has one. *)
Definition fill_of (ev : RawTable) : RawEvent → RawEvent :=
  if bool_decide (COL_ACTION ∈ raw_columns ev) then fill_action else id.

(** The user rows that carry the device number of an event. *)
Definition user_matches (us : list User) (e : RawEvent) : list User :=
  filter (λ u, raw_device e = Some (number u)) us.

(** Three taps: of a device with two user rows, of one with one user row
    and of one without. *)
Definition clean_table : RawTable :=
  mkRawTable events_columns [raw_tap 1 (Some "Тап"); raw_tap 3 (Some "Тап"); raw_tap 5 None].

(** A table whose only event has no instant. *)
Definition no_instant_table : RawTable :=
  mkRawTable events_columns
    [mkRawEvent (Some 2) (Some 1) None (Some "Заявки") None (Some "Тап") []].

(** * Properties *)

(** ** The stable sort *)

Section stable_sort_facts.
Context {A : Type} (le : A → A → bool).
Hypothesis le_total : ∀ x y, le x y = true ∨ le y x = true.
Hypothesis le_trans : ∀ x y z, le x y = true → le y z = true → le x z = true.

Let R := λ x y, le x y = true.

Lemma insert_by_perm x l : insert_by le x l ≡ₚ x :: l.
Proof.
  induction l as [|y r IH]; simpl; [done|].
  destruct (le x y); [done|].
  rewrite IH. apply Permutation_swap.
Qed.

Lemma stable_sort_perm l : stable_sort le l ≡ₚ l.
Proof.
  induction l as [|x l IH]; simpl; [done|].
  rewrite insert_by_perm. by f_equiv.
Qed.

Lemma insert_by_sorted x l :
  StronglySorted R l → StronglySorted R (insert_by le x l).
Proof.
  induction 1 as [|y r Hr IH Hy]; simpl.
  - repeat constructor.
  - destruct (le x y) eqn:Hxy.
    + constructor; [by constructor|].
      constructor; [done|].
      eapply Forall_impl; [exact Hy|]. intros z Hz. by eapply le_trans.
    + constructor; [done|].
      rewrite insert_by_perm. constructor; [|done].
      destruct (le_total x y) as [H|H]; [congruence|done].
Qed.

Lemma stable_sort_sorted l : StronglySorted R (stable_sort le l).
Proof.
  induction l as [|x l IH]; simpl; [constructor|]. by apply insert_by_sorted.
Qed.

Lemma stable_sort_id l : StronglySorted R l → stable_sort le l = l.
Proof.
  induction 1 as [|y r Hr IH Hy]; simpl; [done|].
  rewrite IH. destruct Hy as [|z r' Hz _]; simpl; [done|].
  unfold R in Hz. by rewrite Hz.
Qed.
End stable_sort_facts.

(** ** The orders used by [sort_values] *)

Lemma opt_le_total a b : opt_le a b = true ∨ opt_le b a = true.
Proof.
  destruct a, b; simpl; auto.
  repeat case_bool_decide; auto; lia.
Qed.

Lemma opt_le_trans a b c : opt_le a b = true → opt_le b c = true → opt_le a c = true.
Proof.
  destruct a, b, c; simpl; try done.
  rewrite !bool_decide_eq_true. lia.
Qed.

Lemma opt_le_antisym a b : opt_le a b = true → opt_le b a = true → a = b.
Proof.
  destruct a, b; simpl; try done.
  rewrite !bool_decide_eq_true. intros. f_equal. lia.
Qed.

Lemma opt_le_refl a : opt_le a a = true.
Proof. destruct a; simpl; [|done]. apply bool_decide_eq_true. lia. Qed.

Lemma session_time_le_total x y :
  session_time_le x y = true ∨ session_time_le y x = true.
Proof.
  unfold session_time_le, opt_lt.
  destruct (opt_le_total (global_session_id x) (global_session_id y)) as [H|H],
    (opt_le_total (event_time x) (event_time y)) as [H'|H'];
    rewrite ?H, ?H'; simpl;
    destruct (opt_le (global_session_id y) (global_session_id x)),
      (opt_le (global_session_id x) (global_session_id y)),
      (opt_le (event_time y) (event_time x)),
      (opt_le (event_time x) (event_time y)); simpl in *; auto.
Qed.

Lemma session_time_le_spec x y :
  session_time_le x y = true ↔
  opt_le (global_session_id x) (global_session_id y) = true ∧
  (global_session_id x = global_session_id y →
   opt_le (event_time x) (event_time y) = true).
Proof.
  unfold session_time_le, opt_lt.
  destruct (opt_le (global_session_id y) (global_session_id x)) eqn:Hyx,
    (opt_le (global_session_id x) (global_session_id y)) eqn:Hxy; simpl.
  - pose proof (opt_le_antisym _ _ Hxy Hyx). naive_solver.
  - naive_solver.
  - split; [|done]. intros _. split; [done|].
    intros Heq. rewrite Heq, opt_le_refl in Hyx. done.
  - destruct (opt_le_total (global_session_id x) (global_session_id y)); congruence.
Qed.

Lemma session_time_le_trans x y z :
  session_time_le x y = true → session_time_le y z = true →
  session_time_le x z = true.
Proof.
  rewrite !session_time_le_spec. intros [H1 H2] [H3 H4]. split.
  - by eapply opt_le_trans.
  - intros Heq.
    assert (global_session_id x = global_session_id y) as Hxy.
    { apply opt_le_antisym; [done|]. rewrite Heq. done. }
    assert (global_session_id y = global_session_id z) as Hyz by congruence.
    eapply opt_le_trans; eauto.
Qed.

Lemma pair_le_total p q : pair_le p q = true ∨ pair_le q p = true.
Proof. unfold pair_le. repeat case_bool_decide; simpl; auto; lia. Qed.

Lemma pair_le_trans p q r :
  pair_le p q = true → pair_le q r = true → pair_le p r = true.
Proof. unfold pair_le. repeat case_bool_decide; simpl; auto; lia. Qed.

Lemma pair_le_antisym p q : pair_le p q = true → pair_le q p = true → p = q.
Proof.
  destruct p as [a b], q as [c d]. unfold pair_le; simpl.
  repeat case_bool_decide; simpl; try done; intros; f_equal; lia.
Qed.

Lemma sort_values_perm l : sort_values l ≡ₚ l.
Proof. apply stable_sort_perm. Qed.

Lemma sort_values_sorted l :
  StronglySorted (λ x y, session_time_le x y = true) (sort_values l).
Proof.
  apply stable_sort_sorted; [apply session_time_le_total|apply session_time_le_trans].
Qed.

Lemma sort_values_id l :
  StronglySorted (λ x y, session_time_le x y = true) l → sort_values l = l.
Proof. apply stable_sort_id. Qed.

(** ** Session Identity Resolver *)

Lemma elem_of_drop_duplicates_from {A} `{EqDecision A} (seen l : list A) x :
  x ∈ drop_duplicates_from seen l ↔ x ∈ l ∧ x ∉ seen.
Proof.
  revert seen. induction l as [|y l IH]; intros seen; simpl.
  - rewrite elem_of_nil. naive_solver.
  - case_bool_decide as Hy.
    + rewrite IH, elem_of_cons. naive_solver.
    + rewrite !elem_of_cons, IH, elem_of_cons.
      destruct (decide (x = y)); naive_solver.
Qed.

Lemma NoDup_drop_duplicates_from {A} `{EqDecision A} (seen l : list A) :
  NoDup (drop_duplicates_from seen l).
Proof.
  revert seen. induction l as [|y l IH]; intros seen; simpl; [constructor|].
  case_bool_decide; [done|].
  apply NoDup_cons. split; [|done].
  rewrite elem_of_drop_duplicates_from, elem_of_cons. naive_solver.
Qed.

Lemma elem_of_drop_duplicates {A} `{EqDecision A} (l : list A) x :
  x ∈ drop_duplicates l ↔ x ∈ l.
Proof.
  unfold drop_duplicates. rewrite elem_of_drop_duplicates_from, elem_of_nil.
  naive_solver.
Qed.

Lemma seqZ_succ k n : seqZ k (Z.of_nat (S n)) = k :: seqZ (k + 1) (Z.of_nat n).
Proof.
  rewrite seqZ_cons by lia. f_equal. f_equal; lia.
Qed.

Lemma filter_none {A} (P : A → Prop) `{∀ x, Decision (P x)} (l : list A) :
  (∀ x, x ∈ l → ¬ P x) → filter P l = [].
Proof.
  induction l as [|y l IH]; intros Hl; [done|].
  rewrite filter_cons_False by (apply Hl; left).
  apply IH. intros x Hx. apply Hl. by right.
Qed.

(** In the numbered table of distinct pairs, the rows matching a pair are
    exactly the one row at the pair's position. *)
Lemma filter_numbered_pairs (pairs : list (Z * Z)) k p i :
  NoDup pairs → pairs !! i = Some p →
  filter (λ u : Z * Z * Z, u.1 = p) (zip pairs (seqZ k (Z.of_nat (length pairs))))
  = [(p, k + Z.of_nat i)].
Proof.
  revert k i. induction pairs as [|q pairs IH]; intros k i Hnd Hi; [done|].
  apply NoDup_cons in Hnd as [Hq Hnd].
  change (length (q :: pairs)) with (S (length pairs)).
  rewrite seqZ_succ. simpl zip.
  destruct i as [|i]; simpl in Hi.
  - injection Hi as ->. rewrite filter_cons_True by done.
    f_equal; [f_equal; lia|].
    apply filter_none. intros [q n] Hin Heq; simpl in Heq; subst q.
    apply elem_of_zip_l in Hin. done.
  - rewrite filter_cons_False.
    + rewrite (IH (k + 1) i) by done. do 2 f_equal. lia.
    + simpl. intros ->. apply Hq. by eapply list_elem_of_lookup_2.
Qed.

Lemma session_pair_set_gsid g e : session_pair (set_gsid g e) = session_pair e.
Proof. done. Qed.

(** With a duplicate-free right table covering every left key, the left
    merge attaches to each row the number of its pair, one output row per
    input row. *)
Lemma merge_left_numbered rows (pairs : list (Z * Z)) :
  NoDup pairs →
  (∀ e, e ∈ rows → session_pair e ∈ pairs) →
  Forall2 (λ e e', ∃ i, pairs !! i = Some (session_pair e) ∧
                        e' = set_gsid (Some (Z.of_nat i + 1)) e)
    rows (merge_left rows (zip pairs (seqZ 1 (Z.of_nat (length pairs))))).
Proof.
  intros Hnd. induction rows as [|e rows IH]; intros Hin.
  - constructor.
  - unfold merge_left. rewrite bind_cons.
    destruct (list_elem_of_lookup_1 pairs (session_pair e)) as [i Hi].
    { apply Hin. left. }
    rewrite (filter_numbered_pairs pairs 1 _ i) by done. simpl.
    constructor.
    + exists i. split; [done|]. do 2 f_equal. lia.
    + apply IH. intros e' He'. apply Hin. by right.
Qed.

Lemma sorted_pairs_strict (l : list (Z * Z)) :
  NoDup l → StronglySorted (λ p q, pair_le p q = true) l → StronglySorted pair_lt l.
Proof.
  intros Hnd Hs. induction Hs as [|p l Hs IH Hp]; [constructor|].
  apply NoDup_cons in Hnd as [Hp' Hnd]. constructor; [by apply IH|].
  apply Forall_forall. intros q Hq.
  rewrite Forall_forall in Hp. specialize (Hp q Hq).
  assert (p ≠ q) as Hne by (intros ->; done).
  destruct p as [a b], q as [c d]. unfold pair_le, pair_lt in *; simpl in *.
  repeat case_bool_decide; simpl in *; try done; try lia.
  destruct (decide (b = d)); [congruence|lia].
Qed.

Lemma sorted_pairs_NoDup rows : NoDup (sorted_pairs rows).
Proof.
  unfold sorted_pairs. rewrite (stable_sort_perm pair_le).
  apply NoDup_drop_duplicates_from.
Qed.

Lemma elem_of_sorted_pairs rows p :
  p ∈ sorted_pairs rows ↔ ∃ e, e ∈ rows ∧ session_pair e = p.
Proof.
  unfold sorted_pairs. rewrite (stable_sort_perm pair_le).
  rewrite elem_of_drop_duplicates, list_elem_of_fmap. naive_solver.
Qed.

Lemma add_global_session_id_unfold df :
  resolver_ready df →
  add_global_session_id (Some df) =
  Ok (mkDF (df_columns df ++ [COL_GSID])
        (sort_values (merge_left (df_rows df) (unique_sessions (df_rows df))))).
Proof.
  intros (Hne & Hd & Hs & Ht & Hg). unfold add_global_session_id.
  rewrite bool_decide_eq_false_2 by done.
  unfold missing_cols.
  rewrite filter_cons_False by (intros H; by apply H).
  rewrite filter_cons_False by (intros H; by apply H).
  rewrite filter_nil. unfold has_col.
  rewrite (bool_decide_eq_false_2 (COL_GSID ∈ _)) by done.
  rewrite (bool_decide_eq_true_2 (COL_TIME ∈ _)) by done.
  done.
Qed.

Lemma Forall2_elem_of_r {A B} (P : A → B → Prop) l k y :
  Forall2 P l k → y ∈ k → ∃ x, x ∈ l ∧ P x y.
Proof.
  induction 1 as [|x y' l k Hxy _ IH]; intros Hy.
  - by apply elem_of_nil in Hy.
  - apply elem_of_cons in Hy as [->|Hy].
    + exists x. split; [left|done].
    + destruct (IH Hy) as (x' & Hx' & HP). exists x'. split; [by right|done].
Qed.

Lemma merge_left_rows_kept rows right :
  (∀ e, e ∈ rows → length (filter (λ u : Z * Z * Z, u.1 = session_pair e) right) = 1%nat) →
  set_gsid None <$> merge_left rows right = set_gsid None <$> rows.
Proof.
  induction rows as [|e rows IH]; intros Hone; [done|].
  unfold merge_left. rewrite bind_cons, fmap_app, fmap_cons.
  fold (merge_left rows right). rewrite IH.
  - pose proof (Hone e ltac:(left)) as He.
    destruct (filter _ right) as [|u [|??]]; simpl in *; try done.
  - intros e' He'. apply Hone. by right.
Qed.

(** C1. After [add_global_session_id] the table has as many rows as before
    (they are the input rows with an id attached), every row carries a
    global session id, two rows carry the same id exactly when they share
    the (device id, session number) pair, and the id of a row is the
    one-based position of its pair in the strictly ascending list of the
    distinct pairs, so the ids are 1..N in ascending pair order. *)
Theorem add_global_session_id_bijection (df : DataFrame) :
  resolver_ready df →
  ∃ out, add_global_session_id (Some df) = Ok out ∧
    length (df_rows out) = length (df_rows df) ∧
    set_gsid None <$> df_rows out ≡ₚ set_gsid None <$> df_rows df ∧
    (∀ e, e ∈ df_rows out → is_Some (global_session_id e)) ∧
    (∀ e1 e2, e1 ∈ df_rows out → e2 ∈ df_rows out →
       global_session_id e1 = global_session_id e2 ↔
       session_pair e1 = session_pair e2) ∧
    StronglySorted pair_lt (sorted_pairs (df_rows df)) ∧
    (∀ p, p ∈ sorted_pairs (df_rows df) ↔
          ∃ e, e ∈ df_rows df ∧ session_pair e = p) ∧
    (∀ e, e ∈ df_rows out →
       ∃ i, sorted_pairs (df_rows df) !! i = Some (session_pair e) ∧
            global_session_id e = Some (Z.of_nat i + 1)).
Proof.
  intros Hready. eexists. split; [by apply add_global_session_id_unfold|].
  simpl. set (rows := df_rows df). set (pairs := sorted_pairs rows).
  unfold unique_sessions. fold pairs.
  pose proof (sorted_pairs_NoDup rows) as Hnd. fold pairs in Hnd.
  assert (∀ e, e ∈ rows → session_pair e ∈ pairs) as Hcover.
  { intros e He. apply elem_of_sorted_pairs. eauto. }
  pose proof (merge_left_numbered rows pairs Hnd Hcover) as HF.
  set (merged := merge_left rows _) in *.
  assert (∀ e, e ∈ sort_values merged →
            ∃ i, pairs !! i = Some (session_pair e) ∧
                 global_session_id e = Some (Z.of_nat i + 1)) as Hid.
  { intros e' He'. rewrite sort_values_perm in He'.
    destruct (Forall2_elem_of_r _ _ _ _ HF He') as (e & _ & i & Hi & ->).
    exists i. by rewrite session_pair_set_gsid. }
  repeat split.
  - rewrite sort_values_perm. symmetry. by eapply Forall2_length.
  - rewrite sort_values_perm. subst merged. rewrite merge_left_rows_kept; [done|].
    intros e He. destruct (list_elem_of_lookup_1 pairs (session_pair e)) as [i Hi];
      [by apply Hcover|].
    by rewrite (filter_numbered_pairs pairs 1 _ i).
  - intros e He. destruct (Hid e He) as (i & _ & ->). eauto.
  - intros Heq. destruct (Hid e1 H) as (i & Hi & Hgi), (Hid e2 H0) as (j & Hj & Hgj).
    rewrite Hgi, Hgj in Heq. assert (i = j) as -> by (injection Heq; lia).
    congruence.
  - intros Heq. destruct (Hid e1 H) as (i & Hi & Hgi), (Hid e2 H0) as (j & Hj & Hgj).
    rewrite Heq in Hi. rewrite Hgi, Hgj.
    by rewrite (NoDup_lookup _ _ _ _ Hnd Hi Hj).
  - apply sorted_pairs_strict; [done|].
    apply stable_sort_sorted; [apply pair_le_total|apply pair_le_trans].
  - by apply elem_of_sorted_pairs.
  - by apply elem_of_sorted_pairs.
  - done.
Qed.

Lemma add_global_session_id_bijection_witness :
  resolver_ready sample_raw_table ∧
  ∃ out, add_global_session_id (Some sample_raw_table) = Ok out ∧
         length (df_rows out) = 4%nat.
Proof.
  assert (resolver_ready sample_raw_table) as Hready.
  { unfold resolver_ready.
    split_and!; [discriminate|compute_done..]. }
  split; [exact Hready|].
  destruct (add_global_session_id_bijection sample_raw_table Hready)
    as (out & Hout & Hlen & _).
  exists out. split; [exact Hout|exact Hlen].
Defined.

(** A non-empty table lacking one of the two key columns makes the
    resolver fail in the column selection, with [KeyError]. *)
Lemma add_global_session_id_missing_key (df : DataFrame) :
  df_rows df ≠ [] →
  COL_DEVICE ∉ df_columns df ∨ COL_SESSION_NO ∉ df_columns df →
  ∃ miss, add_global_session_id (Some df) = Raise (KeyError miss).
Proof.
  intros Hne Hmiss. unfold add_global_session_id.
  rewrite bool_decide_eq_false_2 by done.
  destruct (missing_cols _ df) as [|c miss] eqn:Hm; [|eauto].
  exfalso. unfold missing_cols in Hm.
  destruct Hmiss as [H|H].
  - rewrite filter_cons_True in Hm by done. done.
  - rewrite filter_cons in Hm. case_decide.
    + done.
    + rewrite filter_cons_True in Hm by done. done.
Qed.

(** C9. On a one-row table without the session-number column
    [add_global_session_id] raises [KeyError], not [ValueError]. *)
Lemma add_global_session_id_missing_column_raises_KeyError :
  add_global_session_id (Some table_without_session_no)
  = Raise (KeyError [COL_SESSION_NO]).
Proof. vm_compute. reflexivity. Qed.

(** ** Temporal Normalizer *)

Lemma astype_int32_id z : int32_range z → astype_int32 z = z.
Proof.
  unfold int32_range, astype_int32. intros Hz.
  rewrite Z.mod_small by lia. lia.
Qed.

Lemma same_session_in s e x :
  global_session_id e = Some s →
  same_session e x ↔ global_session_id x = Some s.
Proof. unfold same_session. intros ->. naive_solver. Qed.

Lemma next_in_session_rows s e r :
  global_session_id e = Some s →
  next_in_session e r = head (session_rows s r).
Proof.
  intros He. unfold next_in_session, session_rows. f_equal.
  apply list_filter_iff. intros x. by apply same_session_in.
Qed.

Lemma session_rows_cons s e r :
  session_rows s (e :: r) =
  if decide (global_session_id e = Some s) then e :: session_rows s r
  else session_rows s r.
Proof. unfold session_rows. by rewrite filter_cons. Qed.

(** The rows of a session keep their order and instants; their durations
    are the gaps between consecutive rows of that session. *)
Lemma session_rows_with_durations_time s l :
  event_time <$> session_rows s (with_durations l) = event_time <$> session_rows s l.
Proof.
  induction l as [|e r IH]; [done|]. cbn [with_durations].
  rewrite !session_rows_cons. cbn [set_duration global_session_id].
  case_decide; [|done]. rewrite !fmap_cons. by rewrite IH.
Qed.

Lemma session_rows_with_durations s l :
  duration_seconds <$> session_rows s (with_durations l)
  = time_gaps (event_time <$> session_rows s l).
Proof.
  induction l as [|e r IH]; [done|]. cbn [with_durations].
  rewrite !session_rows_cons. cbn [set_duration global_session_id].
  case_decide as He; [|done].
  rewrite !fmap_cons. cbn [time_gaps set_duration duration_seconds event_time].
  rewrite IH. f_equal. f_equal.
  rewrite (next_in_session_rows s) by done.
  by destruct (session_rows s r).
Qed.

Lemma with_durations_rows_kept l :
  set_duration 0 <$> with_durations l = set_duration 0 <$> l.
Proof.
  induction l as [|e r IH]; [done|]. cbn [with_durations].
  rewrite !fmap_cons, IH. done.
Qed.

(** Within one session the sorted table is in ascending time order. *)
Lemma session_rows_sorted_times s l ts :
  StronglySorted (λ x y, session_time_le x y = true) l →
  event_time <$> session_rows s l = Some <$> ts →
  StronglySorted Z.le ts.
Proof.
  intros Hs. revert ts. induction Hs as [|e r Hs IH He]; intros ts Hts.
  - destruct ts; [constructor|done].
  - rewrite session_rows_cons in Hts. case_decide as Hg; [|by apply IH].
    destruct ts as [|t ts]; [done|]. rewrite !fmap_cons in Hts.
    injection Hts as Ht Hts. constructor; [by apply IH|].
    apply Forall_forall. intros t' Ht'.
    assert (Some t' ∈ event_time <$> session_rows s r) as Hin
      by (rewrite Hts; by apply list_elem_of_fmap_2).
    apply list_elem_of_fmap in Hin as (x & Hx & Hin).
    apply list_elem_of_filter in Hin as [Hxs Hin].
    rewrite Forall_forall in He. specialize (He x Hin).
    apply session_time_le_spec in He as [_ He].
    rewrite Ht, <- Hx in He. specialize (He ltac:(congruence)).
    simpl in He. by apply bool_decide_eq_true in He.
Qed.

Lemma time_gaps_in_range ts :
  StronglySorted Z.le ts →
  (∀ x y, x ∈ ts → y ∈ ts → y - x < 2147483648 * NS_PER_SECOND) →
  time_gaps (Some <$> ts) = second_gaps ts.
Proof.
  induction 1 as [|t r Hs IH Ht]; intros Hspan; [done|].
  rewrite fmap_cons. cbn [time_gaps second_gaps]. f_equal.
  - destruct r as [|t' r']; [done|]. rewrite fmap_cons. cbn.
    apply astype_int32_id. unfold int32_range.
    apply Forall_cons in Ht as [Htt _].
    pose proof (Hspan t t' ltac:(left) ltac:(right; left)) as Hlt.
    unfold NS_PER_SECOND in *.
    pose proof (Z.quot_pos (t' - t) 1000000000 ltac:(lia) ltac:(lia)).
    split; [lia|]. apply Z.quot_lt_upper_bound; lia.
  - apply IH. intros x y Hx Hy. apply Hspan; by right.
Qed.

Lemma second_gaps_sum ts :
  whole_second_gaps ts →
  sum_Z (second_gaps ts) * NS_PER_SECOND = default 0 (last ts) - default 0 (head ts).
Proof.
  induction ts as [|t r IH]; [done|]. intros [Hg Hr].
  cbn [second_gaps sum_Z foldr]. fold (sum_Z (second_gaps r)).
  destruct r as [|t' r']; [unfold NS_PER_SECOND; simpl; lia|].
  rewrite last_cons_cons. specialize (IH Hr). cbn [head default] in *.
  rewrite Z.mul_add_distr_r, IH.
  apply Z.mod_divide in Hg as [k Hk]; [|done].
  rewrite Hk, Z.quot_mul by done. unfold id in *. lia.
Qed.

Lemma second_gaps_last ts : ts ≠ [] → last (second_gaps ts) = Some 0.
Proof.
  induction ts as [|t r IH]; [done|]. intros _.
  destruct r as [|t' r']; [done|].
  cbn [second_gaps] in *. rewrite last_cons_cons. by apply IH.
Qed.

Lemma calculate_event_duration_unfold df :
  duration_ready df →
  calculate_event_duration (Some df) =
  Ok (mkDF (add_col COL_DURATION (df_columns df))
        (with_durations (sort_values (df_rows df)))).
Proof.
  intros (Hne & Hg & Ht). unfold calculate_event_duration, has_col.
  rewrite bool_decide_eq_false_2 by done.
  rewrite (bool_decide_eq_true_2 (COL_GSID ∈ _)) by done.
  rewrite (bool_decide_eq_true_2 (COL_TIME ∈ _)) by done.
  done.
Qed.

(** C2 (as the code has it). [calculate_event_duration] keeps the rows and
    changes only their durations.  For a session whose events, in the
    chronological order of the output, are at instants t1 <= ... <= tk
    spanning less than 2^31 seconds, each duration is the gap to the next
    event of the session truncated to whole seconds and the last duration
    is 0; when every gap is a whole number of seconds the durations add up
    to tk - t1 in seconds. *)
Theorem calculate_event_duration_gaps (df : DataFrame) :
  duration_ready df →
  ∃ out, calculate_event_duration (Some df) = Ok out ∧
    set_duration 0 <$> df_rows out ≡ₚ set_duration 0 <$> df_rows df ∧
    ∀ s ts,
      event_time <$> session_rows s (df_rows out) = Some <$> ts →
      (∀ x y, x ∈ ts → y ∈ ts → y - x < 2147483648 * NS_PER_SECOND) →
      StronglySorted Z.le ts ∧
      duration_seconds <$> session_rows s (df_rows out) = second_gaps ts ∧
      (ts ≠ [] → last (duration_seconds <$> session_rows s (df_rows out)) = Some 0) ∧
      (whole_second_gaps ts →
         sum_Z (duration_seconds <$> session_rows s (df_rows out))
         = (default 0 (last ts) - default 0 (head ts)) `quot` NS_PER_SECOND).
Proof.
  intros Hready. eexists. split; [by apply calculate_event_duration_unfold|].
  cbn [df_rows]. split.
  { by rewrite with_durations_rows_kept, sort_values_perm. }
  intros s ts Hts Hspan.
  rewrite session_rows_with_durations_time in Hts.
  assert (StronglySorted Z.le ts) as Hsorted.
  { eapply session_rows_sorted_times; [apply sort_values_sorted|done]. }
  assert (duration_seconds <$> session_rows s (with_durations (sort_values (df_rows df)))
          = second_gaps ts) as Hgaps.
  { rewrite session_rows_with_durations, Hts. by apply time_gaps_in_range. }
  split_and!; [done|done| |].
  - intros Hne. rewrite Hgaps. by apply second_gaps_last.
  - intros Hwhole. rewrite Hgaps.
    rewrite <- (second_gaps_sum ts Hwhole). by rewrite Z.quot_mul.
Qed.

Lemma calculate_event_duration_gaps_witness :
  duration_ready scenario_C_table ∧
  ∃ out, calculate_event_duration (Some scenario_C_table) = Ok out ∧
    duration_seconds <$> session_rows 1 (df_rows out) = [5; 7; 0] ∧
    sum_Z (duration_seconds <$> session_rows 1 (df_rows out)) = 12.
Proof.
  assert (duration_ready scenario_C_table) as Hready.
  { unfold duration_ready. split_and!; [discriminate|compute_done..]. }
  split; [exact Hready|].
  destruct (calculate_event_duration_gaps scenario_C_table Hready)
    as (out & Hout & _ & Hsess).
  exists out. split; [exact Hout|].
  destruct (Hsess 1 [36000 * NS_PER_SECOND; 36005 * NS_PER_SECOND; 36012 * NS_PER_SECOND])
    as (_ & Hgaps & _ & Hsum).
  - vm_compute in Hout. injection Hout as <-. vm_compute. reflexivity.
  - intros x y Hx Hy. 
    repeat (apply elem_of_cons in Hx as [->|Hx]); [..|by apply elem_of_nil in Hx];
    repeat (apply elem_of_cons in Hy as [->|Hy]); try (by apply elem_of_nil in Hy);
    vm_compute; reflexivity.
  - split; [exact Hgaps|]. rewrite Hsum; [reflexivity|].
    vm_compute. repeat split; reflexivity.
Defined.

(** C2, the counterexample: three events of one session half a second
    apart get the durations 0, 0, 0, which add up to 0, while one whole
    second lies between the first event and the last. *)
Lemma duration_conservation_fails_subsecond :
  ∃ out, calculate_event_duration (Some subsecond_table) = Ok out ∧
    event_time <$> session_rows 1 (df_rows out)
      = [Some 0; Some 500000000; Some 1000000000] ∧
    duration_seconds <$> session_rows 1 (df_rows out) = [0; 0; 0] ∧
    sum_Z (duration_seconds <$> session_rows 1 (df_rows out))
      ≠ (1000000000 - 0) `quot` NS_PER_SECOND.
Proof.
  eexists. split; [vm_compute; reflexivity|]. vm_compute. split_and!; done.
Qed.

(** ** Taxonomy Lookup *)

Lemma foldl_insert_lookup_None {V} (f : ActionObj → Triple) (v : ActionObj → V)
    (l : list ActionObj) (m : gmap Triple V) (k : Triple) :
  foldl (λ m ao, <[f ao := v ao]> m) m l !! k = None ↔
  m !! k = None ∧ ∀ ao, ao ∈ l → f ao ≠ k.
Proof.
  revert m. induction l as [|a l IH]; intros m; simpl.
  - split; [|naive_solver]. intros Hm. split; [done|].
    intros ao Hao. by apply elem_of_nil in Hao.
  - rewrite IH, lookup_insert_None. split.
    + intros [[Hm Ha] Hl]. split; [done|]. intros ao Hao.
      apply elem_of_cons in Hao as [->|Hao]; [done|by apply Hl].
    + intros [Hm Hl]. split_and!; [done|apply Hl; left|].
      intros ao Hao. apply Hl. by right.
Qed.

Lemma action_to_block_add_group bname acc g k :
  action_to_block (lookup_add_group bname acc g) !! k = None ↔
  action_to_block acc !! k = None ∧
  ∀ ao, ao ∈ block_action_lists g → group_key g ao ≠ k.
Proof. unfold lookup_add_group. cbn [action_to_block]. apply foldl_insert_lookup_None. Qed.

Lemma action_to_block_add_block acc b k :
  action_to_block (lookup_add_block acc b) !! k = None ↔
  action_to_block acc !! k = None ∧
  ∀ g ao, g ∈ block_groups b → ao ∈ block_action_lists g → group_key g ao ≠ k.
Proof.
  unfold lookup_add_block. generalize (block_groups b) as gs. intros gs.
  revert acc. induction gs as [|g gs IH]; intros acc; simpl.
  - split; [|naive_solver]. intros Hm. split; [done|].
    intros g ao Hg. by apply elem_of_nil in Hg.
  - rewrite IH, action_to_block_add_group. split.
    + intros [[Hm Hg] Hgs]. split; [done|]. intros g' ao Hg' Hao.
      apply elem_of_cons in Hg' as [->|Hg']; [by apply Hg|by eapply Hgs].
    + intros [Hm Hl]. split_and!; [done| |].
      * intros ao Hao. eapply Hl; [left|done].
      * intros g' ao Hg' Hao. eapply Hl; [by right|done].
Qed.

(** The block-membership table holds exactly the triples of the four
    lists the first loop walks; a triple that occurs in [success_review]
    lists only is not in it. *)
Lemma action_to_block_None (blocks_data : list Block) (k : Triple) :
  action_to_block (build_action_lookup blocks_data) !! k = None ↔
  ∀ b g ao, b ∈ blocks_data → g ∈ block_groups b →
            ao ∈ block_action_lists g → group_key g ao ≠ k.
Proof.
  unfold build_action_lookup.
  assert (∀ acc, action_to_block (foldl lookup_add_block acc blocks_data) !! k = None ↔
            action_to_block acc !! k = None ∧
            ∀ b g ao, b ∈ blocks_data → g ∈ block_groups b →
                      ao ∈ block_action_lists g → group_key g ao ≠ k) as Hgen.
  { induction blocks_data as [|b bs IH]; intros acc; simpl.
    - split; [|naive_solver]. intros Hm. split; [done|].
      intros b g ao Hb. by apply elem_of_nil in Hb.
    - rewrite IH, action_to_block_add_block. split.
      + intros [[Hm Hb] Hbs]. split; [done|]. intros b' g ao Hb' Hg Hao.
        apply elem_of_cons in Hb' as [->|Hb']; [by eapply Hb|by eapply Hbs].
      + intros [Hm Hl]. split_and!; [done| |].
        * intros g ao Hg Hao. eapply Hl; [left|done..].
        * intros b' g ao Hb' Hg Hao. eapply Hl; [by right|done..]. }
  rewrite Hgen. cbn [action_to_block]. rewrite lookup_empty. naive_solver.
Qed.

(** C7. For the taxonomy whose single block lists one triple, under
    [success_review] only, the triple appears in one of the five typed
    lists of the block, yet [_build_action_lookup] leaves it out of the
    block-membership table (it enters the review table alone). *)
Lemma build_action_lookup_drops_review_only_triple :
  let k : Triple := ("Профиль", "Просмотр профиля", "Открытие экрана") in
  (∃ b, b ∈ review_only_taxonomy ∧ in_block_lists k b) ∧
  action_to_block (build_action_lookup review_only_taxonomy) !! k = None ∧
  review_lookup (build_action_lookup review_only_taxonomy) !! k = Some "Профиль".
Proof.
  intros k. split_and!.
  - eexists. split; [left|]. eexists _, _. split_and!; [left|left|done].
  - vm_compute. reflexivity.
  - vm_compute. reflexivity.
Qed.

(** ** Trailing menu events *)

Lemma drop_flagged_cons e r b fl :
  drop_flagged (e :: r) (b :: fl) =
  if b then drop_flagged r fl else e :: drop_flagged r fl.
Proof.
  unfold drop_flagged. cbn [zip zip_with]. rewrite filter_cons. cbn [snd].
  destruct b; case_decide; try done.
Qed.

Lemma drop_flagged_none l fl :
  length fl = length l → filter (λ b, b = true) fl = [] → drop_flagged l fl = l.
Proof.
  revert fl. induction l as [|e r IH]; intros [|b fl] Hlen Hnone; try done.
  rewrite drop_flagged_cons. rewrite filter_cons in Hnone.
  destruct b; [by rewrite decide_True in Hnone|].
  rewrite decide_False in Hnone by done. f_equal. apply IH; [|done].
  simpl in Hlen. lia.
Qed.

Lemma to_remove_flags_length l : length (to_remove_flags l) = length l.
Proof. induction l as [|e r IH]; [done|]. simpl. by rewrite IH. Qed.

Lemma drop_flagged_sublist l fl : drop_flagged l fl `sublist_of` l.
Proof.
  revert fl. induction l as [|e r IH]; intros [|b fl]; try done.
  - unfold drop_flagged. simpl. apply sublist_nil_l.
  - rewrite drop_flagged_cons. destruct b.
    + by apply sublist_cons.
    + by apply sublist_skip.
Qed.

Lemma drop_trailing_target_cons e evs :
  evs ≠ [] → drop_trailing_target (e :: evs) = e :: drop_trailing_target evs.
Proof.
  intros Hne. unfold drop_trailing_target.
  destruct evs as [|e' evs]; [done|]. rewrite last_cons_cons.
  destruct (last (e' :: evs)) as [x|]; [|done].
  case_decide; done.
Qed.

Lemma is_last_in_session_rows s e r :
  global_session_id e = Some s →
  is_last_in_session e r ↔ session_rows s r = [].
Proof.
  intros He. unfold is_last_in_session.
  rewrite (next_in_session_rows s) by done. rewrite He.
  destruct (session_rows s r); naive_solver.
Qed.

(** Within each session only a final target event is dropped. *)
Lemma session_rows_drop_flagged s l :
  session_rows s (drop_flagged l (to_remove_flags l))
  = drop_trailing_target (session_rows s l).
Proof.
  induction l as [|e r IH]; [done|].
  cbn [to_remove_flags]. rewrite drop_flagged_cons, (session_rows_cons s e r).
  destruct (decide (global_session_id e = Some s)) as [He|He].
  - destruct (session_rows s r) as [|e' evs] eqn:Hevs.
    + assert (is_last_in_session e r) as Hlast
        by (by apply (is_last_in_session_rows s)).
      unfold drop_trailing_target in *. cbn [last].
      destruct (decide (is_trailing_target e)) as [Ht|Ht].
      * rewrite bool_decide_eq_true_2 by done. by rewrite IH.
      * rewrite bool_decide_eq_false_2 by naive_solver.
        rewrite session_rows_cons, decide_True by done. by rewrite IH.
    + rewrite bool_decide_eq_false_2.
      * rewrite session_rows_cons, decide_True by done.
        rewrite IH. by rewrite (drop_trailing_target_cons e (e' :: evs)).
      * intros [Hlast _]. apply (is_last_in_session_rows s) in Hlast; [|done].
        congruence.
  - destruct (bool_decide _); [done|].
    by rewrite session_rows_cons, decide_False.
Qed.

(** Rows without a session id are never dropped. *)
Lemma unidentified_rows_drop_flagged l :
  filter (λ e, global_session_id e = None) (drop_flagged l (to_remove_flags l))
  = filter (λ e, global_session_id e = None) l.
Proof.
  induction l as [|e r IH]; [done|].
  cbn [to_remove_flags]. rewrite drop_flagged_cons.
  case_bool_decide as Hb.
  - rewrite IH. rewrite filter_cons_False; [done|].
    destruct Hb as [[[s Hs] _] _]. congruence.
  - rewrite !filter_cons, IH. done.
Qed.

Lemma to_remove_flags_none l :
  (∀ s e, last (session_rows s l) = Some e → ¬ is_trailing_target e) →
  filter (λ b, b = true) (to_remove_flags l) = [].
Proof.
  induction l as [|e r IH]; intros Hno; [done|].
  cbn [to_remove_flags]. rewrite filter_cons.
  rewrite decide_False.
  - apply IH. intros s x Hx. apply (Hno s).
    rewrite session_rows_cons. case_decide; [|done].
    destruct (session_rows s r) as [|e' evs]; [done|].
    by rewrite last_cons_cons.
  - intros Hb. apply bool_decide_eq_true in Hb as [Hlast Ht].
    destruct Hlast as [[s Hs] Hnext].
    apply (Hno s e); [|done].
    rewrite session_rows_cons, decide_True by done.
    assert (session_rows s r = []) as ->; [|done].
    apply (is_last_in_session_rows s e r Hs). split; [eauto|done].
Qed.

Lemma remove_trailing_empty_screens_unfold df :
  trailing_ready df →
  remove_trailing_empty_screens (Some df) =
  Ok (mkDF (df_columns df)
        (drop_flagged (sort_values (df_rows df))
           (to_remove_flags (sort_values (df_rows df))))).
Proof.
  intros (Hne & Hg & Hs & Hf & Ha & Ht).
  unfold remove_trailing_empty_screens, has_col.
  rewrite bool_decide_eq_false_2 by done.
  rewrite (bool_decide_eq_true_2 (COL_GSID ∈ _)) by done.
  unfold missing_cols.
  rewrite !filter_cons_False by (intros H; by apply H).
  rewrite filter_nil.
  rewrite (bool_decide_eq_true_2 (COL_TIME ∈ _)) by done.
  cbn [negb]. case_bool_decide as Hcount; [|done].
  rewrite drop_flagged_none; [done|apply to_remove_flags_length|].
  by apply length_zero_iff_nil.
Qed.

(** C10 (as the code has it).  [remove_trailing_empty_screens] first
    sorts the table by (session, time) and returns a table with the same
    columns whose rows are rows of the sorted input, in the order of the
    sorted input: of every session it drops the chronologically last
    event when that event is ('Еще', 'Открытие экрана', 'Не указано') and
    nothing else, so the same triple in a non-final position, the rows of
    the other sessions and the rows without a session id all stay.  When
    no session ends with the target triple the call is not an error, but
    the result is the sorted input, not the input: the two are equal
    exactly for a table that was in (session, time) order already. *)
Theorem remove_trailing_empty_screens_spec (df : DataFrame) :
  trailing_ready df →
  ∃ out, remove_trailing_empty_screens (Some df) = Ok out ∧
    df_columns out = df_columns df ∧
    df_rows out `sublist_of` sort_values (df_rows df) ∧
    (∀ s, session_rows s (df_rows out)
          = drop_trailing_target (session_rows s (sort_values (df_rows df)))) ∧
    filter (λ e, global_session_id e = None) (df_rows out)
      = filter (λ e, global_session_id e = None) (sort_values (df_rows df)) ∧
    ((∀ s e, last (session_rows s (sort_values (df_rows df))) = Some e →
             ¬ is_trailing_target e) →
     df_rows out = sort_values (df_rows df) ∧
     (out = df ↔ StronglySorted (λ x y, session_time_le x y = true) (df_rows df))).
Proof.
  intros Hready. eexists. split; [by apply remove_trailing_empty_screens_unfold|].
  cbn [df_rows df_columns]. split_and!.
  - done.
  - apply drop_flagged_sublist.
  - intros s. apply session_rows_drop_flagged.
  - apply unidentified_rows_drop_flagged.
  - intros Hno.
    assert (drop_flagged (sort_values (df_rows df))
              (to_remove_flags (sort_values (df_rows df)))
            = sort_values (df_rows df)) as Heq.
    { apply drop_flagged_none; [apply to_remove_flags_length|].
      by apply to_remove_flags_none. }
    split; [done|]. rewrite Heq. split.
    + intros Hdf. apply (f_equal df_rows) in Hdf. cbn [df_rows] in Hdf.
      rewrite <- Hdf. apply sort_values_sorted.
    + intros Hsorted. rewrite sort_values_id by done. by destruct df.
Qed.

Lemma remove_trailing_empty_screens_spec_witness :
  trailing_ready trailing_table ∧
  ∃ out, remove_trailing_empty_screens (Some trailing_table) = Ok out ∧
    event_time <$> session_rows 1 (df_rows out) = [Some 10; Some 20] ∧
    event_time <$> session_rows 2 (df_rows out) = [Some 5; Some 6].
Proof.
  assert (trailing_ready trailing_table) as Hready.
  { unfold trailing_ready. split_and!; [discriminate|compute_done..]. }
  split; [exact Hready|].
  destruct (remove_trailing_empty_screens_spec trailing_table Hready)
    as (out & Hout & _ & _ & Hsess & _).
  exists out. split; [exact Hout|].
  rewrite !Hsess. vm_compute. split; reflexivity.
Defined.

(** C10, the counterexample: no session of the table ends on the menu
    screen, so nothing is marked for removal, and yet the stage does not
    return the table as it got it: the two events of the session come
    back in (session, time) order. *)
Lemma remove_trailing_empty_screens_reorders :
  trailing_ready unsorted_table ∧
  to_remove_flags (sort_values (df_rows unsorted_table)) = [false; false] ∧
  ∃ out, remove_trailing_empty_screens (Some unsorted_table) = Ok out ∧
    event_time <$> df_rows unsorted_table = [Some 20; Some 10] ∧
    event_time <$> df_rows out = [Some 10; Some 20] ∧
    out ≠ unsorted_table.
Proof.
  split.
  { unfold trailing_ready. split_and!; [discriminate|compute_done..]. }
  split; [vm_compute; reflexivity|].
  eexists. split; [vm_compute; reflexivity|].
  split; [reflexivity|]. split; [vm_compute; reflexivity|].
  vm_compute. discriminate.
Qed.

(** ** Cohort Labeler *)

Lemma user_months_is_Some rows e :
  e ∈ rows → is_Some (user_months rows !! device_id e).
Proof.
  induction rows as [|x rows IH]; intros He; [by apply elem_of_nil in He|].
  cbn [user_months foldr]. fold (user_months rows).
  destruct (decide (device_id x = device_id e)) as [Heq|Hne].
  - rewrite Heq, lookup_insert_eq. eauto.
  - rewrite lookup_insert_ne by done.
    apply elem_of_cons in He as [->|He]; [done|by apply IH].
Qed.

Lemma user_months_active rows dev mo :
  mo ∈ default ∅ (user_months rows !! dev) ↔ active_in mo dev rows.
Proof.
  unfold active_in. induction rows as [|x rows IH].
  - cbn. rewrite lookup_empty. cbn. split; [set_solver|].
    intros (e & He & _). by apply elem_of_nil in He.
  - cbn [user_months foldr]. fold (user_months rows).
    destruct (decide (device_id x = dev)) as [Heq|Hne].
    + rewrite Heq, lookup_insert_eq. cbn [default from_option id].
      destruct (event_month x) as [mx|] eqn:Hmx.
      * rewrite elem_of_union, elem_of_singleton, IH. split.
        -- intros [->|(e & He & Hd & Hm)].
           ++ exists x. split_and!; [left|done..].
           ++ exists e. split_and!; [by right|done..].
        -- intros (e & He & Hd & Hm).
           apply elem_of_cons in He as [->|He]; [left; congruence|].
           right. eauto.
      * rewrite IH. split.
        -- intros (e & He & Hd & Hm). exists e. split_and!; [by right|done..].
        -- intros (e & He & Hd & Hm).
           apply elem_of_cons in He as [->|He]; [congruence|eauto].
    + rewrite lookup_insert_ne by done. rewrite IH. split.
      * intros (e & He & Hd & Hm). exists e. split_and!; [by right|done..].
      * intros (e & He & Hd & Hm).
        apply elem_of_cons in He as [->|He]; [congruence|eauto].
Qed.

Lemma add_user_cohort_status_unfold df :
  cohort_ready df →
  add_user_cohort_status (Some df) =
  Ok (df_columns df ++ ["is_lost"; "is_stay"; "is_new"],
      (λ e, (e, classify_months (default ∅ (user_months (df_rows df) !! device_id e))))
        <$> df_rows df).
Proof.
  intros (Hne & Ht & Hd). unfold add_user_cohort_status.
  rewrite bool_decide_eq_false_2 by done.
  unfold missing_cols.
  rewrite !filter_cons_False by (intros H; by apply H).
  rewrite filter_nil. do 2 f_equal.
  apply list_fmap_ext. intros i e Hi.
  apply list_elem_of_lookup_2 in Hi.
  destruct (user_months_is_Some _ _ Hi) as [months Hm].
  unfold status_flag, user_status. rewrite lookup_fmap, Hm. cbn.
  by destruct (classify_months months).
Qed.

(** C8. [add_user_cohort_status] labels every input row, in place and in
    order.  A row of a device seen in month 9 and not in month 10 is
    is_lost only; seen in both months, is_stay only; seen in month 10 and
    not in month 9, is_new only; seen in neither month, none of the three
    (and the call still succeeds).  All rows of one device carry the same
    three flags. *)
Theorem add_user_cohort_status_flags (df : DataFrame) :
  cohort_ready df →
  ∃ cols out, add_user_cohort_status (Some df) = Ok (cols, out) ∧
    out.*1 = df_rows df ∧
    (∀ e fl, (e, fl) ∈ out →
       let sep := active_in 9 (device_id e) (df_rows df) in
       let oct := active_in 10 (device_id e) (df_rows df) in
       (sep ∧ ¬ oct → fl = mkFlags true false false) ∧
       (sep ∧ oct → fl = mkFlags false true false) ∧
       (¬ sep ∧ oct → fl = mkFlags false false true) ∧
       (¬ sep ∧ ¬ oct → fl = mkFlags false false false)) ∧
    (∀ e1 fl1 e2 fl2, (e1, fl1) ∈ out → (e2, fl2) ∈ out →
       device_id e1 = device_id e2 → fl1 = fl2).
Proof.
  intros Hready. eexists _, _.
  split; [by apply add_user_cohort_status_unfold|]. split_and!.
  - rewrite <- list_fmap_compose. rewrite <- (list_fmap_id (df_rows df)) at 2.
    by apply list_fmap_ext.
  - intros e fl Hin. apply list_elem_of_fmap in Hin as (e' & [= -> ->] & _).
    cbn zeta. rewrite <- !user_months_active.
    set (months := default ∅ (user_months (df_rows df) !! device_id e')).
    unfold classify_months.
    split_and!; intros [H9 H10].
    + rewrite (bool_decide_eq_true_2 _ H9), (bool_decide_eq_false_2 _ H10). done.
    + rewrite (bool_decide_eq_true_2 _ H9), (bool_decide_eq_true_2 _ H10). done.
    + rewrite (bool_decide_eq_false_2 _ H9), (bool_decide_eq_true_2 _ H10). done.
    + rewrite (bool_decide_eq_false_2 _ H9), (bool_decide_eq_false_2 _ H10). done.
  - intros e1 fl1 e2 fl2 H1 H2 Hdev.
    apply list_elem_of_fmap in H1 as (? & [= -> ->] & _).
    apply list_elem_of_fmap in H2 as (? & [= -> ->] & _).
    by rewrite Hdev.
Qed.

Lemma add_user_cohort_status_flags_witness :
  cohort_ready cohort_table ∧
  ∃ cols out, add_user_cohort_status (Some cohort_table) = Ok (cols, out) ∧
    out.*2 = [mkFlags true false false; mkFlags false true false;
              mkFlags false true false; mkFlags false false true;
              mkFlags false false false; mkFlags true false false].
Proof.
  assert (cohort_ready cohort_table) as Hready.
  { unfold cohort_ready. split_and!; [discriminate|compute_done..]. }
  split; [exact Hready|].
  destruct (add_user_cohort_status_flags cohort_table Hready)
    as (cols & out & Hout & _).
  exists cols, out. split; [exact Hout|].
  vm_compute in Hout. injection Hout as <- <-. vm_compute. reflexivity.
Defined.

(** ** Maximal runs of adjacent rows *)

Section adjacent_runs_facts.
Context {A : Type} (R : A → A → Prop) `{!RelDecision R}.

Lemma group_adjacent_runs l :
  concat (group_adjacent R l) = l ∧
  ∀ prev, (∀ p x, prev = Some p → head l = Some x → ¬ R p x) →
          is_runs R prev (group_adjacent R l).
Proof.
  induction l as [|e r [IHc IHr]]; [done|].
  cbn [group_adjacent].
  destruct (group_adjacent R r) as [|[|x G] Gs] eqn:HG.
  - simpl in IHc. subst r. split; [done|]. intros prev Hprev. simpl. eauto.
  - exfalso. by destruct (IHr None ltac:(done)) as [? _].
  - assert (head r = Some x) as Hhead by (by rewrite <- IHc).
    case_decide as HR.
    + split; [simpl in *; by rewrite IHc|].
      intros prev Hprev.
      destruct (IHr None ltac:(done)) as (_ & Hch & _ & Hruns).
      cbn [is_runs]. refine (conj _ (conj _ (conj _ _))); [done| |done|].
      * cbn [chain]. split; [done|exact Hch].
      * by rewrite last_cons_cons.
    + split; [simpl in *; by rewrite IHc|].
      intros prev Hprev. cbn [is_runs].
      refine (conj _ (conj _ (conj _ _))); [done|done|done|].
      apply (IHr (Some e)). intros p y [= <-] Hy. congruence.
Qed.

Lemma group_adjacent_concat l : concat (group_adjacent R l) = l.
Proof. apply group_adjacent_runs. Qed.

Lemma group_adjacent_is_runs l : is_runs R None (group_adjacent R l).
Proof. by apply group_adjacent_runs. Qed.

Lemma is_runs_app prev Gs1 Gs2 :
  is_runs R prev Gs1 →
  is_runs R (match last (concat Gs1) with Some x => Some x | None => prev end) Gs2 →
  is_runs R prev (Gs1 ++ Gs2).
Proof.
  revert prev. induction Gs1 as [|G Gs1 IH]; intros prev H1 H2; [done|].
  destruct H1 as (Hne & Hch & Hb & H1). cbn [app is_runs].
  refine (conj _ (conj _ (conj _ _))); [done..|]. apply IH; [done|].
  cbn [concat] in H2. rewrite last_app in H2.
  destruct (last (concat Gs1)); [done|].
  destruct (last G) eqn:HG; [done|]. by apply last_None in HG.
Qed.

(** Inside a run no row opens a group. *)
Lemma label_adjacent_chain x G g rest :
  chain R (x :: G) →
  label_adjacent R (Some x) g (G ++ rest)
  = ((g,.) <$> G) ++ label_adjacent R (last (x :: G)) g rest.
Proof.
  revert x. induction G as [|y G IH]; intros x Hch; [done|].
  destruct Hch as [Hxy Hch]. cbn [app label_adjacent].
  rewrite bool_decide_eq_false_2 by (by intros H; apply H).
  rewrite IH by done. by rewrite last_cons_cons.
Qed.

(** The group-id column numbers the maximal runs consecutively. *)
Lemma label_adjacent_runs prev c Gs :
  is_runs R prev Gs →
  label_adjacent R prev c (concat Gs) = label_runs c Gs.
Proof.
  revert prev c. induction Gs as [|G Gs IH]; intros prev c Hruns; [done|].
  destruct Hruns as (Hne & Hch & Hb & Hruns).
  destruct G as [|x G]; [done|]. cbn [concat app label_adjacent label_runs].
  assert ((match prev with Some p => bool_decide (¬ R p x) | None => true end) = true)
    as ->.
  { destruct prev as [p|]; [|done]. apply bool_decide_eq_true. by apply Hb. }
  rewrite label_adjacent_chain by done. rewrite IH by done.
  by rewrite fmap_cons.
Qed.

Lemma label_runs_gt c (Gs : list (list A)) g x :
  (g, x) ∈ label_runs c Gs → (c < g)%nat.
Proof.
  revert c. induction Gs as [|G Gs IH]; intros c Hin.
  - by apply elem_of_nil in Hin.
  - cbn [label_runs] in Hin. apply elem_of_app in Hin as [Hin|Hin].
    + apply list_elem_of_fmap in Hin as (? & [= -> ->] & _). lia.
    + apply IH in Hin. lia.
Qed.
End adjacent_runs_facts.

(** ** Run collapse *)

Lemma same_session_sym a b : same_session a b → same_session b a.
Proof. unfold same_session. intros [[s Hs] Heq]. rewrite <- Heq, Hs. eauto. Qed.

Lemma same_session_trans a b c : same_session a b → same_session b c → same_session a c.
Proof. unfold same_session. intros [Hs Hab] [_ Hbc]. split; [done|congruence]. Qed.

(** A row opens a new group exactly when the row just before it is not a
    row of the same session with the same key. *)
Lemma new_group_flag_adjacent e before :
  negb (is_duplicate e before) || session_changed e before
  = match head before with
    | Some p => bool_decide (¬ same_run p e)
    | None => true
    end.
Proof.
  unfold is_duplicate, session_changed, prev_in_session.
  destruct before as [|p before]; cbn [head]; [apply orb_true_r|].
  destruct (decide (same_session p e)) as [Hs|Hs].
  - rewrite filter_cons_True by (by apply same_session_sym). cbn [head fmap option_fmap option_map].
    rewrite (bool_decide_eq_false_2 (¬ same_session p e)) by (by intros H; apply H).
    rewrite orb_false_r. unfold same_run.
    destruct (decide (comparison_key p = comparison_key e)) as [Hk|Hk].
    + rewrite bool_decide_eq_true_2 by (by rewrite Hk).
      rewrite bool_decide_eq_false_2; [done|]. intros H. by apply H.
    + rewrite bool_decide_eq_false_2 by (intros [= ?]; done).
      rewrite bool_decide_eq_true_2; [done|]. by intros [_ ?].
  - rewrite (bool_decide_eq_true_2 (¬ same_session p e)) by done.
    rewrite orb_true_r. symmetry. apply bool_decide_eq_true.
    unfold same_run. by intros [? _].
Qed.

Lemma group_ids_label before c l :
  zip (cumsum c (new_group_flags before l)) l
  = label_adjacent same_run (head before) c l.
Proof.
  revert before c. induction l as [|e r IH]; intros before c; [done|].
  cbn [new_group_flags cumsum zip zip_with label_adjacent].
  rewrite new_group_flag_adjacent. f_equal. apply IH.
Qed.

Section group_blocks.
Context {A : Type}.
Implicit Types (all rest : list (nat * A)) (G : list A).

Lemma filter_group_absent g rest :
  g ∉ rest.*1 → filter (λ p : nat * A, p.1 = g) rest = [].
Proof.
  intros Hg. apply filter_none. intros [g' x] Hin ?. apply Hg. simplify_eq/=.
  by apply (list_elem_of_fmap_2 fst) in Hin.
Qed.

Lemma filter_group_block g G :
  filter (λ p : nat * A, p.1 = g) ((g,.) <$> G) = (g,.) <$> G.
Proof.
  induction G as [|x G IH]; [done|].
  rewrite fmap_cons, filter_cons_True by done. by rewrite IH.
Qed.

Lemma group_members_block g pre G post :
  g ∉ pre.*1 → g ∉ post.*1 →
  group_members g (pre ++ ((g,.) <$> G) ++ post) = G.
Proof.
  intros Hpre Hpost. unfold group_members. rewrite !filter_app.
  rewrite (filter_group_absent g pre), (filter_group_absent g post) by done.
  rewrite filter_group_block, app_nil_r. cbn [app].
  rewrite <- list_fmap_compose. rewrite <- (list_fmap_id G) at 2.
  by apply list_fmap_ext.
Qed.

Lemma is_last_in_group_absent g rest : g ∉ rest.*1 → is_last_in_group g rest.
Proof. apply filter_group_absent. Qed.

Lemma removed_members_absent g rest : g ∉ rest.*1 → removed_members g rest = [].
Proof.
  induction rest as [|[g' x] rest IH]; intros Hg; [done|].
  rewrite fmap_cons, not_elem_of_cons in Hg. destruct Hg as [Hne Hg].
  cbn [removed_members]. rewrite decide_False by (intros [? _]; simplify_eq/=; done).
  by apply IH.
Qed.

Lemma removed_members_skip g pre rest :
  g ∉ pre.*1 → removed_members g (pre ++ rest) = removed_members g rest.
Proof.
  induction pre as [|[g' x] pre IH]; intros Hg; [done|].
  rewrite fmap_cons, not_elem_of_cons in Hg. destruct Hg as [Hne Hg].
  cbn [app removed_members].
  rewrite decide_False by (intros [? _]; simplify_eq/=; done).
  by apply IH.
Qed.

Lemma removed_members_block g G post :
  g ∉ post.*1 →
  removed_members g (((g,.) <$> G) ++ post) = removelast G.
Proof.
  intros Hpost. induction G as [|x G IH]; [by apply removed_members_absent|].
  rewrite fmap_cons. cbn [app removed_members].
  destruct G as [|y G].
  - rewrite decide_False.
    + by rewrite removed_members_absent.
    + intros [_ Hnl]. apply Hnl. by apply is_last_in_group_absent.
  - rewrite decide_True.
    + by rewrite IH.
    + split; [done|]. unfold is_last_in_group.
      rewrite fmap_cons. cbn [app]. by rewrite filter_cons_True.
Qed.
End group_blocks.

Lemma keep_last_rows_block all g G post :
  g ∉ post.*1 →
  keep_last_rows all (((g,.) <$> G) ++ post)
  = from_option (λ e, [finalize_last (group_members g all) (removed_members g all) e])
      [] (last G)
    ++ keep_last_rows all post.
Proof.
  intros Hpost. induction G as [|x G IH]; [done|].
  rewrite fmap_cons. cbn [app keep_last_rows]. destruct G as [|y G].
  - rewrite decide_True by (by apply is_last_in_group_absent). done.
  - rewrite decide_False.
    + rewrite IH. by rewrite last_cons_cons.
    + unfold is_last_in_group. rewrite fmap_cons. cbn [app].
      by rewrite filter_cons_True.
Qed.

Lemma label_runs_absent {A} c (Gs : list (list A)) g :
  (g ≤ c)%nat → g ∉ (label_runs c Gs).*1.
Proof.
  intros Hle Hin. apply list_elem_of_fmap in Hin as ([g' x] & -> & Hin).
  apply label_runs_gt in Hin. simpl in *. lia.
Qed.

(** Keeping the finalized last row of every group is collapsing every
    maximal run. *)
Lemma keep_last_rows_runs pre c (Gs : list (list Event)) :
  (∀ g, g ∈ pre.*1 → (g ≤ c)%nat) →
  keep_last_rows (pre ++ label_runs c Gs) (label_runs c Gs) = omap merge_run Gs.
Proof.
  revert pre c. induction Gs as [|G Gs IH]; intros pre c Hpre; [done|].
  cbn [label_runs omap list_omap].
  rewrite keep_last_rows_block by (apply label_runs_absent; lia).
  rewrite group_members_block;
    [|intros Hin; apply Hpre in Hin; lia|apply label_runs_absent; lia].
  rewrite removed_members_skip by (intros Hin; apply Hpre in Hin; lia).
  rewrite removed_members_block by (apply label_runs_absent; lia).
  rewrite (app_assoc pre), IH.
  - unfold merge_run. by destruct (last G).
  - intros g Hg. rewrite fmap_app, elem_of_app in Hg. destruct Hg as [Hg|Hg].
    + apply Hpre in Hg. lia.
    + apply list_elem_of_fmap in Hg as ([g' x] & -> & Hin).
      apply list_elem_of_fmap in Hin as (? & [= -> ->] & _). done.
Qed.

(** The run-collapse pass maps every maximal run of same-session,
    same-key rows to one row. *)
Lemma run_collapse_rows_runs (Gs : list (list Event)) :
  is_runs same_run None Gs →
  run_collapse_rows (concat Gs) = omap merge_run Gs.
Proof.
  intros Hruns. unfold run_collapse_rows, group_ids.
  rewrite (group_ids_label [] 0). cbn [head].
  rewrite (label_adjacent_runs same_run None 0 Gs Hruns).
  apply (keep_last_rows_runs [] 0). intros g Hg. by apply elem_of_nil in Hg.
Qed.

Lemma run_collapse_rows_spec l :
  run_collapse_rows l = omap merge_run (group_adjacent same_run l).
Proof.
  rewrite <- (group_adjacent_concat same_run l) at 1.
  apply run_collapse_rows_runs, group_adjacent_is_runs.
Qed.

Lemma is_runs_middle {A} (R : A → A → Prop) `{!RelDecision R} (pre run post : list A) :
  run ≠ [] → chain R run →
  (∀ p x, last pre = Some p → head run = Some x → ¬ R p x) →
  (∀ x q, last run = Some x → head post = Some q → ¬ R x q) →
  is_runs R None (group_adjacent R pre ++ [run] ++ group_adjacent R post) ∧
  concat (group_adjacent R pre ++ [run] ++ group_adjacent R post) = pre ++ run ++ post.
Proof.
  intros Hne Hch Hl Hr. split.
  - apply is_runs_app; [apply group_adjacent_is_runs|].
    rewrite group_adjacent_concat. cbn [app is_runs].
    refine (conj Hne (conj Hch (conj _ _))).
    + intros p x Hp Hx. apply Hl; [|done]. by destruct (last pre).
    + apply group_adjacent_runs. intros p x Hp Hx. by apply Hr.
  - rewrite !concat_app, !group_adjacent_concat. cbn. by rewrite app_nil_r.
Qed.

Lemma chain_pairwise {A} (R : A → A → Prop) (l : list A) :
  (∀ x y, x ∈ l → y ∈ l → R x y) → chain R l.
Proof.
  induction l as [|x l IH]; intros Hall; [done|]. cbn [chain]. split.
  - destruct l as [|y l]; [done|]. apply Hall; [left|right; left].
  - apply IH. intros a b Ha Hb. apply Hall; by right.
Qed.

Lemma insert_by_fmap {A B} (leA : A → A → bool) (leB : B → B → bool) (f : A → B) x l :
  (∀ a b, leB (f a) (f b) = leA a b) →
  insert_by leB (f x) (f <$> l) = f <$> insert_by leA x l.
Proof.
  intros Hle. induction l as [|y l IH]; [done|].
  rewrite fmap_cons. cbn [insert_by]. rewrite Hle.
  destruct (leA x y); [done|]. by rewrite IH.
Qed.

Lemma stable_sort_fmap {A B} (leA : A → A → bool) (leB : B → B → bool) (f : A → B) l :
  (∀ a b, leB (f a) (f b) = leA a b) →
  stable_sort leB (f <$> l) = f <$> stable_sort leA l.
Proof.
  intros Hle. induction l as [|x l IH]; [done|].
  rewrite fmap_cons. cbn [stable_sort foldr].
  fold (stable_sort leB (f <$> l)). fold (stable_sort leA l).
  rewrite IH. by apply insert_by_fmap.
Qed.

Lemma sort_values_reset_counters l :
  sort_values (reset_counters <$> l) = reset_counters <$> sort_values l.
Proof. by apply stable_sort_fmap. Qed.

Lemma same_run_reset_counters p e :
  same_run (reset_counters p) (reset_counters e) ↔ same_run p e.
Proof. done. Qed.

Lemma remove_consecutive_duplicates_unfold df :
  collapse_ready df →
  remove_consecutive_duplicates_with_clicks (Some df) =
  Ok (mkDF (add_col COL_DURATION (add_col COL_DBL_COUNT (add_col COL_DBL_DURATION
              (add_col COL_CLICK (df_columns df)))))
        (run_collapse_rows (reset_counters <$> sort_values (df_rows df)))).
Proof.
  intros (Hne & Hg & Hd & Hs & Hf & Ha & Ht).
  unfold remove_consecutive_duplicates_with_clicks, has_col.
  rewrite bool_decide_eq_false_2 by done.
  rewrite (bool_decide_eq_true_2 (COL_GSID ∈ _)) by done.
  rewrite (bool_decide_eq_true_2 (COL_DURATION ∈ _)) by done.
  unfold missing_cols.
  rewrite !filter_cons_False by (intros H; by apply H).
  rewrite filter_nil.
  rewrite (bool_decide_eq_true_2 (COL_TIME ∈ _)) by done.
  cbn [negb]. by rewrite sort_values_reset_counters.
Qed.

Lemma removelast_fmap {A B} (f : A → B) (l : list A) :
  removelast (f <$> l) = f <$> removelast l.
Proof.
  induction l as [|x l IH]; [done|]. destruct l as [|y l]; [done|].
  rewrite !fmap_cons in *. cbn [removelast] in *. by rewrite IH.
Qed.

Lemma head_fmap {A B} (f : A → B) (l : list A) : head (f <$> l) = f <$> head l.
Proof. by destruct l. Qed.

Lemma duration_reset_counters (l : list Event) :
  duration_seconds <$> (reset_counters <$> l) = duration_seconds <$> l.
Proof. rewrite <- list_fmap_compose. by apply list_fmap_ext. Qed.

Lemma meaningful_reset_counters (l : list Event) :
  length (filter is_meaningful_action (reset_counters <$> l))
  = length (filter is_meaningful_action l).
Proof.
  induction l as [|x l IH]; [done|].
  rewrite fmap_cons, !filter_cons.
  destruct (decide (is_meaningful_action (reset_counters x))) as [H|H];
    destruct (decide (is_meaningful_action x)) as [H'|H']; try done.
  simpl. by rewrite IH.
Qed.

Lemma ids_counted (G : list Event) :
  Forall (λ m, is_Some (global_session_id m)) G →
  length (filter (λ m, is_Some (global_session_id m)) G) = length G.
Proof.
  induction 1 as [|x G Hx _ IH]; [done|].
  rewrite filter_cons_True by done. cbn [length]. by rewrite IH.
Qed.

(** C4. In the table sorted by (session, time), let [run] be a maximal run
    of consecutive rows of one session with the same composite key, with
    [e_last] its last row (and let the durations of its other rows add up
    within the int32 range).  The pass returns what it returns for the rows
    before the run, then exactly one row for the run, then what it returns
    for the rows after it.  That row is [e_last] with duration the sum of
    the run's durations, dbl_count the run length minus one,
    dbl_duration_seconds the sum of the durations of all members but the
    last, and click_count the number of members whose action is not
    'Не указано', floored at 1. *)
Theorem remove_consecutive_duplicates_run (df : DataFrame)
    (pre run post : list Event) (e_last : Event) :
  collapse_ready df →
  sort_values (df_rows df) = pre ++ run ++ post →
  last run = Some e_last →
  (∀ x y, x ∈ run → y ∈ run → same_run x y) →
  (∀ p x, last pre = Some p → head run = Some x → ¬ same_run p x) →
  (∀ x q, last run = Some x → head post = Some q → ¬ same_run x q) →
  int32_range (sum_Z (duration_seconds <$> removelast run)) →
  ∃ out kept,
    remove_consecutive_duplicates_with_clicks (Some df) = Ok out ∧
    df_rows out = run_collapse_rows (reset_counters <$> pre) ++ [kept]
                  ++ run_collapse_rows (reset_counters <$> post) ∧
    duration_seconds kept = sum_Z (duration_seconds <$> run) ∧
    dbl_count kept = Z.of_nat (length run) - 1 ∧
    dbl_duration_seconds kept = sum_Z (duration_seconds <$> removelast run) ∧
    click_count kept
      = Z.max 1 (Z.of_nat (length (filter is_meaningful_action run))) ∧
    reset_counters (set_duration 0 kept) = reset_counters (set_duration 0 e_last).
Proof.
  intros Hready Hsorted Hlast Hsame Hleft Hright Hrange.
  eexists _, (finalize_last (reset_counters <$> run)
                (removelast (reset_counters <$> run)) (reset_counters e_last)).
  split; [by apply remove_consecutive_duplicates_unfold|].
  cbn [df_rows]. split_and!.
  - rewrite Hsorted, !fmap_app.
    assert (reset_counters <$> run ≠ []) as Hne.
    { intros Hnil. apply fmap_nil_inv in Hnil. by subst run. }
    destruct (is_runs_middle same_run (reset_counters <$> pre)
                (reset_counters <$> run) (reset_counters <$> post))
      as [Hruns Hconcat]; [done| | | |].
    + apply chain_pairwise. intros x y Hx Hy.
      apply list_elem_of_fmap in Hx as (x' & -> & Hx).
      apply list_elem_of_fmap in Hy as (y' & -> & Hy).
      apply same_run_reset_counters. by apply Hsame.
    + intros p x Hp Hx. rewrite fmap_last in Hp. rewrite head_fmap in Hx.
      destruct (last pre) as [p'|] eqn:Hp'; [|done].
      destruct (head run) as [x'|] eqn:Hx'; [|done].
      simplify_eq/=. intros HR. apply same_run_reset_counters in HR. by eapply Hleft.
    + intros x q Hx Hq. rewrite fmap_last in Hx. rewrite head_fmap in Hq.
      destruct (last run) as [x'|] eqn:Hx'; [|done].
      destruct (head post) as [q'|] eqn:Hq'; [|done].
      simplify_eq/=. intros HR. apply same_run_reset_counters in HR. by eapply Hright.
    + rewrite <- Hconcat, (run_collapse_rows_runs _ Hruns).
      rewrite !omap_app, !run_collapse_rows_spec. do 2 f_equal.
      cbn [omap list_omap]. unfold merge_run.
      rewrite fmap_last, Hlast. done.
  - cbn. by rewrite duration_reset_counters.
  - cbn. rewrite ids_counted; [by rewrite length_fmap|].
    apply Forall_forall. intros x (x' & -> & Hx)%list_elem_of_fmap.
    by destruct (Hsame x' x' Hx Hx) as [[? _] _].
  - cbn. rewrite removelast_fmap, duration_reset_counters.
    by apply astype_int32_id.
  - cbn. by rewrite meaningful_reset_counters.
  - done.
Qed.

Lemma remove_consecutive_duplicates_run_witness :
  collapse_ready run_table ∧
  sort_values (df_rows run_table) = run_table_pre ++ run_table_run ++ run_table_post ∧
  ∃ out kept,
    remove_consecutive_duplicates_with_clicks (Some run_table) = Ok out ∧
    df_rows out = run_collapse_rows (reset_counters <$> run_table_pre) ++ [kept]
                  ++ run_collapse_rows (reset_counters <$> run_table_post) ∧
    duration_seconds kept = 18 ∧ dbl_count kept = 2 ∧
    dbl_duration_seconds kept = 8 ∧ click_count kept = 3.
Proof.
  assert (collapse_ready run_table) as Hready.
  { unfold collapse_ready. split_and!; [discriminate|compute_done..]. }
  assert (sort_values (df_rows run_table)
          = run_table_pre ++ run_table_run ++ run_table_post) as Hsorted.
  { vm_compute. reflexivity. }
  split; [exact Hready|]. split; [exact Hsorted|].
  destruct (remove_consecutive_duplicates_run run_table run_table_pre run_table_run
              run_table_post
              (session_event 2 30 "Заявки" "Просмотр списка" "Тап на заявку" 10)
              Hready Hsorted)
    as (out & kept & Hout & Hrows & Hd & Hc & Hdd & Hcl & _).
  - reflexivity.
  - assert (Forall (λ x, Forall (same_run x) run_table_run) run_table_run) as Hall
      by compute_done.
    intros x y Hx Hy. rewrite Forall_forall in Hall. specialize (Hall x Hx).
    rewrite Forall_forall in Hall. exact (Hall y Hy).
  - intros p x [= <-] [= <-]. compute_done.
  - intros x q [= <-] [= <-]. compute_done.
  - unfold int32_range. cbn. lia.
  - exists out, kept. split; [exact Hout|]. split; [exact Hrows|].
    rewrite Hd, Hc, Hdd, Hcl. vm_compute. repeat split; reflexivity.
Defined.

(** *** A second application of the pass *)

Lemma same_run_proper p p' e e' :
  run_key p = run_key p' → run_key e = run_key e' → same_run p e → same_run p' e'.
Proof.
  unfold run_key, same_run, same_session. intros [= Hg Hk] [= Hg' Hk'].
  rewrite Hg, Hg', Hk, Hk'. done.
Qed.

Lemma same_run_sym p e : same_run p e → same_run e p.
Proof. intros [Hs Hk]. split; [by apply same_session_sym|done]. Qed.

Lemma same_run_trans a b c : same_run a b → same_run b c → same_run a c.
Proof.
  intros [Hs Hk] [Hs' Hk']. split; [by eapply same_session_trans|congruence].
Qed.

Lemma chain_last_head G h t p :
  chain same_run G → head G = Some h → last G = Some t →
  same_run p t → same_run p h.
Proof.
  revert h. induction G as [|x G IH]; intros h Hch Hh Ht Hp; [done|].
  injection Hh as ->. destruct G as [|y G].
  - by injection Ht as ->.
  - destruct Hch as [Hxy Hch]. rewrite last_cons_cons in Ht.
    eapply same_run_trans; [by eapply (IH y)|by apply same_run_sym].
Qed.

Lemma merge_run_key G m :
  merge_run G = Some m → ∃ t, last G = Some t ∧ run_key t = run_key m.
Proof.
  unfold merge_run. destruct (last G) as [t|]; [|done]. intros [= <-]. eauto.
Qed.

(** No two neighbouring rows of the collapsed table belong to one run. *)
Lemma merged_no_adjacent prev Gs :
  is_runs same_run prev Gs →
  chain (λ x y, ¬ same_run x y) (omap merge_run Gs) ∧
  ∀ p m, prev = Some p → head (omap merge_run Gs) = Some m → ¬ same_run p m.
Proof.
  revert prev. induction Gs as [|G Gs IH]; intros prev Hruns; [done|].
  destruct Hruns as (Hne & Hch & Hb & Hruns).
  destruct (IH _ Hruns) as [IHch IHb].
  cbn [omap list_omap]. destruct (merge_run G) as [m|] eqn:Hm.
  - apply merge_run_key in Hm as (t & Ht & Hm). rewrite Ht in Hruns. split.
    + cbn [chain]. split; [|done].
      destruct (omap merge_run Gs) as [|m' ms] eqn:Hms; [done|].
      intros HR. apply (IHb t m'); [done|done|].
      exact (same_run_proper m t m' m' (eq_sym Hm) eq_refl HR).
    + intros p m0 -> [= <-] HR.
      destruct (head G) as [h|] eqn:Hh; [|by destruct G].
      apply (Hb p h); [done..|].
      eapply chain_last_head; [done..|]. exact (same_run_proper p p m t eq_refl (eq_sym Hm) HR).
  - exfalso. unfold merge_run in Hm. destruct (last G) eqn:Ht; [done|].
    by apply last_None in Ht.
Qed.


Lemma merge_run_Some G m :
  merge_run G = Some m →
  ∃ t, last G = Some t ∧ m = finalize_last G (removelast G) t.
Proof.
  unfold merge_run. destruct (last G) as [t|]; [|done]. intros [= <-]. eauto.
Qed.

Lemma session_time_le_proper a a' b b' :
  sort_key a = sort_key a' → sort_key b = sort_key b' →
  session_time_le a b = session_time_le a' b'.
Proof.
  unfold sort_key, session_time_le. intros [= Hg Ht] [= Hg' Ht'].
  by rewrite Hg, Ht, Hg', Ht'.
Qed.

Lemma elem_of_concat {A} (x : A) (Gs : list (list A)) :
  x ∈ concat Gs ↔ ∃ G, x ∈ G ∧ G ∈ Gs.
Proof.
  induction Gs as [|G Gs IH]; cbn [concat].
  - rewrite elem_of_nil. split; [done|]. intros (G & _ & HG). by apply elem_of_nil in HG.
  - rewrite elem_of_app, IH. split.
    + intros [Hx|(G' & Hx & HG')]; [exists G; split; [done|left]|].
      exists G'. split; [done|by right].
    + intros (G' & Hx & HG'). apply elem_of_cons in HG' as [->|HG']; [by left|].
      right. eauto.
Qed.

(** The collapsed table is still sorted by (session, time). *)
Lemma merged_sorted Gs :
  StronglySorted (λ x y, session_time_le x y = true) (concat Gs) →
  StronglySorted (λ x y, session_time_le x y = true) (omap merge_run Gs).
Proof.
  induction Gs as [|G Gs IH]; intros Hs; [constructor|].
  cbn [concat] in Hs. apply StronglySorted_app in Hs as (Hcross & HG & Hrest).
  cbn [omap list_omap]. destruct (merge_run G) as [m|] eqn:Hm; [|by apply IH].
  apply merge_run_Some in Hm as (t & Ht & ->).
  constructor; [by apply IH|].
  apply Forall_forall. intros m' Hm'.
  apply list_elem_of_omap in Hm' as (G' & HG' & Hm').
  apply merge_run_Some in Hm' as (t' & Ht' & ->).
  rewrite (session_time_le_proper _ t _ t') by done.
  apply Hcross; [by apply last_Some_elem_of|].
  apply elem_of_concat. exists G'. split; [by apply last_Some_elem_of|done].
Qed.



Lemma run_collapse_rows_nonempty l : l ≠ [] → run_collapse_rows l ≠ [].
Proof.
  intros Hne. rewrite run_collapse_rows_spec.
  pose proof (group_adjacent_concat same_run l) as Hc.
  pose proof (group_adjacent_is_runs same_run l) as Hr.
  destruct (group_adjacent same_run l) as [|G Gs]; [by subst l|].
  destruct Hr as (HG & _). cbn [omap list_omap]. unfold merge_run.
  destruct (last G) eqn:Hl; [done|]. by apply last_None in Hl.
Qed.

Lemma elem_of_add_col c c' cols : c ∈ cols → c ∈ add_col c' cols.
Proof.
  intros Hc. unfold add_col. case_bool_decide; [done|].
  apply elem_of_app. by left.
Qed.

Lemma elem_of_add_col_new c cols : c ∈ add_col c cols.
Proof.
  unfold add_col. case_bool_decide; [done|].
  apply elem_of_app. right. by left.
Qed.

Lemma add_col_id c cols : c ∈ cols → add_col c cols = cols.
Proof. intros Hc. unfold add_col. by rewrite bool_decide_eq_true_2. Qed.







(** ** Screen collapse *)

Lemma screen_changed_adjacent e before :
  screen_changed e before
  = match head before with
    | Some p => bool_decide (¬ same_screen_run p e)
    | None => true
    end.
Proof.
  unfold screen_changed, session_changed, prev_in_session.
  destruct before as [|p before]; cbn [head]; [apply orb_true_r|].
  destruct (decide (same_session p e)) as [Hs|Hs].
  - rewrite filter_cons_True by (by apply same_session_sym).
    cbn [head fmap option_fmap option_map].
    rewrite (bool_decide_eq_false_2 (¬ same_session p e)) by (by intros H; apply H).
    rewrite orb_false_r. unfold same_screen_run.
    destruct (decide (screen p = screen e)) as [Hk|Hk].
    + rewrite bool_decide_eq_false_2 by (rewrite Hk; by intros H; apply H).
      rewrite bool_decide_eq_false_2; [done|]. intros H. by apply H.
    + rewrite bool_decide_eq_true_2 by (intros [= ?]; done).
      rewrite bool_decide_eq_true_2; [done|]. by intros [_ ?].
  - rewrite (bool_decide_eq_true_2 (¬ same_session p e)) by done.
    rewrite orb_true_r. symmetry. apply bool_decide_eq_true.
    unfold same_screen_run. by intros [? _].
Qed.

Lemma screen_group_ids_label before c l :
  zip (cumsum c (screen_changed_flags before l)) l
  = label_adjacent same_screen_run (head before) c l.
Proof.
  revert before c. induction l as [|e r IH]; intros before c; [done|].
  cbn [screen_changed_flags cumsum zip zip_with label_adjacent].
  rewrite screen_changed_adjacent. f_equal. apply IH.
Qed.

Lemma label_runs_fmap {A B} (f : A → B) c (Gs : list (list A)) :
  prod_map (@id nat) f <$> label_runs c Gs
  = label_runs c ((λ G : list A, f <$> G) <$> Gs).
Proof.
  revert c. induction Gs as [|G Gs IH]; intros c; [done|].
  cbn [label_runs]. rewrite fmap_app, IH, fmap_cons. cbn [label_runs].
  f_equal. rewrite <- !list_fmap_compose. by apply list_fmap_ext.
Qed.

Lemma zip_fmap_tag {A B C} (f : B → C) (ks : list A) (l : list B) :
  zip ks (f <$> l) = prod_map (@id A) f <$> zip ks l.
Proof.
  revert ks. induction l as [|x l IH]; intros [|k ks]; try done.
  rewrite fmap_cons. cbn [zip zip_with]. rewrite fmap_cons. f_equal. apply IH.
Qed.

(** The working table of the screen pass is the table of the maximal
    screen runs, numbered consecutively, nothing marked. *)
Lemma screen_groups_runs (Gs : list (list Event)) :
  is_runs same_screen_run None Gs →
  screen_groups (concat Gs)
  = label_runs 0 ((λ G : list Event, (λ e, (e, false)) <$> G) <$> Gs).
Proof.
  intros Hruns. unfold screen_groups, screen_group_ids.
  rewrite zip_fmap_tag, (screen_group_ids_label [] 0). cbn [head].
  rewrite (label_adjacent_runs same_screen_run None 0 Gs Hruns).
  apply label_runs_fmap.
Qed.

Lemma drop_duplicates_from_seen {A} `{EqDecision A} (seen : list A) g (G : list A) l :
  g ∈ seen → Forall (λ x, x = g) G →
  drop_duplicates_from seen (G ++ l) = drop_duplicates_from seen l.
Proof.
  intros Hg. induction 1 as [|x G -> _ IH]; [done|].
  cbn [app drop_duplicates_from]. by rewrite bool_decide_eq_true_2.
Qed.

(** The loop visits the groups in order of their ids. *)
Lemma group_ids_in_order {A} (seen : list nat) c (Bs : list (list A)) :
  (∀ g, g ∈ seen → (g ≤ c)%nat) → Forall (λ B, B ≠ []) Bs →
  drop_duplicates_from seen (label_runs c Bs).*1 = seq (S c) (length Bs).
Proof.
  intros Hseen HBs. revert seen c Hseen.
  induction HBs as [|B Bs HB _ IH]; intros seen c Hseen; [done|].
  cbn [label_runs length seq]. rewrite fmap_app.
  destruct B as [|x B]; [done|]. rewrite !fmap_cons. cbn [app drop_duplicates_from fst].
  rewrite bool_decide_eq_false_2 by (intros Hin; apply Hseen in Hin; lia).
  f_equal. rewrite (drop_duplicates_from_seen _ (S c)).
  - apply IH. intros g Hg. apply elem_of_cons in Hg as [->|Hg]; [lia|].
    apply Hseen in Hg. lia.
  - left.
  - apply Forall_forall. intros g Hg.
    apply list_elem_of_fmap in Hg as ([g' y] & -> & Hg).
    by apply list_elem_of_fmap in Hg as (? & [= -> ->] & _).
Qed.

Section screen_blocks.
Implicit Types (st pre post : list (nat * (Event * bool))) (B : list (Event * bool)).

Lemma add_to_first_meaningful_skip g d pre st :
  g ∉ pre.*1 →
  add_to_first_meaningful g d (pre ++ st) = pre ++ add_to_first_meaningful g d st.
Proof.
  induction pre as [|[g' r] pre IH]; intros Hg; [done|].
  rewrite fmap_cons, not_elem_of_cons in Hg. destruct Hg as [Hne Hg].
  cbn [app add_to_first_meaningful].
  rewrite decide_False by (intros [? _]; simplify_eq/=; done).
  by rewrite IH.
Qed.

Lemma add_to_first_meaningful_block g d B post :
  filter (λ r, ¬ is_unspecified r) B ≠ [] →
  add_to_first_meaningful g d (((g,.) <$> B) ++ post)
  = ((g,.) <$> add_first_block d B) ++ post.
Proof.
  induction B as [|r B IH]; intros Hm; [done|].
  rewrite fmap_cons. cbn [app add_to_first_meaningful add_first_block].
  destruct (decide (¬ is_unspecified r)) as [Hr|Hr].
  - rewrite decide_True by done. by rewrite fmap_cons.
  - rewrite decide_False by (by intros [_ ?]).
    rewrite filter_cons_False in Hm by done.
    rewrite IH by done. by rewrite fmap_cons.
Qed.

Lemma mark_unspecified_absent g st : g ∉ st.*1 → mark_unspecified g st = st.
Proof.
  intros Hg. unfold mark_unspecified. rewrite <- (list_fmap_id st) at 2.
  apply list_fmap_ext. intros i [g' r] Hi. cbn [fst snd].
  rewrite decide_False; [done|]. intros [-> _]. apply Hg.
  apply list_elem_of_lookup_2 in Hi. by apply (list_elem_of_fmap_2 fst) in Hi.
Qed.

Lemma mark_unspecified_block g B :
  mark_unspecified g ((g,.) <$> B) = (g,.) <$> mark_block B.
Proof.
  unfold mark_unspecified, mark_block. rewrite <- !list_fmap_compose.
  apply list_fmap_ext. intros i r _. cbn.
  destruct (decide (is_unspecified r)).
  - by rewrite decide_True.
  - rewrite decide_False; [done|]. by intros [_ ?].
Qed.

Lemma mark_unspecified_app g st1 st2 :
  mark_unspecified g (st1 ++ st2) = mark_unspecified g st1 ++ mark_unspecified g st2.
Proof. unfold mark_unspecified. apply fmap_app. Qed.

(** One iteration rewrites the rows of its own group only. *)
Lemma screen_group_step_block g pre B post :
  g ∉ pre.*1 → g ∉ post.*1 →
  screen_group_step (pre ++ ((g,.) <$> B) ++ post) g
  = pre ++ ((g,.) <$> block_step B) ++ post.
Proof.
  intros Hpre Hpost. unfold screen_group_step, block_step.
  rewrite group_members_block by done.
  case_bool_decide; [done|]. case_bool_decide; [done|].
  case_bool_decide as Hm; [done|].
  rewrite add_to_first_meaningful_skip by done.
  rewrite add_to_first_meaningful_block by done.
  rewrite !mark_unspecified_app.
  rewrite (mark_unspecified_absent g pre), (mark_unspecified_absent g post) by done.
  by rewrite mark_unspecified_block.
Qed.
End screen_blocks.

(** The loop applies the block step to every group. *)
Lemma screen_loop_runs pre c (Bs : list (list (Event * bool))) :
  (∀ g, g ∈ pre.*1 → (g ≤ c)%nat) →
  foldl screen_group_step (pre ++ label_runs c Bs) (seq (S c) (length Bs))
  = pre ++ label_runs c (block_step <$> Bs).
Proof.
  revert pre c. induction Bs as [|B Bs IH]; intros pre c Hpre; [done|].
  cbn [length seq foldl label_runs]. rewrite fmap_cons. cbn [label_runs].
  rewrite screen_group_step_block;
    [|intros Hin; apply Hpre in Hin; lia|apply label_runs_absent; lia].
  rewrite (app_assoc pre), IH; [by rewrite <- app_assoc|].
  intros g Hg. rewrite fmap_app, elem_of_app in Hg. destruct Hg as [Hg|Hg].
  - apply Hpre in Hg. lia.
  - apply list_elem_of_fmap in Hg as ([g' x] & -> & Hin).
    apply list_elem_of_fmap in Hin as (? & [= -> ->] & _). done.
Qed.

Lemma unmarked_label_runs c (Bs : list (list (Event * bool))) :
  (filter (λ p : nat * (Event * bool), p.2.2 = false) (label_runs c Bs)).*2.*1
  = concat ((λ B, (filter (λ r : Event * bool, r.2 = false) B).*1) <$> Bs).
Proof.
  revert c. induction Bs as [|B Bs IH]; intros c; [done|].
  cbn [label_runs]. rewrite fmap_cons. cbn [concat].
  rewrite filter_app, !fmap_app, IH. f_equal.
  induction B as [|r B IHB]; [done|].
  rewrite fmap_cons, !filter_cons. cbn [snd].
  case_decide; [|done]. rewrite !fmap_cons. cbn [fst snd]. by rewrite IHB.
Qed.

Section tagged_rows.
Let tag := λ e : Event, (e, false).
Implicit Types G : list Event.

Lemma filter_unspecified_tag G :
  filter is_unspecified (tag <$> G) = tag <$> filter is_sentinel G.
Proof.
  induction G as [|x G IH]; [done|]. rewrite fmap_cons.
  destruct (decide (is_sentinel x)) as [Hx|Hx].
  - rewrite !filter_cons_True by done. by rewrite fmap_cons, IH.
  - by rewrite !filter_cons_False by done.
Qed.

Lemma filter_meaningful_tag G :
  filter (λ r, ¬ is_unspecified r) (tag <$> G) = tag <$> filter (λ e, ¬ is_sentinel e) G.
Proof.
  induction G as [|x G IH]; [done|]. rewrite fmap_cons.
  destruct (decide (is_sentinel x)) as [Hx|Hx].
  - by rewrite !filter_cons_False by (by intros H; apply H).
  - rewrite !filter_cons_True by done. by rewrite fmap_cons, IH.
Qed.

Lemma unmarked_tag G : (filter (λ r : Event * bool, r.2 = false) (tag <$> G)).*1 = G.
Proof.
  induction G as [|x G IH]; [done|].
  rewrite fmap_cons, filter_cons_True by done. rewrite fmap_cons. by rewrite IH.
Qed.

Lemma mark_block_cons r B :
  mark_block (r :: B)
  = (if decide (is_unspecified r) then (r.1, true) else r) :: mark_block B.
Proof. done. Qed.

Lemma unmarked_mark_block G :
  (filter (λ r : Event * bool, r.2 = false) (mark_block (tag <$> G))).*1
  = filter (λ e, ¬ is_sentinel e) G.
Proof.
  induction G as [|x G IH]; [done|].
  rewrite fmap_cons, mark_block_cons.
  destruct (decide (is_sentinel x)) as [Hx|Hx].
  - rewrite decide_True by done.
    rewrite filter_cons_False by done.
    rewrite (filter_cons_False _ x) by (by intros H; apply H). apply IH.
  - rewrite decide_False by done.
    rewrite filter_cons_True by done.
    rewrite (filter_cons_True _ x) by done.
    rewrite fmap_cons. by rewrite IH.
Qed.

Lemma unmarked_add_first G d :
  (filter (λ r : Event * bool, r.2 = false)
     (mark_block (add_first_block d (tag <$> G)))).*1
  = match filter (λ e, ¬ is_sentinel e) G with
    | m :: rest => set_duration (duration_seconds m + d) m :: rest
    | [] => []
    end.
Proof.
  induction G as [|x G IH]; [done|].
  rewrite fmap_cons. cbn [add_first_block].
  destruct (decide (is_sentinel x)) as [Hx|Hx].
  - rewrite (decide_False (P:=¬ is_unspecified (tag x))) by (by intros H; apply H).
    rewrite mark_block_cons, decide_True by done.
    rewrite filter_cons_False by done.
    rewrite (filter_cons_False _ x) by (by intros H; apply H). apply IH.
  - rewrite (decide_True (P:=¬ is_unspecified (tag x))) by done.
    rewrite mark_block_cons, decide_False by done.
    rewrite filter_cons_True by done.
    rewrite (filter_cons_True _ x) by done.
    rewrite fmap_cons. cbn [fst tag]. f_equal.
    apply unmarked_mark_block.
Qed.

Lemma small_run_unchanged G : (length G < 2)%nat → collapse_screen_run G = G.
Proof.
  intros Hlen. unfold collapse_screen_run.
  destruct G as [|x [|y G]]; [done| |simpl in Hlen; lia].
  rewrite !filter_cons, !filter_nil.
  destruct (decide (is_sentinel x)).
  - by rewrite decide_False by (by intros H; apply H).
  - by rewrite decide_True by done.
Qed.

(** The rows a group leaves behind are the collapsed screen run. *)
Lemma unmarked_block_step G :
  (filter (λ r : Event * bool, r.2 = false) (block_step (tag <$> G))).*1
  = collapse_screen_run G.
Proof.
  unfold block_step. rewrite length_fmap.
  case_bool_decide as Hlen.
  { by rewrite unmarked_tag, small_run_unchanged. }
  rewrite filter_unspecified_tag, filter_meaningful_tag.
  unfold collapse_screen_run.
  case_bool_decide as Hns.
  { apply fmap_nil_inv in Hns. rewrite Hns, unmarked_tag.
    by destruct (filter (λ e, ¬ is_sentinel e) G). }
  case_bool_decide as Hm.
  { apply fmap_nil_inv in Hm. by rewrite Hm, unmarked_tag. }
  rewrite unmarked_add_first.
  destruct (filter (λ e, ¬ is_sentinel e) G) as [|m rest]; [done|].
  destruct (filter is_sentinel G) as [|n ns]; [done|].
  do 3 f_equal. by rewrite <- list_fmap_compose.
Qed.
End tagged_rows.

Lemma is_runs_nonempty {A} (R : A → A → Prop) prev (Gs : list (list A)) :
  is_runs R prev Gs → Forall (λ G, G ≠ []) Gs.
Proof.
  revert prev. induction Gs as [|G Gs IH]; intros prev Hr; [constructor|].
  destruct Hr as (Hne & _ & _ & Hr). constructor; [done|]. by eapply IH.
Qed.

(** The screen-collapse pass rewrites every maximal screen run on its own. *)
Lemma screen_collapse_rows_runs (Gs : list (list Event)) :
  is_runs same_screen_run None Gs →
  screen_collapse_rows (concat Gs) = concat (collapse_screen_run <$> Gs).
Proof.
  intros Hruns. unfold screen_collapse_rows.
  rewrite (screen_groups_runs Gs Hruns).
  set (Bs := (λ G : list Event, (λ e, (e, false)) <$> G) <$> Gs).
  unfold drop_duplicates. rewrite (group_ids_in_order [] 0 Bs).
  - pose proof (screen_loop_runs [] 0 Bs) as Hloop. cbn [app] in Hloop.
    rewrite Hloop by (intros g Hg; by apply elem_of_nil in Hg).
    rewrite unmarked_label_runs. subst Bs.
    rewrite <- !list_fmap_compose. f_equal.
    apply list_fmap_ext. intros i G _. cbn. apply unmarked_block_step.
  - intros g Hg. by apply elem_of_nil in Hg.
  - subst Bs. apply Forall_fmap. eapply Forall_impl; [by eapply is_runs_nonempty|].
    intros G HG Hnil. cbn in Hnil. apply fmap_nil_inv in Hnil. done.
Qed.

Lemma screen_collapse_rows_spec l :
  screen_collapse_rows l
  = concat (collapse_screen_run <$> group_adjacent same_screen_run l).
Proof.
  rewrite <- (group_adjacent_concat same_screen_run l) at 1.
  apply screen_collapse_rows_runs, group_adjacent_is_runs.
Qed.

Lemma collapse_intermediate_screens_unfold df :
  screens_ready df →
  collapse_intermediate_screens (Some df) =
  Ok (mkDF (add_col COL_DURATION (df_columns df))
        (screen_collapse_rows (sort_values (df_rows df)))).
Proof.
  intros (Hne & Hg & Hd & Hs & Ha & Ht).
  unfold collapse_intermediate_screens, has_col.
  rewrite bool_decide_eq_false_2 by done.
  rewrite (bool_decide_eq_true_2 (COL_GSID ∈ _)) by done.
  rewrite (bool_decide_eq_true_2 (COL_DURATION ∈ _)) by done.
  rewrite (bool_decide_eq_true_2 (COL_TIME ∈ _)) by done.
  rewrite (bool_decide_eq_true_2 (COL_SCREEN ∈ _)) by done.
  rewrite (bool_decide_eq_true_2 (COL_ACTION ∈ _)) by done.
  done.
Qed.

Lemma set_duration_same e d : d = duration_seconds e → set_duration d e = e.
Proof. intros ->. by destruct e. Qed.

Lemma filter_all {A} (P : A → Prop) `{∀ x, Decision (P x)} (l : list A) :
  Forall P l → filter P l = l.
Proof.
  induction 1 as [|x l Hx _ IH]; [done|]. by rewrite filter_cons_True, IH.
Qed.

(** C6. In the table sorted by (session, time), let [run] be a maximal run
    of consecutive rows of one session on the same screen.  The pass
    returns what it returns for the rows before the run, then the rows
    [middle] for the run, then what it returns for the rows after it.
    If the run has a member whose action is not 'Не указано', [middle]
    is the list of those members, in order, every sentinel member being
    deleted, and the first of them has the deleted members' durations
    added to its own; if every member has the sentinel action, [middle]
    is the run, unchanged. *)
Theorem collapse_intermediate_screens_run (df : DataFrame)
    (pre run post : list Event) :
  screens_ready df →
  sort_values (df_rows df) = pre ++ run ++ post →
  run ≠ [] →
  (∀ x y, x ∈ run → y ∈ run → same_screen_run x y) →
  (∀ p x, last pre = Some p → head run = Some x → ¬ same_screen_run p x) →
  (∀ x q, last run = Some x → head post = Some q → ¬ same_screen_run x q) →
  ∃ out middle,
    collapse_intermediate_screens (Some df) = Ok out ∧
    df_rows out = screen_collapse_rows pre ++ middle ++ screen_collapse_rows post ∧
    (∀ m rest, filter (λ e, ¬ is_sentinel e) run = m :: rest →
       middle = set_duration
                  (duration_seconds m
                   + sum_Z (duration_seconds <$> filter is_sentinel run)) m :: rest) ∧
    (Forall is_sentinel run → middle = run).
Proof.
  intros Hready Hsorted Hne Hsame Hleft Hright.
  exists (mkDF (add_col COL_DURATION (df_columns df))
            (screen_collapse_rows (sort_values (df_rows df)))),
         (collapse_screen_run run).
  split; [by apply collapse_intermediate_screens_unfold|].
  cbn [df_rows]. split_and!.
  - destruct (is_runs_middle same_screen_run pre run post)
      as [Hruns Hconcat]; [done|by apply chain_pairwise|done|done|].
    rewrite Hsorted, <- Hconcat, (screen_collapse_rows_runs _ Hruns).
    rewrite !fmap_app, !concat_app, !screen_collapse_rows_spec.
    cbn [fmap list_fmap concat]. by rewrite app_nil_r.
  - intros m rest Hm. unfold collapse_screen_run. rewrite Hm.
    destruct (filter is_sentinel run) as [|n ns] eqn:Hns; [|done].
    cbn [fmap list_fmap sum_Z foldr].
    rewrite set_duration_same by lia.
    rewrite <- Hm. symmetry. apply filter_all.
    apply Forall_forall. intros x Hx Hsent.
    assert (x ∈ filter is_sentinel run) as Hin by (by apply list_elem_of_filter).
    rewrite Hns in Hin. by apply elem_of_nil in Hin.
  - intros Hall. unfold collapse_screen_run.
    rewrite (filter_none (λ e, ¬ is_sentinel e)); [done|].
    intros x Hx Hnot. rewrite Forall_forall in Hall. by apply Hnot, Hall.
Qed.

Lemma collapse_intermediate_screens_run_witness :
  screens_ready docstring_screen_table ∧
  sort_values (df_rows docstring_screen_table)
    = [] ++ docstring_screen_run ++ docstring_screen_post ∧
  ∃ out middle,
    collapse_intermediate_screens (Some docstring_screen_table) = Ok out ∧
    df_rows out = screen_collapse_rows [] ++ middle
                  ++ screen_collapse_rows docstring_screen_post ∧
    middle = [session_event 1 8 "Новая заявка" "Отправка" "Тап на кнопку" 18;
              session_event 1 18 "Новая заявка" "Выбор категории" "Выбор категории" 5].
Proof.
  assert (screens_ready docstring_screen_table) as Hready.
  { unfold screens_ready. split_and!; [discriminate|compute_done..]. }
  assert (sort_values (df_rows docstring_screen_table)
          = [] ++ docstring_screen_run ++ docstring_screen_post) as Hsorted.
  { vm_compute. reflexivity. }
  split; [exact Hready|]. split; [exact Hsorted|].
  destruct (collapse_intermediate_screens_run docstring_screen_table []
              docstring_screen_run docstring_screen_post Hready Hsorted)
    as (out & middle & Hout & Hrows & Hmeaningful & _).
  - discriminate.
  - assert (Forall (λ x, Forall (same_screen_run x) docstring_screen_run)
              docstring_screen_run) as Hall by compute_done.
    intros x y Hx Hy. rewrite Forall_forall in Hall. specialize (Hall x Hx).
    rewrite Forall_forall in Hall. exact (Hall y Hy).
  - intros p x Hp. discriminate Hp.
  - intros x q [= <-] [= <-]. compute_done.
  - exists out, middle. split; [exact Hout|]. split; [exact Hrows|].
    rewrite (Hmeaningful
               (session_event 1 8 "Новая заявка" "Отправка" "Тап на кнопку" 10)
               [session_event 1 18 "Новая заявка" "Выбор категории" "Выбор категории" 5]).
    + vm_compute. reflexivity.
    + vm_compute. reflexivity.
Defined.

(** ** Block Feature Aggregator *)

Lemma astype_int32_idem z : astype_int32 (astype_int32 z) = astype_int32 z.
Proof.
  apply astype_int32_id. unfold astype_int32, int32_range.
  pose proof (Z.mod_pos_bound (z + 2147483648) 4294967296). lia.
Qed.

Lemma astype_int32_fill m : astype_int32 (fill_value m) = fill_value m.
Proof. by destruct m. Qed.

Lemma astype_int32_range z : int32_range (astype_int32 z).
Proof.
  unfold astype_int32, int32_range.
  pose proof (Z.mod_pos_bound (z + 2147483648) 4294967296). lia.
Qed.

Lemma astype_int32_column_range float_to_int32 float64 z :
  int32_range (astype_int32_column float_to_int32 float64 z).
Proof.
  unfold astype_int32_column. destruct float64; [|apply astype_int32_range].
  case_bool_decide; [done|apply astype_int32_range].
Qed.

(** Inside the int32 range the cast keeps the value, whatever the dtype of
    the column. *)
Lemma astype_int32_column_id float_to_int32 float64 z :
  int32_range z → astype_int32_column float_to_int32 float64 z = z.
Proof.
  intros Hz. unfold astype_int32_column. destruct float64.
  - by rewrite bool_decide_eq_true_2.
  - by apply astype_int32_id.
Qed.

Lemma fill_value_range m : int32_range (fill_value m).
Proof. destruct m; unfold int32_range; cbn; lia. Qed.

Section fill_loop.
Implicit Types (row : gmap string (option Z)) (l : list (string * Z)).

Lemma fill_cell_ne row cv c : cv.1 ≠ c → fill_cell row cv !! c = row !! c.
Proof. intros Hne. unfold fill_cell. by rewrite lookup_insert_ne. Qed.

Lemma fill_cell_eq row cv :
  fill_cell row cv !! cv.1
  = Some (match row !! cv.1 with
          | Some cell => fillna_int32 cv.2 cell
          | None => Some cv.2
          end).
Proof. unfold fill_cell. by rewrite lookup_insert_eq. Qed.

Lemma fill_loop_other row l c :
  c ∉ l.*1 → foldl fill_cell row l !! c = row !! c.
Proof.
  revert row. induction l as [|cv l IH]; intros row Hc; [done|].
  rewrite fmap_cons, not_elem_of_cons in Hc. destruct Hc as [Hne Hc].
  cbn [foldl]. rewrite IH by done. by apply fill_cell_ne.
Qed.

(** After the loop every column the loop names holds a value. *)
Lemma fill_loop_nonnull row l c :
  c ∈ l.*1 ∨ (∃ v, row !! c = Some (Some v)) →
  ∃ v, foldl fill_cell row l !! c = Some (Some v).
Proof.
  revert row. induction l as [|cv l IH]; intros row Hc.
  - destruct Hc as [Hc|Hc]; [by apply elem_of_nil in Hc|done].
  - cbn [foldl]. apply IH.
    destruct (decide (cv.1 = c)) as [<-|Hne].
    + right. rewrite fill_cell_eq. unfold fillna_int32.
      destruct (row !! cv.1) as [cell|]; eauto.
    + rewrite fill_cell_ne by done. destruct Hc as [Hc|Hc]; [|by right].
      left. rewrite fmap_cons in Hc. apply elem_of_cons in Hc as [Hc|Hc]; [|done].
      by destruct Hne.
Qed.

Lemma fill_loop_unique row l c v :
  NoDup l.*1 → (c, v) ∈ l →
  foldl fill_cell row l !! c
  = Some (match row !! c with
          | Some cell => fillna_int32 v cell
          | None => Some v
          end).
Proof.
  revert row. induction l as [|cv l IH]; intros row Hnd Hin.
  - by apply elem_of_nil in Hin.
  - rewrite fmap_cons in Hnd. apply NoDup_cons in Hnd as [Hcv Hnd].
    cbn [foldl]. apply elem_of_cons in Hin as [<-|Hin].
    + rewrite fill_loop_other by done. apply fill_cell_eq.
    + rewrite IH by done. rewrite fill_cell_ne; [done|].
      intros <-. apply Hcv. by apply (list_elem_of_fmap_2 fst) in Hin.
Qed.

Lemma fill_loop_dom row l :
  dom (foldl fill_cell row l) = dom row ∪ list_to_set l.*1.
Proof.
  revert row. induction l as [|cv l IH]; intros row.
  - cbn. set_solver.
  - cbn [foldl]. rewrite IH. unfold fill_cell. rewrite dom_insert_L.
    rewrite fmap_cons. cbn [list_to_set]. set_solver.
Qed.
End fill_loop.

Lemma foldl_insert_lookup_Some {V} (f : ActionObj → Triple) (v : ActionObj → V)
    (l : list ActionObj) (m : gmap Triple V) (k : Triple) (x : V) :
  foldl (λ m ao, <[f ao := v ao]> m) m l !! k = Some x →
  m !! k = Some x ∨ ∃ ao, ao ∈ l ∧ x = v ao.
Proof.
  revert m. induction l as [|a l IH]; intros m; simpl; [by left|].
  intros Hx. apply IH in Hx as [Hx|(ao & Hao & ->)].
  - apply lookup_insert_Some in Hx as [[_ <-]|[_ Hx]]; [|by left].
    right. exists a. split; [left|done].
  - right. exists ao. split; [by right|done].
Qed.

(** Every entry of the block-membership table names a block of the
    taxonomy. *)
Lemma action_to_block_names (blocks_data : list Block) (k : Triple) b step :
  action_to_block (build_action_lookup blocks_data) !! k = Some (b, step) →
  b ∈ block_name <$> blocks_data.
Proof.
  unfold build_action_lookup.
  assert (∀ acc, action_to_block (foldl lookup_add_block acc blocks_data) !! k
                 = Some (b, step) →
            action_to_block acc !! k = Some (b, step) ∨
            b ∈ block_name <$> blocks_data) as Hgen.
  { induction blocks_data as [|blk bs IH]; intros acc; simpl; [by left|].
    intros Hk. apply IH in Hk as [Hk|Hk]; [|right; by right].
    assert (∀ gs acc', action_to_block (foldl (lookup_add_group (block_name blk)) acc' gs) !! k
                       = Some (b, step) →
              action_to_block acc' !! k = Some (b, step) ∨ b = block_name blk) as Hgs.
    { clear. induction gs as [|g gs IHg]; intros acc'; simpl; [by left|].
      intros Hk. apply IHg in Hk as [Hk|Hk]; [|by right].
      unfold lookup_add_group in Hk. cbn [action_to_block] in Hk.
      apply foldl_insert_lookup_Some in Hk as [Hk|(ao & _ & [= -> ?])]; [by left|by right]. }
    apply Hgs in Hk as [Hk| ->]; [by left|]. right. left. }
  intros Hk. apply Hgen in Hk as [Hk|Hk]; [|done].
  cbn in Hk. by rewrite lookup_empty in Hk.
Qed.

Lemma generate_prefixes_dom (blocks_data : list Block) :
  dom (generate_prefixes blocks_data)
  = (list_to_set (block_name <$> blocks_data) : gset string).
Proof.
  unfold generate_prefixes.
  assert (∀ acc : gmap string string,
            dom (foldl prefix_step acc blocks_data)
            = dom acc ∪ (list_to_set (block_name <$> blocks_data) : gset string))
    as Hgen.
  { induction blocks_data as [|blk bs IH]; intros acc.
    - cbn. set_solver.
    - cbn [foldl]. rewrite IH, fmap_cons. cbn [list_to_set]. unfold prefix_step.
      destruct (prefixes_map !! block_name blk); rewrite dom_insert_L; set_solver. }
  rewrite Hgen. set_solver.
Qed.

Lemma prefix_of_in_values (blocks_data : list Block) b :
  b ∈ block_name <$> blocks_data →
  prefix_of blocks_data b ∈ prefix_values blocks_data ∧
  (b, prefix_of blocks_data b) ∈ map_to_list (generate_prefixes blocks_data).
Proof.
  intros Hb.
  assert (b ∈ dom (generate_prefixes blocks_data)) as Hdom
    by (rewrite generate_prefixes_dom; by apply elem_of_list_to_set).
  apply elem_of_dom in Hdom as [p Hp].
  unfold prefix_of, prefix_values. rewrite Hp. cbn.
  apply elem_of_map_to_list in Hp.
  split; [|done]. by apply (list_elem_of_fmap_2 snd) in Hp.
Qed.

Lemma metric_name_inj m m' : metric_name m = metric_name m' → m = m'.
Proof. destruct m, m'; simpl; intros H; try done; discriminate. Qed.

Lemma column_name_inj_metric p m m' : column_name p m = column_name p m' → m = m'.
Proof.
  unfold column_name. intros H.
  apply (inj (String.app p)) in H. apply (inj (String.app "_")) in H.
  by apply metric_name_inj.
Qed.

Lemma all_fill_metrics m : m ∈ FILL_METRICS.
Proof. destruct m; compute_done. Qed.

Lemma all_pivot_metrics m : m ∈ PIVOT_METRICS.
Proof. destruct m; compute_done. Qed.

Lemma elem_of_fill_list blocks_data c v :
  (c, v) ∈ fill_list blocks_data ↔
  ∃ p m, p ∈ prefix_values blocks_data ∧ c = column_name p m ∧ v = fill_value m.
Proof.
  unfold fill_list. rewrite list_elem_of_bind. split.
  - intros (p & Hin & Hp). apply list_elem_of_fmap in Hin as (m & [= -> ->] & _). eauto.
  - intros (p & m & Hp & -> & ->). exists p. split; [|done].
    apply list_elem_of_fmap. exists m. split; [done|apply all_fill_metrics].
Qed.

Lemma elem_of_feature_columns blocks_data c :
  c ∈ feature_columns blocks_data ↔
  ∃ p m, p ∈ prefix_values blocks_data ∧ c = column_name p m.
Proof.
  unfold feature_columns. rewrite list_elem_of_fmap. split.
  - intros ([c' v] & -> & Hin). apply elem_of_fill_list in Hin as (p & m & ? & -> & _).
    eauto.
  - intros (p & m & Hp & ->). exists (column_name p m, fill_value m).
    split; [done|]. apply elem_of_fill_list. eauto.
Qed.

Lemma NoDup_bind_inj {A B} (f : A → list B) (l : list A) x x' y :
  NoDup (l ≫= f) → x ∈ l → x' ∈ l → y ∈ f x → y ∈ f x' → x = x'.
Proof.
  induction l as [|a l IH]; intros Hnd Hx Hx' Hy Hy'; [by apply elem_of_nil in Hx|].
  rewrite bind_cons in Hnd. apply NoDup_app in Hnd as (_ & Hdisj & Hnd).
  apply elem_of_cons in Hx as [->|Hx]; apply elem_of_cons in Hx' as [->|Hx'].
  - done.
  - exfalso. apply (Hdisj y Hy). apply list_elem_of_bind. eauto.
  - exfalso. apply (Hdisj y Hy'). apply list_elem_of_bind. eauto.
  - by apply IH.
Qed.

Lemma NoDup_bind_base {A B} (f : A → list B) (l : list A) :
  (∀ x, f x ≠ []) → NoDup (l ≫= f) → NoDup l.
Proof.
  intros Hf. induction l as [|a l IH]; intros Hnd; [constructor|].
  rewrite bind_cons in Hnd. apply NoDup_app in Hnd as (_ & Hdisj & Hnd).
  apply NoDup_cons. split; [|by apply IH].
  intros Ha. destruct (f a) as [|y ys] eqn:Hfa; [by apply Hf in Hfa|].
  apply (Hdisj y); [left|]. apply list_elem_of_bind. exists a.
  rewrite Hfa. split; [left|done].
Qed.

Lemma feature_columns_bind blocks_data :
  feature_columns blocks_data
  = prefix_values blocks_data ≫= (λ p, column_name p <$> FILL_METRICS).
Proof.
  unfold feature_columns, fill_list.
  induction (prefix_values blocks_data) as [|p ps IH]; [done|].
  rewrite !bind_cons, fmap_app, IH. by f_equal.
Qed.

(** Distinct column names make the naming of (prefix, metric) pairs and of
    blocks injective. *)
Lemma column_name_inj blocks_data p p' m m' :
  NoDup (feature_columns blocks_data) →
  p ∈ prefix_values blocks_data → p' ∈ prefix_values blocks_data →
  column_name p m = column_name p' m' → p = p' ∧ m = m'.
Proof.
  rewrite feature_columns_bind. intros Hnd Hp Hp' Heq.
  assert (p = p') as <-.
  { eapply (NoDup_bind_inj _ _ p p' (column_name p m)); [done..| |].
    - apply list_elem_of_fmap. exists m. split; [done|apply all_fill_metrics].
    - rewrite Heq. apply list_elem_of_fmap. exists m'. split; [done|apply all_fill_metrics]. }
  split; [done|]. by eapply column_name_inj_metric.
Qed.

Lemma NoDup_snd_inj {A B} (l : list (A * B)) a a' y :
  NoDup l.*2 → (a, y) ∈ l → (a', y) ∈ l → a = a'.
Proof.
  induction l as [|[a0 y0] l IH]; intros Hnd Ha Ha'; [by apply elem_of_nil in Ha|].
  rewrite fmap_cons in Hnd. apply NoDup_cons in Hnd as [Hy0 Hnd]. cbn in Hy0.
  apply elem_of_cons in Ha as [Ha|Ha]; apply elem_of_cons in Ha' as [Ha'|Ha'].
  - by simplify_eq.
  - exfalso. simplify_eq. apply Hy0. by apply (list_elem_of_fmap_2 snd) in Ha'.
  - exfalso. simplify_eq. apply Hy0. by apply (list_elem_of_fmap_2 snd) in Ha.
  - by apply IH.
Qed.

Lemma prefix_of_inj blocks_data b b' :
  NoDup (feature_columns blocks_data) →
  b ∈ block_name <$> blocks_data → b' ∈ block_name <$> blocks_data →
  prefix_of blocks_data b = prefix_of blocks_data b' → b = b'.
Proof.
  intros Hnd Hb Hb' Heq.
  destruct (prefix_of_in_values _ _ Hb) as [_ Hin].
  destruct (prefix_of_in_values _ _ Hb') as [_ Hin'].
  rewrite Heq in Hin.
  eapply (NoDup_snd_inj _ b b'); [|done..].
  rewrite feature_columns_bind in Hnd.
  eapply NoDup_bind_base; [|exact Hnd]. by intros p.
Qed.

Section aggregator.
Context (float_to_int32 : Z → Z) (blocks_data : list Block) (rows : list Event).

Let lk := build_action_lookup blocks_data.
Let tagged := tag_event lk <$> rows.

Lemma block_group_touches s b t :
  t ∈ block_group s b tagged → touches blocks_data rows s b.
Proof.
  intros Ht. apply list_elem_of_filter in Ht as [[Hs Hb] Ht].
  apply list_elem_of_fmap in Ht as (e & -> & He).
  cbn [tg_event tg_block tag_event] in *.
  destruct (action_to_block lk !! event_key e) as [[b' step]|] eqn:Hk; [|done].
  injection Hb as ->. exists e, step. done.
Qed.

Lemma block_feature_untouched s b m :
  ¬ touches blocks_data rows s b → block_feature tagged s b m = None.
Proof.
  intros Hno. unfold block_feature.
  destruct (block_group s b tagged) as [|t grp] eqn:Hgrp; [done|].
  exfalso. apply Hno. apply (block_group_touches s b t). rewrite Hgrp. left.
Qed.

Lemma block_feature_present s b m :
  is_Some (block_feature tagged s b m) →
  b ∈ present_blocks tagged ∧ s ∈ sessions_with_blocks tagged.
Proof.
  unfold block_feature.
  destruct (block_group s b tagged) as [|t grp] eqn:Hgrp; [by intros [? ?]|].
  intros _.
  assert (t ∈ block_group s b tagged) as Ht by (rewrite Hgrp; left).
  apply list_elem_of_filter in Ht as [[Hs Hb] Ht].
  assert (t ∈ rows_with_blocks tagged) as Hin.
  { apply list_elem_of_filter. rewrite Hs, Hb. eauto. }
  unfold present_blocks, sessions_with_blocks.
  rewrite !elem_of_drop_duplicates, !list_elem_of_omap.
  split; exists t; done.
Qed.

Lemma present_blocks_named b :
  b ∈ present_blocks tagged → b ∈ block_name <$> blocks_data.
Proof.
  unfold present_blocks. rewrite elem_of_drop_duplicates, list_elem_of_omap.
  intros (t & Ht & Hb). apply list_elem_of_filter in Ht as [_ Ht].
  apply list_elem_of_fmap in Ht as (e & -> & He).
  cbn [tg_block tag_event] in Hb.
  destruct (action_to_block lk !! event_key e) as [[b' step]|] eqn:Hk; [|done].
  injection Hb as ->. by eapply action_to_block_names.
Qed.

Lemma elem_of_features_row_list s c cell :
  (c, cell) ∈ (m ← PIVOT_METRICS;
               (λ b, (column_name (prefix_of blocks_data b) m,
                      pivot_fillna_int32 float_to_int32 (pivot_has_nan tagged) (fill_value m)
                        (block_feature tagged s b m)))
                 <$> present_blocks tagged) →
  ∃ b m, b ∈ present_blocks tagged ∧ c = column_name (prefix_of blocks_data b) m ∧
         cell = pivot_fillna_int32 float_to_int32 (pivot_has_nan tagged) (fill_value m)
                        (block_feature tagged s b m).
Proof.
  intros Hin. apply list_elem_of_bind in Hin as (m & Hin & _).
  apply list_elem_of_fmap in Hin as (b & [= -> ->] & Hb). eauto.
Qed.

Lemma features_row_columns s c :
  c ∈ dom (features_row float_to_int32 blocks_data tagged s) → c ∈ feature_columns blocks_data.
Proof.
  unfold features_row. rewrite dom_list_to_map_L, elem_of_list_to_set.
  intros Hc. apply list_elem_of_fmap in Hc as ([c' cell] & -> & Hin).
  apply elem_of_features_row_list in Hin as (b & m & Hb & -> & _).
  apply elem_of_feature_columns. exists (prefix_of blocks_data b), m.
  split; [|done]. apply prefix_of_in_values. by apply present_blocks_named.
Qed.

Lemma joined_row_columns s c :
  c ∈ dom (joined_row float_to_int32 blocks_data tagged s) → c ∈ feature_columns blocks_data.
Proof.
  unfold joined_row. case_bool_decide; [|rewrite dom_fmap_L];
    apply features_row_columns.
Qed.

(** The cell the fill loop leaves for a block and a metric. *)
Lemma joined_cell_filled s b m :
  NoDup (feature_columns blocks_data) →
  b ∈ block_name <$> blocks_data →
  match joined_row float_to_int32 blocks_data tagged s !! column_name (prefix_of blocks_data b) m with
  | Some cell => fillna_int32 (fill_value m) cell
  | None => Some (fill_value m)
  end
  = Some (astype_int32_column float_to_int32 (pivot_has_nan tagged)
            (default (fill_value m) (block_feature tagged s b m))).
Proof.
  intros Hnd Hb. unfold joined_row.
  set (c := column_name (prefix_of blocks_data b) m).
  assert (∀ cell, features_row float_to_int32 blocks_data tagged s !! c = Some cell →
            cell = pivot_fillna_int32 float_to_int32 (pivot_has_nan tagged) (fill_value m)
                        (block_feature tagged s b m)) as Hcell.
  { intros cell Hc. unfold features_row in Hc.
    apply elem_of_list_to_map_2 in Hc.
    apply elem_of_features_row_list in Hc as (b' & m' & Hb' & Hc & ->).
    apply present_blocks_named in Hb'.
    apply (column_name_inj blocks_data) in Hc as [Hp <-];
      [|done|by apply prefix_of_in_values..].
    by rewrite (prefix_of_inj blocks_data b b'). }
  assert (features_row float_to_int32 blocks_data tagged s !! c = None →
          block_feature tagged s b m = None) as Hnone.
  { intros Hc. destruct (block_feature tagged s b m) as [v|] eqn:Hbf; [|done].
    exfalso. destruct (block_feature_present s b m) as [Hpres _]; [by rewrite Hbf|].
    unfold features_row in Hc. apply not_elem_of_list_to_map_2 in Hc. apply Hc.
    apply list_elem_of_fmap.
    exists (c, pivot_fillna_int32 float_to_int32 (pivot_has_nan tagged) (fill_value m)
                        (block_feature tagged s b m)).
    split; [done|]. apply list_elem_of_bind. exists m.
    split; [|apply all_pivot_metrics].
    apply list_elem_of_fmap. exists b. done. }
  case_bool_decide as Hs.
  - destruct (features_row float_to_int32 blocks_data tagged s !! c) as [cell|] eqn:Hc.
    + rewrite (Hcell cell eq_refl). unfold fillna_int32, pivot_fillna_int32. cbn.
      by rewrite astype_int32_id by apply astype_int32_column_range.
    + rewrite Hnone by done. cbn.
      by rewrite astype_int32_column_id by apply fill_value_range.
  - assert (block_feature tagged s b m = None) as ->.
    { destruct (block_feature tagged s b m) as [v|] eqn:Hbf; [|done].
      exfalso. apply Hs. apply (block_feature_present s b m). by rewrite Hbf. }
    rewrite lookup_fmap. cbn [default from_option id].
    rewrite astype_int32_column_id by apply fill_value_range.
    destruct (features_row float_to_int32 blocks_data tagged s !! c);
      unfold fillna_int32; cbn; by rewrite ?astype_int32_fill.
Qed.
End aggregator.

Lemma elem_of_session_ids (l : list Event) s :
  s ∈ session_ids l ↔ ∃ e, e ∈ l ∧ global_session_id e = Some s.
Proof.
  unfold session_ids. rewrite (stable_sort_perm _).
  by rewrite elem_of_drop_duplicates, list_elem_of_omap.
Qed.

Lemma NoDup_session_ids (l : list Event) : NoDup (session_ids l).
Proof.
  unfold session_ids. rewrite (stable_sort_perm _).
  apply NoDup_drop_duplicates_from.
Qed.

Lemma missing_cols_nil cols df :
  Forall (λ c, c ∈ df_columns df) cols → missing_cols cols df = [].
Proof.
  intros Hall. unfold missing_cols. apply filter_none.
  intros c Hc Hno. rewrite Forall_forall in Hall. by apply Hno, Hall.
Qed.

Lemma feature_columns_length blocks_data :
  length (feature_columns blocks_data) = (8 * length (prefix_values blocks_data))%nat.
Proof.
  rewrite feature_columns_bind.
  induction (prefix_values blocks_data) as [|p ps IH]; [done|].
  rewrite bind_cons, length_app, IH, length_fmap.
  change (length FILL_METRICS) with 8%nat. cbn [length]. lia.
Qed.

Lemma prefix_values_length blocks_data :
  NoDup (block_name <$> blocks_data) →
  length (prefix_values blocks_data) = length blocks_data.
Proof.
  intros Hnd. unfold prefix_values.
  rewrite length_fmap, length_map_to_list, <- size_dom, generate_prefixes_dom.
  rewrite size_list_to_set by done. by rewrite length_fmap.
Qed.

Lemma transform_unfold float_to_int32 blocks_data df :
  transform_ready df →
  transform float_to_int32 blocks_data df =
  Ok ((λ s,
         let grp := session_rows s (sort_values (df_rows df)) in
         mkSessionRow s
           (head (omap event_time grp))
           (if has_col COL_DEVICE df then device_id <$> head grp else None)
           (if has_col COL_SESSION_NO df then session_no <$> head grp else None)
           (astype_int32 (sum_Z (duration_seconds <$> grp)))
           (foldl fill_cell
              (joined_row float_to_int32 blocks_data
                 (tag_event (build_action_lookup blocks_data) <$> df_rows df) s)
              (fill_list blocks_data)))
        <$> session_ids (sort_values (df_rows df))).
Proof.
  intros [Hne Hcols]. unfold transform, has_col.
  rewrite (bool_decide_eq_true_2 (COL_GSID ∈ _)).
  - cbn [negb]. rewrite missing_cols_nil by done.
    by rewrite bool_decide_eq_false_2.
  - rewrite Forall_forall in Hcols. apply Hcols. left.
Qed.

(** * Further properties of the stage methods *)

(** ** Sums, sessions and permutations *)

Lemma sum_Z_app (l k : list Z) : sum_Z (l ++ k) = sum_Z l + sum_Z k.
Proof. unfold sum_Z. induction l as [|x l IH]; cbn; lia. Qed.

Lemma sum_Z_perm (l k : list Z) : l ≡ₚ k → sum_Z l = sum_Z k.
Proof. unfold sum_Z. induction 1; cbn; lia. Qed.

Lemma session_rows_app s (l k : list Event) :
  session_rows s (l ++ k) = session_rows s l ++ session_rows s k.
Proof. apply filter_app. Qed.

Lemma session_rows_perm s (l k : list Event) :
  l ≡ₚ k → session_rows s l ≡ₚ session_rows s k.
Proof. intros H. unfold session_rows. by rewrite H. Qed.

Lemma session_rows_all s (l : list Event) :
  (∀ e, e ∈ l → global_session_id e = Some s) → session_rows s l = l.
Proof. intros H. apply filter_all, Forall_forall. exact H. Qed.

Lemma session_rows_other s (l : list Event) :
  (∀ e, e ∈ l → global_session_id e ≠ Some s) → session_rows s l = [].
Proof. intros H. by apply filter_none. Qed.

(** The members of a run lie in one session. *)
Lemma chain_same_run_session (G : list Event) x y :
  chain same_run G → x ∈ G → y ∈ G → global_session_id x = global_session_id y.
Proof.
  intros Hc. revert x y.
  assert (∀ h, head G = Some h → ∀ x, x ∈ G → global_session_id h = global_session_id x)
    as Hhead.
  { induction G as [|a G IH]; [done|]. intros h [= <-] x Hx.
    apply elem_of_cons in Hx as [->|Hx]; [done|].
    destruct G as [|b G]; [by apply elem_of_nil in Hx|].
    destruct Hc as [[[_ Hab] _] Hc]. rewrite Hab. by apply IH. }
  intros x y Hx Hy. destruct G as [|h G]; [by apply elem_of_nil in Hx|].
  by rewrite <- (Hhead h eq_refl x Hx), <- (Hhead h eq_refl y Hy).
Qed.

Lemma finalize_last_fields members removed e :
  global_session_id (finalize_last members removed e) = global_session_id e ∧
  duration_seconds (finalize_last members removed e)
  = sum_Z (duration_seconds <$> members) ∧
  dbl_count (finalize_last members removed e)
  = Z.of_nat (length (filter (λ m, is_Some (global_session_id m)) members)) - 1 ∧
  click_count (finalize_last members removed e)
  = Z.max 1 (Z.of_nat (length (filter is_meaningful_action members))).
Proof. done. Qed.

(** One run and the row it collapses to hold the same time, session by
    session. *)
Lemma merge_run_session_duration s (G : list Event) :
  G ≠ [] → chain same_run G →
  sum_Z (duration_seconds <$> session_rows s (from_option (λ m, [m]) [] (merge_run G)))
  = sum_Z (duration_seconds <$> session_rows s G).
Proof.
  intros HG Hc. unfold merge_run.
  destruct (last G) as [t|] eqn:Ht; [|by apply last_None in Ht].
  cbn [fmap option_fmap option_map from_option].
  assert (t ∈ G) as HtG.
  { apply last_Some in Ht as [G' ->]. set_solver. }
  rewrite session_rows_cons. cbn [session_rows filter list_filter].
  destruct (finalize_last_fields G (removelast G) t) as (Hs & Hd & _).
  rewrite Hs. case_decide as Hts.
  - rewrite session_rows_all.
    + rewrite fmap_cons. change (sum_Z (?x :: ?l)) with (x + sum_Z l).
      rewrite Hd. cbn. lia.
    + intros e He. by rewrite (chain_same_run_session G e t Hc He HtG).
  - rewrite session_rows_other; [done|].
    intros e He. by rewrite (chain_same_run_session G e t Hc He HtG).
Qed.

Lemma omap_cons_from_option {A B} (f : A → option B) x (l : list A) :
  omap f (x :: l) = from_option (λ m, [m]) [] (f x) ++ omap f l.
Proof. cbn. by destruct (f x). Qed.

Lemma merged_session_duration s prev (Gs : list (list Event)) :
  is_runs same_run prev Gs →
  sum_Z (duration_seconds <$> session_rows s (omap merge_run Gs))
  = sum_Z (duration_seconds <$> session_rows s (concat Gs)).
Proof.
  revert prev. induction Gs as [|G Gs IH]; intros prev HR; [done|].
  destruct HR as (HG & Hc & _ & HR).
  rewrite omap_cons_from_option. cbn [concat].
  rewrite !session_rows_app, !fmap_app, !sum_Z_app.
  rewrite merge_run_session_duration by done. by rewrite (IH _ HR).
Qed.

Lemma merged_total_duration prev (Gs : list (list Event)) :
  is_runs same_run prev Gs →
  sum_Z (duration_seconds <$> omap merge_run Gs)
  = sum_Z (duration_seconds <$> concat Gs).
Proof.
  revert prev. induction Gs as [|G Gs IH]; intros prev HR; [done|].
  destruct HR as (HG & Hc & _ & HR).
  rewrite omap_cons_from_option. cbn [concat].
  rewrite !fmap_app, !sum_Z_app, (IH _ HR). f_equal.
  unfold merge_run. destruct (last G) as [t|] eqn:Ht; [|by apply last_None in Ht].
  cbn. lia.
Qed.

Lemma session_rows_reset_counters s (l : list Event) :
  session_rows s (reset_counters <$> l) = reset_counters <$> session_rows s l.
Proof.
  induction l as [|e l IH]; [done|]. rewrite fmap_cons, !session_rows_cons.
  change (global_session_id (reset_counters e)) with (global_session_id e).
  case_decide; by rewrite ?fmap_cons, IH.
Qed.

(** ** Run collapse: what the pass conserves *)

(** The run-collapse pass moves time between rows but never creates or
    loses any: on a table with the duration column, the durations of every
    session add up to the same total before and after the pass, and so do
    the durations of the whole table. *)
Theorem remove_consecutive_duplicates_conserves_duration (df : DataFrame) :
  collapse_ready df →
  ∃ out, remove_consecutive_duplicates_with_clicks (Some df) = Ok out ∧
    (∀ s, sum_Z (duration_seconds <$> session_rows s (df_rows out))
          = sum_Z (duration_seconds <$> session_rows s (df_rows df))) ∧
    sum_Z (duration_seconds <$> df_rows out) = sum_Z (duration_seconds <$> df_rows df).
Proof.
  intros Hready. eexists. split; [by apply remove_consecutive_duplicates_unfold|].
  cbn [df_rows]. rewrite run_collapse_rows_spec.
  set (l := reset_counters <$> sort_values (df_rows df)).
  pose proof (group_adjacent_is_runs same_run l) as HR.
  pose proof (group_adjacent_concat same_run l) as Hcat.
  split.
  - intros s. rewrite (merged_session_duration s None _ HR), Hcat. subst l.
    rewrite session_rows_reset_counters, duration_reset_counters.
    apply sum_Z_perm, fmap_Permutation, session_rows_perm, sort_values_perm.
  - rewrite (merged_total_duration None _ HR), Hcat. subst l.
    rewrite duration_reset_counters.
    apply sum_Z_perm, fmap_Permutation, sort_values_perm.
Qed.

Lemma remove_consecutive_duplicates_conserves_duration_witness :
  collapse_ready run_table ∧
  ∃ out, remove_consecutive_duplicates_with_clicks (Some run_table) = Ok out ∧
    (∀ s, sum_Z (duration_seconds <$> session_rows s (df_rows out))
          = sum_Z (duration_seconds <$> session_rows s (df_rows run_table))) ∧
    sum_Z (duration_seconds <$> df_rows out)
    = sum_Z (duration_seconds <$> df_rows run_table).
Proof.
  assert (collapse_ready run_table) as Hready.
  { unfold collapse_ready. split_and!; [discriminate|compute_done..]. }
  split; [exact Hready|].
  exact (remove_consecutive_duplicates_conserves_duration run_table Hready).
Defined.

Lemma merged_row_count prev (Gs : list (list Event)) :
  is_runs same_run prev Gs →
  Forall (λ e, is_Some (global_session_id e)) (concat Gs) →
  Z.of_nat (length (omap merge_run Gs)) + sum_Z (dbl_count <$> omap merge_run Gs)
  = Z.of_nat (length (concat Gs)).
Proof.
  revert prev. induction Gs as [|G Gs IH]; intros prev HR Hids; [done|].
  cbn [concat] in Hids. apply Forall_app in Hids as [HidG Hids].
  destruct HR as (HG & _ & _ & HR). specialize (IH _ HR Hids).
  rewrite omap_cons_from_option. cbn [concat].
  rewrite fmap_app, sum_Z_app, !length_app.
  unfold merge_run in IH |- *. destruct (last G) as [t|] eqn:Ht; [|by apply last_None in Ht].
  cbn [fmap option_fmap option_map from_option length].
  rewrite fmap_cons. change (sum_Z (?x :: ?l)) with (x + sum_Z l).
  destruct (finalize_last_fields G (removelast G) t) as (_ & _ & -> & _).
  rewrite (ids_counted G HidG).
  rewrite fmap_nil. change (sum_Z []) with 0. lia.
Qed.

Lemma merged_row_bounds (Gs : list (list Event)) m :
  Forall (λ e, is_Some (global_session_id e)) (concat Gs) →
  m ∈ omap merge_run Gs →
  0 ≤ dbl_count m ∧ 1 ≤ click_count m ≤ dbl_count m + 1.
Proof.
  intros Hids Hm. apply list_elem_of_omap in Hm as (G & HGs & HG).
  apply merge_run_Some in HG as (t & Ht & ->).
  destruct (finalize_last_fields G (removelast G) t) as (_ & _ & -> & ->).
  rewrite ids_counted.
  2:{ apply Forall_forall. intros e He. rewrite Forall_forall in Hids.
      apply Hids, elem_of_concat. by exists G. }
  assert (G ≠ []) as HG by (by intros ->).
  pose proof (length_filter is_meaningful_action G).
  destruct G; [done|]. cbn [length] in *. lia.
Qed.

(** Row accounting of the run-collapse pass.  On a table in which every
    row carries a session id, the rows that are left, plus the duplicates
    that their dbl_count columns record, are as many as the rows that came
    in; every row that is left has dbl_count >= 0 and
    1 <= click_count <= dbl_count + 1. *)
Theorem remove_consecutive_duplicates_row_accounting (df : DataFrame) :
  collapse_ready df →
  Forall (λ e, is_Some (global_session_id e)) (df_rows df) →
  ∃ out, remove_consecutive_duplicates_with_clicks (Some df) = Ok out ∧
    Z.of_nat (length (df_rows out)) + sum_Z (dbl_count <$> df_rows out)
    = Z.of_nat (length (df_rows df)) ∧
    (∀ e, e ∈ df_rows out →
          0 ≤ dbl_count e ∧ 1 ≤ click_count e ≤ dbl_count e + 1).
Proof.
  intros Hready Hids. eexists. split; [by apply remove_consecutive_duplicates_unfold|].
  cbn [df_rows]. rewrite run_collapse_rows_spec.
  set (l := reset_counters <$> sort_values (df_rows df)).
  assert (Forall (λ e, is_Some (global_session_id e))
            (concat (group_adjacent same_run l))) as Hl.
  { rewrite group_adjacent_concat. subst l. rewrite Forall_fmap.
    rewrite sort_values_perm. eapply Forall_impl; [exact Hids|]. by intros []. }
  split.
  - rewrite (merged_row_count None _ (group_adjacent_is_runs same_run l) Hl).
    rewrite group_adjacent_concat. subst l.
    by rewrite length_fmap, sort_values_perm.
  - intros e. by apply merged_row_bounds.
Qed.

Lemma remove_consecutive_duplicates_row_accounting_witness :
  collapse_ready run_table ∧
  Forall (λ e, is_Some (global_session_id e)) (df_rows run_table) ∧
  ∃ out, remove_consecutive_duplicates_with_clicks (Some run_table) = Ok out ∧
    Z.of_nat (length (df_rows out)) + sum_Z (dbl_count <$> df_rows out) = 5 ∧
    (∀ e, e ∈ df_rows out →
          0 ≤ dbl_count e ∧ 1 ≤ click_count e ≤ dbl_count e + 1).
Proof.
  assert (collapse_ready run_table) as Hready.
  { unfold collapse_ready. split_and!; [discriminate|compute_done..]. }
  assert (Forall (λ e, is_Some (global_session_id e)) (df_rows run_table)) as Hids.
  { repeat constructor; by eexists. }
  split_and!; [exact Hready|exact Hids|].
  exact (remove_consecutive_duplicates_row_accounting run_table Hready Hids).
Defined.

(** After the run-collapse pass the table is in (session, time) order and
    no two neighbouring rows belong to one run any more: two rows that
    follow one another differ in session or in the composite key
    screen|functional|action. *)
Theorem remove_consecutive_duplicates_leaves_no_run (df : DataFrame) :
  collapse_ready df →
  ∃ out, remove_consecutive_duplicates_with_clicks (Some df) = Ok out ∧
    StronglySorted (λ x y, session_time_le x y = true) (df_rows out) ∧
    chain (λ x y, ¬ same_run x y) (df_rows out) ∧
    df_rows out ≠ [].
Proof.
  intros Hready. eexists. split; [by apply remove_consecutive_duplicates_unfold|].
  cbn [df_rows].
  set (l := reset_counters <$> sort_values (df_rows df)).
  split_and!.
  - rewrite run_collapse_rows_spec. apply merged_sorted.
    rewrite group_adjacent_concat. subst l.
    rewrite <- sort_values_reset_counters. apply sort_values_sorted.
  - rewrite run_collapse_rows_spec.
    apply (merged_no_adjacent None), group_adjacent_is_runs.
  - apply run_collapse_rows_nonempty. subst l. destruct Hready as [Hne _].
    intros Hnil. apply fmap_nil_inv in Hnil.
    apply Hne, Permutation_nil_r. by rewrite <- Hnil, sort_values_perm.
Qed.

Lemma remove_consecutive_duplicates_leaves_no_run_witness :
  collapse_ready two_runs_table ∧
  ∃ out, remove_consecutive_duplicates_with_clicks (Some two_runs_table) = Ok out ∧
    StronglySorted (λ x y, session_time_le x y = true) (df_rows out) ∧
    chain (λ x y, ¬ same_run x y) (df_rows out) ∧
    df_rows out ≠ [].
Proof.
  assert (collapse_ready two_runs_table) as Hready.
  { unfold collapse_ready. split_and!; [discriminate|compute_done..]. }
  split; [exact Hready|].
  exact (remove_consecutive_duplicates_leaves_no_run two_runs_table Hready).
Defined.

(** ** Screen collapse: what the pass conserves *)

Lemma sum_Z_filter_split {A} (P : A → Prop) `{∀ x, Decision (P x)} (f : A → Z)
    (l : list A) :
  sum_Z (f <$> l)
  = sum_Z (f <$> filter P l) + sum_Z (f <$> filter (λ x, ¬ P x) l).
Proof.
  induction l as [|x l IH]; [done|]. rewrite fmap_cons.
  change (sum_Z (?a :: ?r)) with (a + sum_Z r). rewrite IH.
  destruct (decide (P x)) as [Hx|Hx].
  - rewrite (filter_cons_True P) by done.
    rewrite (filter_cons_False (λ x, ¬ P x)) by (by intros Hn; apply Hn).
    rewrite fmap_cons. change (sum_Z (?a :: ?r)) with (a + sum_Z r). lia.
  - rewrite (filter_cons_False P) by done.
    rewrite (filter_cons_True (λ x, ¬ P x)) by done.
    rewrite fmap_cons. change (sum_Z (?a :: ?r)) with (a + sum_Z r). lia.
Qed.

(** The two shapes of a collapsed screen run. *)
Lemma collapse_screen_run_cases (G : list Event) :
  collapse_screen_run G = G ∨
  ∃ m rest, filter (λ e, ¬ is_sentinel e) G = m :: rest ∧
            filter is_sentinel G ≠ [] ∧
            collapse_screen_run G
            = set_duration
                (duration_seconds m + sum_Z (duration_seconds <$> filter is_sentinel G)) m
              :: rest.
Proof.
  unfold collapse_screen_run.
  destruct (filter (λ e, ¬ is_sentinel e) G) as [|m rest] eqn:Hm; [by left|].
  destruct (filter is_sentinel G) as [|r removed] eqn:Hr; [by left|].
  right. by exists m, rest.
Qed.

Lemma collapse_screen_run_duration (G : list Event) :
  sum_Z (duration_seconds <$> collapse_screen_run G) = sum_Z (duration_seconds <$> G).
Proof.
  destruct (collapse_screen_run_cases G) as [->|(m & rest & Hm & _ & ->)]; [done|].
  rewrite (sum_Z_filter_split is_sentinel duration_seconds G).
  change (@filter _ _ _ (λ x, ¬ is_sentinel x) _ G)
    with (filter (λ e, ¬ is_sentinel e) G).
  rewrite Hm.
  rewrite !fmap_cons. change (sum_Z (?a :: ?r)) with (a + sum_Z r).
  change (sum_Z (?a :: ?r)) with (a + sum_Z r). cbn [duration_seconds set_duration]. lia.
Qed.

(** Every row of a collapsed run is a row of the run, up to its duration. *)
Lemma collapse_screen_run_rows (G : list Event) e :
  e ∈ collapse_screen_run G → ∃ x, x ∈ G ∧ set_duration 0 e = set_duration 0 x.
Proof.
  destruct (collapse_screen_run_cases G) as [->|(m & rest & Hm & _ & ->)].
  { intros He. by exists e. }
  assert (∀ x, x ∈ m :: rest → x ∈ G) as Hsub.
  { intros x Hx. rewrite <- Hm in Hx. by apply list_elem_of_filter in Hx as [_ ?]. }
  intros He. apply elem_of_cons in He as [->|He].
  - exists m. split; [apply Hsub; left|done].
  - exists e. split; [apply Hsub; by right|done].
Qed.

Lemma collapse_screen_run_nonempty (G : list Event) :
  G ≠ [] → collapse_screen_run G ≠ [].
Proof. destruct (collapse_screen_run_cases G) as [->|(m & rest & _ & _ & ->)]; done. Qed.

Lemma collapse_screen_run_meaningful (G : list Event) :
  set_duration 0 <$> filter (λ e, ¬ is_sentinel e) (collapse_screen_run G)
  = set_duration 0 <$> filter (λ e, ¬ is_sentinel e) G.
Proof.
  destruct (collapse_screen_run_cases G) as [->|(m & rest & Hm & _ & ->)]; [done|].
  assert (Forall (λ e, ¬ is_sentinel e) (m :: rest)) as Hall.
  { rewrite <- Hm. apply Forall_forall. intros x Hx.
    by apply list_elem_of_filter in Hx as [? _]. }
  inversion Hall as [|? ? Hm' Hrest]; subst.
  rewrite filter_cons_True by exact Hm'.
  rewrite (filter_all _ rest Hrest), Hm. by rewrite !fmap_cons.
Qed.

Lemma collapse_screen_run_sentinels (G : list Event) :
  filter is_sentinel (collapse_screen_run G) `sublist_of` filter is_sentinel G.
Proof.
  destruct (collapse_screen_run_cases G) as [->|(m & rest & Hm & _ & ->)]; [done|].
  assert (Forall (λ e, ¬ is_sentinel e) (m :: rest)) as Hall.
  { rewrite <- Hm. apply Forall_forall. intros x Hx.
    by apply list_elem_of_filter in Hx as [? _]. }
  rewrite filter_none; [apply sublist_nil_l|].
  intros x Hx. apply elem_of_cons in Hx as [->|Hx].
  - inversion Hall; subst. done.
  - inversion Hall as [|? ? _ Hrest]; subst.
    by apply (proj1 (Forall_forall _ _) Hrest).
Qed.

Lemma collapse_screen_run_length (G : list Event) :
  (length (collapse_screen_run G) ≤ length G)%nat.
Proof.
  destruct (collapse_screen_run_cases G) as [->|(m & rest & Hm & _ & ->)]; [done|].
  change (length (?a :: rest)) with (length (m :: rest)). rewrite <- Hm.
  apply length_filter.
Qed.

Lemma collapse_screen_run_idem (G : list Event) :
  collapse_screen_run (collapse_screen_run G) = collapse_screen_run G.
Proof.
  destruct (collapse_screen_run_cases G) as [HG|(m & rest & Hm & _ & ->)];
    [by rewrite !HG|].
  assert (Forall (λ e, ¬ is_sentinel e) (m :: rest)) as Hall.
  { rewrite <- Hm. apply Forall_forall. intros x Hx.
    by apply list_elem_of_filter in Hx as [? _]. }
  set (m' := set_duration _ m).
  assert (filter is_sentinel (m' :: rest) = []) as Hnone.
  { apply filter_none. intros x Hx. apply elem_of_cons in Hx as [->|Hx].
    - inversion Hall; subst. done.
    - inversion Hall as [|? ? _ Hrest]; subst.
      by apply (proj1 (Forall_forall _ _) Hrest). }
  unfold collapse_screen_run. rewrite Hnone.
  by destruct (filter (λ e, ¬ is_sentinel e) (m' :: rest)).
Qed.

Lemma chain_uniform {A B} (R : A → A → Prop) (key : A → B) (G : list A) x y :
  (∀ a b, R a b → key a = key b) →
  chain R G → x ∈ G → y ∈ G → key x = key y.
Proof.
  intros HR Hc.
  assert (∀ h, head G = Some h → ∀ x, x ∈ G → key h = key x) as Hhead.
  { induction G as [|a G IH]; [done|]. intros h [= <-] z Hz.
    apply elem_of_cons in Hz as [->|Hz]; [done|].
    destruct G as [|b G]; [by apply elem_of_nil in Hz|].
    destruct Hc as [Hab Hc]. rewrite (HR _ _ Hab). by apply IH. }
  intros Hx Hy. destruct G as [|h G]; [by apply elem_of_nil in Hx|].
  by rewrite <- (Hhead h eq_refl x Hx), <- (Hhead h eq_refl y Hy).
Qed.

(** The part of a row that decides screen-run membership. *)
Lemma same_screen_run_key a b :
  same_screen_run a b → (global_session_id a, screen a) = (global_session_id b, screen b).
Proof. intros [[_ ->] ->]. done. Qed.

Lemma collapse_screen_run_key (G : list Event) e :
  chain same_screen_run G → e ∈ collapse_screen_run G →
  ∀ x, x ∈ G → (global_session_id e, screen e) = (global_session_id x, screen x).
Proof.
  intros Hc He x Hx.
  apply collapse_screen_run_rows in He as (y & Hy & Hey).
  transitivity (global_session_id y, screen y).
  - change (global_session_id e) with (global_session_id (set_duration 0 e)).
    change (screen e) with (screen (set_duration 0 e)). by rewrite Hey.
  - by apply (chain_uniform same_screen_run (λ a, (global_session_id a, screen a)) G),
      Hx; [apply same_screen_run_key|..].
Qed.

Lemma collapse_screen_run_session_duration s (G : list Event) :
  chain same_screen_run G →
  sum_Z (duration_seconds <$> session_rows s (collapse_screen_run G))
  = sum_Z (duration_seconds <$> session_rows s G).
Proof.
  intros Hc. destruct G as [|h G]; [done|].
  destruct (decide (global_session_id h = Some s)) as [Hs|Hs].
  - rewrite !session_rows_all; [apply collapse_screen_run_duration|..].
    + intros e He. rewrite <- Hs.
      by apply (chain_uniform same_screen_run global_session_id (h :: G));
        [intros a b [[_ ?] _]|..|left].
    + intros e He. rewrite <- Hs.
      by pose proof (collapse_screen_run_key _ e Hc He h ltac:(left)) as [= -> _].
  - rewrite !session_rows_other; [done|..].
    + intros e He Hes. apply Hs. rewrite <- Hes. symmetry.
      by apply (chain_uniform same_screen_run global_session_id (h :: G));
        [intros a b [[_ ?] _]|..|left].
    + intros e He Hes. apply Hs. rewrite <- Hes.
      by pose proof (collapse_screen_run_key _ e Hc He h ltac:(left)) as [= -> _].
Qed.

Lemma session_rows_concat s (Gs : list (list Event)) :
  session_rows s (concat Gs) = concat (session_rows s <$> Gs).
Proof.
  induction Gs as [|G Gs IH]; [done|]. cbn [concat fmap list_fmap].
  by rewrite session_rows_app, IH.
Qed.

Lemma collapsed_session_duration s prev (Gs : list (list Event)) :
  is_runs same_screen_run prev Gs →
  sum_Z (duration_seconds <$> session_rows s (concat (collapse_screen_run <$> Gs)))
  = sum_Z (duration_seconds <$> session_rows s (concat Gs)).
Proof.
  revert prev. induction Gs as [|G Gs IH]; intros prev HR; [done|].
  destruct HR as (_ & Hc & _ & HR). cbn [concat fmap list_fmap].
  rewrite !session_rows_app, !fmap_app, !sum_Z_app, (IH _ HR).
  by rewrite collapse_screen_run_session_duration.
Qed.

Lemma filter_concat {A} (P : A → Prop) `{∀ x, Decision (P x)} (Gs : list (list A)) :
  filter P (concat Gs) = concat (filter P <$> Gs).
Proof.
  induction Gs as [|G Gs IH]; [done|]. cbn [concat fmap list_fmap].
  by rewrite filter_app, IH.
Qed.

Lemma collapsed_meaningful (Gs : list (list Event)) :
  set_duration 0 <$> filter (λ e, ¬ is_sentinel e) (concat (collapse_screen_run <$> Gs))
  = set_duration 0 <$> filter (λ e, ¬ is_sentinel e) (concat Gs).
Proof.
  induction Gs as [|G Gs IH]; [done|]. cbn [concat fmap list_fmap].
  by rewrite !filter_app, !fmap_app, IH, collapse_screen_run_meaningful.
Qed.

Lemma collapsed_sentinels (Gs : list (list Event)) :
  filter is_sentinel (concat (collapse_screen_run <$> Gs))
  `sublist_of` filter is_sentinel (concat Gs).
Proof.
  induction Gs as [|G Gs IH]; [done|]. cbn [concat fmap list_fmap].
  rewrite !filter_app. by apply sublist_app; [apply collapse_screen_run_sentinels|].
Qed.

Lemma collapsed_length (Gs : list (list Event)) :
  (length (concat (collapse_screen_run <$> Gs)) ≤ length (concat Gs))%nat.
Proof.
  induction Gs as [|G Gs IH]; [done|]. cbn [concat fmap list_fmap].
  rewrite !length_app. pose proof (collapse_screen_run_length G). lia.
Qed.

(** The screen-collapse pass moves the time of the rows it deletes to a row
    it keeps: the durations of every session add up to the same total
    before and after the pass.  It deletes sentinel rows only: the rows
    whose action is not 'Не указано' come out all, in order, changed at
    most in their duration; the sentinel rows that come out are rows of the
    input; so the table does not grow. *)
Theorem collapse_intermediate_screens_conserves (df : DataFrame) :
  screens_ready df →
  ∃ out, collapse_intermediate_screens (Some df) = Ok out ∧
    (∀ s, sum_Z (duration_seconds <$> session_rows s (df_rows out))
          = sum_Z (duration_seconds <$> session_rows s (df_rows df))) ∧
    set_duration 0 <$> filter (λ e, ¬ is_sentinel e) (df_rows out)
    = set_duration 0 <$> filter (λ e, ¬ is_sentinel e) (sort_values (df_rows df)) ∧
    filter is_sentinel (df_rows out)
      `sublist_of` filter is_sentinel (sort_values (df_rows df)) ∧
    (length (df_rows out) ≤ length (df_rows df))%nat.
Proof.
  intros Hready. eexists. split; [by apply collapse_intermediate_screens_unfold|].
  cbn [df_rows]. rewrite screen_collapse_rows_spec.
  set (l := sort_values (df_rows df)).
  pose proof (group_adjacent_is_runs same_screen_run l) as HR.
  pose proof (group_adjacent_concat same_screen_run l) as Hcat.
  split_and!.
  - intros s. rewrite (collapsed_session_duration s None _ HR), Hcat. subst l.
    apply sum_Z_perm, fmap_Permutation, session_rows_perm, sort_values_perm.
  - by rewrite collapsed_meaningful, Hcat.
  - rewrite <- Hcat at 2. apply collapsed_sentinels.
  - pose proof (collapsed_length (group_adjacent same_screen_run l)) as Hlen.
    rewrite Hcat in Hlen. etrans; [exact Hlen|]. subst l.
    by rewrite sort_values_perm.
Qed.

Lemma collapse_intermediate_screens_conserves_witness :
  screens_ready docstring_screen_table ∧
  ∃ out, collapse_intermediate_screens (Some docstring_screen_table) = Ok out ∧
    sum_Z (duration_seconds <$> session_rows 1 (df_rows out)) = 23 ∧
    (length (df_rows out) ≤ 5)%nat.
Proof.
  assert (screens_ready docstring_screen_table) as Hready.
  { unfold screens_ready. split_and!; [discriminate|compute_done..]. }
  split; [exact Hready|].
  destruct (collapse_intermediate_screens_conserves docstring_screen_table Hready)
    as (out & Hout & Hsum & _ & _ & Hlen).
  exists out. split_and!; [exact Hout| |exact Hlen].
  rewrite (Hsum 1). reflexivity.
Defined.

Lemma StronglySorted_sublist {A} (R : relation A) (l k : list A) :
  l `sublist_of` k → StronglySorted R k → StronglySorted R l.
Proof.
  induction 1 as [|x l k Hsub IH|x l k Hsub IH]; intros Hk; [constructor|..].
  - apply StronglySorted_inv in Hk as [Hk Hx]. constructor; [by apply IH|].
    apply Forall_forall. intros y Hy.
    apply (proj1 (Forall_forall _ _) Hx). by eapply elem_of_sublist.
  - apply StronglySorted_inv in Hk as [Hk _]. by apply IH.
Qed.

Lemma sort_key_set_duration d e : sort_key (set_duration d e) = sort_key e.
Proof. done. Qed.

Lemma collapse_screen_run_sorted (G : list Event) :
  StronglySorted (λ x y, session_time_le x y = true) G →
  StronglySorted (λ x y, session_time_le x y = true) (collapse_screen_run G).
Proof.
  intros Hs. destruct (collapse_screen_run_cases G) as [->|(m & rest & Hm & _ & ->)];
    [done|].
  assert (StronglySorted (λ x y, session_time_le x y = true) (m :: rest)) as Hmr.
  { rewrite <- Hm. eapply StronglySorted_sublist; [apply sublist_filter|done]. }
  apply StronglySorted_inv in Hmr as [Hrest Hall]. constructor; [done|].
  eapply Forall_impl; [exact Hall|]. intros y Hy. cbn beta in *.
  by rewrite (session_time_le_proper _ m _ y).
Qed.

Lemma collapsed_sorted (Gs : list (list Event)) :
  StronglySorted (λ x y, session_time_le x y = true) (concat Gs) →
  StronglySorted (λ x y, session_time_le x y = true)
    (concat (collapse_screen_run <$> Gs)).
Proof.
  induction Gs as [|G Gs IH]; intros Hs; [constructor|].
  cbn [concat fmap list_fmap] in *.
  apply StronglySorted_app in Hs as (Hcross & HG & Hrest).
  apply StronglySorted_app. split_and!.
  - intros x y Hx Hy.
    apply collapse_screen_run_rows in Hx as (x0 & Hx0 & Hxx).
    apply elem_of_concat in Hy as (G' & Hy & HG').
    apply list_elem_of_fmap in HG' as (G0 & -> & HG0).
    apply collapse_screen_run_rows in Hy as (y0 & Hy0 & Hyy).
    rewrite (session_time_le_proper x x0 y y0).
    + apply Hcross; [done|]. apply elem_of_concat. by exists G0.
    + by rewrite <- (sort_key_set_duration 0 x), Hxx.
    + by rewrite <- (sort_key_set_duration 0 y), Hyy.
  - by apply collapse_screen_run_sorted.
  - by apply IH.
Qed.

Lemma same_screen_run_proper p p' e e' :
  (global_session_id p, screen p) = (global_session_id p', screen p') →
  (global_session_id e, screen e) = (global_session_id e', screen e') →
  same_screen_run p e → same_screen_run p' e'.
Proof.
  intros [= Hp1 Hp2] [= He1 He2] [[Hs Hpe] Hscr].
  unfold same_screen_run, same_session. rewrite <- Hp1, <- Hp2, <- He1, <- He2. done.
Qed.

Lemma collapse_screen_run_chain (G : list Event) :
  chain same_screen_run G → chain same_screen_run (collapse_screen_run G).
Proof.
  intros Hc. destruct G as [|h [|x2 G]].
  - done.
  - by rewrite small_run_unchanged by (cbn; lia).
  - assert (same_screen_run h h) as Hhh.
    { destruct Hc as [[[Hs _] _] _]. done. }
    apply chain_pairwise. intros a b Ha Hb.
    apply (same_screen_run_proper h a h b); [..|done]; symmetry.
    + apply (collapse_screen_run_key _ a Hc Ha). left.
    + apply (collapse_screen_run_key _ b Hc Hb). left.
Qed.

Lemma collapsed_is_runs prev prev' (Gs : list (list Event)) :
  match prev, prev' with
  | Some p, Some p' =>
      (global_session_id p, screen p) = (global_session_id p', screen p')
  | None, None => True
  | _, _ => False
  end →
  is_runs same_screen_run prev Gs →
  is_runs same_screen_run prev' (collapse_screen_run <$> Gs).
Proof.
  revert prev prev'. induction Gs as [|G Gs IH]; intros prev prev' Hprev HR; [done|].
  destruct HR as (HG & Hc & Hb & HR). cbn [fmap list_fmap is_runs].
  assert (∀ e x, e ∈ collapse_screen_run G → x ∈ G →
                 (global_session_id e, screen e) = (global_session_id x, screen x))
    as Hkey.
  { intros e x He Hx. by apply (collapse_screen_run_key G). }
  split_and!.
  - by apply collapse_screen_run_nonempty.
  - by apply collapse_screen_run_chain.
  - intros p' x' -> Hx'. destruct prev as [p|]; [|done].
    destruct (head G) as [x|] eqn:Hx; [|by destruct G].
    intros HRpx. apply (Hb p x eq_refl eq_refl).
    apply (same_screen_run_proper p' p x' x); [done| |done].
    apply Hkey; [by apply head_Some_elem_of|by apply head_Some_elem_of].
  - apply (IH (last G)); [|done].
    destruct (last G) as [t|] eqn:Ht; [|by apply last_None in Ht].
    pose proof (collapse_screen_run_nonempty G HG) as Hne.
    destruct (last (collapse_screen_run G)) as [t'|] eqn:Ht';
      [|by apply last_None in Ht'].
    symmetry. apply Hkey; by apply last_Some_elem_of.
Qed.

Lemma screen_collapse_rows_idem (l : list Event) :
  screen_collapse_rows (screen_collapse_rows l) = screen_collapse_rows l.
Proof.
  rewrite (screen_collapse_rows_spec l).
  rewrite screen_collapse_rows_runs.
  - rewrite <- list_fmap_compose. f_equal. apply list_fmap_ext.
    intros _ G _. apply collapse_screen_run_idem.
  - apply (collapsed_is_runs None None); [done|]. apply group_adjacent_is_runs.
Qed.

Lemma screen_collapse_rows_nonempty (l : list Event) :
  l ≠ [] → screen_collapse_rows l ≠ [].
Proof.
  intros Hl. rewrite screen_collapse_rows_spec.
  pose proof (group_adjacent_concat same_screen_run l) as Hcat.
  pose proof (group_adjacent_is_runs same_screen_run l) as HR.
  destruct (group_adjacent same_screen_run l) as [|G Gs]; [by rewrite <- Hcat in Hl|].
  destruct HR as (HG & _). cbn [fmap list_fmap concat].
  intros Hnil. apply app_eq_nil in Hnil as [Hnil _].
  by apply (collapse_screen_run_nonempty G).
Qed.

(** ** Screen collapse is idempotent *)

(** Unlike the run-collapse pass, the screen-collapse pass reaches a fixed
    point at once: applied to its own output it returns that output,
    unchanged in rows, order, values and columns. *)
Theorem collapse_intermediate_screens_idempotent (df : DataFrame) :
  screens_ready df →
  ∃ out, collapse_intermediate_screens (Some df) = Ok out ∧
         collapse_intermediate_screens (Some out) = Ok out.
Proof.
  intros Hready. eexists. split; [by apply collapse_intermediate_screens_unfold|].
  destruct Hready as (Hne & Hg & Hd & Hs & Ha & Ht).
  rewrite (add_col_id COL_DURATION (df_columns df)) by done.
  set (rows := screen_collapse_rows (sort_values (df_rows df))).
  assert (rows ≠ []) as Hrows.
  { apply screen_collapse_rows_nonempty. intros Hnil.
    apply Hne, Permutation_nil_r. by rewrite <- Hnil, sort_values_perm. }
  rewrite collapse_intermediate_screens_unfold by (by split_and!).
  cbn [df_rows df_columns].
  rewrite (add_col_id COL_DURATION (df_columns df)) by done. do 2 f_equal.
  rewrite sort_values_id.
  - apply screen_collapse_rows_idem.
  - subst rows. rewrite screen_collapse_rows_spec. apply collapsed_sorted.
    rewrite group_adjacent_concat. apply sort_values_sorted.
Qed.

Lemma collapse_intermediate_screens_idempotent_witness :
  screens_ready docstring_screen_table ∧
  ∃ out, collapse_intermediate_screens (Some docstring_screen_table) = Ok out ∧
         collapse_intermediate_screens (Some out) = Ok out.
Proof.
  assert (screens_ready docstring_screen_table) as Hready.
  { unfold screens_ready. split_and!; [discriminate|compute_done..]. }
  split; [exact Hready|].
  exact (collapse_intermediate_screens_idempotent docstring_screen_table Hready).
Defined.

(** ** Typo repair *)

Lemma assign_where_none mask col v (rows : list Event) :
  filter (λ e, mask e = true) rows = [] → assign_where mask col v rows = rows.
Proof.
  intros Hnone. unfold assign_where.
  rewrite <- (list_fmap_id rows) at 2. apply list_fmap_ext. intros i e He.
  destruct (mask e) eqn:Hm; [|done].
  assert (e ∈ filter (λ e, mask e = true) rows) as Hin.
  { apply list_elem_of_filter. split; [done|]. by eapply list_elem_of_lookup_2. }
  rewrite Hnone in Hin. by apply elem_of_nil in Hin.
Qed.

Lemma fires_existsb (mask : Event → bool) (rows : list Event) :
  bool_decide (0 < length (filter (λ e, mask e = true) rows))%nat = existsb mask rows.
Proof.
  induction rows as [|e rows IH]; [done|]. rewrite filter_cons. cbn [existsb].
  destruct (mask e); cbn [orb].
  - rewrite decide_True by done. apply bool_decide_eq_true_2. cbn. lia.
  - by rewrite decide_False by done.
Qed.

Lemma existsb_false_filter (mask : Event → bool) (rows : list Event) :
  existsb mask rows = false → filter (λ e, mask e = true) rows = [].
Proof.
  rewrite <- fires_existsb. intros Hc%bool_decide_eq_false.
  destruct (filter _ rows); [done|]. cbn [length] in Hc. lia.
Qed.

Lemma existsb_fmap {A B} (f : A → B) (p : B → bool) (l : list A) :
  existsb p (f <$> l) = existsb (λ x, p (f x)) l.
Proof. induction l as [|x l IH]; [done|]. cbn. by rewrite <- IH. Qed.

Lemma existsb_pointwise {A} (p q : A → bool) (l : list A) :
  (∀ x, p x = q x) → existsb p l = existsb q l.
Proof. intros Hpq. induction l as [|x l IH]; [done|]. cbn. by rewrite Hpq, IH. Qed.

Lemma correction_step_3 dt rows nv col old_value new_value :
  correction_step dt (Running rows nv) (Correction3 col old_value new_value)
  = if existsb (λ e, bool_decide (get_text col e = old_value)) rows
       && negb (accepts (dt col) new_value)
    then NewCategory new_value
    else Running (assign_where (λ e, bool_decide (get_text col e = old_value))
                    col new_value rows) (Some new_value).
Proof.
  cbn [correction_step]. rewrite fires_existsb.
  destruct (existsb _ rows) eqn:He; cbn [andb].
  - by destruct (accepts _ _).
  - by rewrite assign_where_none by (by apply existsb_false_filter).
Qed.

Lemma correction_step_6 dt rows v col target cond old_action new_action :
  correction_step dt (Running rows (Some v))
    (Correction6 col target cond old_action new_action)
  = if existsb (λ e, bool_decide (get_text col e = target)
                     && bool_decide (get_text cond e = old_action)) rows
       && negb (accepts (dt col) v)
    then NewCategory v
    else Running (assign_where
                    (λ e, bool_decide (get_text col e = target)
                          && bool_decide (get_text cond e = old_action)) col v rows)
           (Some v).
Proof.
  cbn [correction_step]. rewrite fires_existsb.
  destruct (existsb _ rows) eqn:He; cbn [andb].
  - by destruct (accepts _ _).
  - by rewrite assign_where_none by (by apply existsb_false_filter).
Qed.

Lemma correction_step_stopped dt v c :
  correction_step dt (NewCategory v) c = NewCategory v.
Proof. done. Qed.

Lemma assign_where_compose m1 c1 v1 m2 c2 v2 (rows : list Event) :
  assign_where m2 c2 v2 (assign_where m1 c1 v1 rows)
  = (λ e, let e1 := if m1 e then set_text c1 v1 e else e in
          if m2 e1 then set_text c2 v2 e1 else e1) <$> rows.
Proof. unfold assign_where. by rewrite <- list_fmap_compose. Qed.

Lemma set_action_if (b : bool) c e :
  (if b then set_action c e else e) = set_action (if b then c else action e) e.
Proof. by destruct b, e. Qed.

Lemma set_functional_if (b : bool) c e :
  (if b then set_functional c e else e)
  = set_functional (if b then c else functional e) e.
Proof. by destruct b, e. Qed.

Lemma set_action_twice x y e : set_action x (set_action y e) = set_action x e.
Proof. done. Qed.

Lemma set_functional_twice x y e :
  set_functional x (set_functional y e) = set_functional x e.
Proof. done. Qed.

(** Three replacements in a row, on one value. *)
Lemma three_replacements (t1 c1 t2 c2 t3 c3 a : string) :
  c1 ≠ t2 → c1 ≠ t3 → c2 ≠ t3 →
  let a1 := if bool_decide (a = t1) then c1 else a in
  let a2 := if bool_decide (a1 = t2) then c2 else a1 in
  (if bool_decide (a2 = t3) then c3 else a2)
  = (if bool_decide (a = t1) then c1
     else if bool_decide (a = t2) then c2
     else if bool_decide (a = t3) then c3 else a).
Proof.
  intros H12 H13 H23. cbn zeta.
  destruct (decide (a = t1)) as [->|H1].
  - rewrite (bool_decide_eq_true_2 (t1 = t1)) by done.
    rewrite (bool_decide_eq_false_2 (c1 = t2)) by done.
    by rewrite (bool_decide_eq_false_2 (c1 = t3)) by done.
  - rewrite (bool_decide_eq_false_2 (a = t1)) by done.
    destruct (decide (a = t2)) as [->|H2].
    + rewrite (bool_decide_eq_true_2 (t2 = t2)) by done.
      by rewrite (bool_decide_eq_false_2 (c2 = t3)) by done.
    + by rewrite (bool_decide_eq_false_2 (a = t2)) by done.
Qed.

(** A replaced value meets a later condition exactly when the original
    value does. *)
Lemma replaced_value_test (t1 c1 t2 c2 t3 c3 A a : string) :
  t1 ≠ A → t2 ≠ A → t3 ≠ A → c1 ≠ A → c2 ≠ A → c3 ≠ A →
  bool_decide ((if bool_decide (a = t1) then c1
                else if bool_decide (a = t2) then c2
                else if bool_decide (a = t3) then c3 else a) = A)
  = bool_decide (a = A).
Proof.
  intros. repeat case_bool_decide; congruence.
Qed.

(** One replacement and two conditional assignments of the same value. *)
Lemma conditional_replacements (t4 c4 F5 F6 f : string) (b5 b6 : bool) :
  c4 ≠ F5 → c4 ≠ F6 →
  let f1 := if bool_decide (f = t4) then c4 else f in
  let f2 := if bool_decide (f1 = F5) && b5 then c4 else f1 in
  (if bool_decide (f2 = F6) && b6 then c4 else f2)
  = (if bool_decide (f = t4) then c4
     else if bool_decide (f = F5) && b5 then c4
     else if bool_decide (f = F6) && b6 then c4 else f).
Proof.
  intros H5 H6. cbn zeta.
  destruct (decide (f = t4)) as [->|H4].
  - rewrite (bool_decide_eq_true_2 (t4 = t4)) by done.
    rewrite (bool_decide_eq_false_2 (c4 = F5)) by done. cbn [andb].
    by rewrite (bool_decide_eq_false_2 (c4 = F6)) by done.
  - rewrite (bool_decide_eq_false_2 (f = t4)) by done.
    destruct (bool_decide (f = F5) && b5); [|done].
    by rewrite (bool_decide_eq_false_2 (c4 = F6)) by done.
Qed.

(** Three replacements in one column, then one replacement and two
    conditional assignments in the other, seen on one row. *)
Lemma six_corrections_row (t1 c1 t2 c2 t3 c3 t4 c4 F5 A5 F6 A6 : string) (e : Event) :
  c1 ≠ t2 → c1 ≠ t3 → c2 ≠ t3 →
  t1 ≠ A5 → t2 ≠ A5 → t3 ≠ A5 → c1 ≠ A5 → c2 ≠ A5 → c3 ≠ A5 →
  t1 ≠ A6 → t2 ≠ A6 → t3 ≠ A6 → c1 ≠ A6 → c2 ≠ A6 → c3 ≠ A6 →
  c4 ≠ F5 → c4 ≠ F6 →
  let e1 := if bool_decide (action e = t1) then set_action c1 e else e in
  let e2 := if bool_decide (action e1 = t2) then set_action c2 e1 else e1 in
  let e3 := if bool_decide (action e2 = t3) then set_action c3 e2 else e2 in
  let e4 := if bool_decide (functional e3 = t4) then set_functional c4 e3 else e3 in
  let e5 := if bool_decide (functional e4 = F5) && bool_decide (action e4 = A5)
            then set_functional c4 e4 else e4 in
  let e6 := if bool_decide (functional e5 = F6) && bool_decide (action e5 = A6)
            then set_functional c4 e5 else e5 in
  e6 = set_functional
         (if bool_decide (functional e = t4) then c4
          else if bool_decide (functional e = F5) && bool_decide (action e = A5) then c4
          else if bool_decide (functional e = F6) && bool_decide (action e = A6) then c4
          else functional e)
         (set_action
            (if bool_decide (action e = t1) then c1
             else if bool_decide (action e = t2) then c2
             else if bool_decide (action e = t3) then c3
             else action e) e).
Proof.
  intros H12 H13 H23 ? ? ? ? ? ? ? ? ? ? ? ? HF5 HF6 e1 e2 e3 e4 e5 e6.
  set (a' := if bool_decide (action e = t1) then c1
             else if bool_decide (action e = t2) then c2
             else if bool_decide (action e = t3) then c3 else action e).
  assert (e3 = set_action a' e) as He3.
  { subst e3 e2 e1 a'. rewrite (set_action_if _ c1 e).
    rewrite (set_action_if _ c2), set_action_twice.
    rewrite (set_action_if _ c3), set_action_twice.
    f_equal. change (action (set_action ?x _)) with x.
    by apply three_replacements. }
  clearbody e3. subst e3. clear e1 e2.
  set (f1 := if bool_decide (functional e = t4) then c4 else functional e).
  assert (e4 = set_functional f1 (set_action a' e)) as He4.
  { subst e4 f1. by rewrite (set_functional_if _ c4 (set_action a' e)). }
  clearbody e4. subst e4.
  set (f2 := if bool_decide (f1 = F5) && bool_decide (a' = A5) then c4 else f1).
  assert (e5 = set_functional f2 (set_action a' e)) as He5.
  { subst e5 f2.
    by rewrite (set_functional_if _ c4 (set_functional f1 (set_action a' e))). }
  clearbody e5. subst e5.
  subst e6.
  rewrite (set_functional_if _ c4 (set_functional f2 (set_action a' e))).
  rewrite set_functional_twice. f_equal.
  change (functional (set_functional ?x _)) with x.
  change (action (set_functional _ (set_action ?x _))) with x.
  subst f2 f1 a'. rewrite !replaced_value_test by done.
  by apply conditional_replacements.
Qed.

(** The conditions of the later corrections, evaluated on the rows as
    the earlier corrections left them, say the same as on the rows of the
    input. *)
Lemma six_corrections_masks (t1 c1 t2 c2 t3 c3 t4 c4 F5 A5 F6 A6 : string) (e : Event) :
  t1 ≠ t2 → t1 ≠ t3 → t2 ≠ t3 → c1 ≠ t2 → c1 ≠ t3 → c2 ≠ t3 →
  t1 ≠ A5 → t2 ≠ A5 → t3 ≠ A5 → c1 ≠ A5 → c2 ≠ A5 → c3 ≠ A5 →
  t1 ≠ A6 → t2 ≠ A6 → t3 ≠ A6 → c1 ≠ A6 → c2 ≠ A6 → c3 ≠ A6 →
  t4 ≠ F5 → t4 ≠ F6 → F5 ≠ F6 → c4 ≠ F5 → c4 ≠ F6 →
  let e1 := if bool_decide (action e = t1) then set_action c1 e else e in
  let e2 := if bool_decide (action e1 = t2) then set_action c2 e1 else e1 in
  let e3 := if bool_decide (action e2 = t3) then set_action c3 e2 else e2 in
  let e4 := if bool_decide (functional e3 = t4) then set_functional c4 e3 else e3 in
  let e5 := if bool_decide (functional e4 = F5) && bool_decide (action e4 = A5)
            then set_functional c4 e4 else e4 in
  bool_decide (action e1 = t2) = bool_decide (action e = t2) ∧
  bool_decide (action e2 = t3) = bool_decide (action e = t3) ∧
  bool_decide (functional e3 = t4) = bool_decide (functional e = t4) ∧
  bool_decide (functional e4 = F5) && bool_decide (action e4 = A5)
  = bool_decide (functional e = F5) && bool_decide (action e = A5) ∧
  bool_decide (functional e5 = F6) && bool_decide (action e5 = A6)
  = bool_decide (functional e = F6) && bool_decide (action e = A6).
Proof.
  intros. subst e5 e4 e3 e2 e1.
  rewrite (set_action_if _ c1 e).
  rewrite (set_action_if _ c2), set_action_twice.
  rewrite (set_action_if _ c3), set_action_twice.
  rewrite (set_functional_if _ c4 (set_action _ e)).
  rewrite (set_functional_if _ c4 (set_functional _ (set_action _ e))).
  cbn [action functional set_action set_functional].
  generalize (action e) (functional e). intros a f.
  split_and!.
  - destruct (bool_decide_reflect (a = t1)), (bool_decide_reflect (a = t2));
      repeat case_bool_decide; congruence.
  - destruct (bool_decide_reflect (a = t1)), (bool_decide_reflect (a = t2)),
      (bool_decide_reflect (a = t3)); repeat case_bool_decide; congruence.
  - done.
  - destruct (bool_decide_reflect (a = A5)), (bool_decide_reflect (a = t1)),
      (bool_decide_reflect (a = t2)), (bool_decide_reflect (a = t3)),
      (bool_decide_reflect (f = t4)), (bool_decide_reflect (f = F5));
      repeat case_bool_decide; cbn [andb] in *; congruence.
  - destruct (bool_decide_reflect (a = A5)), (bool_decide_reflect (a = A6)),
      (bool_decide_reflect (a = t1)),
      (bool_decide_reflect (a = t2)), (bool_decide_reflect (a = t3)),
      (bool_decide_reflect (f = t4)), (bool_decide_reflect (f = F5)),
      (bool_decide_reflect (f = F6));
      repeat case_bool_decide; cbn [andb] in *; congruence.
Qed.

Lemma typo_masks (e : Event) :
  let e1 := if bool_decide (action e = "выбор тега 1")
            then set_action "Выбор тега 1" e else e in
  let e2 := if bool_decide (action e1 = "Тап на услугу партнёров")
            then set_action "Тап на услугу партнеров" e1 else e1 in
  let e3 := if bool_decide (action e2 = "'Тап на кнопку 'Мои'")
            then set_action "Тап на кнопку 'Мои'" e2 else e2 in
  let e4 := if bool_decide (functional e3 = "Выбор услуги партнёров")
            then set_functional "Выбор услуги партнеров" e3 else e3 in
  let e5 := if bool_decide (functional e4 = "Переход к предоставлению доступа через +")
               && bool_decide (action e4 = "Тап на кнопку")
            then set_functional "Выбор услуги партнеров" e4 else e4 in
  bool_decide (action e1 = "Тап на услугу партнёров")
  = bool_decide (action e = "Тап на услугу партнёров") ∧
  bool_decide (action e2 = "'Тап на кнопку 'Мои'")
  = bool_decide (action e = "'Тап на кнопку 'Мои'") ∧
  bool_decide (functional e3 = "Выбор услуги партнёров")
  = bool_decide (functional e = "Выбор услуги партнёров") ∧
  bool_decide (functional e4 = "Переход к предоставлению доступа через +")
  && bool_decide (action e4 = "Тап на кнопку")
  = bool_decide (functional e = "Переход к предоставлению доступа через +")
    && bool_decide (action e = "Тап на кнопку") ∧
  bool_decide (functional e5 = "Отмена отзыва доступа")
  && bool_decide (action e5 = "Тап на кнопку 'Отмена'")
  = bool_decide (functional e = "Отмена отзыва доступа")
    && bool_decide (action e = "Тап на кнопку 'Отмена'").
Proof. apply six_corrections_masks; discriminate. Qed.

Lemma find_found {A} (p : A → bool) (E : bool) (w : A) (l : list A) :
  find p ((if E then [w] else []) ++ l) = if E && p w then Some w else find p l.
Proof. destruct E; [|done]. cbn. by destruct (p w). Qed.

Lemma find_found_last {A} (p : A → bool) (E : bool) (w : A) :
  find p (if E then [w] else []) = if E && p w then Some w else None.
Proof. destruct E; [|done]. cbn. by destruct (p w). Qed.

(** The loop over [corrections]: it stops at the first assignment that a
    categorical column refuses; otherwise it is a row-by-row rewrite, and
    [new_value] is bound whenever it is read. *)
Lemma corrections_loop dt (rows : list Event) :
  foldl (correction_step dt) (Running rows None) corrections
  = match find (λ w : TextCol * string, negb (accepts (dt w.1) w.2))
            (executed_writes rows) with
    | Some w => NewCategory w.2
    | None => Running (fix_row <$> rows) (Some "Выбор услуги партнеров")
    end.
Proof.
  unfold executed_writes. cbv zeta.
  rewrite !find_found, find_found_last. cbn [fst snd].
  unfold corrections. cbn [foldl].
  rewrite correction_step_3. cbn [get_text].
  destruct (existsb _ rows && negb (accepts (dt action_col) "Выбор тега 1")); [done|].
  rewrite correction_step_3. unfold assign_where at 1. rewrite existsb_fmap.
  cbn [get_text set_text].
  rewrite (existsb_pointwise _ (λ e, bool_decide (action e = "Тап на услугу партнёров"))).
  2:{ intros e. apply (typo_masks e). }
  destruct (existsb _ rows && negb (accepts (dt action_col) "Тап на услугу партнеров"));
    [done|].
  rewrite correction_step_3. unfold assign_where at 1 2.
  rewrite <- list_fmap_compose, existsb_fmap. unfold compose. cbn [get_text set_text].
  rewrite (existsb_pointwise _ (λ e, bool_decide (action e = "'Тап на кнопку 'Мои'"))).
  2:{ intros e. apply (typo_masks e). }
  destruct (existsb _ rows && negb (accepts (dt action_col) "Тап на кнопку 'Мои'"));
    [done|].
  rewrite correction_step_3. unfold assign_where at 1 2 3.
  rewrite <- !list_fmap_compose, existsb_fmap. unfold compose. cbn [get_text set_text].
  rewrite (existsb_pointwise _ (λ e, bool_decide (functional e = "Выбор услуги партнёров"))).
  2:{ intros e. apply (typo_masks e). }
  destruct (existsb _ rows && negb (accepts (dt function_col) "Выбор услуги партнеров"));
    [done|].
  rewrite correction_step_6. unfold assign_where at 1 2 3 4.
  rewrite <- !list_fmap_compose, existsb_fmap. unfold compose. cbn [get_text set_text].
  rewrite (existsb_pointwise _
             (λ e, bool_decide (functional e = "Переход к предоставлению доступа через +")
                   && bool_decide (action e = "Тап на кнопку"))).
  2:{ intros e. apply (typo_masks e). }
  destruct (existsb _ rows && negb (accepts (dt function_col) "Выбор услуги партнеров"));
    [done|].
  rewrite correction_step_6. unfold assign_where at 1 2 3 4 5.
  rewrite <- !list_fmap_compose, existsb_fmap. unfold compose. cbn [get_text set_text].
  rewrite (existsb_pointwise _
             (λ e, bool_decide (functional e = "Отмена отзыва доступа")
                   && bool_decide (action e = "Тап на кнопку 'Отмена'"))).
  2:{ intros e. apply (typo_masks e). }
  destruct (existsb _ rows && negb (accepts (dt function_col) "Выбор услуги партнеров"));
    [done|].
  f_equal. unfold assign_where. rewrite <- !list_fmap_compose.
  apply list_fmap_ext. intros _ e _.
  unfold compose, fix_row, fix_functional, fix_action.
  cbn [set_text get_text].
  apply six_corrections_row; discriminate.
Qed.

Lemma find_none_accepted dt (rows : list Event) :
  writes_accepted dt rows ↔
  find (λ w : TextCol * string, negb (accepts (dt w.1) w.2)) (executed_writes rows) = None.
Proof.
  unfold writes_accepted. induction (executed_writes rows) as [|w l IH]; [done|].
  rewrite Forall_cons, IH. cbn [find]. destruct (accepts (dt w.1) w.2); cbn [negb].
  - tauto.
  - split; [by intros [[=] _]|done].
Qed.

Lemma fix_action_functional_typos_unfold dt (df : DataFrame) :
  typos_ready df → writes_accepted dt (df_rows df) →
  fix_action_functional_typos dt (Some df)
  = TyposOk (mkDF (df_columns df) (fix_row <$> df_rows df)).
Proof.
  intros (Hne & Ha & Hf) Hacc. unfold fix_action_functional_typos.
  rewrite bool_decide_eq_false_2 by done.
  rewrite missing_cols_nil by (by repeat constructor).
  rewrite corrections_loop. apply find_none_accepted in Hacc. by rewrite Hacc.
Qed.

Lemma fix_action_functional_typos_refused dt (df : DataFrame) :
  typos_ready df → ¬ writes_accepted dt (df_rows df) →
  ∃ col v, fix_action_functional_typos dt (Some df) = TyposTypeError v ∧
    (col, v) ∈ executed_writes (df_rows df) ∧ accepts (dt col) v = false.
Proof.
  intros (Hne & Ha & Hf) Hacc. unfold fix_action_functional_typos.
  rewrite bool_decide_eq_false_2 by done.
  rewrite missing_cols_nil by (by repeat constructor).
  rewrite corrections_loop.
  destruct (find _ (executed_writes (df_rows df))) as [[col v]|] eqn:Hfind.
  - exists col, v. split; [done|]. apply find_some in Hfind as [Hin Hv].
    split; [by apply list_elem_of_In|]. cbn in Hv. by destruct (accepts (dt col) v).
  - by apply find_none_accepted in Hfind.
Qed.

Lemma object_columns_accepted (rows : list Event) : writes_accepted object_columns rows.
Proof. unfold writes_accepted. by apply Forall_forall. Qed.

(** The typo repair on a non-empty table with the two text columns.  What
    it does depends on the dtypes of the two columns.  When they take every
    value the loop writes (an object column takes any value, a categorical
    column its categories only), the repair returns a table (the stale
    read of [new_value] never meets an unbound name); the columns, the
    number of rows and their order are kept, and in every row all fields
    but Действие and Функционал are left as they were: row by row the
    result is [fix_row].  Otherwise the first assignment that a
    categorical column refuses raises [TypeError] for the new category,
    and no table is returned. *)
Theorem fix_action_functional_typos_rows (dtype : TextCol → Dtype) (df : DataFrame) :
  typos_ready df →
  (writes_accepted dtype (df_rows df) →
   ∃ out, fix_action_functional_typos dtype (Some df) = TyposOk out ∧
     df_columns out = df_columns df ∧
     df_rows out = fix_row <$> df_rows df ∧
     length (df_rows out) = length (df_rows df) ∧
     set_action "" <$> (set_functional "" <$> df_rows out)
     = set_action "" <$> (set_functional "" <$> df_rows df)) ∧
  (¬ writes_accepted dtype (df_rows df) →
   ∃ col v, fix_action_functional_typos dtype (Some df) = TyposTypeError v ∧
     (col, v) ∈ executed_writes (df_rows df) ∧ accepts (dtype col) v = false).
Proof.
  intros Hready. split; [|by apply fix_action_functional_typos_refused].
  intros Hacc. eexists. split; [by apply fix_action_functional_typos_unfold|].
  cbn [df_rows df_columns]. split_and!; [done|done|by rewrite length_fmap|].
  rewrite <- !list_fmap_compose. by apply list_fmap_ext.
Qed.

Lemma fix_action_functional_typos_rows_witness :
  typos_ready typos_table ∧
  (∃ out, fix_action_functional_typos object_columns (Some typos_table) = TyposOk out ∧
     df_rows out = fix_row <$> df_rows typos_table ∧
     length (df_rows out) = 6%nat) ∧
  ∃ col v, fix_action_functional_typos (categorical_columns typos_table)
             (Some typos_table) = TyposTypeError v ∧
    (col, v) ∈ executed_writes (df_rows typos_table) ∧
    accepts (categorical_columns typos_table col) v = false.
Proof.
  assert (typos_ready typos_table) as Hready.
  { unfold typos_ready. split_and!; [discriminate|compute_done..]. }
  split; [exact Hready|]. split.
  - destruct (fix_action_functional_typos_rows object_columns typos_table Hready)
      as [Hok _].
    destruct (Hok (object_columns_accepted _)) as (out & Hout & _ & Hrows & Hlen & _).
    exists out. split_and!; [exact Hout|exact Hrows|exact Hlen].
  - destruct (fix_action_functional_typos_rows (categorical_columns typos_table)
                typos_table Hready) as [_ Hbad].
    apply Hbad. rewrite find_none_accepted. vm_compute. discriminate.
Defined.

(** The two conditional corrections do not do what the method's docstring
    announces.  A row with functional 'Переход к предоставлению доступа
    через +' and action 'Тап на кнопку', or with functional 'Отмена отзыва
    доступа' and action 'Тап на кнопку 'Отмена'', keeps its action, and the
    value assigned is the one the fourth correction left in [new_value],
    'Выбор услуги партнеров', assigned to Функционал.  When the columns
    take the values the loop writes, the row comes back with that
    functional, and an action is changed by the three plain replacements
    only; when Функционал is categorical and that value is none of its
    categories, the assignment raises [TypeError]. *)
Theorem fix_action_functional_typos_conditional (dtype : TextCol → Dtype)
    (df : DataFrame) (i : nat) (e : Event) :
  typos_ready df →
  df_rows df !! i = Some e →
  (writes_accepted dtype (df_rows df) →
   ∃ out e', fix_action_functional_typos dtype (Some df) = TyposOk out ∧
     df_rows out !! i = Some e' ∧
     action e' = fix_action (action e) ∧
     (functional e = "Переход к предоставлению доступа через +" →
      action e = "Тап на кнопку" →
      action e' = "Тап на кнопку" ∧ functional e' = "Выбор услуги партнеров") ∧
     (functional e = "Отмена отзыва доступа" →
      action e = "Тап на кнопку 'Отмена'" →
      action e' = "Тап на кнопку 'Отмена'" ∧ functional e' = "Выбор услуги партнеров")) ∧
  (accepts (dtype function_col) "Выбор услуги партнеров" = false →
   (functional e = "Переход к предоставлению доступа через +" ∧
    action e = "Тап на кнопку") ∨
   (functional e = "Отмена отзыва доступа" ∧ action e = "Тап на кнопку 'Отмена'") →
   ∃ v, fix_action_functional_typos dtype (Some df) = TyposTypeError v).
Proof.
  intros Hready He. split.
  - intros Hacc. eexists _, (fix_row e).
    split; [by apply fix_action_functional_typos_unfold|]. cbn [df_rows].
    split_and!.
    + by rewrite list_lookup_fmap, He.
    + done.
    + intros Hf Ha. unfold fix_row.
      change (action (set_functional _ (set_action ?x _))) with x.
      change (functional (set_functional ?x _)) with x.
      rewrite Hf, Ha. by vm_compute.
    + intros Hf Ha. unfold fix_row.
      change (action (set_functional _ (set_action ?x _))) with x.
      change (functional (set_functional ?x _)) with x.
      rewrite Hf, Ha. by vm_compute.
  - intros Hno Hcond.
    destruct (fix_action_functional_typos_refused dtype df Hready)
      as (col & v & Hv & _); [|by exists v].
    intros Hacc. unfold writes_accepted in Hacc. rewrite Forall_forall in Hacc.
    assert ((function_col, "Выбор услуги партнеров") ∈ executed_writes (df_rows df))
      as Hin; [|apply Hacc in Hin; cbn [fst snd] in Hin; congruence].
    assert (e ∈ df_rows df) as Hrow by (by eapply list_elem_of_lookup_2).
    unfold executed_writes. cbv zeta. rewrite !elem_of_app.
    destruct Hcond as [[Hf Ha]|[Hf Ha]].
    + do 4 right. left.
      rewrite (proj2 (existsb_exists _ _)); [left|].
      exists e. split; [by apply list_elem_of_In|].
      by rewrite !bool_decide_eq_true_2.
    + do 5 right.
      rewrite (proj2 (existsb_exists _ _)); [left|].
      exists e. split; [by apply list_elem_of_In|].
      by rewrite !bool_decide_eq_true_2.
Qed.

Lemma fix_action_functional_typos_conditional_witness :
  typos_ready typos_table ∧
  (∃ out e', fix_action_functional_typos object_columns (Some typos_table) = TyposOk out ∧
     df_rows out !! 3%nat = Some e' ∧
     action e' = "Тап на кнопку" ∧ functional e' = "Выбор услуги партнеров") ∧
  ∃ v, fix_action_functional_typos
         (λ col, match col with
                 | action_col => object_dtype
                 | function_col => category ["Переход к предоставлению доступа через +"]
                 end)
         (Some typos_table) = TyposTypeError v.
Proof.
  assert (typos_ready typos_table) as Hready.
  { unfold typos_ready. split_and!; [discriminate|compute_done..]. }
  split; [exact Hready|]. split.
  - destruct (fix_action_functional_typos_conditional object_columns typos_table 3
                (session_event 1 4 "Доступ" "Переход к предоставлению доступа через +"
                   "Тап на кнопку" 0) Hready eq_refl) as [Hok _].
    destruct (Hok (object_columns_accepted _)) as (out & e' & Hout & He' & _ & H5 & _).
    exists out, e'. split_and!; [exact Hout|exact He'|apply H5; reflexivity..].
  - refine (proj2 (fix_action_functional_typos_conditional _ typos_table 3
                (session_event 1 4 "Доступ" "Переход к предоставлению доступа через +"
                   "Тап на кнопку" 0) Hready eq_refl) _ _).
    + vm_compute. reflexivity.
    + left. split; reflexivity.
Defined.

Lemma three_replacements_idem (t1 c1 t2 c2 t3 c3 a : string) :
  c1 ≠ t1 → c1 ≠ t2 → c1 ≠ t3 → c2 ≠ t1 → c2 ≠ t2 → c2 ≠ t3 →
  c3 ≠ t1 → c3 ≠ t2 → c3 ≠ t3 →
  let r := λ a : string,
    if bool_decide (a = t1) then c1
    else if bool_decide (a = t2) then c2
    else if bool_decide (a = t3) then c3 else a in
  r (r a) = r a ∧ r a ≠ t1 ∧ r a ≠ t2 ∧ r a ≠ t3.
Proof.
  intros. subst r. cbv beta.
  destruct (bool_decide_reflect (a = t1)), (bool_decide_reflect (a = t2)),
    (bool_decide_reflect (a = t3));
    repeat case_bool_decide; split_and!; congruence.
Qed.

Lemma conditional_replacements_idem (t4 c4 F5 F6 f : string) (b5 b6 : bool) :
  c4 ≠ t4 → c4 ≠ F5 → c4 ≠ F6 →
  let r := λ f : string,
    if bool_decide (f = t4) then c4
    else if bool_decide (f = F5) && b5 then c4
    else if bool_decide (f = F6) && b6 then c4 else f in
  r (r f) = r f ∧ r f ≠ t4 ∧ (r f = F5 → b5 = false) ∧ (r f = F6 → b6 = false).
Proof.
  intros. subst r. cbv beta.
  destruct (bool_decide_reflect (f = t4)), (bool_decide_reflect (f = F5)),
    (bool_decide_reflect (f = F6)), b5, b6; cbn [andb];
    repeat case_bool_decide; cbn [andb]; split_and!; congruence.
Qed.

Lemma fix_action_idem a :
  fix_action (fix_action a) = fix_action a ∧
  fix_action a ≠ "выбор тега 1" ∧ fix_action a ≠ "Тап на услугу партнёров" ∧
  fix_action a ≠ "'Тап на кнопку 'Мои'".
Proof. unfold fix_action. apply three_replacements_idem; discriminate. Qed.

Lemma fix_action_test a A :
  "выбор тега 1" ≠ A → "Тап на услугу партнёров" ≠ A → "'Тап на кнопку 'Мои'" ≠ A →
  "Выбор тега 1" ≠ A → "Тап на услугу партнеров" ≠ A → "Тап на кнопку 'Мои'" ≠ A →
  bool_decide (fix_action a = A) = bool_decide (a = A).
Proof. intros. unfold fix_action. by apply replaced_value_test. Qed.

Lemma fix_row_idem e : fix_row (fix_row e) = fix_row e.
Proof.
  unfold fix_row.
  change (action (set_functional _ (set_action ?x _))) with x.
  change (functional (set_functional ?x _)) with x.
  change (set_action ?x (set_functional ?y (set_action ?z ?e)))
    with (set_functional y (set_action x e)).
  rewrite set_functional_twice. f_equal; [|f_equal; apply fix_action_idem].
  unfold fix_functional. rewrite !fix_action_test by discriminate.
  apply conditional_replacements_idem; discriminate.
Qed.

Lemma fix_row_clean e :
  action (fix_row e) ≠ "выбор тега 1" ∧
  action (fix_row e) ≠ "Тап на услугу партнёров" ∧
  action (fix_row e) ≠ "'Тап на кнопку 'Мои'" ∧
  functional (fix_row e) ≠ "Выбор услуги партнёров" ∧
  ¬ (functional (fix_row e) = "Переход к предоставлению доступа через +" ∧
     action (fix_row e) = "Тап на кнопку") ∧
  ¬ (functional (fix_row e) = "Отмена отзыва доступа" ∧
     action (fix_row e) = "Тап на кнопку 'Отмена'").
Proof.
  unfold fix_row.
  change (action (set_functional _ (set_action ?x _))) with x.
  change (functional (set_functional ?x _)) with x.
  destruct (fix_action_idem (action e)) as (_ & H1 & H2 & H3).
  pose proof (conditional_replacements_idem
    "Выбор услуги партнёров" "Выбор услуги партнеров"
    "Переход к предоставлению доступа через +" "Отмена отзыва доступа"
    (functional e) (bool_decide (action e = "Тап на кнопку"))
    (bool_decide (action e = "Тап на кнопку 'Отмена'"))
    ltac:(discriminate) ltac:(discriminate) ltac:(discriminate))
    as (_ & H4 & H5 & H6).
  cbn zeta beta in H4, H5, H6. fold (fix_functional (functional e) (action e)) in *.
  split_and!; [done..| |].
  - intros [Hf Ha]. specialize (H5 Hf).
    rewrite <- (fix_action_test (action e)) in H5 by discriminate.
    by rewrite bool_decide_eq_true_2 in H5.
  - intros [Hf Ha]. specialize (H6 Hf).
    rewrite <- (fix_action_test (action e)) in H6 by discriminate.
    by rewrite bool_decide_eq_true_2 in H6.
Qed.

Lemma existsb_never {A} (p : A → bool) (l : list A) :
  (∀ x, p x = false) → existsb p l = false.
Proof. intros Hp. induction l as [|x l IH]; [done|]. cbn. by rewrite Hp, IH. Qed.

(** A repaired table gives the loop nothing to write. *)
Lemma executed_writes_repaired (rows : list Event) :
  executed_writes (fix_row <$> rows) = [].
Proof.
  unfold executed_writes. cbv zeta. rewrite !existsb_fmap.
  rewrite !existsb_never; [done|..]; intros e;
    destruct (fix_row_clean e) as (H1 & H2 & H3 & H4 & H5 & H6).
  - apply andb_false_iff.
    destruct (decide (functional (fix_row e) = "Отмена отзыва доступа")) as [Hf|Hf];
      [right|left]; apply bool_decide_eq_false_2; [|done].
    intros Ha. by apply H6.
  - apply andb_false_iff.
    destruct (decide (functional (fix_row e)
                      = "Переход к предоставлению доступа через +")) as [Hf|Hf];
      [right|left]; apply bool_decide_eq_false_2; [|done].
    intros Ha. by apply H5.
  - by apply bool_decide_eq_false_2.
  - by apply bool_decide_eq_false_2.
  - by apply bool_decide_eq_false_2.
  - by apply bool_decide_eq_false_2.
Qed.

(** The typo repair is idempotent where it succeeds, and its result holds
    none of the patterns it looks for: when the columns take the values
    the loop writes, the repair returns a table, and applied to that table
    (the columns keep their dtypes) it returns it again, whatever the
    dtypes, since nothing is left to write; no row is left with one of the
    three misspelt actions, with the misspelt functional, or with one of
    the two (functional, action) pairs of the conditional corrections. *)
Theorem fix_action_functional_typos_idempotent (dtype : TextCol → Dtype)
    (df : DataFrame) :
  typos_ready df →
  writes_accepted dtype (df_rows df) →
  ∃ out, fix_action_functional_typos dtype (Some df) = TyposOk out ∧
    fix_action_functional_typos dtype (Some out) = TyposOk out ∧
    executed_writes (df_rows out) = [] ∧
    ∀ e, e ∈ df_rows out →
      action e ≠ "выбор тега 1" ∧
      action e ≠ "Тап на услугу партнёров" ∧
      action e ≠ "'Тап на кнопку 'Мои'" ∧
      functional e ≠ "Выбор услуги партнёров" ∧
      ¬ (functional e = "Переход к предоставлению доступа через +" ∧
         action e = "Тап на кнопку") ∧
      ¬ (functional e = "Отмена отзыва доступа" ∧
         action e = "Тап на кнопку 'Отмена'").
Proof.
  intros Hready Hacc. eexists.
  split; [by apply fix_action_functional_typos_unfold|].
  destruct Hready as (Hne & Ha & Hf). split_and!.
  - rewrite fix_action_functional_typos_unfold.
    + cbn [df_rows df_columns]. do 2 f_equal.
      rewrite <- list_fmap_compose. apply list_fmap_ext. intros _ e _.
      apply fix_row_idem.
    + split_and!; [|done..]. cbn [df_rows]. intros Hnil.
      by apply fmap_nil_inv in Hnil.
    + unfold writes_accepted. cbn [df_rows]. by rewrite executed_writes_repaired.
  - cbn [df_rows]. apply executed_writes_repaired.
  - cbn [df_rows]. intros e' He'. apply list_elem_of_fmap in He' as (e & -> & _).
    apply fix_row_clean.
Qed.

Lemma fix_action_functional_typos_idempotent_witness :
  typos_ready typos_table ∧
  writes_accepted corrected_categories (df_rows typos_table) ∧
  ∃ out, fix_action_functional_typos corrected_categories (Some typos_table)
         = TyposOk out ∧
    fix_action_functional_typos corrected_categories (Some out) = TyposOk out.
Proof.
  assert (typos_ready typos_table) as Hready.
  { unfold typos_ready. split_and!; [discriminate|compute_done..]. }
  assert (writes_accepted corrected_categories (df_rows typos_table)) as Hacc.
  { rewrite find_none_accepted. vm_compute. reflexivity. }
  split; [exact Hready|]. split; [exact Hacc|].
  destruct (fix_action_functional_typos_idempotent corrected_categories typos_table
              Hready Hacc) as (out & Hout & Hagain & _).
  exists out. split; [exact Hout|exact Hagain].
Defined.

(** ** Temporal normalizer: more on [calculate_event_duration] *)

Lemma StronglySorted_by_key {A B} (R : relation B) (f : A → B) (l : list A) :
  StronglySorted (λ x y, R (f x) (f y)) l ↔ StronglySorted R (f <$> l).
Proof.
  induction l as [|x l IH]; [split; constructor|]. rewrite fmap_cons. split.
  - intros [Hl Hx]%StronglySorted_inv. constructor; [by apply IH|].
    rewrite Forall_fmap. exact Hx.
  - intros [Hl Hx]%StronglySorted_inv. constructor; [by apply IH|].
    rewrite Forall_fmap in Hx. exact Hx.
Qed.

Lemma session_time_le_set_duration d d' x y :
  session_time_le (set_duration d x) (set_duration d' y) = session_time_le x y.
Proof. done. Qed.

Lemma sorted_same_keys (l k : list Event) :
  set_duration 0 <$> l = set_duration 0 <$> k →
  StronglySorted (λ x y, session_time_le x y = true) k →
  StronglySorted (λ x y, session_time_le x y = true) l.
Proof.
  intros Heq Hk.
  apply (StronglySorted_by_key (λ x y, session_time_le x y = true) (set_duration 0)) in Hk.
  - rewrite <- Heq in Hk.
    by apply (StronglySorted_by_key (λ x y, session_time_le x y = true)
                (set_duration 0)) in Hk.
Qed.

Lemma with_durations_sorted l :
  StronglySorted (λ x y, session_time_le x y = true) l →
  StronglySorted (λ x y, session_time_le x y = true) (with_durations l).
Proof. apply sorted_same_keys, with_durations_rows_kept. Qed.

Lemma same_session_set_duration_l d e x :
  same_session (set_duration d e) x ↔ same_session e x.
Proof. done. Qed.

Lemma next_time_with_durations e r :
  next_in_session e (with_durations r) ≫= event_time
  = next_in_session e r ≫= event_time.
Proof.
  unfold next_in_session. induction r as [|x r IH]; [done|].
  cbn [with_durations]. rewrite !filter_cons.
  destruct (decide (same_session e x)) as [Hx|Hx].
  - rewrite decide_True by done. done.
  - rewrite decide_False by done. done.
Qed.

Lemma with_durations_idem l : with_durations (with_durations l) = with_durations l.
Proof.
  induction l as [|e r IH]; [done|]. cbn [with_durations]. rewrite IH. f_equal.
  change (event_time (set_duration _ e)) with (event_time e).
  replace (next_in_session (set_duration _ e) (with_durations r))
    with (next_in_session e (with_durations r)) by done.
  by rewrite next_time_with_durations.
Qed.

Lemma with_durations_length l : length (with_durations l) = length l.
Proof. induction l; cbn; congruence. Qed.

(** Computing the durations again changes nothing: the stage applied to
    its own output returns that output (the durations are a function of
    the instants and the session ids, which the stage leaves alone). *)
Theorem calculate_event_duration_idempotent (df : DataFrame) :
  duration_ready df →
  ∃ out, calculate_event_duration (Some df) = Ok out ∧
         calculate_event_duration (Some out) = Ok out.
Proof.
  intros Hready. eexists. split; [by apply calculate_event_duration_unfold|].
  destruct Hready as (Hne & Hg & Ht).
  rewrite calculate_event_duration_unfold.
  - cbn [df_rows df_columns].
    rewrite (add_col_id COL_DURATION) by apply elem_of_add_col_new.
    f_equal. f_equal.
    rewrite sort_values_id by apply with_durations_sorted, sort_values_sorted.
    apply with_durations_idem.
  - split_and!; cbn [df_rows df_columns]; [|by apply elem_of_add_col..].
    intros Hnil. apply (f_equal length) in Hnil.
    rewrite with_durations_length, sort_values_perm in Hnil.
    by destruct (df_rows df).
Qed.

Lemma calculate_event_duration_idempotent_witness :
  duration_ready scenario_C_table ∧
  ∃ out, calculate_event_duration (Some scenario_C_table) = Ok out ∧
         calculate_event_duration (Some out) = Ok out.
Proof.
  assert (duration_ready scenario_C_table) as Hready.
  { unfold duration_ready. split_and!; [discriminate|compute_done..]. }
  split; [exact Hready|].
  exact (calculate_event_duration_idempotent scenario_C_table Hready).
Defined.

Lemma seconds_between_nonneg a b :
  opt_le a b = true →
  (∀ x y, a = Some x → b = Some y → y - x < 2147483648 * NS_PER_SECOND) →
  0 ≤ seconds_between a b.
Proof.
  intros Hle Hspan. unfold seconds_between.
  destruct a as [x|], b as [y|]; try done.
  cbn in Hle. apply bool_decide_eq_true in Hle.
  specialize (Hspan x y eq_refl eq_refl). unfold NS_PER_SECOND in *.
  rewrite astype_int32_id.
  - apply Z.quot_pos; lia.
  - unfold int32_range. split.
    + pose proof (Z.quot_pos (y - x) 1000000000). lia.
    + apply Z.quot_lt_upper_bound; lia.
Qed.

Lemma with_durations_nonneg l :
  StronglySorted (λ x y, session_time_le x y = true) l →
  (∀ x y a b, x ∈ l → y ∈ l → event_time x = Some a → event_time y = Some b →
              b - a < 2147483648 * NS_PER_SECOND) →
  ∀ e, e ∈ with_durations l →
       0 ≤ duration_seconds e ∧ (event_time e = None → duration_seconds e = 0).
Proof.
  induction 1 as [|x r Hs IH Hx]; intros Hspan e He; [by apply elem_of_nil in He|].
  cbn [with_durations] in He. apply elem_of_cons in He as [->|He].
  - cbn [duration_seconds set_duration event_time]. split.
    + destruct (next_in_session x r) as [n|] eqn:Hn.
      * apply head_Some_elem_of, list_elem_of_filter in Hn as [Hsame Hin].
        cbn [mbind option_bind].
        apply seconds_between_nonneg.
        -- rewrite Forall_forall in Hx. specialize (Hx n Hin).
           apply session_time_le_spec in Hx as [_ Hx]. apply Hx, Hsame.
        -- intros a b Ha Hb. apply (Hspan x n); [left|by right|done..].
      * cbn [mbind option_bind]. unfold seconds_between. by destruct (event_time x).
    + intros ->. done.
  - apply IH; [|done]. intros ? ? ? ? ? ?. apply Hspan; by right.
Qed.

(** No duration is negative, as long as no two instants of the table lie
    2^31 seconds or more apart (beyond that the cast to int32 wraps
    around); a row without an instant gets the duration 0. *)
Theorem calculate_event_duration_nonnegative (df : DataFrame) :
  duration_ready df →
  (∀ x y a b, x ∈ df_rows df → y ∈ df_rows df →
              event_time x = Some a → event_time y = Some b →
              b - a < 2147483648 * NS_PER_SECOND) →
  ∃ out, calculate_event_duration (Some df) = Ok out ∧
    ∀ e, e ∈ df_rows out →
         0 ≤ duration_seconds e ∧ (event_time e = None → duration_seconds e = 0).
Proof.
  intros Hready Hspan. eexists. split; [by apply calculate_event_duration_unfold|].
  cbn [df_rows]. apply with_durations_nonneg; [apply sort_values_sorted|].
  intros x y a b Hx Hy. rewrite sort_values_perm in Hx, Hy. by apply Hspan.
Qed.

Lemma calculate_event_duration_nonnegative_witness :
  duration_ready scenario_C_table ∧
  ∃ out, calculate_event_duration (Some scenario_C_table) = Ok out ∧
    ∀ e, e ∈ df_rows out →
         0 ≤ duration_seconds e ∧ (event_time e = None → duration_seconds e = 0).
Proof.
  assert (duration_ready scenario_C_table) as Hready.
  { unfold duration_ready. split_and!; [discriminate|compute_done..]. }
  split; [exact Hready|].
  apply (calculate_event_duration_nonnegative scenario_C_table Hready).
  intros x y a b Hx Hy Ha Hb.
  cbn [df_rows scenario_C_table] in Hx, Hy.
  repeat (apply elem_of_cons in Hx as [->|Hx]; [|]);
    [..|by apply elem_of_nil in Hx];
    repeat (apply elem_of_cons in Hy as [->|Hy]; [|]);
    try (by apply elem_of_nil in Hy);
    cbn in Ha, Hb; injection Ha as <-; injection Hb as <-;
    unfold NS_PER_SECOND; lia.
Defined.

(** ** The order of the table *)

Lemma run_collapse_rows_sorted l :
  StronglySorted (λ x y, session_time_le x y = true) l →
  StronglySorted (λ x y, session_time_le x y = true) (run_collapse_rows l).
Proof.
  intros Hl. rewrite run_collapse_rows_spec. apply merged_sorted.
  by rewrite group_adjacent_concat.
Qed.

Lemma screen_collapse_rows_sorted l :
  StronglySorted (λ x y, session_time_le x y = true) l →
  StronglySorted (λ x y, session_time_le x y = true) (screen_collapse_rows l).
Proof.
  intros Hl. rewrite screen_collapse_rows_spec. apply collapsed_sorted.
  by rewrite group_adjacent_concat.
Qed.

(** Every stage that touches the row order hands on a table sorted by
    (global_session_id, time), rows with a missing id or instant last:
    whenever one of the five stages returns a table, that table is in this
    order, whatever the order of its input was. *)
Theorem stages_return_sorted_table (df out : DataFrame) :
  (add_global_session_id (Some df) = Ok out →
   StronglySorted (λ x y, session_time_le x y = true) (df_rows out)) ∧
  (calculate_event_duration (Some df) = Ok out →
   StronglySorted (λ x y, session_time_le x y = true) (df_rows out)) ∧
  (remove_consecutive_duplicates_with_clicks (Some df) = Ok out →
   StronglySorted (λ x y, session_time_le x y = true) (df_rows out)) ∧
  (collapse_intermediate_screens (Some df) = Ok out →
   StronglySorted (λ x y, session_time_le x y = true) (df_rows out)) ∧
  (remove_trailing_empty_screens (Some df) = Ok out →
   StronglySorted (λ x y, session_time_le x y = true) (df_rows out)).
Proof.
  split_and!.
  - unfold add_global_session_id. intros H.
    repeat (case_match; try done). injection H as <-. apply sort_values_sorted.
  - unfold calculate_event_duration. intros H.
    repeat (case_match; try done). injection H as <-.
    apply with_durations_sorted, sort_values_sorted.
  - unfold remove_consecutive_duplicates_with_clicks. intros H.
    repeat (case_match; try done); injection H as <-;
      apply run_collapse_rows_sorted, sort_values_sorted.
  - unfold collapse_intermediate_screens. intros H.
    repeat (case_match; try done); injection H as <-;
      apply screen_collapse_rows_sorted, sort_values_sorted.
  - unfold remove_trailing_empty_screens. intros H.
    repeat (case_match; try done); injection H as <-; cbn [df_rows].
    + apply sort_values_sorted.
    + eapply StronglySorted_sublist; [apply drop_flagged_sublist|].
      apply sort_values_sorted.
Qed.

Lemma stages_return_sorted_table_witness :
  ∃ out, calculate_event_duration (Some scenario_C_table) = Ok out ∧
    StronglySorted (λ x y, session_time_le x y = true) (df_rows out).
Proof.
  eexists. split; [vm_compute; reflexivity|].
  eapply (proj1 (proj2 (stages_return_sorted_table scenario_C_table _))).
  vm_compute. reflexivity.
Defined.

(** ** The stages in sequence *)

Lemma merge_left_unique_sessions_length (rows : list Event) :
  length (merge_left rows (unique_sessions rows)) = length rows.
Proof.
  unfold unique_sessions. symmetry.
  eapply Forall2_length, merge_left_numbered; [apply sorted_pairs_NoDup|].
  intros e He. apply elem_of_sorted_pairs. eauto.
Qed.

Lemma nonempty_length {A} (l k : list A) : length l = length k → k ≠ [] → l ≠ [].
Proof. intros Hlen Hk ->. by destruct k. Qed.

Lemma sort_values_nonempty (l : list Event) : l ≠ [] → sort_values l ≠ [].
Proof.
  intros Hl. eapply nonempty_length; [|exact Hl]. by rewrite sort_values_perm.
Qed.

(** The resolver cannot be run on its own output: the merge meets the id
    column on both sides and renames it, and the sort by
    'global_session_id' that follows raises [KeyError]. *)
Theorem add_global_session_id_twice_raises_KeyError (df : DataFrame) :
  resolver_ready df →
  ∃ out, add_global_session_id (Some df) = Ok out ∧
         add_global_session_id (Some out) = Raise (KeyError [COL_GSID]).
Proof.
  intros Hready. eexists. split; [by apply add_global_session_id_unfold|].
  destruct Hready as (Hne & Hd & Hs & Ht & Hg).
  unfold add_global_session_id. cbn [df_rows df_columns].
  rewrite bool_decide_eq_false_2.
  2:{ apply sort_values_nonempty.
      eapply nonempty_length; [apply merge_left_unique_sessions_length|done]. }
  rewrite missing_cols_nil.
  2:{ repeat constructor; cbn [df_columns]; set_solver. }
  unfold has_col. cbn [df_columns]. rewrite bool_decide_eq_true_2 by set_solver.
  done.
Qed.

Lemma add_global_session_id_twice_raises_KeyError_witness :
  resolver_ready sample_raw_table ∧
  ∃ out, add_global_session_id (Some sample_raw_table) = Ok out ∧
         add_global_session_id (Some out) = Raise (KeyError [COL_GSID]).
Proof.
  assert (resolver_ready sample_raw_table) as Hready.
  { unfold resolver_ready. split_and!; [discriminate|compute_done..]. }
  split; [exact Hready|].
  exact (add_global_session_id_twice_raises_KeyError sample_raw_table Hready).
Defined.

(** Each stage accepts what the stage before it returns.  On a non-empty
    raw table with the device, session-number, time, screen, functional
    and action columns (and no id column yet), the resolver, the duration
    stage, the run collapse, the screen collapse and the trailing-screen
    stage succeed one after the other, and the time of every session, as
    the duration stage measured it, is still there after the two
    collapses.  The trailing-screen stage may hand on an empty table: the
    typo repair then raises [ValueError]; when a row is left, it returns a
    table if the two text columns (of the dtypes [dtype]) take the values
    it writes, and raises [TypeError] for a new category otherwise. *)
Theorem preprocessing_stages_compose (dtype : TextCol → Dtype) (df : DataFrame) :
  resolver_ready df →
  COL_SCREEN ∈ df_columns df → COL_FUNCTIONAL ∈ df_columns df →
  COL_ACTION ∈ df_columns df →
  ∃ d1 d2 d3 d4 d5,
    add_global_session_id (Some df) = Ok d1 ∧
    calculate_event_duration (Some d1) = Ok d2 ∧
    remove_consecutive_duplicates_with_clicks (Some d2) = Ok d3 ∧
    collapse_intermediate_screens (Some d3) = Ok d4 ∧
    remove_trailing_empty_screens (Some d4) = Ok d5 ∧
    (∀ s, sum_Z (duration_seconds <$> session_rows s (df_rows d4))
          = sum_Z (duration_seconds <$> session_rows s (df_rows d2))) ∧
    (df_rows d5 ≠ [] → writes_accepted dtype (df_rows d5) →
     fix_action_functional_typos dtype (Some d5)
     = TyposOk (mkDF (df_columns d5) (fix_row <$> df_rows d5))) ∧
    (df_rows d5 ≠ [] → ¬ writes_accepted dtype (df_rows d5) →
     ∃ col v, fix_action_functional_typos dtype (Some d5) = TyposTypeError v ∧
       (col, v) ∈ executed_writes (df_rows d5) ∧ accepts (dtype col) v = false) ∧
    (df_rows d5 = [] →
     fix_action_functional_typos dtype (Some d5)
     = TyposValueError "merged_df не загружен").
Proof.
  intros Hready Hscr Hfun Hact.
  pose proof Hready as (Hne & Hdev & Hsn & Htime & Hnog).
  (* the resolver *)
  eexists. eexists. eexists. eexists. eexists.
  split; [by apply add_global_session_id_unfold|].
  set (rows1 := sort_values (merge_left (df_rows df) (unique_sessions (df_rows df)))).
  set (cols1 := df_columns df ++ [COL_GSID]).
  assert (rows1 ≠ []) as Hne1.
  { apply sort_values_nonempty.
    eapply nonempty_length; [apply merge_left_unique_sessions_length|done]. }
  assert (∀ c, c ∈ df_columns df → c ∈ cols1) as Hc1 by (intros; set_solver).
  assert (COL_GSID ∈ cols1) as Hg1 by set_solver.
  (* the duration stage *)
  split; [apply calculate_event_duration_unfold; split_and!; cbn; auto|].
  cbn [df_rows df_columns].
  set (rows2 := with_durations (sort_values rows1)).
  set (cols2 := add_col COL_DURATION cols1).
  assert (rows2 ≠ []) as Hne2.
  { eapply nonempty_length; [apply with_durations_length|].
    by apply sort_values_nonempty. }
  assert (∀ c, c ∈ cols1 → c ∈ cols2) as Hc2 by (intros; by apply elem_of_add_col).
  assert (COL_DURATION ∈ cols2) as Hd2 by apply elem_of_add_col_new.
  assert (collapse_ready (mkDF cols2 rows2)) as Hready2.
  { split_and!; cbn [df_rows df_columns]; auto. }
  (* the run collapse *)
  split; [by apply remove_consecutive_duplicates_unfold|].
  cbn [df_rows df_columns].
  set (rows3 := run_collapse_rows (reset_counters <$> sort_values rows2)).
  set (cols3 := add_col COL_DURATION (add_col COL_DBL_COUNT
                  (add_col COL_DBL_DURATION (add_col COL_CLICK cols2)))).
  assert (rows3 ≠ []) as Hne3.
  { apply run_collapse_rows_nonempty. intros Hnil%fmap_nil_inv.
    by apply (sort_values_nonempty rows2). }
  assert (∀ c, c ∈ cols2 → c ∈ cols3) as Hc3.
  { intros c Hc. by do 4 apply elem_of_add_col. }
  assert (screens_ready (mkDF cols3 rows3)) as Hready3.
  { split_and!; cbn [df_rows df_columns]; auto. }
  (* the screen collapse *)
  split; [by apply collapse_intermediate_screens_unfold|].
  cbn [df_rows df_columns].
  set (rows4 := screen_collapse_rows (sort_values rows3)).
  set (cols4 := add_col COL_DURATION cols3).
  assert (rows4 ≠ []) as Hne4.
  { apply screen_collapse_rows_nonempty. by apply sort_values_nonempty. }
  assert (∀ c, c ∈ cols3 → c ∈ cols4) as Hc4 by (intros; by apply elem_of_add_col).
  assert (trailing_ready (mkDF cols4 rows4)) as Hready4.
  { split_and!; cbn [df_rows df_columns]; auto 6. }
  (* the trailing-screen stage *)
  split; [by apply remove_trailing_empty_screens_unfold|].
  cbn [df_rows df_columns].
  set (rows5 := drop_flagged (sort_values rows4) (to_remove_flags (sort_values rows4))).
  split_and!.
  - intros s. subst rows4. rewrite screen_collapse_rows_spec.
    rewrite (collapsed_session_duration s None)
      by apply group_adjacent_is_runs.
    rewrite group_adjacent_concat.
    rewrite (sum_Z_perm _ (duration_seconds <$> session_rows s rows3))
      by apply fmap_Permutation, session_rows_perm, sort_values_perm.
    subst rows3. rewrite run_collapse_rows_spec.
    rewrite (merged_session_duration s None) by apply group_adjacent_is_runs.
    rewrite group_adjacent_concat.
    rewrite session_rows_reset_counters, duration_reset_counters.
    apply sum_Z_perm, fmap_Permutation, session_rows_perm, sort_values_perm.
  - intros Hne5 Hacc. apply fix_action_functional_typos_unfold; [|done].
    split_and!; cbn [df_rows df_columns]; auto 7.
  - intros Hne5 Hacc. apply fix_action_functional_typos_refused; [|done].
    split_and!; cbn [df_rows df_columns]; auto 7.
  - intros Hnil. unfold fix_action_functional_typos. cbn [df_rows df_columns].
    by rewrite bool_decide_eq_true_2.
Qed.

Lemma preprocessing_stages_compose_witness :
  resolver_ready menu_only_table ∧
  ∃ d1 d2 d3 d4 d5,
    add_global_session_id (Some menu_only_table) = Ok d1 ∧
    calculate_event_duration (Some d1) = Ok d2 ∧
    remove_consecutive_duplicates_with_clicks (Some d2) = Ok d3 ∧
    collapse_intermediate_screens (Some d3) = Ok d4 ∧
    remove_trailing_empty_screens (Some d4) = Ok d5 ∧
    df_rows d5 = [] ∧
    fix_action_functional_typos object_columns (Some d5)
    = TyposValueError "merged_df не загружен".
Proof.
  assert (resolver_ready menu_only_table) as Hready.
  { unfold resolver_ready. split_and!; [discriminate|compute_done..]. }
  split; [exact Hready|].
  destruct (preprocessing_stages_compose object_columns menu_only_table Hready
              ltac:(compute_done) ltac:(compute_done) ltac:(compute_done))
    as (d1 & d2 & d3 & d4 & d5 & H1 & H2 & H3 & H4 & H5 & _ & _ & _ & Herr).
  exists d1, d2, d3, d4, d5.
  assert (df_rows d5 = []) as Hnil.
  { pose proof H1 as H1'. vm_compute in H1'. injection H1' as <-.
    pose proof H2 as H2'. vm_compute in H2'. injection H2' as <-.
    pose proof H3 as H3'. vm_compute in H3'. injection H3' as <-.
    pose proof H4 as H4'. vm_compute in H4'. injection H4' as <-.
    pose proof H5 as H5'. vm_compute in H5'. injection H5' as <-.
    reflexivity. }
  split_and!; [exact H1|exact H2|exact H3|exact H4|exact H5|exact Hnil|].
  exact (Herr Hnil).
Defined.

(** ** Trailing menu events: sessions that shrink or vanish *)

Lemma drop_trailing_target_length (evs : list Event) :
  length (drop_trailing_target evs)
  = (length evs - match last evs with
                  | Some e => if decide (is_trailing_target e) then 1 else 0
                  | None => 0
                  end)%nat.
Proof.
  unfold drop_trailing_target. destruct (last evs) as [e|] eqn:He; [|lia].
  case_decide; [|lia].
  apply last_Some in He as [l' ->]. rewrite removelast_last, length_app. cbn. lia.
Qed.

Lemma drop_trailing_target_nil (evs : list Event) :
  drop_trailing_target evs = [] ↔
  evs = [] ∨ ∃ e, evs = [e] ∧ is_trailing_target e.
Proof.
  unfold drop_trailing_target. destruct (last evs) as [e|] eqn:He.
  - apply last_Some in He as [l' ->]. case_decide as Ht.
    + rewrite removelast_last. split.
      * intros ->. right. by exists e.
      * intros [Hnil|(e' & Heq & _)]; [by apply app_eq_nil in Hnil as [_ ?]|].
        destruct l' as [|? [|? ?]]; cbn [app] in Heq; by simplify_eq.
    + split; [intros Hnil; by apply app_eq_nil in Hnil as [_ ?]|].
      intros [Hnil|(e' & Heq & Ht')]; [by apply app_eq_nil in Hnil as [_ ?]|].
      destruct l' as [|? [|? ?]]; cbn [app] in Heq; simplify_eq. by destruct Ht.
  - apply last_None in He as ->. split; [by left|done].
Qed.

(** The trailing-screen stage takes at most one event from a session: a
    session keeps all its events, or all but its chronologically last one
    when that one is ('Еще', 'Открытие экрана', 'Не указано').  A session
    disappears from the table exactly when that menu event was its only
    event, so the stage can lower the number of sessions. *)
Theorem remove_trailing_empty_screens_sessions (df : DataFrame) :
  trailing_ready df →
  ∃ out, remove_trailing_empty_screens (Some df) = Ok out ∧
    ∀ s,
      let evs := session_rows s (sort_values (df_rows df)) in
      length (session_rows s (df_rows out))
      = (length evs - match last evs with
                      | Some e => if decide (is_trailing_target e) then 1 else 0
                      | None => 0
                      end)%nat ∧
      (session_rows s (df_rows out) = [] ↔
       evs = [] ∨ ∃ e, evs = [e] ∧ is_trailing_target e).
Proof.
  intros Hready. eexists. split; [by apply remove_trailing_empty_screens_unfold|].
  cbn [df_rows]. intros s. cbv zeta. rewrite session_rows_drop_flagged.
  split; [apply drop_trailing_target_length|apply drop_trailing_target_nil].
Qed.

Lemma remove_trailing_empty_screens_sessions_witness :
  trailing_ready trailing_table ∧
  ∃ out, remove_trailing_empty_screens (Some trailing_table) = Ok out ∧
    length (session_rows 1 (df_rows out)) = 2%nat ∧
    length (session_rows 2 (df_rows out)) = 2%nat.
Proof.
  assert (trailing_ready trailing_table) as Hready.
  { unfold trailing_ready. split_and!; [discriminate|compute_done..]. }
  split; [exact Hready|].
  destruct (remove_trailing_empty_screens_sessions trailing_table Hready)
    as (out & Hout & Hs).
  exists out. split_and!; [exact Hout|..].
  - rewrite (proj1 (Hs 1)). reflexivity.
  - rewrite (proj1 (Hs 2)). reflexivity.
Defined.

(** ** Taxonomy lookup: the dictionaries as lists of writes *)

Lemma last_filter_snoc {A} (P : A → Prop) `{∀ x, Decision (P x)} (l : list A) x :
  last (filter P (l ++ [x])) = if decide (P x) then Some x else last (filter P l).
Proof.
  rewrite filter_app, filter_cons, filter_nil.
  case_decide; [by rewrite last_snoc|by rewrite app_nil_r].
Qed.

Lemma foldl_insert_last {A V} (f : A → Triple) (v : A → V) (l : list A)
    (m : gmap Triple V) (k : Triple) :
  foldl (λ m x, <[f x := v x]> m) m l !! k
  = match last (filter (λ x, f x = k) l) with
    | Some x => Some (v x)
    | None => m !! k
    end.
Proof.
  induction l as [|x l IH] using rev_ind; [done|].
  rewrite foldl_snoc, last_filter_snoc. case_decide as Hk.
  - by rewrite <- Hk, lookup_insert_eq.
  - by rewrite lookup_insert_ne.
Qed.

Lemma foldl_bind {A B C} (f : C → B → C) (g : A → list B) (acc : C) (l : list A) :
  foldl f acc (l ≫= g) = foldl (λ acc x, foldl f acc (g x)) acc l.
Proof.
  revert acc. induction l as [|x l IH]; intros acc; [done|].
  rewrite bind_cons, foldl_app. apply IH.
Qed.

Lemma foldl_fmap_entries {A V} (f : A → Triple * V) (m : gmap Triple V) (l : list A) :
  foldl (λ m x, <[(f x).1 := (f x).2]> m) m l
  = foldl (λ m kv, <[kv.1 := kv.2]> m) m (f <$> l).
Proof. revert m. induction l as [|x l IH]; intros m; [done|]. cbn. apply IH. Qed.

Lemma last_entry_writes {V} (entries : list (Triple * V)) (m : gmap Triple V) k :
  foldl (λ m kv, <[kv.1 := kv.2]> m) m entries !! k
  = match last_entry k entries with Some v => Some v | None => m !! k end.
Proof.
  unfold last_entry. rewrite (foldl_insert_last fst snd).
  by destruct (last _).
Qed.

(** The three dictionaries after the loops over a list of blocks. *)
Lemma build_action_lookup_writes (blocks_data : list Block) (acc : ActionLookup) :
  let lk := foldl lookup_add_block acc blocks_data in
  action_to_block lk
  = foldl (λ m kv, <[kv.1 := kv.2]> m) (action_to_block acc)
      (membership_entries blocks_data) ∧
  success_lookup lk
  = foldl (λ m kv, <[kv.1 := kv.2]> m) (success_lookup acc)
      (success_entries blocks_data) ∧
  review_lookup lk
  = foldl (λ m kv, <[kv.1 := kv.2]> m) (review_lookup acc)
      (review_entries blocks_data).
Proof.
  cbv zeta. unfold membership_entries, success_entries, review_entries.
  revert acc. induction blocks_data as [|b bs IH]; intros acc; [done|].
  cbn [foldl]. rewrite !bind_cons, !foldl_app.
  destruct (IH (lookup_add_block acc b)) as (-> & -> & ->).
  assert (∀ gs acc',
    let lk := foldl (lookup_add_group (block_name b)) acc' gs in
    action_to_block lk
    = foldl (λ m kv, <[kv.1 := kv.2]> m) (action_to_block acc')
        (g ← gs; (λ ao, (group_key g ao, (block_name b, default 0 (ao_step ao))))
                   <$> block_action_lists g) ∧
    success_lookup lk
    = foldl (λ m kv, <[kv.1 := kv.2]> m) (success_lookup acc')
        (g ← gs; (λ ao, (group_key g ao, block_name b)) <$> success_actions g) ∧
    review_lookup lk
    = foldl (λ m kv, <[kv.1 := kv.2]> m) (review_lookup acc')
        (g ← gs; (λ ao, (group_key g ao, block_name b)) <$> success_review g))
    as Hgroups.
  { clear. induction gs as [|g gs IHg]; intros acc'; [done|].
    cbv zeta. cbn [foldl]. rewrite !bind_cons, !foldl_app.
    destruct (IHg (lookup_add_group (block_name b) acc' g)) as (-> & -> & ->).
    unfold lookup_add_group.
    cbn [action_to_block success_lookup review_lookup].
    by rewrite <- !foldl_fmap_entries. }
  unfold lookup_add_block.
  destruct (Hgroups (block_groups b) acc) as (-> & -> & ->). done.
Qed.

Lemma membership_last_entry (blocks_data : list Block) (k : Triple) :
  action_to_block (build_action_lookup blocks_data) !! k
  = last_entry k (membership_entries blocks_data) ∧
  success_lookup (build_action_lookup blocks_data) !! k
  = last_entry k (success_entries blocks_data).
Proof.
  unfold build_action_lookup.
  destruct (build_action_lookup_writes blocks_data (mkLookup ∅ ∅ ∅)) as (-> & -> & _).
  rewrite !last_entry_writes. cbn [action_to_block success_lookup].
  rewrite !lookup_empty. split; by destruct (last_entry _ _).
Qed.

(** Each of the three dictionaries maps a triple to the value that the
    loops write last under it, in document order (blocks, then groups,
    then, for block membership, the lists regular, cancel, exit, success);
    a triple that is never written is not a key. *)
Theorem build_action_lookup_last_entry (blocks_data : list Block) (k : Triple) :
  let lk := build_action_lookup blocks_data in
  action_to_block lk !! k = last_entry k (membership_entries blocks_data) ∧
  success_lookup lk !! k = last_entry k (success_entries blocks_data) ∧
  review_lookup lk !! k = last_entry k (review_entries blocks_data).
Proof.
  cbv zeta. unfold build_action_lookup.
  destruct (build_action_lookup_writes blocks_data (mkLookup ∅ ∅ ∅)) as (-> & -> & ->).
  rewrite !last_entry_writes. cbn [action_to_block success_lookup review_lookup].
  rewrite !lookup_empty. split_and!; by destruct (last_entry _ _).
Qed.

Lemma last_entry_Some {V} (k : Triple) (entries : list (Triple * V)) v :
  last_entry k entries = Some v → (k, v) ∈ entries.
Proof.
  unfold last_entry. destruct (last _) as [[k' v']|] eqn:Hl; [|done].
  intros [= <-]. apply last_Some_elem_of, list_elem_of_filter in Hl as [Hk Hin].
  cbn in Hk. by subst.
Qed.

Lemma last_entry_is_Some {V} (k : Triple) (entries : list (Triple * V)) :
  is_Some (last_entry k entries) ↔ ∃ v, (k, v) ∈ entries.
Proof.
  split.
  - intros [v Hv]. exists v. by apply last_entry_Some.
  - intros [v Hv]. unfold last_entry.
    destruct (last (filter (λ kv : Triple * V, kv.1 = k) entries)) as [x|] eqn:Hl;
      [by eexists|].
    apply last_None in Hl.
    assert ((k, v) ∈ filter (λ kv : Triple * V, kv.1 = k) entries) as Hin
      by (by apply list_elem_of_filter).
    rewrite Hl in Hin. by apply elem_of_nil in Hin.
Qed.

Lemma last_entry_app {V} (k : Triple) (l1 l2 : list (Triple * V)) :
  last_entry k (l1 ++ l2)
  = match last_entry k l2 with Some v => Some v | None => last_entry k l1 end.
Proof.
  unfold last_entry. rewrite filter_app.
  destruct (filter (λ kv : Triple * V, kv.1 = k) l2) as [|x l] eqn:Hf using rev_ind.
  - by rewrite app_nil_r.
  - by rewrite app_assoc, !last_snoc.
Qed.

Lemma elem_of_membership_entries (blocks_data : list Block) k v :
  (k, v) ∈ membership_entries blocks_data ↔
  ∃ b g ao, b ∈ blocks_data ∧ g ∈ block_groups b ∧ ao ∈ block_action_lists g ∧
            k = group_key g ao ∧ v = (block_name b, default 0 (ao_step ao)).
Proof.
  unfold membership_entries. rewrite list_elem_of_bind. split.
  - intros (b & Hin & Hb). apply list_elem_of_bind in Hin as (g & Hin & Hg).
    apply list_elem_of_fmap in Hin as (ao & [= -> ->] & Hao). by exists b, g, ao.
  - intros (b & g & ao & Hb & Hg & Hao & -> & ->). exists b. split; [|done].
    apply list_elem_of_bind. exists g. split; [|done].
    apply list_elem_of_fmap. by exists ao.
Qed.

Lemma elem_of_success_entries (blocks_data : list Block) k v :
  (k, v) ∈ success_entries blocks_data ↔
  ∃ b g ao, b ∈ blocks_data ∧ g ∈ block_groups b ∧ ao ∈ success_actions g ∧
            k = group_key g ao ∧ v = block_name b.
Proof.
  unfold success_entries. rewrite list_elem_of_bind. split.
  - intros (b & Hin & Hb). apply list_elem_of_bind in Hin as (g & Hin & Hg).
    apply list_elem_of_fmap in Hin as (ao & [= -> ->] & Hao). by exists b, g, ao.
  - intros (b & g & ao & Hb & Hg & Hao & -> & ->). exists b. split; [|done].
    apply list_elem_of_bind. exists g. split; [|done].
    apply list_elem_of_fmap. by exists ao.
Qed.

Lemma membership_entries_app (l1 l2 : list Block) :
  membership_entries (l1 ++ l2) = membership_entries l1 ++ membership_entries l2.
Proof. unfold membership_entries. apply bind_app. Qed.

Lemma last_entry_block (k : Triple) (b : Block) :
  (∃ step, last_entry k (membership_entries [b]) = Some (block_name b, step)
           ∧ listed_in_block k b) ∨
  (last_entry k (membership_entries [b]) = None ∧ ¬ listed_in_block k b).
Proof.
  destruct (last_entry k (membership_entries [b])) as [[bn step]|] eqn:Hl.
  - left. apply last_entry_Some, elem_of_membership_entries in Hl
      as (b' & g & ao & Hb' & Hg & Hao & -> & [= -> ->]).
    apply list_elem_of_singleton in Hb' as ->.
    eexists. split; [done|]. by exists g, ao.
  - right. split; [done|]. intros (g & ao & Hg & Hao & <-).
    assert (is_Some (last_entry (group_key g ao) (membership_entries [b]))) as [? ?];
      [|congruence].
    apply last_entry_is_Some. eexists. apply elem_of_membership_entries.
    exists b, g, ao. split_and!; [set_solver|done..].
Qed.

Lemma last_entry_owner (blocks_data : list Block) (k : Triple) bn step :
  last_entry k (membership_entries blocks_data) = Some (bn, step) →
  ∃ pre b post, blocks_data = pre ++ b :: post ∧ block_name b = bn ∧
    listed_in_block k b ∧ ∀ b', b' ∈ post → ¬ listed_in_block k b'.
Proof.
  induction blocks_data as [|b bs IH] using rev_ind; [done|].
  rewrite membership_entries_app, last_entry_app.
  destruct (last_entry_block k b) as [(step' & -> & Hb)|[-> Hb]].
  - intros [= <- <-]. exists bs, b, []. split_and!; [done..|].
    intros b' Hb'. by apply elem_of_nil in Hb'.
  - intros Hk. destruct (IH Hk) as (pre & b0 & post & -> & Hbn & Hb0 & Hpost).
    exists pre, b0, (post ++ [b]). split_and!; [by rewrite <- app_assoc|done..|].
    intros b' [Hb'|Hb']%elem_of_app; [by apply Hpost|].
    by apply list_elem_of_singleton in Hb' as ->.
Qed.

Lemma last_entry_absent (blocks_data : list Block) (k : Triple) :
  (∀ b, b ∈ blocks_data → ¬ listed_in_block k b) →
  last_entry k (membership_entries blocks_data) = None.
Proof.
  intros Hnone.
  destruct (last_entry k (membership_entries blocks_data)) as [v|] eqn:Hl; [|done].
  apply last_entry_Some, elem_of_membership_entries in Hl
    as (b & g & ao & Hb & Hg & Hao & -> & _).
  destruct (Hnone b Hb). by exists g, ao.
Qed.

(** Who owns a triple.  A triple listed under several blocks belongs to
    the block that comes last in the document: the block-membership table
    maps a triple to a block exactly when that block lists it (in its
    regular, cancel, exit or success actions) and no later block does.
    Every success action is a block member. *)
Theorem build_action_lookup_last_block_wins (blocks_data : list Block) (k : Triple) :
  let lk := build_action_lookup blocks_data in
  (∀ bn step, action_to_block lk !! k = Some (bn, step) →
     ∃ pre b post, blocks_data = pre ++ b :: post ∧ block_name b = bn ∧
       listed_in_block k b ∧ ∀ b', b' ∈ post → ¬ listed_in_block k b') ∧
  (∀ pre b post, blocks_data = pre ++ b :: post → listed_in_block k b →
     (∀ b', b' ∈ post → ¬ listed_in_block k b') →
     ∃ step, action_to_block lk !! k = Some (block_name b, step)) ∧
  (is_Some (success_lookup lk !! k) → is_Some (action_to_block lk !! k)).
Proof.
  cbv zeta. destruct (membership_last_entry blocks_data k) as (-> & ->).
  split_and!.
  - apply last_entry_owner.
  - intros pre b post -> Hb Hpost.
    change (pre ++ b :: post) with (pre ++ [b] ++ post).
    rewrite !membership_entries_app, !last_entry_app.
    rewrite (last_entry_absent post) by done.
    destruct (last_entry_block k b) as [(step & -> & _)|[_ Hnb]]; [by eexists|done].
  - intros [v Hv]%last_entry_is_Some. apply last_entry_is_Some.
    apply elem_of_success_entries in Hv as (b & g & ao & Hb & Hg & Hao & -> & _).
    eexists. apply elem_of_membership_entries. exists b, g, ao.
    split_and!; [done..| |done|done].
    unfold block_action_lists. set_solver.
Qed.

Lemma build_action_lookup_last_block_wins_witness :
  let k : Triple := ("Профиль", "Открытие экрана", "Тап на кнопку") in
  action_to_block (build_action_lookup overlapping_taxonomy) !! k
  = Some ("Навигация", 0) ∧
  ∃ step, action_to_block (build_action_lookup overlapping_taxonomy) !! k
          = Some ("Навигация", step).
Proof.
  cbv zeta. split; [vm_compute; reflexivity|].
  refine (proj1 (proj2 (build_action_lookup_last_block_wins overlapping_taxonomy
                          ("Профиль", "Открытие экрана", "Тап на кнопку")))
            [mkBlock "Профиль"
               [mkGroup "Профиль" "Открытие экрана"
                  [mkAction "Тап на кнопку" (Some 1)] [] [] [] []]]
            (mkBlock "Навигация"
               [mkGroup "Профиль" "Открытие экрана" [] [] [] []
                  [mkAction "Тап на кнопку" None]])
            [] eq_refl _ _).
  - eexists _, _. split_and!; [left|left|reflexivity].
  - intros b' Hb'. by apply elem_of_nil in Hb'.
Defined.

(** ** Block feature aggregator: errors and values *)

(** [transform] reads 'global_session_id' for a log line before it checks
    its columns: without that column it raises [KeyError]; with it, and
    with another required column absent, it raises the [ValueError] of the
    column check. *)
Theorem transform_missing_columns (float_to_int32 : Z → Z) (blocks_data : list Block) (df : DataFrame) :
  (COL_GSID ∉ df_columns df →
   transform float_to_int32 blocks_data df = Raise (KeyError [COL_GSID])) ∧
  (COL_GSID ∈ df_columns df →
   ∀ c, c ∈ transform_required → c ∉ df_columns df →
        ∃ msg, transform float_to_int32 blocks_data df = Raise (ValueError msg)).
Proof.
  unfold transform, has_col. split.
  - intros Hg. by rewrite bool_decide_eq_false_2.
  - intros Hg c Hc Hmiss. rewrite bool_decide_eq_true_2 by done. cbn [negb].
    destruct (missing_cols transform_required df) as [|c' miss] eqn:Hm; [|by eexists].
    assert (c ∈ missing_cols transform_required df) as Hin
      by (by apply list_elem_of_filter).
    rewrite Hm in Hin. by apply elem_of_nil in Hin.
Qed.

Lemma transform_missing_columns_witness :
  transform x86_float_to_int32 standard_taxonomy (mkDF base_columns (df_rows feature_table))
  = Raise (KeyError [COL_GSID]) ∧
  ∃ msg, transform x86_float_to_int32 standard_taxonomy (mkDF session_columns (df_rows feature_table))
         = Raise (ValueError msg).
Proof.
  split.
  - apply (proj1 (transform_missing_columns x86_float_to_int32 standard_taxonomy
                    (mkDF base_columns (df_rows feature_table)))).
    compute_done.
  - apply (proj2 (transform_missing_columns x86_float_to_int32 standard_taxonomy
                    (mkDF session_columns (df_rows feature_table)))
             ltac:(compute_done) COL_DURATION);
      compute_done.
Defined.

Lemma session_times_sorted s (l : list Event) :
  StronglySorted (λ x y, session_time_le x y = true) l →
  StronglySorted Z.le (omap event_time (session_rows s l)).
Proof.
  induction 1 as [|e r Hs IH He]; [constructor|].
  rewrite session_rows_cons. case_decide as Hg; [|done].
  cbn [omap list_omap]. destruct (event_time e) as [t|] eqn:Ht; [|done].
  constructor; [done|]. apply Forall_forall. intros t' Ht'.
  apply list_elem_of_omap in Ht' as (x & Hx & Hxt).
  apply list_elem_of_filter in Hx as [Hxs Hx].
  rewrite Forall_forall in He. specialize (He x Hx).
  apply session_time_le_spec in He as [_ He].
  rewrite Ht, Hxt in He. specialize (He ltac:(congruence)).
  cbn in He. by apply bool_decide_eq_true in He.
Qed.

(** The first row of a session in (session, time) order: an event of the
    session that no event of the session precedes in time, missing
    instants last. *)
Lemma first_session_row s (l : list Event) e0 :
  StronglySorted (λ x y, session_time_le x y = true) l →
  head (session_rows s l) = Some e0 →
  e0 ∈ l ∧ global_session_id e0 = Some s ∧
  (∀ e, e ∈ l → global_session_id e = Some s →
        opt_le (event_time e0) (event_time e) = true) ∧
  head (omap event_time (session_rows s l)) = event_time e0.
Proof.
  induction 1 as [|x r Hs IH Hx]; [done|].
  rewrite session_rows_cons. case_decide as Hg.
  - intros [= ->]. split_and!; [by left|done| |].
    + intros e [->|He]%elem_of_cons Hes; [apply opt_le_refl|].
      rewrite Forall_forall in Hx. specialize (Hx e He).
      apply session_time_le_spec in Hx as [_ Hx]. apply Hx. congruence.
    + cbn [omap list_omap]. destruct (event_time e0) as [t|] eqn:Ht; [done|].
      change (head (omap event_time (session_rows s r)) = None).
      destruct (omap event_time (session_rows s r)) as [|t ts] eqn:Hts; [done|].
      assert (t ∈ omap event_time (session_rows s r)) as Hin
        by (rewrite Hts; left).
      apply list_elem_of_omap in Hin as (e & [Hes He]%list_elem_of_filter & Het).
      rewrite Forall_forall in Hx. specialize (Hx e He).
      apply session_time_le_spec in Hx as [_ Hx].
      rewrite Ht, Het in Hx. by specialize (Hx ltac:(congruence)).
  - intros Hh. destruct (IH Hh) as (Hin & Hes & Hmin & Htime).
    split_and!; [by right|done| |done].
    intros e [->|He]%elem_of_cons Hse; [done|by apply Hmin].
Qed.

Lemma first_session_row_exists s (l : list Event) :
  s ∈ session_ids l → ∃ e0, head (session_rows s l) = Some e0.
Proof.
  intros (e & He & Hes)%elem_of_session_ids.
  destruct (session_rows s l) as [|e0 g] eqn:Hg; [|by eexists].
  assert (e ∈ session_rows s l) as Hin by (by apply list_elem_of_filter).
  rewrite Hg in Hin. by apply elem_of_nil in Hin.
Qed.

(** C3. [transform] returns a table with exactly one row for each distinct
    global session id of the input, whether or not an event of the session
    maps to a block.  In every row every block metric column
    ({prefix}_{metric}, eight metrics per block prefix) holds a value, not
    a missing cell, and the row has no other block metric column.  When
    the column names are distinct, a row has 8 columns per prefix, so
    8 x 17 block columns for a taxonomy of 17 distinctly named blocks, and
    a block that no event of the session maps to shows the fill value: -1
    in its max_step column and 0 in the other seven.  Next to the block
    columns the row carries sess_dur_sec, the sum of the durations of the
    events of the session cast to int32, and the context columns, passed
    through from a first event of the session in time order (an event of
    the session that none precedes, missing instants last): its instant,
    and its device id and session number when the input has these columns
    (the columns are absent from the output otherwise). *)
Theorem transform_row_completeness (float_to_int32 : Z → Z)
    (blocks_data : list Block) (df : DataFrame) :
  transform_ready df →
  ∃ out, transform float_to_int32 blocks_data df = Ok out ∧
    NoDup (sr_session <$> out) ∧
    (∀ s, s ∈ sr_session <$> out ↔
          ∃ e, e ∈ df_rows df ∧ global_session_id e = Some s) ∧
    (∀ r c, r ∈ out → c ∈ feature_columns blocks_data →
            ∃ v, sr_features r !! c = Some (Some v)) ∧
    (∀ r, r ∈ out →
          dom (sr_features r) = list_to_set (feature_columns blocks_data)) ∧
    (NoDup (feature_columns blocks_data) →
     (∀ r, r ∈ out →
           size (sr_features r) = (8 * length (prefix_values blocks_data))%nat) ∧
     (NoDup (block_name <$> blocks_data) → length blocks_data = 17%nat →
      ∀ r, r ∈ out → size (sr_features r) = (8 * 17)%nat) ∧
     (∀ r b m, r ∈ out → b ∈ block_name <$> blocks_data →
        ¬ touches blocks_data (df_rows df) (sr_session r) b →
        sr_features r !! column_name (prefix_of blocks_data b) m
        = Some (Some (fill_value m)))) ∧
    (∀ r, r ∈ out →
       sr_sess_dur_sec r
       = astype_int32
           (sum_Z (duration_seconds <$> session_rows (sr_session r) (df_rows df))) ∧
       ∃ e0, e0 ∈ df_rows df ∧ global_session_id e0 = Some (sr_session r) ∧
         (∀ e, e ∈ df_rows df → global_session_id e = Some (sr_session r) →
               opt_le (event_time e0) (event_time e) = true) ∧
         sr_time r = event_time e0 ∧
         sr_device r
         = (if has_col COL_DEVICE df then Some (device_id e0) else None) ∧
         sr_session_no r
         = (if has_col COL_SESSION_NO df then Some (session_no e0) else None)).
Proof.
  intros Hready. eexists. split; [by apply transform_unfold|].
  set (tagged := tag_event (build_action_lookup blocks_data) <$> df_rows df).
  set (sorted := sort_values (df_rows df)).
  set (mk := λ s : Z, mkSessionRow s _ _ _ _ _).
  assert (sr_session <$> (mk <$> session_ids sorted) = session_ids sorted) as Hids.
  { rewrite <- list_fmap_compose. rewrite <- (list_fmap_id (session_ids sorted)) at 2.
    by apply list_fmap_ext. }
  assert (∀ r, r ∈ mk <$> session_ids sorted →
            sr_features r
            = foldl fill_cell
                (joined_row float_to_int32 blocks_data tagged (sr_session r))
                (fill_list blocks_data)) as Hfeat.
  { intros r Hr. by apply list_elem_of_fmap in Hr as (s & -> & _). }
  assert (∀ r, r ∈ mk <$> session_ids sorted →
            dom (sr_features r) = list_to_set (feature_columns blocks_data)) as Hdom.
  { intros r Hr. rewrite (Hfeat r Hr), fill_loop_dom.
    fold (feature_columns blocks_data).
    apply set_eq. intros c. rewrite elem_of_union, elem_of_list_to_set.
    split; [|by right]. intros [Hc|Hc]; [|done].
    by eapply joined_row_columns. }
  assert (NoDup (feature_columns blocks_data) →
          ∀ r, r ∈ mk <$> session_ids sorted →
               size (sr_features r) = (8 * length (prefix_values blocks_data))%nat)
    as Hsize.
  { intros Hnd r Hr. rewrite <- size_dom, (Hdom r Hr).
    rewrite size_list_to_set by done. apply feature_columns_length. }
  split_and!.
  - rewrite Hids. apply NoDup_session_ids.
  - intros s. rewrite Hids, elem_of_session_ids. subst sorted.
    split; intros (e & He & Hs); exists e; (split; [|done]).
    + by rewrite sort_values_perm in He.
    + by rewrite sort_values_perm.
  - intros r c Hr Hc. rewrite (Hfeat r Hr). apply fill_loop_nonnull. by left.
  - exact Hdom.
  - intros Hnd. split_and!.
    + by apply Hsize.
    + intros Hnames Hlen r Hr. rewrite (Hsize Hnd r Hr).
      by rewrite prefix_values_length, Hlen.
    + intros r b m Hr Hb Hno. rewrite (Hfeat r Hr).
      rewrite (fill_loop_unique _ _ _ (fill_value m)); [|done|].
      * f_equal. subst tagged.
        rewrite joined_cell_filled by done.
        rewrite block_feature_untouched by done. cbn [default from_option id].
        by rewrite astype_int32_column_id by apply fill_value_range.
      * apply elem_of_fill_list. exists (prefix_of blocks_data b), m.
        split; [|done]. by apply prefix_of_in_values.
  - intros r Hr. subst mk. apply list_elem_of_fmap in Hr as (s & -> & Hs).
    cbn [sr_session sr_sess_dur_sec sr_time sr_device sr_session_no]. split.
    { f_equal. apply sum_Z_perm, fmap_Permutation, session_rows_perm, sort_values_perm. }
    destruct (first_session_row_exists s sorted Hs) as (e0 & Hhead).
    destruct (first_session_row s sorted e0 (sort_values_sorted _) Hhead)
      as (Hin & Hes & Hmin & Htime).
    exists e0. subst sorted. rewrite sort_values_perm in Hin.
    split_and!; [done|done| |done| |].
    + intros e He. apply Hmin. by rewrite sort_values_perm.
    + rewrite Hhead. by destruct (has_col COL_DEVICE df).
    + rewrite Hhead. by destruct (has_col COL_SESSION_NO df).
Qed.

Lemma transform_row_completeness_witness :
  transform_ready feature_table ∧
  NoDup (feature_columns standard_taxonomy) ∧
  NoDup (block_name <$> standard_taxonomy) ∧
  length standard_taxonomy = 17%nat ∧
  ∃ out, transform x86_float_to_int32 standard_taxonomy feature_table = Ok out ∧
    NoDup (sr_session <$> out) ∧
    (∀ r c, r ∈ out → c ∈ feature_columns standard_taxonomy →
            ∃ v, sr_features r !! c = Some (Some v)) ∧
    (∀ r, r ∈ out → size (sr_features r) = (8 * 17)%nat) ∧
    (∀ r, r ∈ out → sr_session r = 2 →
          sr_features r !! "profile_max_step" = Some (Some (-1)) ∧
          sr_features r !! "profile_count" = Some (Some 0)) ∧
    (∀ r, r ∈ out → sr_session r = 1 →
          sr_sess_dur_sec r = 4 ∧ sr_time r = Some 10 ∧
          sr_device r = Some 7 ∧ sr_session_no r = Some 1).
Proof.
  assert (transform_ready feature_table) as Hready.
  { split; [discriminate|compute_done]. }
  assert (NoDup (feature_columns standard_taxonomy)) as Hnd by compute_done.
  assert (NoDup (block_name <$> standard_taxonomy)) as Hnames by compute_done.
  split_and!; [exact Hready|exact Hnd|exact Hnames|reflexivity|].
  destruct (transform_row_completeness x86_float_to_int32 standard_taxonomy
              feature_table Hready)
    as (out & Hout & Hnodup & Hsess & Hnonnull & _ & Hcols & Hctx).
  destruct (Hcols Hnd) as (_ & Hsize & Hfill).
  exists out. split_and!; [exact Hout|exact Hnodup|exact Hnonnull| | |].
  - by apply Hsize.
  - intros r Hr Hs.
    assert (¬ touches standard_taxonomy (df_rows feature_table) (sr_session r)
              "Профиль") as Hno.
    { rewrite Hs. intros (e & step & He & Hes & Hlk).
      cbn in He. repeat (apply elem_of_cons in He as [->|He]; [by vm_compute in Hes; vm_compute in Hlk|]).
      by apply elem_of_nil in He. }
    split.
    + change "profile_max_step"
        with (column_name (prefix_of standard_taxonomy "Профиль") M_max_step).
      by rewrite (Hfill r "Профиль" M_max_step Hr ltac:(compute_done) Hno).
    + change "profile_count"
        with (column_name (prefix_of standard_taxonomy "Профиль") M_count).
      by rewrite (Hfill r "Профиль" M_count Hr ltac:(compute_done) Hno).
  - intros r Hr Hs. destruct (Hctx r Hr) as (Hdur & e0 & He0 & Hes & Hmin & Ht & Hd & Hn).
    rewrite Hs in Hdur, Hes, Hmin. split; [by rewrite Hdur|].
    assert (e0 = mkEvent 7 1 (Some 10) "Профиль" "Открытие экрана" "Тап на кнопку"
                   (Some 1) 4 1 0 0) as ->.
    { cbn in He0.
      apply elem_of_cons in He0 as [->|He0]; [done|].
      apply elem_of_cons in He0 as [->|He0].
      - specialize (Hmin (mkEvent 7 1 (Some 10) "Профиль" "Открытие экрана"
                            "Тап на кнопку" (Some 1) 4 1 0 0)
                      ltac:(cbn; left) eq_refl).
        by vm_compute in Hmin.
      - apply elem_of_cons in He0 as [->|He0]; [by vm_compute in Hes|].
        by apply elem_of_nil in He0. }
    rewrite Ht, Hd, Hn. by vm_compute.
Defined.

(** The values of a feature row.  For the row of session [s]:
    sess_dur_sec is the sum of the durations of the events of [s], cast to
    int32; the time column holds the earliest instant of [s]; and, with
    pairwise distinct column names, the cell of metric [m] of a block [b]
    that [s] has events in is the aggregate of those events (their number,
    their largest step, the number of success and review actions among
    them, the sums of their duration, click and duplicate columns), cast
    to int32 as the column's dtype has it: the pivot is int64 and the cast
    wraps when every session with a block has events in every block that
    occurs, and it is float64 otherwise, where the cast keeps a value in
    the int32 range and is the platform's [float_to_int32] outside it.  So
    an aggregate in the int32 range reaches the cell unchanged: the pivot,
    the join and the two fill loops lose nothing. *)
Theorem transform_session_values (float_to_int32 : Z → Z) (blocks_data : list Block) (df : DataFrame) :
  transform_ready df →
  ∃ out, transform float_to_int32 blocks_data df = Ok out ∧
    ∀ r, r ∈ out →
      let s := sr_session r in
      let tagged := tag_event (build_action_lookup blocks_data) <$> df_rows df in
      sr_sess_dur_sec r
      = astype_int32 (sum_Z (duration_seconds <$> session_rows s (df_rows df))) ∧
      (∀ t, sr_time r = Some t →
         (∃ e, e ∈ df_rows df ∧ global_session_id e = Some s ∧ event_time e = Some t) ∧
         ∀ e t', e ∈ df_rows df → global_session_id e = Some s →
                 event_time e = Some t' → t ≤ t') ∧
      (NoDup (feature_columns blocks_data) →
       ∀ b m, b ∈ block_name <$> blocks_data → block_group s b tagged ≠ [] →
         sr_features r !! column_name (prefix_of blocks_data b) m
         = Some (Some (astype_int32_column float_to_int32 (pivot_has_nan tagged)
                         (aggregate m (block_group s b tagged)))) ∧
         (int32_range (aggregate m (block_group s b tagged)) →
          sr_features r !! column_name (prefix_of blocks_data b) m
          = Some (Some (aggregate m (block_group s b tagged))))).
Proof.
  intros Hready. eexists. split; [by apply transform_unfold|].
  intros r Hr. apply list_elem_of_fmap in Hr as (s & -> & Hs).
  cbn [sr_session sr_sess_dur_sec sr_time sr_features]. cbv zeta. split_and!.
  - f_equal. apply sum_Z_perm, fmap_Permutation, session_rows_perm, sort_values_perm.
  - intros t Ht.
    pose proof (session_times_sorted s _ (sort_values_sorted (df_rows df))) as Hsorted.
    destruct (omap event_time (session_rows s (sort_values (df_rows df))))
      as [|t0 ts] eqn:Htimes; [done|]. injection Ht as ->.
    assert (∀ t', t' ∈ t :: ts ↔
              ∃ e, e ∈ df_rows df ∧ global_session_id e = Some s ∧
                   event_time e = Some t') as Hmem.
    { intros t'. rewrite <- Htimes, list_elem_of_omap. split.
      - intros (e & [Hes He]%list_elem_of_filter & Het).
        rewrite sort_values_perm in He. by exists e.
      - intros (e & He & Hes & Het). exists e. split; [|done].
        apply list_elem_of_filter. by rewrite sort_values_perm. }
    split; [apply Hmem; left|].
    intros e t' He Hes Het.
    assert (t' ∈ t :: ts) as Hin by (apply Hmem; by exists e).
    apply StronglySorted_inv in Hsorted as [_ Hall].
    apply elem_of_cons in Hin as [->|Hin]; [lia|].
    by apply (proj1 (Forall_forall _ _) Hall).
  - intros Hnd b m Hb Hgrp.
    assert (foldl fill_cell
              (joined_row float_to_int32 blocks_data
                 (tag_event (build_action_lookup blocks_data) <$> df_rows df) s)
              (fill_list blocks_data)
            !! column_name (prefix_of blocks_data b) m
            = Some (Some (astype_int32_column float_to_int32
                            (pivot_has_nan
                               (tag_event (build_action_lookup blocks_data)
                                  <$> df_rows df))
                            (aggregate m
                               (block_group s b
                                  (tag_event (build_action_lookup blocks_data)
                                     <$> df_rows df)))))) as Hcell.
    { rewrite (fill_loop_unique _ _ _ (fill_value m)); [|done|].
      - f_equal. rewrite joined_cell_filled by done. unfold block_feature.
        by destruct (block_group s b _).
      - apply elem_of_fill_list. exists (prefix_of blocks_data b), m.
        split; [|done]. by apply prefix_of_in_values. }
    split; [exact Hcell|].
    intros Hrange. by rewrite Hcell, astype_int32_column_id.
Qed.

Lemma transform_session_values_witness :
  transform_ready feature_table ∧
  ∃ out, transform x86_float_to_int32 standard_taxonomy feature_table = Ok out ∧
    ∀ r, r ∈ out → sr_session r = 1 →
      sr_sess_dur_sec r = 4 ∧
      sr_features r !! "profile_count" = Some (Some 2) ∧
      sr_features r !! "profile_click_count" = Some (Some 3).
Proof.
  assert (transform_ready feature_table) as Hready.
  { split; [discriminate|compute_done]. }
  split; [exact Hready|].
  destruct (transform_session_values x86_float_to_int32 standard_taxonomy feature_table Hready)
    as (out & Hout & Hvals).
  exists out. split; [exact Hout|]. intros r Hr Hs.
  destruct (Hvals r Hr) as (Hdur & _ & Hcells). rewrite Hs in Hdur, Hcells.
  assert (NoDup (feature_columns standard_taxonomy)) as Hnd by compute_done.
  split_and!.
  - rewrite Hdur. reflexivity.
  - change "profile_count"
      with (column_name (prefix_of standard_taxonomy "Профиль") M_count).
    rewrite (proj2 (Hcells Hnd "Профиль" M_count ltac:(compute_done)
                      ltac:(by vm_compute))
               ltac:(by vm_compute)).
    reflexivity.
  - change "profile_click_count"
      with (column_name (prefix_of standard_taxonomy "Профиль") M_click_count).
    rewrite (proj2 (Hcells Hnd "Профиль" M_click_count ltac:(compute_done)
                      ltac:(by vm_compute))
               ltac:(by vm_compute)).
    reflexivity.
Defined.

(** ** Column prefixes *)

Lemma generate_prefixes_from (bs : list Block) (acc : gmap string string) :
  NoDup (block_name <$> bs) →
  (∀ b, b ∈ bs → acc !! block_name b = None) →
  let res := foldl prefix_step acc bs in
  size res = (size acc + length bs)%nat ∧
  (∀ k, k ∉ block_name <$> bs → res !! k = acc !! k) ∧
  (∀ i b, bs !! i = Some b →
          res !! block_name b = Some (block_prefix (size acc + i) (block_name b))).
Proof.
  revert acc. induction bs as [|b bs IH]; intros acc Hnd Hacc; cbv zeta.
  { cbn. split_and!; [lia|done|done]. }
  rewrite fmap_cons in Hnd. apply NoDup_cons in Hnd as [Hb Hnd].
  cbn [foldl].
  assert (acc !! block_name b = None) as Hnone by (apply Hacc; left).
  assert (prefix_step acc b
          = <[block_name b := block_prefix (size acc) (block_name b)]> acc) as Hstep.
  { unfold prefix_step, block_prefix. by destruct (prefixes_map !! block_name b). }
  rewrite Hstep.
  set (acc' := <[block_name b := _]> acc).
  assert (size acc' = S (size acc)) as Hsize by (by apply map_size_insert_None).
  destruct (IH acc' Hnd) as (Hsz & Hout & Hin).
  { intros b' Hb'. subst acc'. rewrite lookup_insert_ne; [apply Hacc; by right|].
    intros Heq. apply Hb. rewrite Heq. by apply list_elem_of_fmap_2. }
  split_and!.
  - rewrite Hsz, Hsize. cbn [length]. lia.
  - intros k Hk. rewrite fmap_cons in Hk. apply not_elem_of_cons in Hk as [Hkb Hk].
    rewrite (Hout k Hk). subst acc'. by rewrite lookup_insert_ne.
  - intros [|i] b' Hi.
    + injection Hi as <-. rewrite (Hout _ Hb). subst acc'.
      by rewrite lookup_insert_eq, Nat.add_0_r.
    + cbn in Hi. rewrite (Hin i b' Hi), Hsize. do 2 f_equal. lia.
Qed.

Lemma generate_prefixes_lookup (blocks_data : list Block) i b :
  NoDup (block_name <$> blocks_data) → blocks_data !! i = Some b →
  generate_prefixes blocks_data !! block_name b = Some (block_prefix i (block_name b)).
Proof.
  intros Hnd Hi. unfold generate_prefixes.
  destruct (generate_prefixes_from blocks_data ∅ Hnd) as (_ & _ & Hin); [done|].
  rewrite (Hin i b Hi). by rewrite map_size_empty.
Qed.

Lemma known_prefix_not_block name p s :
  prefixes_map !! name = Some p → p ≠ "block_" +:+ s.
Proof.
  unfold prefixes_map. intros Hp%elem_of_list_to_map_2.
  repeat (apply elem_of_cons in Hp as [[= -> ->]|Hp]; [discriminate|]).
  by apply elem_of_nil in Hp.
Qed.

Lemma known_prefix_inj name name' p :
  prefixes_map !! name = Some p → prefixes_map !! name' = Some p → name = name'.
Proof.
  unfold prefixes_map. intros Hp%elem_of_list_to_map_2 Hp'%elem_of_list_to_map_2.
  eapply NoDup_snd_inj; [|exact Hp|exact Hp']. compute_done.
Qed.

Lemma block_prefix_inj i j name name' :
  block_prefix i name = block_prefix j name' → name = name' ∨ i = j.
Proof.
  unfold block_prefix.
  destruct (prefixes_map !! name) as [p|] eqn:Hp,
           (prefixes_map !! name') as [p'|] eqn:Hp'.
  - intros ->. left. by eapply known_prefix_inj.
  - intros ->. by destruct (known_prefix_not_block name _ (pretty j) Hp).
  - intros <-. by destruct (known_prefix_not_block name' _ (pretty i) Hp').
  - intros Heq. right. apply (inj (String.app "block_")) in Heq.
    by apply (inj pretty) in Heq.
Qed.

Lemma prefix_values_elem (blocks_data : list Block) p :
  NoDup (block_name <$> blocks_data) →
  p ∈ prefix_values blocks_data →
  ∃ i b, blocks_data !! i = Some b ∧ p = block_prefix i (block_name b) ∧
         generate_prefixes blocks_data !! block_name b = Some p.
Proof.
  intros Hnd Hp. unfold prefix_values in Hp.
  apply list_elem_of_fmap in Hp as ([name p'] & -> & Hp).
  apply elem_of_map_to_list in Hp.
  assert (name ∈ block_name <$> blocks_data) as Hname.
  { apply (elem_of_list_to_set (C := gset string)).
    rewrite <- generate_prefixes_dom. by apply elem_of_dom. }
  apply list_elem_of_fmap in Hname as (b & -> & Hb).
  apply list_elem_of_lookup_1 in Hb as [i Hi].
  exists i, b. pose proof (generate_prefixes_lookup _ i b Hnd Hi) as Hl.
  cbn. split_and!; [done|congruence|done].
Qed.

Lemma NoDup_prefix_values (blocks_data : list Block) :
  NoDup (block_name <$> blocks_data) → NoDup (prefix_values blocks_data).
Proof.
  intros Hnd. unfold prefix_values.
  apply NoDup_fmap_2_strong; [|apply NoDup_map_to_list].
  intros [n1 p1] [n2 p2] H1 H2 Heq. cbn in Heq. subst p2. f_equal.
  apply elem_of_map_to_list in H1, H2.
  assert (∀ n, generate_prefixes blocks_data !! n = Some p1 →
               ∃ i b, blocks_data !! i = Some b ∧ block_name b = n ∧
                      p1 = block_prefix i n) as Hwho.
  { intros n Hn.
    assert (n ∈ block_name <$> blocks_data) as Hname.
    { apply (elem_of_list_to_set (C := gset string)).
      rewrite <- generate_prefixes_dom. by apply elem_of_dom. }
    apply list_elem_of_fmap in Hname as (b & -> & Hb).
    apply list_elem_of_lookup_1 in Hb as [i Hi]. exists i, b.
    pose proof (generate_prefixes_lookup _ i b Hnd Hi). split_and!; [done..|congruence]. }
  destruct (Hwho n1 H1) as (i & b & Hi & <- & Hpi).
  destruct (Hwho n2 H2) as (j & b' & Hj & <- & Hpj).
  rewrite Hpi in Hpj. apply block_prefix_inj in Hpj as [?| ->]; [done|].
  congruence.
Qed.

(** With pairwise distinct block names, [_generate_prefixes] gives the
    block at position [i] the prefix of [prefixes_map] when the map knows
    its name and 'block_<i>' otherwise, and no two blocks share a prefix. *)
Theorem generate_prefixes_distinct (blocks_data : list Block) :
  NoDup (block_name <$> blocks_data) →
  (∀ i b, blocks_data !! i = Some b →
     prefix_of blocks_data (block_name b)
     = match prefixes_map !! block_name b with
       | Some prefix => prefix
       | None => "block_" +:+ pretty i
       end) ∧
  NoDup (prefix_values blocks_data) ∧
  (∀ b b', b ∈ blocks_data → b' ∈ blocks_data →
     prefix_of blocks_data (block_name b) = prefix_of blocks_data (block_name b') →
     block_name b = block_name b').
Proof.
  intros Hnd.
  assert (∀ i b, blocks_data !! i = Some b →
            prefix_of blocks_data (block_name b) = block_prefix i (block_name b)) as Hpre.
  { intros i b Hi. unfold prefix_of. by rewrite (generate_prefixes_lookup _ i b Hnd Hi). }
  split_and!; [exact Hpre|by apply NoDup_prefix_values|].
  intros b b' [i Hi]%list_elem_of_lookup_1 [j Hj]%list_elem_of_lookup_1.
  rewrite (Hpre i b Hi), (Hpre j b' Hj).
  intros [?| ->]%block_prefix_inj; [done|]. congruence.
Qed.

Lemma generate_prefixes_distinct_witness :
  NoDup (block_name <$> custom_taxonomy) ∧
  prefix_of custom_taxonomy "Профиль" = "profile" ∧
  prefix_of custom_taxonomy "Оплата" = "block_1" ∧
  prefix_of custom_taxonomy "Чат" = "block_2" ∧
  NoDup (prefix_values custom_taxonomy).
Proof.
  assert (NoDup (block_name <$> custom_taxonomy)) as Hnd by compute_done.
  destruct (generate_prefixes_distinct custom_taxonomy Hnd) as (Hpre & Hnodup & _).
  split_and!; [exact Hnd|..|exact Hnodup].
  - exact (Hpre 0%nat (standard_block "Профиль") eq_refl).
  - exact (Hpre 1%nat (standard_block "Оплата") eq_refl).
  - exact (Hpre 2%nat (standard_block "Чат") eq_refl).
Defined.

(** ** Column names *)

Lemma list_ascii_app (a b : string) :
  String.list_ascii_of_string (a +:+ b) = String.list_ascii_of_string a ++ String.list_ascii_of_string b.
Proof. induction a as [|c a IH]; [done|]. simpl. by f_equal. Qed.

Lemma list_ascii_inj (a b : string) :
  String.list_ascii_of_string a = String.list_ascii_of_string b → a = b.
Proof.
  intros H. rewrite <- (String.string_of_list_ascii_of_string a),
    <- (String.string_of_list_ascii_of_string b). by rewrite H.
Qed.

(** The characters of a string, last first. *)
Lemma reversed_app (a b : string) :
  reverse (String.list_ascii_of_string (a +:+ b))
  = reverse (String.list_ascii_of_string b) ++ reverse (String.list_ascii_of_string a).
Proof. by rewrite list_ascii_app, reverse_app. Qed.

Lemma reversed_inj (a b : string) :
  reverse (String.list_ascii_of_string a) = reverse (String.list_ascii_of_string b) → a = b.
Proof. intros H. by apply list_ascii_inj, (inj reverse). Qed.

Lemma pretty_N_char_digit (x : N) :
  pretty_N_char x ∈ String.list_ascii_of_string "0123456789".
Proof. unfold pretty_N_char. cbn. repeat case_match; set_solver. Qed.

Lemma pretty_N_go_app (x : N) (s : string) :
  ∃ l, String.list_ascii_of_string (pretty_N_go x s) = l ++ String.list_ascii_of_string s.
Proof.
  revert s. induction (N.lt_wf_0 x) as [x _ IH]; intros s.
  destruct (decide (x = 0)%N) as [->|Hx].
  - exists []. by rewrite pretty_N_go_0.
  - rewrite pretty_N_go_step by lia.
    destruct (IH (x `div` 10)%N) with (s := String (pretty_N_char (x `mod` 10)) s)
      as [l Hl]; [apply N.div_lt; lia|].
    exists (l ++ [pretty_N_char (x `mod` 10)]). rewrite Hl. cbn.
    by rewrite <- app_assoc.
Qed.

Lemma pretty_nat_last_digit (i : nat) :
  ∃ l c, String.list_ascii_of_string (pretty i) = l ++ [c] ∧
         c ∈ String.list_ascii_of_string "0123456789".
Proof.
  unfold pretty, pretty_nat, pretty, pretty_N.
  destruct (decide (N.of_nat i = 0)%N) as [H0|H0].
  - eexists [], _. split; [reflexivity|cbn; set_solver].
  - rewrite pretty_N_go_step by lia.
    destruct (pretty_N_go_app (N.of_nat i `div` 10)
                (String (pretty_N_char (N.of_nat i `mod` 10)) "")) as [l Hl].
    exists l, (pretty_N_char (N.of_nat i `mod` 10)).
    split; [done|apply pretty_N_char_digit].
Qed.

(** No prefix ends with '_success', '_review', '_click' or '_dbl', the
    words that two metric names differ by. *)
Lemma block_prefix_endings i name (l : list Ascii.ascii) :
  reverse (String.list_ascii_of_string (block_prefix i name))
    ≠ reverse (String.list_ascii_of_string "_success") ++ l ∧
  reverse (String.list_ascii_of_string (block_prefix i name))
    ≠ reverse (String.list_ascii_of_string "_review") ++ l ∧
  reverse (String.list_ascii_of_string (block_prefix i name))
    ≠ reverse (String.list_ascii_of_string "_click") ++ l ∧
  reverse (String.list_ascii_of_string (block_prefix i name))
    ≠ reverse (String.list_ascii_of_string "_dbl") ++ l.
Proof.
  unfold block_prefix. destruct (prefixes_map !! name) as [p|] eqn:Hp.
  - unfold prefixes_map in Hp. apply elem_of_list_to_map_2 in Hp.
    assert (p ∈ (map_to_list prefixes_map).*2) as Hin.
    { apply list_elem_of_fmap. exists (name, p). split; [done|].
      by apply elem_of_map_to_list, elem_of_list_to_map_1; [compute_done|]. }
    clear Hp. revert p Hin. apply Forall_forall. vm_compute.
    repeat (constructor; [split_and!; discriminate|]). constructor.
  - destruct (pretty_nat_last_digit i) as (d & c & Hd & Hc).
    rewrite reversed_app, Hd, reverse_app. cbn [reverse app].
    change (reverse [c]) with [c]. cbn [app].
    split_and!; vm_compute; intros [= -> _];
      refine (proj1 (bool_decide_eq_false _) _ Hc); vm_compute; reflexivity.
Qed.

Lemma column_name_reversed p m :
  reverse (String.list_ascii_of_string (column_name p m))
  = reverse (String.list_ascii_of_string ("_" +:+ metric_name m))
    ++ reverse (String.list_ascii_of_string p).
Proof. unfold column_name. apply reversed_app. Qed.

Lemma app_eq_split {A} (a b x y : list A) :
  a ++ x = b ++ y → (length a ≤ length b)%nat →
  take (length a) b = a ∧ x = drop (length a) b ++ y.
Proof.
  revert b. induction a as [|c a IH]; intros b Heq Hlen; [done|].
  destruct b as [|c' b]; [cbn in Hlen; lia|].
  cbn in Heq, Hlen. injection Heq as <- Heq.
  destruct (IH b Heq) as [Ht Hx]; [lia|]. cbn. by rewrite Ht.
Qed.

(** A column name determines its prefix and its metric. *)
Lemma column_name_block_prefix_inj i n j n' m m' :
  column_name (block_prefix i n) m = column_name (block_prefix j n') m' →
  block_prefix i n = block_prefix j n' ∧ m = m'.
Proof.
  intros Heq.
  apply (f_equal (λ s, reverse (String.list_ascii_of_string s))) in Heq.
  rewrite !column_name_reversed in Heq.
  pose proof (block_prefix_endings i n) as Hp.
  pose proof (block_prefix_endings j n') as Hp'.
  pose proof (reversed_inj (block_prefix i n) (block_prefix j n')) as Hinj.
  set (rp := reverse (String.list_ascii_of_string (block_prefix i n))) in *.
  set (rp' := reverse (String.list_ascii_of_string (block_prefix j n'))) in *.
  clearbody rp rp'.
  pose proof (app_eq_split _ _ _ _ Heq) as Hs.
  pose proof (app_eq_split _ _ _ _ (eq_sym Heq)) as Hs'.
  clear Heq.
  destruct (Hp rp') as (E1 & E2 & E3 & E4).
  destruct (Hp' rp) as (E1' & E2' & E3' & E4'). clear Hp Hp'.
  vm_compute in E1, E2, E3, E4, E1', E2', E3', E4'.
  destruct m, m'; vm_compute in Hs, Hs';
    first
      [ destruct Hs as [Hs _]; [lia|]; discriminate Hs
      | destruct Hs' as [Hs' _]; [lia|]; discriminate Hs'
      | destruct Hs as [_ Hs]; [lia|];
        first [ split; [exact (Hinj Hs)|reflexivity]
              | destruct (E1 Hs) | destruct (E2 Hs) | destruct (E3 Hs) | destruct (E4 Hs) ]
      | destruct Hs' as [_ Hs']; [lia|];
        first [ destruct (E1' Hs') | destruct (E2' Hs') | destruct (E3' Hs')
              | destruct (E4' Hs') ] ].
Qed.

Lemma NoDup_feature_columns (blocks_data : list Block) :
  NoDup (block_name <$> blocks_data) → NoDup (feature_columns blocks_data).
Proof.
  intros Hnd. rewrite feature_columns_bind. apply NoDup_bind.
  - intros p p' c Hp Hp' Hc Hc'.
    apply (prefix_values_elem _ _ Hnd) in Hp as (i & b & _ & -> & _).
    apply (prefix_values_elem _ _ Hnd) in Hp' as (j & b' & _ & -> & _).
    apply list_elem_of_fmap in Hc as (m & -> & _).
    apply list_elem_of_fmap in Hc' as (m' & Hc' & _).
    by apply column_name_block_prefix_inj in Hc' as [? _].
  - intros p Hp. apply NoDup_fmap_2_strong; [|compute_done].
    intros m m' _ _ Heq. by apply column_name_inj_metric in Heq.
  - by apply NoDup_prefix_values.
Qed.

(** The names of the feature columns never collide.  For every taxonomy
    whose block names are pairwise distinct, the 8 x n names
    '<prefix>_<metric>' that [transform] fills are pairwise distinct (no
    prefix followed by one metric name reads like another prefix followed
    by another metric name), so every feature row has exactly 8 cells per
    block. *)
Theorem transform_column_names_distinct (float_to_int32 : Z → Z) (blocks_data : list Block) (df : DataFrame) :
  NoDup (block_name <$> blocks_data) →
  transform_ready df →
  NoDup (feature_columns blocks_data) ∧
  length (feature_columns blocks_data) = (8 * length blocks_data)%nat ∧
  ∃ out, transform float_to_int32 blocks_data df = Ok out ∧
    ∀ r, r ∈ out → size (sr_features r) = (8 * length blocks_data)%nat.
Proof.
  intros Hnd Hready.
  pose proof (NoDup_feature_columns blocks_data Hnd) as Hcols.
  assert (length (feature_columns blocks_data) = (8 * length blocks_data)%nat) as Hlen.
  { by rewrite feature_columns_length, prefix_values_length. }
  split_and!; [done..|].
  eexists. split; [by apply transform_unfold|].
  intros r Hr. apply list_elem_of_fmap in Hr as (s & -> & _). cbn [sr_features].
  rewrite <- Hlen, <- size_dom, fill_loop_dom.
  fold (feature_columns blocks_data).
  rewrite <- (size_list_to_set (C := gset string)) by done. f_equal.
  apply set_eq. intros c. rewrite elem_of_union, elem_of_list_to_set.
  split; [|by right]. intros [Hc|Hc]; [|done]. by eapply joined_row_columns.
Qed.

Lemma transform_column_names_distinct_witness :
  NoDup (block_name <$> custom_taxonomy) ∧ transform_ready feature_table ∧
  NoDup (feature_columns custom_taxonomy) ∧
  length (feature_columns custom_taxonomy) = 24%nat ∧
  ∃ out, transform x86_float_to_int32 custom_taxonomy feature_table = Ok out ∧
    ∀ r, r ∈ out → size (sr_features r) = 24%nat.
Proof.
  assert (NoDup (block_name <$> custom_taxonomy)) as Hnd by compute_done.
  assert (transform_ready feature_table) as Hready.
  { split; [discriminate|compute_done]. }
  split_and!; [exact Hnd|exact Hready|..];
    apply (transform_column_names_distinct x86_float_to_int32 custom_taxonomy feature_table Hnd Hready).
Defined.

(** ** The time column *)

(** Only the duration stage checks the time column.  On a non-empty table
    that has the id and the three text columns but no
    'Дата и время события' column, [calculate_event_duration] raises the
    [ValueError] of its own check, whereas the run collapse, the screen
    collapse and the trailing-screen stage get as far as their sort and
    raise [KeyError]. *)
Theorem stages_without_time_column (df : DataFrame) :
  df_rows df ≠ [] →
  COL_GSID ∈ df_columns df → COL_SCREEN ∈ df_columns df →
  COL_FUNCTIONAL ∈ df_columns df → COL_ACTION ∈ df_columns df →
  COL_TIME ∉ df_columns df →
  calculate_event_duration (Some df)
  = Raise (ValueError "Колонка 'Дата и время события' не найдена") ∧
  remove_consecutive_duplicates_with_clicks (Some df) = Raise (KeyError [COL_TIME]) ∧
  collapse_intermediate_screens (Some df) = Raise (KeyError [COL_TIME]) ∧
  remove_trailing_empty_screens (Some df) = Raise (KeyError [COL_TIME]).
Proof.
  intros Hne Hg Hs Hf Ha Ht.
  unfold calculate_event_duration, remove_consecutive_duplicates_with_clicks,
    collapse_intermediate_screens, remove_trailing_empty_screens, has_col.
  rewrite !(bool_decide_eq_false_2 (df_rows df = [])) by done.
  rewrite !(bool_decide_eq_true_2 (COL_GSID ∈ df_columns df)) by done.
  rewrite !(bool_decide_eq_false_2 (COL_TIME ∈ df_columns df)) by done.
  rewrite !missing_cols_nil by (by repeat constructor).
  cbn [negb]. done.
Qed.

Lemma stages_without_time_column_witness :
  let df := mkDF [COL_DEVICE; COL_SESSION_NO; COL_SCREEN; COL_FUNCTIONAL; COL_ACTION;
                  COL_GSID] (df_rows trailing_table) in
  calculate_event_duration (Some df)
  = Raise (ValueError "Колонка 'Дата и время события' не найдена") ∧
  remove_consecutive_duplicates_with_clicks (Some df) = Raise (KeyError [COL_TIME]) ∧
  collapse_intermediate_screens (Some df) = Raise (KeyError [COL_TIME]) ∧
  remove_trailing_empty_screens (Some df) = Raise (KeyError [COL_TIME]).
Proof.
  cbv zeta. apply stages_without_time_column;
    [discriminate|compute_done..].
Defined.

(** ** The caller: feature rows, cohort labels and the filter *)

Lemma is_new_classify_months (months : gset Z) :
  is_new (classify_months months) = true ↔ 10 ∈ months ∧ 9 ∉ months.
Proof.
  unfold classify_months.
  repeat case_bool_decide; cbn; split; try done; intros []; done.
Qed.

Lemma active_in_session_rows month dev (rows : list SessionRow) :
  (∀ r, r ∈ rows → is_Some (sr_device r)) →
  active_in month dev (session_row_event <$> rows) ↔ session_in_month month dev rows.
Proof.
  intros Hdev. unfold active_in, session_in_month. split.
  - intros (e & He & Hd & Hm). apply list_elem_of_fmap in He as (r & -> & Hr).
    exists r. split; [done|]. destruct (Hdev r Hr) as [d Hrd].
    cbn in Hd. rewrite Hrd in Hd. cbn in Hd. subst d. done.
  - intros (r & Hr & Hd & Hm). exists (session_row_event r).
    split; [by apply list_elem_of_fmap_2|]. cbn. by rewrite Hd.
Qed.

Lemma zip_fmap_same {A B} (f : A → B) (l : list A) :
  zip l (f <$> l) = (λ x, (x, f x)) <$> l.
Proof. induction l as [|x l IH]; [done|]. cbn. by rewrite IH. Qed.

Lemma filter_fmap_fst {A B} (f : A → B) (P : B → Prop) `{∀ y, Decision (P y)}
    (l : list A) :
  (filter (λ p : A * B, P p.2) ((λ x, (x, f x)) <$> l)).*1 = filter (λ x, P (f x)) l.
Proof.
  induction l as [|x l IH]; [done|]. rewrite fmap_cons, !filter_cons. cbn.
  destruct (decide (P (f x))); by rewrite ?fmap_cons, IH.
Qed.

(** What [main] keeps.  On a non-empty event table with the columns
    [transform] requires, [transform] succeeds.  Without the device column
    the labeler then raises [ValueError] (which the handler of [main]
    catches).  With it, and with a session id on some event, the filter
    of [main] leaves feature rows of [transform], in order,
    each with its cohort flags; a session's row is kept exactly when its
    device is not new, where the months of a device are the months of the
    time column of its feature rows, that is, of the first events of its
    sessions. *)
Theorem main_keeps_devices_not_new (float_to_int32 : Z → Z) (blocks_data : list Block) (merged_df : DataFrame) :
  transform_ready merged_df →
  ∃ df_transformed, transform float_to_int32 blocks_data merged_df = Ok df_transformed ∧
    (COL_DEVICE ∉ df_columns merged_df →
     ∃ msg, main_steps float_to_int32 blocks_data merged_df = Raise (ValueError msg)) ∧
    (COL_DEVICE ∈ df_columns merged_df →
     (∃ e, e ∈ df_rows merged_df ∧ is_Some (global_session_id e)) →
     ∃ out, main_steps float_to_int32 blocks_data merged_df = Ok out ∧
       out.*1 `sublist_of` df_transformed ∧
       (∀ r fl, (r, fl) ∈ out → is_new fl = false) ∧
       ∀ r dev, r ∈ df_transformed → sr_device r = Some dev →
         (r ∈ out.*1 ↔
          ¬ (session_in_month 10 dev df_transformed ∧
             ¬ session_in_month 9 dev df_transformed))).
Proof.
  intros Hready.
  pose proof (transform_unfold float_to_int32 blocks_data merged_df Hready) as Ht.
  eexists. split; [exact Ht|].
  set (rows := _ <$> session_ids _) in Ht |- *.
  assert (COL_TIME ∈ df_columns merged_df) as Htime.
  { destruct Hready as [_ Hall]. rewrite Forall_forall in Hall. apply Hall.
    unfold transform_required. set_solver. }
  split.
  - intros Hdev. unfold main_steps. rewrite Ht. unfold add_user_cohort_status.
    cbn [df_rows df_columns]. case_bool_decide; [by eexists|].
    assert (COL_DEVICE ∈ missing_cols [COL_TIME; COL_DEVICE]
              (mkDF (feature_table_columns blocks_data merged_df)
                 (session_row_event <$> rows))) as Hmiss.
    { apply list_elem_of_filter. split; [|set_solver]. cbn [df_columns].
      unfold feature_table_columns. rewrite !elem_of_app, list_elem_of_filter.
      intros [Hc|[[Hc _]|[Hc|Hc]]].
      - by apply list_elem_of_singleton in Hc.
      - done.
      - by apply list_elem_of_singleton in Hc.
      - apply elem_of_feature_columns in Hc as (p & m & _ & Hc).
        apply (f_equal (λ s, reverse (String.list_ascii_of_string s))) in Hc.
        rewrite column_name_reversed in Hc.
        destruct m; vm_compute in Hc; discriminate Hc. }
    destruct (missing_cols _ _); [by apply elem_of_nil in Hmiss|by eexists].
  - intros Hdev (e0 & He0 & [s0 Hs0]).
    assert (has_col COL_DEVICE merged_df = true) as Hhas
      by (by apply bool_decide_eq_true_2).
    assert (∀ r, r ∈ rows → is_Some (sr_device r)) as Hdevs.
    { intros r Hr. subst rows. apply list_elem_of_fmap in Hr as (s & -> & Hs).
      cbn [sr_device]. rewrite Hhas.
      apply elem_of_session_ids in Hs as (e & He & Hes).
      destruct (session_rows s (sort_values (df_rows merged_df))) as [|x grp] eqn:Hgrp;
        [|by eexists].
      assert (e ∈ session_rows s (sort_values (df_rows merged_df))) as Hin
        by (by apply list_elem_of_filter).
      rewrite Hgrp in Hin. by apply elem_of_nil in Hin. }
    assert (rows ≠ []) as Hne.
    { subst rows. intros Hnil%fmap_nil_inv.
      assert (s0 ∈ session_ids (sort_values (df_rows merged_df))) as Hin.
      { apply elem_of_session_ids. exists e0. by rewrite sort_values_perm. }
      rewrite Hnil in Hin. by apply elem_of_nil in Hin. }
    unfold main_steps. rewrite Ht.
    rewrite add_user_cohort_status_unfold.
    2:{ split_and!; cbn [df_rows df_columns].
        - by intros Hnil%fmap_nil_inv.
        - unfold feature_table_columns. rewrite !elem_of_app, list_elem_of_filter.
          right. left. split; [done|set_solver].
        - unfold feature_table_columns. rewrite !elem_of_app, list_elem_of_filter.
          right. left. split; [done|set_solver]. }
    cbn [df_rows df_columns]. eexists. split; [reflexivity|].
    set (E := session_row_event <$> rows).
    set (F := λ r : SessionRow,
           classify_months
             (default ∅ (user_months E !! device_id (session_row_event r)))).
    assert (((λ e, (e, classify_months (default ∅ (user_months E !! device_id e))))
               <$> E).*2 = F <$> rows) as ->.
    { subst E. rewrite <- !list_fmap_compose. by apply list_fmap_ext. }
    rewrite zip_fmap_same.
    set (pairs := (λ r, (r, F r)) <$> rows).
    assert (pairs.*1 = rows) as Hfst.
    { subst pairs. rewrite <- list_fmap_compose. apply list_fmap_id. }
    split_and!.
    + etrans; [apply (fmap_sublist fst), sublist_filter|]. by rewrite Hfst.
    + intros r fl [Hfl _]%list_elem_of_filter. done.
    + intros r dev Hr Hrd.
      assert (F r = classify_months (default ∅ (user_months E !! dev))) as HF.
      { subst F. cbn. by rewrite Hrd. }
      assert (r ∈ (filter (λ p : SessionRow * CohortFlags, is_new p.2 = false) pairs).*1
              ↔ is_new (F r) = false) as ->.
      { rewrite list_elem_of_fmap. split.
        - intros ([r' fl] & -> & [Hfl Hin]%list_elem_of_filter).
          subst pairs. apply list_elem_of_fmap in Hin as (r'' & [= -> ->] & _). done.
        - intros Hfl. exists (r, F r). split; [done|].
          apply list_elem_of_filter. split; [done|].
          subst pairs. apply list_elem_of_fmap. by exists r. }
      rewrite HF.
      rewrite <- !(active_in_session_rows _ _ rows Hdevs). fold E.
      rewrite <- !user_months_active.
      pose proof (is_new_classify_months (default ∅ (user_months E !! dev))) as Hnew.
      destruct (is_new _); split.
      * done.
      * intros Hn. destruct Hn. by apply Hnew.
      * intros _ Hn. apply Hnew in Hn. done.
      * done.
Qed.

Lemma main_keeps_devices_not_new_witness :
  transform_ready cohort_feature_table ∧
  ∃ out, main_steps x86_float_to_int32 standard_taxonomy cohort_feature_table = Ok out ∧
    sr_session <$> out.*1 = [1; 3] ∧
    out.*2 = [mkFlags true false false; mkFlags false false false].
Proof.
  assert (transform_ready cohort_feature_table) as Hready.
  { split; [discriminate|compute_done]. }
  split; [exact Hready|].
  destruct (main_keeps_devices_not_new x86_float_to_int32 standard_taxonomy cohort_feature_table Hready)
    as (rows & _ & _ & Hok).
  destruct Hok as (out & Hout & _); [compute_done| |].
  { eexists. split; [left|by eexists]. }
  exists out. split; [exact Hout|].
  assert (match main_steps x86_float_to_int32 standard_taxonomy cohort_feature_table with
          | Ok o => Some (sr_session <$> o.*1, o.*2)
          | Raise _ => None
          end = Some ([1; 3], [mkFlags true false false; mkFlags false false false]))
    as Hval by (vm_compute; reflexivity).
  rewrite Hout in Hval. injection Hval as Hs Hf. by split.
Defined.

(** ** The caller: [process_dataset] *)

Lemma transform_Ok_ready (float_to_int32 : Z → Z) (blocks_data : list Block) (df : DataFrame) out :
  transform float_to_int32 blocks_data df = Ok out → transform_ready df.
Proof.
  unfold transform, has_col. intros H.
  case_bool_decide as Hg; [|done]. cbn [negb] in H.
  destruct (missing_cols transform_required df) as [|c miss] eqn:Hmiss; [|done].
  case_bool_decide as Hne; [done|]. split; [done|].
  apply Forall_forall. intros c Hc.
  destruct (decide (c ∈ df_columns df)) as [|Hn]; [done|].
  assert (c ∈ missing_cols transform_required df) as Hin.
  { unfold missing_cols. by apply list_elem_of_filter. }
  rewrite Hmiss in Hin. by apply elem_of_nil in Hin.
Qed.

Lemma count_session_fmap (f : Z → SessionRow) (l : list Z) (s : Z) :
  (∀ x, sr_session (f x) = x) → NoDup l →
  length (filter (λ r, sr_session r = s) (f <$> l))
  = if decide (s ∈ l) then 1%nat else 0%nat.
Proof.
  intros Hf. induction l as [|x l IH]; intros Hnd; [done|].
  apply NoDup_cons in Hnd as [Hx Hnd]. rewrite fmap_cons, filter_cons.
  rewrite Hf. specialize (IH Hnd).
  destruct (decide (x = s)) as [->|Hxs].
  - rewrite decide_True by left. cbn [length]. rewrite IH.
    by rewrite decide_False.
  - rewrite IH. destruct (decide (s ∈ l)) as [Hs|Hs].
    + by rewrite decide_True by (by right).
    + rewrite decide_False; [done|]. intros [->|?]%elem_of_cons; done.
Qed.

(** One feature row for a session the table holds, none otherwise. *)
Lemma transform_session_count (float_to_int32 : Z → Z) (blocks_data : list Block) (df : DataFrame) out s :
  transform float_to_int32 blocks_data df = Ok out →
  length (filter (λ r, sr_session r = s) out)
  = if decide (Exists (λ e, global_session_id e = Some s) (df_rows df)) then 1%nat
    else 0%nat.
Proof.
  intros Hout. pose proof (transform_Ok_ready _ _ _ _ Hout) as Hready.
  rewrite transform_unfold in Hout by done. injection Hout as <-.
  rewrite count_session_fmap; [|done|apply NoDup_session_ids].
  assert (s ∈ session_ids (sort_values (df_rows df))
          ↔ Exists (λ e, global_session_id e = Some s) (df_rows df)) as Hin.
  { rewrite elem_of_session_ids, Exists_exists.
    split; intros (e & He & Hs); exists e; (split; [|done]).
    - by rewrite sort_values_perm in He.
    - by rewrite sort_values_perm. }
  destruct (decide (s ∈ _)) as [Hs|Hs].
  - by rewrite decide_True by (by apply Hin).
  - rewrite decide_False; [done|]. intros He. by apply Hs, Hin.
Qed.

Lemma transform_chunks_Ok (float_to_int32 : Z → Z) (blocks_data : list Block) columns chunks df_chunks :
  transform_chunks float_to_int32 blocks_data columns chunks = Ok df_chunks →
  Forall2 (λ chunk rows, transform float_to_int32 blocks_data (mkDF columns chunk) = Ok rows)
    chunks df_chunks.
Proof.
  revert df_chunks. induction chunks as [|chunk rest IH]; intros df_chunks H.
  - injection H as <-. constructor.
  - cbn [transform_chunks] in H.
    destruct (transform float_to_int32 blocks_data (mkDF columns chunk)) as [rows|] eqn:Hc; [|done].
    destruct (transform_chunks float_to_int32 blocks_data columns rest) as [dfs|] eqn:Hr; [|done].
    injection H as <-. constructor; [done|by apply IH].
Qed.

Lemma chunked_session_count (float_to_int32 : Z → Z) (blocks_data : list Block) columns chunks df_chunks s :
  Forall2 (λ chunk rows, transform float_to_int32 blocks_data (mkDF columns chunk) = Ok rows)
    chunks df_chunks →
  length (filter (λ r, sr_session r = s) (concat df_chunks))
  = length (filter (λ chunk, Exists (λ e, global_session_id e = Some s) chunk) chunks).
Proof.
  induction 1 as [|chunk rows chunks dfs Hc _ IH]; [done|].
  cbn [concat]. rewrite filter_app, length_app, IH, filter_cons.
  rewrite (transform_session_count _ _ _ _ s Hc). cbn [df_rows].
  by destruct (decide (Exists _ chunk)).
Qed.

(** Chunked processing breaks the one-row-per-session rule.  When
    [process_dataset] is run with a chunk size and returns a table, each
    chunk was transformed on its own and the results were concatenated:
    the table holds one row for a session per chunk that holds an event
    of the session, so a session that straddles a chunk boundary has
    several rows. *)
Theorem process_dataset_chunked_rows (float_to_int32 : Z → Z) (blocks_data : list Block) (chunksize : nat)
    (df : DataFrame) (out : list SessionRow) (s : Z) :
  process_dataset float_to_int32 blocks_data (Some (S chunksize)) df = Ok out →
  length (filter (λ r, sr_session r = s) out)
  = length (filter (λ chunk, Exists (λ e, global_session_id e = Some s) chunk)
              (read_csv_chunks (S chunksize) (df_rows df))).
Proof.
  unfold process_dataset.
  destruct (transform_chunks _ _ _) as [df_chunks|] eqn:Hchunks; [|done].
  apply transform_chunks_Ok in Hchunks.
  destruct df_chunks as [|rows dfs]; [done|].
  case_bool_decide; [done|]. intros [= <-].
  exact (chunked_session_count _ _ _ _ (rows :: dfs) s Hchunks).
Qed.

Lemma process_dataset_chunked_rows_witness :
  ∃ out, process_dataset x86_float_to_int32 standard_taxonomy (Some 1%nat) split_session_table = Ok out ∧
    length (filter (λ r, sr_session r = 1) out) = 2%nat.
Proof.
  assert (∃ out, process_dataset x86_float_to_int32 standard_taxonomy (Some 1%nat) split_session_table
                 = Ok out) as [out Hout].
  { destruct (process_dataset x86_float_to_int32 standard_taxonomy (Some 1%nat) split_session_table)
      as [o|e] eqn:Hp; [by eexists|].
    exfalso.
    assert (is_ok (process_dataset x86_float_to_int32 standard_taxonomy (Some 1%nat) split_session_table)
            = true) as Hok by (vm_compute; reflexivity).
    rewrite Hp in Hok. discriminate Hok. }
  exists out. split; [exact Hout|].
  rewrite (process_dataset_chunked_rows x86_float_to_int32 standard_taxonomy 0 split_session_table out 1 Hout).
  reflexivity.
Defined.

Lemma fill_loop_small (row : gmap string (option Z)) (l : list (string * Z)) :
  (∀ c cell, row !! c = Some cell → cell = Some 0 ∨ cell = Some (-1)) →
  (∀ c v, (c, v) ∈ l → v = 0 ∨ v = -1) →
  ∀ c cell, foldl fill_cell row l !! c = Some cell → cell = Some 0 ∨ cell = Some (-1).
Proof.
  revert row. induction l as [|[c0 v0] l IH]; intros row Hrow Hl; [done|].
  cbn [foldl]. apply IH.
  - intros c cell. unfold fill_cell. cbn [fst snd].
    destruct (decide (c0 = c)) as [->|Hne].
    + rewrite lookup_insert_eq. intros [= <-].
      destruct (row !! c) as [old|] eqn:Hold.
      * destruct (Hrow c old Hold) as [-> | ->]; [by left|by right].
      * destruct (Hl c v0) as [-> | ->]; [left|by left|by right].
    + rewrite lookup_insert_ne by done. apply Hrow.
  - intros c v Hin. apply (Hl c v). by right.
Qed.

Lemma block_stats_without_blocks (float_to_int32 : Z → Z) (blocks_data : list Block) (df : DataFrame) out :
  transform float_to_int32 blocks_data df = Ok out →
  (∀ e, e ∈ df_rows df →
        action_to_block (build_action_lookup blocks_data) !! event_key e = None) →
  filter (λ col, (0 < sessions_with_block col out)%nat) (all_count_cols blocks_data) = [].
Proof.
  intros Hout Hnone. pose proof (transform_Ok_ready _ _ _ _ Hout) as Hready.
  rewrite transform_unfold in Hout by done. injection Hout as <-.
  set (tagged := tag_event (build_action_lookup blocks_data) <$> df_rows df).
  assert (rows_with_blocks tagged = []) as Hrows.
  { apply filter_none. intros t Ht' [[b Hb] _].
    subst tagged. apply list_elem_of_fmap in Ht' as (e & -> & He).
    cbn [tg_block tag_event] in Hb. by rewrite (Hnone e He) in Hb. }
  assert (∀ s, joined_row float_to_int32 blocks_data tagged s = ∅) as Hjoined.
  { intros s. unfold joined_row, features_row, present_blocks. rewrite Hrows.
    assert ((m ← PIVOT_METRICS;
             (λ b, (column_name (prefix_of blocks_data b) m,
                    pivot_fillna_int32 float_to_int32 (pivot_has_nan tagged)
                      (fill_value m) (block_feature tagged s b m)))
               <$> drop_duplicates (omap tg_block []))
            = []) as -> by done.
    cbn [list_to_map foldr]. case_bool_decide; [done|]. by rewrite fmap_empty. }
  apply filter_none. intros col _ Hpos.
  unfold sessions_with_block in Hpos.
  destruct (filter _ (drop_duplicates _)) as [|s0 l] eqn:Hf; [cbn in Hpos; lia|].
  assert (s0 ∈ s0 :: l) as Hin by left. rewrite <- Hf in Hin.
  apply list_elem_of_filter in Hin as [Hcell _].
  destruct (first_cell col s0 _) as [v|] eqn:Hfirst; [|done].
  apply bool_decide_eq_true in Hcell.
  unfold first_cell in Hfirst. apply head_Some_elem_of in Hfirst.
  apply list_elem_of_omap in Hfirst as (r & [_ Hr]%list_elem_of_filter & Hv).
  apply list_elem_of_fmap in Hr as (s & -> & _). cbn [sr_features] in Hv.
  rewrite Hjoined in Hv.
  destruct (foldl fill_cell ∅ (fill_list blocks_data) !! col) as [cell|] eqn:Hc; [|done].
  cbn in Hv. subst cell.
  apply fill_loop_small in Hc as [[= ->]|[= ->]]; [lia|lia| |].
  - intros c cell Hlook. by rewrite lookup_empty in Hlook.
  - intros c v' Hin'. apply elem_of_fill_list in Hin' as (p & m & _ & _ & ->).
    destruct m; cbn; auto.
Qed.

Lemma joined_row_without_blocks (float_to_int32 : Z → Z) (blocks_data : list Block)
    (rows : list Event) s :
  (∀ e, e ∈ rows →
        action_to_block (build_action_lookup blocks_data) !! event_key e = None) →
  joined_row float_to_int32 blocks_data
    (tag_event (build_action_lookup blocks_data) <$> rows) s = ∅.
Proof.
  intros Hnone.
  set (tagged := tag_event (build_action_lookup blocks_data) <$> rows).
  assert (rows_with_blocks tagged = []) as Hrows.
  { apply filter_none. intros t Ht' [[b Hb] _].
    subst tagged. apply list_elem_of_fmap in Ht' as (e & -> & He).
    cbn [tg_block tag_event] in Hb. by rewrite (Hnone e He) in Hb. }
  unfold joined_row, features_row, present_blocks. rewrite Hrows.
  assert ((m ← PIVOT_METRICS;
           (λ b, (column_name (prefix_of blocks_data b) m,
                  pivot_fillna_int32 float_to_int32 (pivot_has_nan tagged)
                    (fill_value m) (block_feature tagged s b m)))
             <$> drop_duplicates (omap tg_block []))
          = []) as -> by done.
  cbn [list_to_map foldr]. case_bool_decide; [done|]. by rewrite fmap_empty.
Qed.

Lemma fill_loop_zero (row : gmap string (option Z)) (l : list (string * Z)) c :
  (∀ v, (c, v) ∈ l → v = 0) →
  c ∈ l.*1 ∨ row !! c = Some (Some 0) →
  row !! c = None ∨ row !! c = Some (Some 0) →
  foldl fill_cell row l !! c = Some (Some 0).
Proof.
  revert row. induction l as [|[c0 v0] l IH]; intros row Hl Hc Hrow.
  { destruct Hc as [Hc|Hc]; [by apply elem_of_nil in Hc|done]. }
  cbn [foldl].
  assert (∀ v, (c, v) ∈ l → v = 0) as Hl' by (intros v Hv; apply Hl; by right).
  destruct (decide (c0 = c)) as [->|Hne].
  - assert (fill_cell row (c, v0) !! c = Some (Some 0)) as Hcell.
    { pose proof (fill_cell_eq row (c, v0)) as Heq. cbn [fst snd] in Heq.
      rewrite Heq, (Hl v0) by left.
      by destruct Hrow as [-> | ->]. }
    apply IH; [done|by right|by right].
  - assert (fill_cell row (c0, v0) !! c = row !! c) as Hcell
      by (by apply fill_cell_ne).
    apply IH; [done| |by rewrite Hcell].
    rewrite Hcell. destruct Hc as [Hc|Hc]; [left|by right].
    rewrite fmap_cons in Hc. by apply elem_of_cons in Hc as [->|Hc].
Qed.

Lemma count_column_fill (blocks_data : list Block) c v :
  endswith "_count" c = true → (c, v) ∈ fill_list blocks_data → v = 0.
Proof.
  intros Hend (p & m & _ & -> & ->)%elem_of_fill_list.
  destruct m; try done. exfalso.
  apply bool_decide_eq_true in Hend as [k Hk].
  unfold column_name in Hk. rewrite !list_ascii_app in Hk.
  apply (f_equal reverse) in Hk. rewrite !reverse_app in Hk.
  by vm_compute in Hk.
Qed.

Lemma count_cells_without_blocks (float_to_int32 : Z → Z) (blocks_data : list Block)
    (df : DataFrame) out r col :
  transform float_to_int32 blocks_data df = Ok out →
  (∀ e, e ∈ df_rows df →
        action_to_block (build_action_lookup blocks_data) !! event_key e = None) →
  r ∈ out → col ∈ all_count_cols blocks_data →
  sr_features r !! col = Some (Some 0).
Proof.
  intros Hout Hnone Hr [Hend Hcol]%list_elem_of_filter.
  pose proof (transform_Ok_ready _ _ _ _ Hout) as Hready.
  rewrite transform_unfold in Hout by done. injection Hout as <-.
  apply list_elem_of_fmap in Hr as (s & -> & _). cbn [sr_features].
  rewrite joined_row_without_blocks by done.
  apply fill_loop_zero.
  - intros v. by apply count_column_fill.
  - by left.
  - left. apply lookup_empty.
Qed.

(** Without a single event in a block there are no block statistics.
    When no event of the table belongs to a block of the taxonomy,
    [transform] still succeeds, every '_count' column of its result is 0,
    the list of block statistics stays empty, and [process_dataset], run
    without chunks, raises [KeyError] when it sorts the empty statistics
    table by 'Сессий'. *)
Theorem process_dataset_without_blocks (float_to_int32 : Z → Z) (blocks_data : list Block)
    (chunksize : option nat) (df : DataFrame) :
  transform_ready df →
  chunksize = None ∨ chunksize = Some 0%nat →
  (∀ e, e ∈ df_rows df →
        action_to_block (build_action_lookup blocks_data) !! event_key e = None) →
  is_ok (transform float_to_int32 blocks_data df) = true ∧
  process_dataset float_to_int32 blocks_data chunksize df = Raise (KeyError ["Сессий"]) ∧
  ∀ out r col, transform float_to_int32 blocks_data df = Ok out → r ∈ out →
               col ∈ all_count_cols blocks_data →
               sr_features r !! col = Some (Some 0).
Proof.
  intros Hready Hchunk Hnone.
  split; [by rewrite transform_unfold|].
  split; [|intros out r col Ht; by eapply count_cells_without_blocks].
  destruct (transform float_to_int32 blocks_data df) as [out|e] eqn:Ht;
    [|by rewrite transform_unfold in Ht].
  assert (has_col COL_GSID df = true) as Hg.
  { apply bool_decide_eq_true_2. destruct Hready as [_ Hall].
    rewrite Forall_forall in Hall. apply Hall. left. }
  pose proof (block_stats_without_blocks _ _ _ _ Ht Hnone) as Hstats.
  destruct Hchunk as [-> | ->]; unfold process_dataset;
    rewrite Hg; cbn [negb]; rewrite Ht; cbv zeta; rewrite Hstats;
    by rewrite bool_decide_eq_true_2.
Qed.

Lemma process_dataset_without_blocks_witness :
  transform_ready unknown_event_table ∧
  is_ok (transform x86_float_to_int32 standard_taxonomy unknown_event_table) = true ∧
  process_dataset x86_float_to_int32 standard_taxonomy None unknown_event_table
  = Raise (KeyError ["Сессий"]) ∧
  ∀ out r col,
    transform x86_float_to_int32 standard_taxonomy unknown_event_table = Ok out →
    r ∈ out → col ∈ all_count_cols standard_taxonomy →
    sr_features r !! col = Some (Some 0).
Proof.
  assert (transform_ready unknown_event_table) as Hready.
  { split; [discriminate|compute_done]. }
  split; [exact Hready|].
  apply (process_dataset_without_blocks x86_float_to_int32 standard_taxonomy None
           unknown_event_table Hready);
    [by left|].
  intros e He. apply list_elem_of_singleton in He as ->. by vm_compute.
Defined.

Lemma first_cell_session (f : Z → SessionRow) (l : list Z) (col : string) (s v : Z) :
  (∀ x, sr_session (f x) = x) → s ∈ l →
  mjoin (sr_features (f s) !! col) = Some v →
  first_cell col s (f <$> l) = Some v.
Proof.
  intros Hf Hs Hv. unfold first_cell.
  induction l as [|x l IH]; [by apply elem_of_nil in Hs|].
  rewrite fmap_cons, filter_cons, Hf.
  destruct (decide (x = s)) as [->|Hx].
  - cbn [omap list_omap]. by rewrite Hv.
  - apply IH. apply elem_of_cons in Hs as [->|Hs]; done.
Qed.

Lemma count_column_listed (blocks_data : list Block) b :
  b ∈ block_name <$> blocks_data →
  column_name (prefix_of blocks_data b) M_count ∈ all_count_cols blocks_data.
Proof.
  intros Hb. unfold all_count_cols. apply list_elem_of_filter. split.
  - unfold endswith, column_name. apply bool_decide_eq_true_2.
    rewrite list_ascii_app. by eexists.
  - unfold feature_columns. apply list_elem_of_fmap.
    exists (column_name (prefix_of blocks_data b) M_count, fill_value M_count).
    split; [done|]. apply elem_of_fill_list.
    exists (prefix_of blocks_data b), M_count. split; [|done].
    by apply prefix_of_in_values.
Qed.

Lemma block_stats_with_block (float_to_int32 : Z → Z) (blocks_data : list Block) (df : DataFrame) out :
  transform float_to_int32 blocks_data df = Ok out →
  NoDup (block_name <$> blocks_data) →
  Z.of_nat (length (df_rows df)) < 2147483648 →
  (∃ e, e ∈ df_rows df ∧ is_Some (global_session_id e) ∧
        is_Some (action_to_block (build_action_lookup blocks_data) !! event_key e)) →
  filter (λ col, (0 < sessions_with_block col out)%nat) (all_count_cols blocks_data) ≠ [].
Proof.
  intros Hout Hnd Hlen (e & He & [s Hs] & [[b step] Hk]).
  pose proof (transform_Ok_ready _ _ _ _ Hout) as Hready.
  rewrite transform_unfold in Hout by done. injection Hout as <-.
  pose proof (action_to_block_names _ _ _ _ Hk) as Hb.
  pose proof (NoDup_feature_columns blocks_data Hnd) as Hcols.
  set (tagged := tag_event (build_action_lookup blocks_data) <$> df_rows df) in *.
  set (col := column_name (prefix_of blocks_data b) M_count).
  set (grp := block_group s b tagged).
  assert (tag_event (build_action_lookup blocks_data) e ∈ grp) as Hgrp.
  { apply list_elem_of_filter. split.
    - cbn [tg_event tg_block tag_event]. by rewrite Hk.
    - apply list_elem_of_fmap. by exists e. }
  assert (0 < length grp ≤ length (df_rows df))%nat as Hl.
  { split.
    - destruct grp; [by apply elem_of_nil in Hgrp|cbn; lia].
    - subst grp tagged. unfold block_group.
      etrans; [apply length_filter|]. by rewrite length_fmap. }
  assert (int32_range (aggregate M_count grp)) as Hrange.
  { cbn [aggregate]. unfold int32_range. lia. }
  assert (0 < astype_int32 (aggregate M_count grp)) as Hpos.
  { rewrite astype_int32_id by done. cbn [aggregate]. lia. }
  intros Hnil.
  assert (col ∈ @nil string) as Hin; [|by apply elem_of_nil in Hin].
  rewrite <- Hnil. apply list_elem_of_filter.
  split; [|by apply count_column_listed].
  unfold sessions_with_block.
  match goal with |- (0 < length ?l)%nat =>
    assert (s ∈ l) as Hin; [|destruct l; [by apply elem_of_nil in Hin|cbn; lia]] end.
  apply list_elem_of_filter. split.
  - rewrite (first_cell_session _ _ col s (astype_int32 (aggregate M_count grp))).
    + by apply bool_decide_eq_true_2.
    + done.
    + apply elem_of_session_ids. exists e. by rewrite sort_values_perm.
    + cbn [sr_features].
      rewrite (fill_loop_unique _ _ _ (fill_value M_count)); [|done|].
      * unfold col, tagged. rewrite joined_cell_filled by done.
        unfold block_feature. fold tagged. fold grp.
        destruct grp as [|t0 g0]; [by apply elem_of_nil in Hgrp|].
        cbn [default from_option id mjoin option_join].
        by rewrite astype_int32_column_id, astype_int32_id.
      * apply elem_of_fill_list. exists (prefix_of blocks_data b), M_count.
        split; [|done]. by apply prefix_of_in_values.
  - apply elem_of_drop_duplicates, list_elem_of_fmap.
    eexists. split; [|apply list_elem_of_fmap; exists s; split; [done|]].
    + done.
    + apply elem_of_session_ids. exists e. by rewrite sort_values_perm.
Qed.

(** With an event in a block, [process_dataset] returns the feature
    table.  When the block names of the taxonomy are pairwise distinct,
    the table has fewer than 2^31 events and some event with a session id
    belongs to a block, the '_count' column of that block is positive for
    the session, the statistics table is not empty, and [process_dataset],
    run without chunks, returns exactly the table of [transform]. *)
Theorem process_dataset_returns_transform (float_to_int32 : Z → Z) (blocks_data : list Block)
    (chunksize : option nat) (df : DataFrame) :
  transform_ready df →
  NoDup (block_name <$> blocks_data) →
  Z.of_nat (length (df_rows df)) < 2147483648 →
  chunksize = None ∨ chunksize = Some 0%nat →
  (∃ e, e ∈ df_rows df ∧ is_Some (global_session_id e) ∧
        is_Some (action_to_block (build_action_lookup blocks_data) !! event_key e)) →
  is_ok (transform float_to_int32 blocks_data df) = true ∧
  process_dataset float_to_int32 blocks_data chunksize df = transform float_to_int32 blocks_data df.
Proof.
  intros Hready Hnd Hlen Hchunk Hev.
  destruct (transform float_to_int32 blocks_data df) as [out|e] eqn:Ht;
    [|by rewrite transform_unfold in Ht].
  split; [done|].
  assert (has_col COL_GSID df = true) as Hg.
  { apply bool_decide_eq_true_2. destruct Hready as [_ Hall].
    rewrite Forall_forall in Hall. apply Hall. left. }
  pose proof (block_stats_with_block _ _ _ _ Ht Hnd Hlen Hev) as Hstats.
  destruct Hchunk as [-> | ->]; unfold process_dataset;
    rewrite Hg; cbn [negb]; rewrite Ht; cbv zeta;
    by rewrite bool_decide_eq_false_2.
Qed.

Lemma process_dataset_returns_transform_witness :
  transform_ready feature_table ∧
  is_ok (transform x86_float_to_int32 standard_taxonomy feature_table) = true ∧
  process_dataset x86_float_to_int32 standard_taxonomy None feature_table
  = transform x86_float_to_int32 standard_taxonomy feature_table.
Proof.
  assert (transform_ready feature_table) as Hready.
  { split; [discriminate|compute_done]. }
  split; [exact Hready|].
  apply (process_dataset_returns_transform x86_float_to_int32 standard_taxonomy None feature_table Hready).
  - compute_done.
  - cbn. lia.
  - by left.
  - eexists. split; [left|]. split; [by eexists|]. vm_compute. by eexists.
Defined.

(** ** Cleaning and joining *)

Lemma drop_duplicates_from_sublist {A} `{EqDecision A} (seen l : list A) :
  drop_duplicates_from seen l `sublist_of` l.
Proof.
  revert seen. induction l as [|x l IH]; intros seen; [done|].
  cbn [drop_duplicates_from]. case_bool_decide.
  - by apply sublist_cons.
  - by apply sublist_skip.
Qed.

Lemma drop_duplicates_from_NoDup {A} `{EqDecision A} (seen l : list A) :
  NoDup l → (∀ x, x ∈ l → x ∉ seen) → drop_duplicates_from seen l = l.
Proof.
  revert seen. induction l as [|x l IH]; intros seen Hnd Hseen; [done|].
  apply NoDup_cons in Hnd as [Hx Hnd]. cbn [drop_duplicates_from].
  rewrite bool_decide_eq_false_2 by (apply Hseen; left). f_equal.
  apply IH; [done|]. intros y Hy [->|Hin]%elem_of_cons; [done|].
  by apply (Hseen y); [right|].
Qed.

Lemma drop_duplicates_NoDup {A} `{EqDecision A} (l : list A) :
  NoDup l → drop_duplicates l = l.
Proof.
  intros Hnd. apply drop_duplicates_from_NoDup; [done|].
  intros x _ Hx. by apply elem_of_nil in Hx.
Qed.

Lemma fmap_id_on {A} (f : A → A) (l : list A) :
  (∀ x, x ∈ l → f x = x) → f <$> l = l.
Proof.
  induction l as [|x l IH]; intros Hf; [done|].
  rewrite fmap_cons, Hf by left. f_equal. apply IH. intros y Hy. apply Hf. by right.
Qed.

Lemma filter_fmap_comm {A B} (f : A → B) (P : B → Prop) `{∀ y, Decision (P y)}
    (l : list A) :
  filter P (f <$> l) = f <$> filter (λ x, P (f x)) l.
Proof.
  induction l as [|x l IH]; [done|]. rewrite fmap_cons, !filter_cons.
  destruct (decide (P (f x))); by rewrite ?fmap_cons, IH.
Qed.

Lemma NoDup_fmap_inj_on {A B} (f : A → B) (l : list A) x y :
  NoDup (f <$> l) → x ∈ l → y ∈ l → f x = f y → x = y.
Proof.
  induction l as [|z l IH]; intros Hnd Hx Hy Heq; [by apply elem_of_nil in Hx|].
  rewrite fmap_cons in Hnd. apply NoDup_cons in Hnd as [Hz Hnd].
  apply elem_of_cons in Hx as [->|Hx]; apply elem_of_cons in Hy as [->|Hy].
  - done.
  - destruct Hz. rewrite Heq. apply list_elem_of_fmap. by exists y.
  - destruct Hz. rewrite <- Heq. apply list_elem_of_fmap. by exists x.
  - by apply IH.
Qed.

Lemma fill_action_critical r : has_critical (fill_action r) ↔ has_critical r.
Proof. done. Qed.

Lemma fill_action_idem r : fill_action (fill_action r) = fill_action r.
Proof. done. Qed.

Lemma fill_action_filled r : is_Some (raw_action r) → fill_action r = r.
Proof. destruct r as [? ? ? ? ? a ?]. intros [x Hx]. cbn in Hx. by subst a. Qed.

(** Two rows that the fill makes equal are equal, or one of them is the
    other one filled. *)
Lemma fill_action_collide r1 r2 :
  fill_action r1 = fill_action r2 →
  r1 = r2 ∨ (raw_action r1 = None ∧ r2 = fill_action r1)
  ∨ (raw_action r2 = None ∧ r1 = fill_action r2).
Proof.
  destruct r1 as [d1 s1 t1 sc1 f1 a1 i1], r2 as [d2 s2 t2 sc2 f2 a2 i2].
  unfold fill_action. cbn. intros [= -> -> -> -> -> Ha ->].
  destruct a1 as [a1|], a2 as [a2|]; cbn in Ha; subst; auto.
Qed.

Lemma clean_data_unfold ev us ev' us' :
  clean_data (Some ev) (Some us) = Ok (ev', us') →
  COL_TIME ∈ raw_columns ev ∧ COL_DEVICE ∈ raw_columns ev ∧
  ev' = mkRawTable (raw_columns ev)
          (fill_of ev <$> filter has_critical (drop_duplicates (raw_rows ev))) ∧
  us' = drop_duplicates us.
Proof.
  unfold clean_data. cbv zeta.
  destruct (filter _ [COL_TIME; COL_DEVICE]) as [|c miss] eqn:Hmiss; [|done].
  intros [= <- <-].
  assert (∀ c, c ∈ [COL_TIME; COL_DEVICE] → c ∈ raw_columns ev) as Hcols.
  { intros c Hc. destruct (decide (c ∈ raw_columns ev)) as [|Hn]; [done|].
    assert (c ∈ filter (λ c, c ∉ raw_columns ev) [COL_TIME; COL_DEVICE]) as Hin
      by (by apply list_elem_of_filter).
    rewrite Hmiss in Hin. by apply elem_of_nil in Hin. }
  split_and!; [apply Hcols; left|apply Hcols; right; left| |done].
  f_equal. unfold fill_of. case_bool_decide.
  - by rewrite filter_fmap_comm.
  - by rewrite list_fmap_id.
Qed.

Lemma fill_of_critical ev r : has_critical (fill_of ev r) ↔ has_critical r.
Proof. unfold fill_of. by case_bool_decide. Qed.

Lemma clean_data_mem ev us ev' us' :
  clean_data (Some ev) (Some us) = Ok (ev', us') →
  ∀ r, r ∈ raw_rows ev' ↔
       ∃ r0, r0 ∈ raw_rows ev ∧ has_critical r0 ∧ r = fill_of ev r0.
Proof.
  intros (_ & _ & -> & _)%clean_data_unfold r. cbn [raw_rows].
  rewrite list_elem_of_fmap. split.
  - intros (r0 & -> & [Hc Hin]%list_elem_of_filter).
    rewrite elem_of_drop_duplicates in Hin. by exists r0.
  - intros (r0 & Hin & Hc & ->). exists r0. split; [done|].
    apply list_elem_of_filter. by rewrite elem_of_drop_duplicates.
Qed.

Lemma clean_data_filled ev us ev' us' :
  clean_data (Some ev) (Some us) = Ok (ev', us') →
  ∀ r, r ∈ raw_rows ev' →
       is_Some (raw_time r) ∧ is_Some (raw_device r) ∧
       (COL_ACTION ∈ raw_columns ev → is_Some (raw_action r)).
Proof.
  intros Hc r Hr. apply (clean_data_mem _ _ _ _ Hc) in Hr as (r0 & _ & Hcr & ->).
  apply (fill_of_critical ev) in Hcr as [? ?]. split_and!; [done..|].
  intros Ha. unfold fill_of. rewrite bool_decide_eq_true_2 by done.
  by eexists.
Qed.

(** What [clean_data] leaves.  When it returns, the table has an instant
    and a device column; the cleaned events are a subsequence of the
    loaded ones (with the action filled in when the table has an action
    column): exactly the rows with an instant and a device, so every
    cleaned event has both, and an action when the column exists; the
    cleaned users are the loaded ones without repetition. *)
Theorem clean_data_rows (ev : RawTable) (us : list User) (ev' : RawTable)
    (us' : list User) :
  clean_data (Some ev) (Some us) = Ok (ev', us') →
  raw_columns ev' = raw_columns ev ∧
  COL_TIME ∈ raw_columns ev ∧ COL_DEVICE ∈ raw_columns ev ∧
  raw_rows ev' `sublist_of` (fill_of ev <$> raw_rows ev) ∧
  (∀ r, r ∈ raw_rows ev' ↔
        ∃ r0, r0 ∈ raw_rows ev ∧ has_critical r0 ∧ r = fill_of ev r0) ∧
  (∀ r, r ∈ raw_rows ev' →
        is_Some (raw_time r) ∧ is_Some (raw_device r) ∧
        (COL_ACTION ∈ raw_columns ev → is_Some (raw_action r))) ∧
  NoDup us' ∧ us' `sublist_of` us ∧ (∀ u, u ∈ us' ↔ u ∈ us).
Proof.
  intros Hc. pose proof (clean_data_mem _ _ _ _ Hc) as Hmem.
  pose proof (clean_data_filled _ _ _ _ Hc) as Hfilled.
  apply clean_data_unfold in Hc as (Ht & Hd & -> & ->).
  cbn [raw_columns raw_rows] in *.
  split_and!; [done..| | | | | |].
  - apply (fmap_sublist (fill_of ev)). etrans; [apply sublist_filter|].
    apply drop_duplicates_from_sublist.
  - exact Hmem.
  - exact Hfilled.
  - apply NoDup_drop_duplicates_from.
  - apply drop_duplicates_from_sublist.
  - intros u. apply elem_of_drop_duplicates.
Qed.

Lemma clean_data_rows_witness :
  ∃ ev' us', clean_data (Some unclean_table) (Some users_table) = Ok (ev', us') ∧
    raw_columns ev' = events_columns ∧
    raw_rows ev' `sublist_of` (fill_of unclean_table <$> raw_rows unclean_table) ∧
    (∀ r, r ∈ raw_rows ev' →
          is_Some (raw_time r) ∧ is_Some (raw_device r) ∧
          (COL_ACTION ∈ events_columns → is_Some (raw_action r))) ∧
    NoDup us' ∧ ∀ u, u ∈ us' ↔ u ∈ users_table.
Proof.
  destruct (clean_data (Some unclean_table) (Some users_table)) as [[ev' us']|e] eqn:Hc;
    [|by vm_compute in Hc].
  exists ev', us'. split; [done|].
  destruct (clean_data_rows unclean_table users_table ev' us' Hc)
    as (Hcols & _ & _ & Hsub & _ & Hfilled & Hnd & _ & Hus).
  done.
Defined.

(** [clean_data] is not idempotent.  It drops repeated rows before it
    fills the action column, so a row without an action and the same row
    with 'Не указано' both survive, as two equal rows: the cleaned table
    has a repeated row exactly when the loaded table holds such a pair
    with an instant and a device.  A second call does not raise and
    returns the cleaned table with the repetitions dropped. *)
Theorem clean_data_twice (ev : RawTable) (us : list User) (ev1 : RawTable)
    (us1 : list User) :
  clean_data (Some ev) (Some us) = Ok (ev1, us1) →
  clean_data (Some ev1) (Some us1)
  = Ok (mkRawTable (raw_columns ev1) (drop_duplicates (raw_rows ev1)), us1) ∧
  (NoDup (raw_rows ev1) ↔
   ¬ ∃ r, COL_ACTION ∈ raw_columns ev ∧ r ∈ raw_rows ev ∧ has_critical r ∧
          raw_action r = None ∧ fill_action r ∈ raw_rows ev).
Proof.
  intros Hc. pose proof (clean_data_mem _ _ _ _ Hc) as Hmem.
  pose proof (clean_data_filled _ _ _ _ Hc) as Hfilled.
  apply clean_data_unfold in Hc as (Ht & Hd & Hev1 & Hus1).
  assert (raw_columns ev1 = raw_columns ev) as Hcols by (by rewrite Hev1).
  assert (NoDup us1) as Hnd by (rewrite Hus1; apply NoDup_drop_duplicates_from).
  split.
  - unfold clean_data. cbv zeta. rewrite Hcols.
    rewrite (filter_none (λ c, c ∉ raw_columns ev)).
    2:{ intros c [->|[->|[]%elem_of_nil]%elem_of_cons]%elem_of_cons Hn; done. }
    f_equal. f_equal; [|by apply drop_duplicates_NoDup].
    f_equal.
    assert (∀ r, r ∈ drop_duplicates (raw_rows ev1) →
              is_Some (raw_time r) ∧ is_Some (raw_device r) ∧
              (COL_ACTION ∈ raw_columns ev → is_Some (raw_action r))) as Hdd.
    { intros r Hr. rewrite elem_of_drop_duplicates in Hr. by apply Hfilled. }
    case_bool_decide.
    + rewrite fmap_id_on.
      * apply filter_all, Forall_forall. intros r Hr.
        by destruct (Hdd r Hr) as (? & ? & _).
      * intros r Hr. apply fill_action_filled. by apply Hdd.
    + apply filter_all, Forall_forall. intros r Hr.
      by destruct (Hdd r Hr) as (? & ? & _).
  - rewrite Hev1. cbn [raw_rows]. unfold fill_of.
    set (dd := filter has_critical (drop_duplicates (raw_rows ev))).
    assert (NoDup dd) as Hdd by apply NoDup_filter, NoDup_drop_duplicates_from.
    assert (∀ r, r ∈ dd ↔ r ∈ raw_rows ev ∧ has_critical r) as Hin.
    { intros r. unfold dd. rewrite list_elem_of_filter, elem_of_drop_duplicates.
      tauto. }
    case_bool_decide as Ha.
    + split.
      * intros Hnd' (r & _ & Hr & Hcr & Hnone & Hfr).
        assert (r = fill_action r) as Heq.
        { apply (NoDup_fmap_inj_on fill_action dd); [done|by apply Hin..|done]. }
        assert (raw_action (fill_action r) = None) as Hbad by (by rewrite <- Heq).
        discriminate Hbad.
      * intros Hno. apply NoDup_fmap_2_strong; [|done].
        intros r1 r2 [Hr1 Hc1]%Hin [Hr2 Hc2]%Hin Heq.
        destruct (fill_action_collide r1 r2 Heq) as [?|[[Hn ->]|[Hn ->]]]; [done|..].
        -- destruct Hno. by exists r1.
        -- destruct Hno. by exists r2.
    + split; [|by rewrite list_fmap_id].
      by intros _ (r & ? & _).
Qed.

Lemma clean_data_twice_witness :
  ∃ ev1 us1 ev2, clean_data (Some unclean_table) (Some users_table) = Ok (ev1, us1) ∧
    clean_data (Some ev1) (Some us1) = Ok (ev2, us1) ∧
    length (raw_rows ev1) = 2%nat ∧ length (raw_rows ev2) = 1%nat.
Proof.
  destruct (clean_data (Some unclean_table) (Some users_table)) as [[ev1 us1]|e] eqn:Hc;
    [|by vm_compute in Hc].
  destruct (clean_data_twice unclean_table users_table ev1 us1 Hc) as [Hsecond _].
  eexists ev1, us1, _. split; [done|]. split; [exact Hsecond|].
  by vm_compute in Hc; injection Hc as <- <-.
Defined.

Lemma merge_users_cons e events us :
  merge_users (e :: events) us
  = match user_matches us e with
    | [] => [(e, None)]
    | matches => (λ u, (e, Some u)) <$> matches
    end ++ merge_users events us.
Proof. done. Qed.

Lemma merge_users_row_length us e :
  length (match user_matches us e with
          | [] => [(e, None)]
          | matches => (λ u, (e, Some u)) <$> matches
          end) = (1 `max` length (user_matches us e))%nat.
Proof.
  destruct (user_matches us e) as [|u l]; [done|].
  rewrite length_fmap. cbn [length]. lia.
Qed.

Lemma merge_users_length events us :
  length (merge_users events us)
  = sum_list_with (λ e, 1 `max` length (user_matches us e))%nat events.
Proof.
  induction events as [|e events IH]; [done|].
  rewrite merge_users_cons, length_app, merge_users_row_length, IH. done.
Qed.

Lemma elem_of_merge_users events us e o :
  (e, o) ∈ merge_users events us ↔
  e ∈ events ∧
  match o with
  | Some u => u ∈ us ∧ raw_device e = Some (number u)
  | None => ∀ u, u ∈ us → raw_device e ≠ Some (number u)
  end.
Proof.
  unfold merge_users. rewrite list_elem_of_bind. split.
  - intros (e' & Hin & He'). fold (user_matches us e') in Hin.
    destruct (user_matches us e') as [|u0 l] eqn:Hm.
    + apply list_elem_of_singleton in Hin. injection Hin as Hee Hoo. subst e' o.
      split; [done|].
      intros u Hu Hd.
      assert (u ∈ user_matches us e) as Hin by (by apply list_elem_of_filter).
      rewrite Hm in Hin. by apply elem_of_nil in Hin.
    + apply list_elem_of_fmap in Hin as (u & Heq & Hu).
      injection Heq as Hee Hoo. subst e' o. split; [done|].
      rewrite <- Hm in Hu. apply list_elem_of_filter in Hu as [? ?]. done.
  - intros [He Ho]. exists e. split; [|done]. fold (user_matches us e).
    destruct o as [u|].
    + destruct Ho as [Hu Hd].
      assert (u ∈ user_matches us e) as Hin by (by apply list_elem_of_filter).
      destruct (user_matches us e) as [|u0 l]; [by apply elem_of_nil in Hin|].
      apply list_elem_of_fmap. by exists u.
    + unfold user_matches.
      rewrite (filter_none (λ u, raw_device e = Some (number u)) us) by done.
      left.
Qed.

Lemma user_matches_unique us e :
  NoDup (number <$> us) → (length (user_matches us e) ≤ 1)%nat.
Proof.
  induction us as [|u us IH]; intros Hnd; [cbn; lia|].
  rewrite fmap_cons in Hnd. apply NoDup_cons in Hnd as [Hu Hnd].
  unfold user_matches in *. rewrite filter_cons. case_decide as Hd; [|by apply IH].
  rewrite (filter_none _ us); [cbn; lia|].
  intros u' Hu' Hd'. destruct Hu. apply list_elem_of_fmap. exists u'.
  split; [congruence|done].
Qed.

Lemma merge_users_events events us :
  NoDup (number <$> us) → (merge_users events us).*1 = events.
Proof.
  intros Hnd. induction events as [|e events IH]; [done|].
  rewrite merge_users_cons, fmap_app, IH.
  pose proof (user_matches_unique us e Hnd) as Hlen.
  destruct (user_matches us e) as [|u [|u' l]]; [done..|cbn in Hlen; lia].
Qed.

Lemma create_features_unfold ev us merged :
  create_features (Some ev) (Some us) = FeaturesOk merged →
  raw_rows ev ≠ [] ∧ COL_TIME ∈ raw_columns ev ∧ COL_DEVICE ∈ raw_columns ev ∧
  merged = (λ p : RawEvent * option User,
              mkMergedRow p.1 (time_features (raw_time p.1)) p.2
                (get_age_group (p.2 ≫= age_back)))
             <$> merge_users (raw_rows ev) us.
Proof.
  unfold create_features. repeat case_bool_decide; try done.
  intros [= <-]. split_and!; [done| | |done].
  - by destruct (decide (COL_TIME ∈ raw_columns ev)).
  - by destruct (decide (COL_DEVICE ∈ raw_columns ev)).
Qed.

(** The left merge of [create_features].  When it returns, the merged
    table holds the events in their order, each one once for every user
    row that carries its device number, and once, without a user, when
    there is none: the table is as long as the event table only when no
    device has two user rows, and events of a device that is listed twice
    are doubled. *)
Theorem create_features_merge (ev : RawTable) (us : list User)
    (merged : list MergedRow) :
  create_features (Some ev) (Some us) = FeaturesOk merged →
  length merged
  = sum_list_with (λ e, 1 `max` length (filter (λ u, raw_device e = Some (number u)) us))%nat
      (raw_rows ev) ∧
  (∀ e o, (∃ m, m ∈ merged ∧ mr_event m = e ∧ mr_user m = o) ↔
          e ∈ raw_rows ev ∧
          match o with
          | Some u => u ∈ us ∧ raw_device e = Some (number u)
          | None => ∀ u, u ∈ us → raw_device e ≠ Some (number u)
          end) ∧
  (NoDup (number <$> us) → mr_event <$> merged = raw_rows ev).
Proof.
  intros (_ & _ & _ & ->)%create_features_unfold. split_and!.
  - rewrite length_fmap. apply merge_users_length.
  - intros e o. rewrite <- elem_of_merge_users. split.
    + intros (m & (p & -> & Hp)%list_elem_of_fmap & <- & <-). cbn. by destruct p.
    + intros Hin. eexists. split; [apply list_elem_of_fmap; by eexists|done].
  - intros Hnd. rewrite <- list_fmap_compose.
    etrans; [|by apply (merge_users_events _ us)]. done.
Qed.

Lemma create_features_merge_witness :
  ∃ merged, create_features (Some clean_table) (Some users_table) = FeaturesOk merged ∧
    length merged = 4%nat ∧
    (∃ m, m ∈ merged ∧ mr_event m = raw_tap 1 (Some "Тап") ∧
          mr_user m = Some (mkUser 1 (Some "М") (Some 40))).
Proof.
  destruct (create_features (Some clean_table) (Some users_table)) as [merged| |] eqn:Hc;
    [|by vm_compute in Hc..].
  exists merged. split; [done|].
  destruct (create_features_merge clean_table users_table merged Hc) as (Hlen & Hrows & _).
  split; [by rewrite Hlen|].
  apply Hrows. split; [left|]. split; [|done]. right. left.
Defined.


Lemma hour_range t : 0 ≤ (t `div` NS_PER_HOUR) `mod` 24 < 24.
Proof. apply Z.mod_pos_bound. lia. Qed.

Lemma get_time_of_day_known h : get_time_of_day (Some h) ≠ "Неизвестно".
Proof. unfold get_time_of_day. repeat case_bool_decide; discriminate. Qed.

Lemma get_time_of_day_night h :
  0 ≤ h < 24 → get_time_of_day (Some h) = "Ночь" ↔ h < 6.
Proof.
  intros Hh. unfold get_time_of_day.
  repeat case_bool_decide; (split; [intros Heq; first [lia|discriminate Heq]|intros; first [done|lia]]).
Qed.

Lemma get_age_group_unknown age : get_age_group age = "Неизвестно" ↔ age = None.
Proof.
  destruct age as [a|]; [|done]. unfold get_age_group.
  repeat case_bool_decide; (split; intros Heq; discriminate Heq).
Qed.

Lemma get_age_group_youngest a : get_age_group (Some a) = "18-24" ↔ a < 25.
Proof.
  unfold get_age_group.
  repeat case_bool_decide; (split; [intros Heq; first [lia|discriminate Heq]|intros; first [done|lia]]).
Qed.

Lemma clean_data_Ok ev us :
  COL_TIME ∈ raw_columns ev → COL_DEVICE ∈ raw_columns ev →
  ∃ ev' us', clean_data (Some ev) (Some us) = Ok (ev', us').
Proof.
  intros Ht Hd. unfold clean_data. cbv zeta.
  rewrite (filter_none (λ c, c ∉ raw_columns ev)); [by eexists _, _|].
  intros c [->|[->|[]%elem_of_nil]%elem_of_cons]%elem_of_cons Hn; done.
Qed.

(** [clean_data] followed by [create_features].  On loaded tables with an
    instant and a device column: when no event has both an instant and a
    device, the cleaned table is empty and [create_features] raises
    [ValueError]; otherwise the merged table is returned, it is not empty,
    every row of it is an event of the loaded table that had both, its
    hour lies in 0..23, its time of day is never 'Неизвестно' and is
    'Ночь' exactly for the hours before 6, and its age group is
    'Неизвестно' exactly when no user row or no age was found, and
    '18-24' for every age below 25. *)
Theorem clean_and_create_outcome (ev : RawTable) (us : list User) :
  COL_TIME ∈ raw_columns ev → COL_DEVICE ∈ raw_columns ev →
  (Forall (λ r, ¬ has_critical r) (raw_rows ev) →
   clean_and_create (Some ev) (Some us)
   = FeaturesRaise (ValueError "DataFrame пустой, невозможно создать признаки")) ∧
  (Exists has_critical (raw_rows ev) →
   ∃ merged, clean_and_create (Some ev) (Some us) = FeaturesOk merged ∧
     merged ≠ [] ∧
     ∀ m, m ∈ merged →
       (∃ r0, r0 ∈ raw_rows ev ∧ has_critical r0 ∧ mr_event m = fill_of ev r0) ∧
       (∃ h, hour (mr_features m) = Some h ∧ 0 ≤ h < 24 ∧
             (time_of_day (mr_features m) = "Ночь" ↔ h < 6)) ∧
       time_of_day (mr_features m) ≠ "Неизвестно" ∧
       (age_group m = "Неизвестно" ↔ mr_user m ≫= age_back = None) ∧
       (∀ a, mr_user m ≫= age_back = Some a → (age_group m = "18-24" ↔ a < 25))).
Proof.
  intros Ht Hd.
  destruct (clean_data_Ok ev us Ht Hd) as (ev' & us' & Hc).
  pose proof (clean_data_mem _ _ _ _ Hc) as Hmem.
  pose proof (clean_data_filled _ _ _ _ Hc) as Hfilled.
  assert (raw_columns ev' = raw_columns ev) as Hcols.
  { by apply clean_data_unfold in Hc as (_ & _ & -> & _). }
  unfold clean_and_create. rewrite Hc. split.
  - intros Hnone. unfold create_features.
    rewrite bool_decide_eq_true_2; [done|].
    destruct (raw_rows ev') as [|r l]; [done|].
    assert (r ∈ r :: l) as (r0 & Hr0 & Hcr & _)%Hmem by left.
    rewrite Forall_forall in Hnone. by destruct (Hnone r0 Hr0).
  - intros (r0 & Hr0 & Hcr)%Exists_exists.
    assert (fill_of ev r0 ∈ raw_rows ev') as Hin by (apply Hmem; by exists r0).
    unfold create_features. rewrite Hcols.
    rewrite bool_decide_eq_false_2 by (intros Hnil; rewrite Hnil in Hin;
                                        by apply elem_of_nil in Hin).
    rewrite bool_decide_eq_false_2 by (by intros Hn).
    rewrite bool_decide_eq_false_2 by (by intros Hn).
    eexists. split; [done|]. split.
    + intros Hnil%fmap_nil_inv.
      pose proof (merge_users_length (raw_rows ev') us') as Hlen.
      rewrite Hnil in Hlen.
      destruct (raw_rows ev') as [|r l]; [by apply elem_of_nil in Hin|].
      cbn in Hlen. lia.
    + intros m (p & -> & Hp)%list_elem_of_fmap. destruct p as [e o].
      apply elem_of_merge_users in Hp as [He _]. cbn [mr_event mr_features mr_user age_group fst snd].
      destruct (Hfilled e He) as ([t Htime] & _ & _).
      split_and!.
      * by apply Hmem.
      * rewrite Htime. eexists. split; [done|]. pose proof (hour_range t) as Hh.
        split; [done|]. cbn. by apply get_time_of_day_night.
      * rewrite Htime. apply get_time_of_day_known.
      * apply get_age_group_unknown.
      * intros a ->. apply get_age_group_youngest.
Qed.

Lemma clean_and_create_outcome_witness :
  clean_and_create (Some no_instant_table) (Some users_table)
  = FeaturesRaise (ValueError "DataFrame пустой, невозможно создать признаки") ∧
  ∃ merged, clean_and_create (Some unclean_table) (Some users_table) = FeaturesOk merged ∧
    merged ≠ [] ∧
    ∀ m, m ∈ merged → time_of_day (mr_features m) ≠ "Неизвестно".
Proof.
  split.
  - apply (clean_and_create_outcome no_instant_table users_table);
      [compute_done|compute_done|].
    repeat constructor. by intros [[? [=]] _].
  - destruct (clean_and_create_outcome unclean_table users_table) as [_ Hsome];
      [compute_done|compute_done|].
    destruct Hsome as (merged & Hm & Hne & Hrows).
    { apply Exists_cons_hd. split; by eexists. }
    exists merged. split; [done|]. split; [done|].
    intros m Hin. by destruct (Hrows m Hin) as (_ & _ & ? & _).
Defined.
